(* ===== verification/_CoqProject ===== *)
-Q . S2P
Prelude.v
Bits.v
Model.v
Cycles.v
Graph6.v
Verification.v
Floats.v
Score.v
ScoreWorker.v
Json.v
Convert.v
Catalog.v
Validation.v
Accepted.v
Aliases.v
Triggers.v
Dpll.v
Sat.v
Rng.v
Order.v
Rewiring.v
Mutation.v
Seed.v
Search.v
SearchProofs.v
Certification.v
FloatBounds.v
Matchings.v
Features.v
Distances.v
Sampling.v
Risks.v
Pool.v
Ranking.v
Switches.v
Choice.v
Payloads.v
PoolProofs.v
PoolChecks.v
RankingProofs.v
SearchKeys.v
KeyProofs.v
SeedMetrics.v
SeedMetricsProofs.v
Lane.v
LaneKernel.v
LaneBatch.v
LaneCheckpoint.v
LaneWorker.v
LaneProofs.v
LaneInvariant.v
LaneSteps.v
LaneResume.v
LaneTheorems.v
LaneProtocol.v
LaneChecks.v
Effects.v
LaneManager.v
ManagerProofs.v
ManagerTheorems.v
LaneSystem.v
SystemChecks.v
