(* ===== verification/Prelude.v ===== *)
(** * A verification library for the Structural Graph Conjecture Lab

    The repository searches for counterexamples to structural graph
    conjectures, above all the Erdos-Gyarfas conjecture: every graph of minimum
    degree at least three has a cycle whose length is a power of two. This
    library models the parts of [src/src/sglab] that decide what a result
    means, and proves them correct. File names below are relative to that
    directory.

    ** The parts and how they interact

    A search worker keeps a graph ([model.py]), mutates it
    ([targets/erdos_gyarfas.py]) and scores it, on request through a C++ process
    ([score_worker.py]). Seeds come from the same target module. A graph without
    forbidden cycles goes to exact verifiers ([targets/erdos_gyarfas.py],
    [verification.py]), and a result to the certification of
    [certification.py]. A small SAT loop ([sat.py]) gives ground truth for tiny
    orders. There are two kinds of search: the run of [search.py], and the lanes
    of a research campaign ([research/lanes.py]), which take commands, write
    checkpoints and may rank their mutations by a policy
    ([research/proposal_ranking.py]). A campaign steers its lanes with decisions
    a language model proposes, asked for when [research/triggers.py] says so;
    the decisions cross the boundary of [research/validation.py], which checks
    them against [research/catalog.py].

    ** The files

    Foundations:
    - [Prelude] (this file): Python's exceptions as the monad [res], loops,
      sequences and dicts, with their lemmas and tactics.
    - [Floats], [FloatBounds]: binary64 arithmetic, on the Standard Library's
      [spec_float]; quotients of integers stay finite.
    - [Order]: Python's order on tuples, [sorted], [min] and [max] with keys.
    - [Json], [Convert]: JSON values with Python's [repr], [str] and
      [json.dumps]; [int], [float] and [bool] on them.
    - [Rng]: the random source as a class of operations with laws.
    - [Effects]: operations on an object that may raise, as a state monad, with
      the rules of invariants that survive exceptions.

    Graphs, verdicts and scores:
    - [Bits]: integers as vertex sets; the walk over the set bits.
    - [Model]: [model.py], [BitGraph] with its constructors and edits.
    - [Cycles]: [model.py], the cycle finder and the bounded enumeration.
    - [Graph6]: [model.py], the graph6 encoder and decoder.
    - [Verification]: [targets/base.py] records, [verify_reference],
      [verify_dynamic] and the control target; the notion of counterexample.
    - [Certification]: [certification.py].
    - [Score]: scores and their order; [search.py]'s scalar and novelty.
    - [ScoreWorker]: [score_worker.py], frames, plan cache, calls.
    - [Dpll], [Sat]: [sat.py]'s solver, encoding and CEGAR loop.
    - [Rewiring], [Mutation], [Seed]: the two-edge switch on degrees, mutation
      and seed generation of [targets/erdos_gyarfas.py].

    The search of a run:
    - [Search], [SearchProofs]: the worker of [search.py] and its theorems.

    Decisions:
    - [Catalog], [Validation], [Accepted], [Aliases]: [research/catalog.py] and
      [research/validation.py]; [Accepted] is the declarative specification of
      an accepted decision and the proof that the validator implements it.
    - [Triggers]: [research/triggers.py].

    Ranked proposals, all of [research/proposal_ranking.py]:
    - [Matchings], [Features]: perfect matchings; sampled cycles, distances,
      local risks. [Distances], [Sampling], [Risks], [Payloads]: what they are.
    - [Pool], [Switches], [Choice], [PoolProofs], [PoolChecks]: the generator
      of switches, its choice of edges, legality and the bridge's own checks.
    - [Ranking], [RankingProofs]: the bridge, the policy worker's batches, the
      ranked step.

    Lanes, all of [research/lanes.py]:
    - [Lane]: [LaneSpec]. [SearchKeys], [KeyProofs]: keys of graphs.
      [SeedMetrics], [SeedMetricsProofs]: the counters of seed generation.
    - [LaneKernel]: the state of [_LaneKernel] and its operations; [LaneBatch]:
      [run_batch]; [LaneCheckpoint]: the constructor and [checkpoint];
      [LaneWorker]: [_apply_commands] and the loop of [_lane_worker].
    - [LaneProofs]: what the operations keep. [LaneInvariant], [LaneSteps]: the
      invariant and that turns, batches, restarts and patches keep it.
      [LaneResume]: checkpoints. [LaneTheorems], [LaneProtocol]: the theorems.
      [LaneChecks]: concrete lanes on which they apply.
    - [LaneManager]: [LaneManager], its runtimes, its store of checkpoints, the
      commands it sends and the events it follows. [ManagerProofs]: its
      invariant; [ManagerTheorems]: the theorems.
    - [LaneSystem]: a lane and its manager, with the two queues between them,
      as a transition system. [SystemChecks]: a run of it.

    ** How the code is modelled

    A function that may raise returns [res]. Where the code changes an object
    before it raises, the state survives the exception: such operations run in
    state monads of their own, with the same shape. [Mutation.M] holds the
    random source, the clock, the counters and the cache; [Validation.V] collects
    issues; [Triggers] has the engine; [Ranking] a bridge ([B]); [LaneKernel] a
    kernel ([K]); [LaneWorker] the kernel with its channel and version ([W]);
    [LaneManager] the manager ([Effects.ST], as [G]).
    Python integers are [Z]; adjacency rows are integers used as bit sets, so
    shifts and masks are the code's. Dicts are association lists in insertion
    order, because the code iterates over them; sets whose order does not matter
    are [gset]s or lists, and the order in which Python iterates over a set is a
    parameter where it shows. Caches that several objects share are part of the
    state every operation hands on. Frames of the score worker are lists of
    bytes with fields of fixed width, and packing a value that does not fit
    raises.

    The services a search needs are classes: [Rng] with its laws [RngLaws],
    [RngState] for a generator that can be saved, and scorers that may fail or
    stop early ([Search.ScoreService], [LaneKernel.LaneScorer]); their clients are
    proved against the laws, and [Lcg] and a reference scorer are instances.

    ** Fuel

    Recursion that is not structural takes fuel, and a theorem says it is
    enough: the bit walks take the bit length, the cycle searches the path
    length, [Model.bfs] the number of vertices, [Sat.cegar_fuel] the number of
    learned clauses possible; the tiny CEGAR loop is proved to return. In
    [Features], [distance] explores for one round more than there are vertices,
    the sampling walk for the length of the cycle, the choice of distant edges
    for the number of edges wanted; [Matchings] halves its list. A hexadecimal
    number takes one digit for every four bits. The loops of a worker and of a
    batch run over the list of clock readings, queue states and stop flags that
    their environment gives them, one per turn.

    ** What the theorems show

    - Verdicts: the two exact verifiers compute the graph-theoretic truth and
      agree; the control target decides its own statement; the status of a
      certified artifact is right whatever the processes do.
    - Graphs: enumeration lists each cycle once and its completeness flag is
      exact; mutations and seeds stay in their family; profiling and caching
      change no result; scores are the specified function of the counts.
    - Codecs: graph6 round trips and the decoder is safe on any bytes; a score
      request says exactly what was asked and a response is accepted exactly
      when it is the encoding of an allowed answer.
    - SAT: DPLL is sound, complete and terminates; the base formula is exact;
      learned clauses exclude no counterexample; the loop decides the order.
    - The run: every state a worker reaches is well formed, its best score is
      minimal among what it examined, it stops within its limits and a
      checkpoint gives the state back.
    - Decisions: everything the validator accepts is inside the reviewed action
      space; aliases resolve to durable ids of the right role; a critical
      trigger is never lost.
    - Ranking: every proposal is a legal switch with exact features, all are
      ranked, a batch of priorities is complete or the worker is ended, and a
      series of ranked steps refines the graph that moves by switches.
    - Lanes: the invariant of the kernel through batches, restarts, patches and
      checkpoints; a batch counts what it does; an early rejection is one the
      acceptance test would have made; the incremental key of a graph is its
      key; checkpoints resume the lane; every command is answered once, in
      order.
    - The manager and its lanes: it keeps exactly the checkpoints that are
      pinned or among the newest of a lane, and as many as its bounds allow; a
      pinned checkpoint stays; no action is lost between a lane and the manager,
      and when both queues are empty they agree.
    - Three theorems show what fails: an automatic restart drops the best graph
      of the lane; a restart that fails in scoring leaves the lane with a graph
      and the score of another; a checkpoint registered for a lane is dropped
      while it is still the lane's latest.

    ** Not modelled

    Processes, files, clocks, the database and the network are parameters or
    left out: [db.py], [research/store.py], [research/campaign.py],
    [research/actions.py], [research/context.py], [comparisons.py],
    [comparison_worker.py], [web.py] and [cli.py] among them. Of [search.py] the
    parent process is left out; of [research/lanes.py]
    [run_bounded_lane_batch], the processes and queues themselves (whether a
    process starts and whether a queue has room are arguments), the preview
    thread, the control target, and the limits on memory; of
    [research/proposal_ranking.py] the start of the policy process, the checks
    of the policy's source, the replay. Profiles and measured times are left out
    everywhere, or are arguments where a payload carries them. SHA-256 is a
    parameter. Strings are sequences of characters up to U+00FF. *)

From stdpp Require Export base numbers list strings pretty option sets relations.
From Stdlib Require Export ZArith Lia.

#[global] Open Scope Z_scope.

(** ** Python's exceptions, and the result of code that may raise *)

(** The exception classes the modelled code raises, with the message where the
    code gives one. *)
Inductive exn :=
  | ValueError (msg : string)
  | IndexError
  | KeyError
  | AttributeError
  | TypeError
  | OverflowError
  | OSError
  | QueueFull
  | ZeroDivisionError
  | RuntimeError (msg : string)
  | BridgeError (msg : string)
  | ContractViolation (msg : string)
  | StructError
  | ScoreWorkerError (msg : string)
  | AssertionError.

#[export] Instance exn_eq_dec : EqDecision exn.
Proof. solve_decision. Defined.

Inductive res (A : Type) :=
  | Ok (a : A)
  | Raise (e : exn).
Arguments Ok {A} a.
Arguments Raise {A} e.

#[export] Instance res_ret : MRet res := fun A a => Ok a.
#[export] Instance res_bind : MBind res := fun A B f m =>
  match m with Ok a => f a | Raise e => Raise e end.
#[export] Instance res_fmap : FMap res := fun A B f m =>
  match m with Ok a => Ok (f a) | Raise e => Raise e end.

#[export] Instance res_eq_dec {A} `{EqDecision A} : EqDecision (res A).
Proof. solve_decision. Defined.

Declare Scope heg_scope.
Delimit Scope heg_scope with heg.

(** [raise_if c e ;;; k] is Python's [if c: raise e] followed by [k]. *)
Definition raise_if (c : bool) (e : exn) : res unit :=
  if c then Raise e else Ok tt.

Notation "m ;;; k" := (mbind (fun _ : unit => k) m)
  (at level 100, right associativity) : heg_scope.
#[global] Open Scope heg_scope.

(** ** Loops *)

Section Loops.
Context {A B S : Type}.

(** [for x in l: body], where the body may raise *)
Fixpoint for_each (body : A -> res unit) (l : list A) : res unit :=
  match l with
  | [] => Ok tt
  | x :: l' => body x ;;; for_each body l'
  end.

(** A [for] loop that updates a local state and may raise *)
Fixpoint foldM (body : S -> A -> res S) (s : S) (l : list A) : res S :=
  match l with
  | [] => Ok s
  | x :: l' => s' ← body s x; foldM body s' l'
  end.

(** The first result that is not [None], in the order of the list *)
Fixpoint first_some (f : A -> option B) (l : list A) : option B :=
  match l with
  | [] => None
  | x :: l' => match f x with Some b => Some b | None => first_some f l' end
  end.
End Loops.

(** ** Python sequences *)

(** [l[i]]: a negative index counts from the end, and an index out of range
    raises. *)
Definition py_index {A} (l : list A) (i : Z) : res A :=
  let j := if i <? 0 then i + Z.of_nat (length l) else i in
  if j <? 0 then Raise IndexError
  else match l !! Z.to_nat j with Some x => Ok x | None => Raise IndexError end.

(** [l[i] = x] *)
Definition py_store {A} (l : list A) (i : Z) (x : A) : res (list A) :=
  let j := if i <? 0 then i + Z.of_nat (length l) else i in
  if (j <? 0) || (Z.of_nat (length l) <=? j) then Raise IndexError
  else Ok (<[Z.to_nat j := x]> l).

(** [tuple.index], which raises when the value is not there *)
Definition tuple_index (l : list Z) (x : Z) : res Z :=
  match list_find (fun y => y = x) l with
  | Some (i, _) => Ok (Z.of_nat i)
  | None => Raise (ValueError "tuple.index(x): x not in tuple")
  end.

(** [l[i] += d] *)
Definition incr (l : list Z) (i d : Z) : res (list Z) := x ← py_index l i; py_store l i (x + d).

(** [1 << k] *)
Definition py_shift1 (k : Z) : res Z :=
  if k <? 0 then Raise (ValueError "negative shift count") else Ok (Z.shiftl 1 k).

(** [range(a, b)] *)
Definition range (a b : Z) : list Z := seqZ a (b - a).

Fixpoint enumerate_from {A} (i : Z) (l : list A) : list (Z * A) :=
  match l with
  | [] => []
  | x :: l' => (i, x) :: enumerate_from (i + 1) l'
  end.
Definition enumerate {A} (l : list A) : list (Z * A) := enumerate_from 0 l.

(** ** Python dicts

    A dict keeps the order in which its keys were first inserted, and the code
    iterates over its dicts, so a dict is an association list with one entry per
    key. *)

Section Dict.
Context {K V : Type} `{EqDecision K}.

Fixpoint dict_get (d : list (K * V)) (k : K) : option V :=
  match d with
  | [] => None
  | (k', v) :: d' => if decide (k = k') then Some v else dict_get d' k
  end.

(** [d[k] = v] *)
Fixpoint dict_set (d : list (K * V)) (k : K) (v : V) : list (K * V) :=
  match d with
  | [] => [(k, v)]
  | (k', v') :: d' => if decide (k = k') then (k', v) :: d' else (k', v') :: dict_set d' k v
  end.

(** [d.setdefault(k, v)] *)
Definition dict_setdefault (d : list (K * V)) (k : K) (v : V) : list (K * V) :=
  match dict_get d k with Some _ => d | None => d ++ [(k, v)] end.

Definition has_key (d : list (K * V)) (k : K) : Prop := exists v, (k, v) ∈ d.
End Dict.

(** ** Chains: lists whose neighbours are related *)

Fixpoint chain {A} (R : A -> A -> Prop) (l : list A) : Prop :=
  match l with
  | x :: (y :: _) as l' => R x y /\ chain R l'
  | _ => True
  end.

(** ** Tactics *)

(** Invert a bind that returned: [H : x ← m; k = Ok y]. *)
Ltac res_step H :=
  match type of H with
  | mbind _ ?m = Ok _ =>
      let E := fresh "E" in
      destruct m eqn:E; cbn [mbind res_bind] in H; [|discriminate H]
  | raise_if ?c _ = Ok _ => destruct c eqn:?; cbn in H; [discriminate H|]
  end.

(** Case analysis on the integer comparisons of a boolean goal, then [lia] *)
Ltac zbool :=
  repeat match goal with
  | |- context [?a =? ?b] => destruct (Z.eqb_spec a b)
  | |- context [?a <? ?b] => destruct (Z.ltb_spec a b)
  | |- context [?a <=? ?b] => destruct (Z.leb_spec a b)
  end; cbn [andb orb negb]; first [done | lia].

Ltac split_all := repeat match goal with |- _ /\ _ => split end.

Create HintDb heg.

(** ** Lemmas on results and loops *)

Lemma raise_if_Ok c e u : raise_if c e = Ok u <-> c = false.
Proof. destruct c, u; cbn; split; congruence. Qed.

Lemma bind_Ok {A B} (m : res A) (k : A -> res B) b :
  m ≫= k = Ok b <-> exists a, m = Ok a /\ k a = Ok b.
Proof.
  destruct m as [a|e]; cbn; split; [by exists a|intros (? & [= ->] & ?); done|done|].
  by intros (? & ? & ?).
Qed.

Lemma raise_seq_Ok {B} c e (k : res B) b :
  (raise_if c e ;;; k) = Ok b <-> c = false /\ k = Ok b.
Proof. destruct c; cbn; intuition congruence. Qed.

Lemma seq_Ok {B} (m : res unit) (k : res B) b :
  (m ;;; k) = Ok b <-> m = Ok tt /\ k = Ok b.
Proof. destruct m as [[]|]; cbn; intuition congruence. Qed.

Lemma for_each_Ok {A} (body : A -> res unit) l u :
  for_each body l = Ok u <-> forall x, x ∈ l -> body x = Ok tt.
Proof.
  destruct u. induction l as [|x l IH]; cbn; [set_solver|].
  rewrite bind_Ok. split.
  - intros ([] & Hx & Hl) y Hy. apply elem_of_cons in Hy as [->|Hy]; [done|].
    by apply IH.
  - intros H. exists tt. split; [apply H; set_solver|]. apply IH. set_solver.
Qed.

Lemma for_each_Raise {A} (body : A -> res unit) l e :
  for_each body l = Raise e -> exists x, x ∈ l /\ body x = Raise e.
Proof.
  induction l as [|x l IH]; cbn; [done|]. destruct (body x) eqn:Hx; cbn.
  - intros (y & ? & ?)%IH. exists y. set_solver.
  - intros [= ->]. exists x. set_solver.
Qed.

Lemma foldM_app {A S} (body : S -> A -> res S) l1 l2 s :
  foldM body s (l1 ++ l2) = (s' ← foldM body s l1; foldM body s' l2).
Proof.
  revert s. induction l1 as [|x l1 IH]; intros s; [done|].
  cbn. destruct (body s x); cbn; [apply IH|done].
Qed.

(** The invariant rule for a loop that returned, over the prefix already run *)
Lemma foldM_Ok_ind {A S} (I : list A -> S -> Prop) (body : S -> A -> res S) l s s' :
  (forall pre x post s1 s2, l = pre ++ x :: post -> I pre s1 ->
     body s1 x = Ok s2 -> I (pre ++ [x]) s2) ->
  I [] s -> foldM body s l = Ok s' -> I l s'.
Proof.
  revert s'. induction l as [|x l IH] using rev_ind; cbn; intros s' Hstep H0 Hf.
  { congruence. }
  rewrite foldM_app in Hf. apply bind_Ok in Hf as (s1 & H1 & H2). cbn in H2.
  apply bind_Ok in H2 as (s2 & H2 & [= <-]).
  apply (Hstep l x [] s1 s2); [done| |done]. apply IH; [|done..].
  intros pre y post t1 t2 -> Hi Hb. apply (Hstep pre y (post ++ [x]) t1 t2); [|done..].
  by rewrite <- app_assoc.
Qed.

(** The same rule for total correctness: every step returns *)
Lemma foldM_total {A S} (I : list A -> S -> Prop) (body : S -> A -> res S) l s :
  (forall pre x post s1, l = pre ++ x :: post -> I pre s1 ->
     exists s2, body s1 x = Ok s2 /\ I (pre ++ [x]) s2) ->
  I [] s -> exists s', foldM body s l = Ok s' /\ I l s'.
Proof.
  induction l as [|x l IH] using rev_ind; cbn; intros Hstep H0; [by eauto|].
  destruct IH as (s1 & H1 & Hi1); [|done|].
  { intros pre y post t1 -> Hi. apply (Hstep pre y (post ++ [x]) t1); [|done].
    by rewrite <- app_assoc. }
  destruct (Hstep l x [] s1 eq_refl Hi1) as (s2 & H2 & Hi2).
  exists s2. split; [|done]. rewrite foldM_app, H1. cbn. by rewrite H2.
Qed.

Lemma first_some_Some {A B} (f : A -> option B) l b :
  first_some f l = Some b -> exists x, x ∈ l /\ f x = Some b.
Proof.
  induction l as [|x l IH]; cbn; [done|].
  destruct (f x) eqn:Hx; [|intros H; destruct (IH H) as (y & ? & ?)];
    set_solver.
Qed.

Lemma first_some_None {A B} (f : A -> option B) l :
  first_some f l = None <-> forall x, x ∈ l -> f x = None.
Proof.
  induction l as [|x l IH]; cbn; [set_solver|].
  destruct (f x) eqn:Hx; [|rewrite IH]; set_solver.
Qed.

Lemma first_some_ext {A B} (f g : A -> option B) l :
  (forall x, x ∈ l -> f x = g x) -> first_some f l = first_some g l.
Proof.
  induction l as [|x l IH]; cbn; intros H; [done|].
  rewrite <- (H x), IH; [done|..]; set_solver.
Qed.

(** ** Lemmas on sequences *)

Lemma py_index_in_range {A} (l : list A) i :
  0 <= i < Z.of_nat (length l) ->
  exists x, l !! Z.to_nat i = Some x /\ py_index l i = Ok x.
Proof.
  intros Hi. destruct (lookup_lt_is_Some_2 l (Z.to_nat i)) as [x Hx]; [lia|].
  exists x. split; [done|]. unfold py_index.
  replace (i <? 0) with false by lia. replace (i <? 0) with false by lia.
  by rewrite Hx.
Qed.

Lemma py_index_last {A} (l : list A) : l <> [] -> exists x, py_index l (-1) = Ok x.
Proof.
  intros Hl. destruct l as [|y l']; [done|]. unfold py_index. cbn [Z.ltb Z.compare].
  destruct (lookup_lt_is_Some_2 (y :: l') (Z.to_nat (-1 + Z.of_nat (length (y :: l'))))) as [x ->];
    [cbn [length]; lia|].
  exists x. destruct (Z.ltb_spec (-1 + Z.of_nat (length (y :: l'))) 0) as [Hlt|]; [cbn [length] in Hlt; lia|done].
Qed.

Lemma py_store_in_range {A} (l : list A) i x :
  0 <= i < Z.of_nat (length l) -> py_store l i x = Ok (<[Z.to_nat i := x]> l).
Proof.
  intros Hi. unfold py_store.
  replace (i <? 0) with false by lia.
  replace ((i <? 0) || (Z.of_nat (length l) <=? i)) with false; [done|].
  symmetry. apply orb_false_iff. lia.
Qed.

Lemma incr_length l i d : 0 <= i < Z.of_nat (length l) -> exists l', incr l i d = Ok l' /\ length l' = length l.
Proof.
  intros Hi. unfold incr. destruct (py_index_in_range l i Hi) as (x & _ & ->). cbn.
  rewrite py_store_in_range by done. eexists. split; [done|]. apply length_insert.
Qed.

Lemma elem_of_range a b x : x ∈ range a b <-> a <= x < b.
Proof. unfold range. rewrite elem_of_seqZ. lia. Qed.

Lemma range_cons a b : a < b -> range a b = a :: range (a + 1) b.
Proof.
  intros. unfold range. rewrite seqZ_cons by lia. f_equal. f_equal; lia.
Qed.

Lemma range_nil a b : b <= a -> range a b = [].
Proof. intros. unfold range. apply seqZ_nil. lia. Qed.

Lemma range_snoc a b : a <= b -> range a (b + 1) = range a b ++ [b].
Proof.
  intros. unfold range. replace (b + 1 - a) with ((b - a) + 1) by lia.
  rewrite seqZ_app by lia. f_equal. rewrite seqZ_cons, seqZ_nil by lia.
  f_equal. lia.
Qed.

Lemma range_app a b c : a <= b -> b <= c -> range a c = range a b ++ range b c.
Proof.
  intros. unfold range. replace (c - a) with ((b - a) + (c - b)) by lia.
  rewrite seqZ_app by lia. repeat (f_equal; try lia).
Qed.

Lemma NoDup_range a b : NoDup (range a b).
Proof. apply NoDup_seqZ. Qed.

Lemma length_range a b : length (range a b) = Z.to_nat (b - a).
Proof. apply length_seqZ. Qed.

Lemma elem_of_enumerate_from {A} (l : list A) i j x :
  (j, x) ∈ enumerate_from i l <-> i <= j /\ l !! Z.to_nat (j - i) = Some x.
Proof.
  revert i. induction l as [|y l IH]; intros i; cbn.
  { rewrite lookup_nil. set_solver. }
  rewrite elem_of_cons, IH. destruct (decide (i = j)) as [->|Hne].
  - rewrite Z.sub_diag. cbn. split.
    + intros [[= ->]|[? ?]]; [done|lia].
    + intros [_ [= ->]]. by left.
  - destruct (Z.le_gt_cases i j) as [Hij|Hij].
    + replace (Z.to_nat (j - i)) with (S (Z.to_nat (j - (i + 1)))) by lia. cbn.
      split; [intros [[= ]|[? ?]]; [lia|done]|].
      intros [_ ?]. right. split; [lia|done].
    + split; [intros [[= ]|[? ?]]; lia|lia].
Qed.

Lemma elem_of_enumerate {A} (l : list A) j x :
  (j, x) ∈ enumerate l <-> 0 <= j /\ l !! Z.to_nat j = Some x.
Proof. unfold enumerate. rewrite elem_of_enumerate_from. by rewrite Z.sub_0_r. Qed.

(** [l.pop()] takes the last element. *)
Lemma removelast_last {A} (l : list A) x : list.last l = Some x -> l = removelast l ++ [x].
Proof.
  intros H. destruct l as [|y l _] using rev_ind; [done|].
  rewrite last_snoc in H. injection H as ->. by rewrite removelast_last.
Qed.

(** ** [mapM] over code that may raise *)

Lemma mapM_res_cons {A B} (f : A -> res B) x l : mapM f (x :: l) = (y ← f x; ys ← mapM f l; Ok (y :: ys)).
Proof. done. Qed.

Lemma mapM_res_total {A B} (f : A -> res B) (P : A -> B -> Prop) l :
  (forall x, x ∈ l -> exists y, f x = Ok y /\ P x y) -> exists ys, mapM f l = Ok ys /\ Forall2 P l ys.
Proof.
  induction l as [|x l IH]; intros Hf; [by exists []; split; [|constructor]|].
  destruct (Hf x ltac:(by left)) as (y & Hy & HP). destruct IH as (ys & Hys & HF); [intros z Hz; apply Hf; by right|].
  exists (y :: ys). split; [|by constructor]. rewrite mapM_res_cons, Hy. cbn [mbind res_bind]. by rewrite Hys.
Qed.

Lemma mapM_fmap {A B} (f : A -> res B) (h : A -> B) l : (forall x, x ∈ l -> f x = Ok (h x)) -> mapM f l = Ok (h <$> l).
Proof.
  induction l as [|x l IH]; intros Hf; [done|]. rewrite mapM_res_cons, Hf by by left. cbn [mbind res_bind].
  rewrite IH by (intros y Hy; apply Hf; by right). done.
Qed.

Lemma mapM_res_app {A B} (f : A -> res B) l k : mapM f (l ++ k) = (ys ← mapM f l; zs ← mapM f k; Ok (ys ++ zs)).
Proof.
  induction l as [|x l IH]; cbn [app].
  - change (mapM f []) with (Ok (@nil B)). cbn [mbind res_bind]. by destruct (mapM f k).
  - rewrite !mapM_res_cons, IH. destruct (f x); [|done]. cbn [mbind res_bind]. destruct (mapM f l); [|done]. cbn [mbind res_bind].
    by destruct (mapM f k).
Qed.

(** ** Lemmas on [len(set(l))] *)

Section Duplicates.
Context {A : Type} `{EqDecision A}.
Implicit Types (l : list A).

Lemma remove_dups_le l : (length (remove_dups l) <= length l)%nat.
Proof. induction l as [|y l IH]; cbn; [lia|]. case_decide; cbn; lia. Qed.

Lemma remove_dups_full l : length (remove_dups l) = length l -> remove_dups l = l.
Proof.
  induction l as [|x l IH]; cbn; [done|]. pose proof (remove_dups_le l). case_decide; cbn; [lia|].
  intros H'. rewrite IH; [done|lia].
Qed.

(** [len(set(l)) == len(l)] says that the items differ. *)
Lemma full_NoDup l : length (remove_dups l) = length l -> NoDup l.
Proof. intros H. rewrite <- (remove_dups_full l H). apply NoDup_remove_dups. Qed.

Lemma remove_dups_id l : NoDup l -> remove_dups l = l.
Proof. induction 1 as [|x l Hx _ IH]; cbn; [done|]. case_decide; [done|]. by rewrite IH. Qed.
End Duplicates.

(** ** Lemmas on dicts *)

Section DictLemmas.
Context {K V : Type} `{EqDecision K}.
Implicit Types (d : list (K * V)).

Lemma dict_get_elem_of d k v : dict_get d k = Some v -> (k, v) ∈ d.
Proof.
  induction d as [|[k' v'] d IH]; cbn; [done|]. case_decide as Hk; [|set_solver].
  intros [= ->]. subst. set_solver.
Qed.

Lemma dict_get_None d k : dict_get d k = None <-> forall v, (k, v) ∉ d.
Proof.
  induction d as [|[k' v'] d IH]; cbn; [set_solver|]. case_decide as Hk.
  - subst. split; [done|]. intros Hn. destruct (Hn v'). set_solver.
  - rewrite IH. set_solver.
Qed.

(** Exactly one binding is new, or the key was there already. *)
Lemma elem_of_setdefault d k v x :
  x ∈ dict_setdefault d k v -> x ∈ d \/ x = (k, v).
Proof. unfold dict_setdefault. destruct (dict_get d k); set_solver. Qed.

Lemma setdefault_mono d k v x : x ∈ d -> x ∈ dict_setdefault d k v.
Proof. unfold dict_setdefault. destruct (dict_get d k); set_solver. Qed.

Lemma setdefault_key_mono d k v k' : has_key d k' -> has_key (dict_setdefault d k v) k'.
Proof. intros [v' ?]. exists v'. by apply setdefault_mono. Qed.

Lemma setdefault_key d k v : has_key (dict_setdefault d k v) k.
Proof.
  unfold dict_setdefault. destruct (dict_get d k) as [v'|] eqn:E.
  - exists v'. by apply dict_get_elem_of.
  - exists v. set_solver.
Qed.

Lemma dict_get_NoDup d k v : NoDup d.*1 -> (k, v) ∈ d -> dict_get d k = Some v.
Proof.
  induction d as [|[k' v'] d IH]; cbn; [by intros _ ?%elem_of_nil|]. intros [Hk Hn]%NoDup_cons [[= -> ->]|Hin]%elem_of_cons.
  - by rewrite decide_True.
  - rewrite decide_False; [by apply IH|]. intros ->. by apply Hk, (list_elem_of_fmap_2 fst _ (k', v)).
Qed.

Lemma dict_get_set d k k' v :
  dict_get (dict_set d k v) k' = if decide (k' = k) then Some v else dict_get d k'.
Proof.
  induction d as [|[k2 v2] d IH]; cbn; [done|].
  destruct (decide (k = k2)) as [->|Hk]; cbn; [by repeat case_decide|].
  rewrite IH. repeat case_decide; congruence.
Qed.

(** [d.update(changes)] *)
Lemma dict_get_update changes d k : NoDup changes.*1 ->
  dict_get (foldl (fun d kv => dict_set d kv.1 kv.2) d changes) k = match dict_get changes k with Some v => Some v | None => dict_get d k end.
Proof.
  revert d. induction changes as [|[k' v] changes IH]; intros d; [done|]. cbn. rewrite NoDup_cons. intros [Hk Hn].
  rewrite IH, dict_get_set by done. destruct (decide (k = k')) as [->|]; [|done].
  replace (dict_get changes k') with (@None V); [done|]. symmetry. apply dict_get_None. intros w Hw. apply Hk.
  apply list_elem_of_fmap. by exists (k', w).
Qed.

Lemma dict_set_key d k v : has_key (dict_set d k v) k.
Proof. exists v. apply dict_get_elem_of. rewrite dict_get_set. by case_decide. Qed.

Lemma dict_set_key_mono d k v k' : has_key d k' -> has_key (dict_set d k v) k'.
Proof.
  intros [v' Hin]. destruct (decide (k' = k)) as [->|Hne]; [apply dict_set_key|].
  exists v'. revert Hin. induction d as [|[k2 v2] d IH]; cbn; [set_solver|].
  case_decide; [|set_solver]. subst. rewrite !elem_of_cons. intros [[= -> ->]|?]; [done|by right].
Qed.

Lemma elem_of_dict_set d k v x : x ∈ dict_set d k v -> x ∈ d \/ x = (k, v).
Proof.
  induction d as [|[k2 v2] d IH]; cbn; [set_solver|].
  case_decide; subst; set_solver.
Qed.
End DictLemmas.

(** ** Lemmas on filters *)

Lemma filter_none {A} (P : A -> Prop) `{forall x, Decision (P x)} (l : list A) :
  (forall x, x ∈ l -> ~ P x) -> filter P l = [].
Proof.
  induction l as [|x l IH]; intros Hn; [done|].
  rewrite filter_cons_False by (apply Hn; set_solver). apply IH. set_solver.
Qed.

Lemma filter_all {A} (P : A -> Prop) `{forall x, Decision (P x)} (l : list A) :
  (forall x, x ∈ l -> P x) -> filter P l = l.
Proof.
  induction l as [|x l IH]; intros Hn; [done|].
  rewrite filter_cons_True by (apply Hn; set_solver). f_equal. apply IH. set_solver.
Qed.

Lemma filter_ext_in {A} (P Q : A -> Prop) `{forall x, Decision (P x)} `{forall x, Decision (Q x)} (l : list A) :
  (forall x, x ∈ l -> P x <-> Q x) -> filter P l = filter Q l.
Proof.
  induction l as [|x l IH]; intros He; [done|].
  rewrite !filter_cons, IH by set_solver.
  assert (P x <-> Q x) by (apply He; set_solver).
  repeat case_decide; tauto.
Qed.

Lemma filter_fmap {A B} (P : B -> Prop) `{forall x, Decision (P x)} (f : A -> B) (l : list A) :
  filter P (f <$> l) = f <$> filter (fun x => P (f x)) l.
Proof.
  induction l as [|x l IH]; [done|]. rewrite fmap_cons, !filter_cons, IH.
  by case_decide.
Qed.

(** ** Lemmas on chains *)

Lemma chain_cons {A} (R : A -> A -> Prop) x y l :
  chain R (x :: y :: l) <-> R x y /\ chain R (y :: l).
Proof. done. Qed.

Lemma chain_cut {A} (R : A -> A -> Prop) l1 x l2 :
  chain R (l1 ++ x :: l2) <-> chain R (l1 ++ [x]) /\ chain R (x :: l2).
Proof.
  induction l1 as [|a l1 IH]; cbn [app]; [cbn; tauto|].
  destruct l1 as [|b l1]; cbn [app] in *.
  - rewrite !chain_cons. cbn. tauto.
  - rewrite !chain_cons, IH. tauto.
Qed.

Lemma chain_snoc {A} (R : A -> A -> Prop) l x y :
  chain R (l ++ [x; y]) <-> chain R (l ++ [x]) /\ R x y.
Proof. rewrite (chain_cut R l x [y]). cbn. tauto. Qed.

Lemma chain_mono {A} (R S : A -> A -> Prop) l :
  (forall x y, x ∈ l -> y ∈ l -> R x y -> S x y) -> chain R l -> chain S l.
Proof.
  induction l as [|x [|y l] IH]; [done..|]. rewrite !chain_cons.
  intros H [? ?]. split; [apply H; set_solver|]. apply IH; [|done].
  intros; apply H; set_solver.
Qed.

Lemma chain_reverse {A} (R : A -> A -> Prop) l :
  (forall x y, R x y -> R y x) -> chain R l -> chain R (reverse l).
Proof.
  intros Hs. induction l as [|x [|y l] IH]; [done..|]. rewrite chain_cons.
  intros [Hxy Hc]. rewrite 2!reverse_cons, <- app_assoc. cbn.
  apply chain_snoc. split; [|by apply Hs].
  rewrite <- reverse_cons. by apply IH.
Qed.

(** Breaking a list off where a chain of a relation must leave a set *)
Lemma chain_leaves {A} (R : A -> A -> Prop) (P : A -> Prop) `{forall x, Decision (P x)} l x y :
  chain R (x :: l) -> P x -> y ∈ x :: l -> ~ P y ->
  exists a b, R a b /\ P a /\ ~ P b.
Proof.
  revert x. induction l as [|z l IH]; intros x Hc Hx Hy Hny.
  - apply list_elem_of_singleton in Hy. subst. done.
  - apply elem_of_cons in Hy as [->|Hy]; [done|].
    rewrite chain_cons in Hc. destruct Hc as [Hxz Hc].
    destruct (decide (P z)); [by apply (IH z)|]. eauto.
Qed.

#[export] Hint Resolve NoDup_range : heg.
