(* ===== verification/Bits.v ===== *)
(** * Integers used as vertex sets

    The repository keeps adjacency rows and visited sets as Python integers
    and walks them with [lsb = bits & -bits; lsb.bit_length() - 1;
    bits ^= lsb]. This file models those operations and proves that the walk
    yields exactly the set bits, once each and in increasing order. *)

From S2P Require Import Prelude.

(** ** Python's integer operations *)

(** [int.bit_length()] *)
Definition bit_length (b : Z) : Z :=
  if b =? 0 then 0 else Z.log2 (Z.abs b) + 1.

(** [b & -b] *)
Definition lsb (b : Z) : Z := Z.land b (- b).

(** [while bits: lsb = bits & -bits; yield lsb.bit_length() - 1; bits ^= lsb] *)
Fixpoint iter_bits (fuel : nat) (bits : Z) : list Z :=
  match fuel with
  | O => []
  | S f =>
      if bits =? 0 then []
      else (bit_length (lsb bits) - 1) :: iter_bits f (Z.lxor bits (lsb bits))
  end.

(** The fuel is the bit length: each turn clears one set bit. *)
Definition bits_of (bits : Z) : list Z := iter_bits (Z.to_nat (bit_length bits)) bits.

(** [int.bit_count()]: the number of ones of [abs(b)] *)
Fixpoint pos_ones (p : positive) : Z :=
  match p with
  | xH => 1
  | xO q => pos_ones q
  | xI q => 1 + pos_ones q
  end.
Definition bit_count (b : Z) : Z :=
  match b with Z0 => 0 | Zpos p | Zneg p => pos_ones p end.

(** [1 << k] for [k >= 0] *)
Definition bit (k : Z) : Z := Z.shiftl 1 k.

(** [(1 << n) - 1] *)
Definition ones (n : Z) : Z := Z.shiftl 1 n - 1.

(** ** Single bits and masks *)

Lemma bit_pow2 k : 0 <= k -> bit k = 2 ^ k.
Proof. intros. unfold bit. by rewrite Z.shiftl_mul_pow2, Z.mul_1_l. Qed.

Lemma bit_pos k : 0 <= k -> 0 < bit k.
Proof. intros. rewrite bit_pow2 by done. by apply Z.pow_pos_nonneg. Qed.

Lemma testbit_bit k i : 0 <= k -> Z.testbit (bit k) i = (i =? k).
Proof.
  intros. rewrite bit_pow2 by done.
  destruct (Z.eqb_spec i k) as [->|?]; [by apply Z.pow2_bits_true|].
  by apply Z.pow2_bits_false.
Qed.

Lemma ones_eq n : ones n = Z.ones n.
Proof. reflexivity. Qed.

Lemma testbit_ones n i : 0 <= n -> Z.testbit (ones n) i = (0 <=? i) && (i <? n).
Proof. intros. rewrite ones_eq. by apply Z.testbit_ones. Qed.

Lemma testbit_lor_bit b k i : 0 <= k -> Z.testbit (Z.lor b (bit k)) i = Z.testbit b i || (i =? k).
Proof. intros. by rewrite Z.lor_spec, testbit_bit. Qed.

Lemma land_bit_testbit b k : 0 <= k -> Z.land b (bit k) = if Z.testbit b k then bit k else 0.
Proof.
  intros Hk. apply Z.bits_inj'. intros i Hi. rewrite Z.land_spec, testbit_bit by done.
  destruct (Z.eqb_spec i k) as [->|Hne].
  - rewrite andb_true_r. destruct (Z.testbit b k) eqn:E; [|by rewrite Z.testbit_0_l].
    by rewrite testbit_bit, Z.eqb_refl.
  - rewrite andb_false_r. destruct (Z.testbit b k); [|by rewrite Z.testbit_0_l].
    rewrite testbit_bit by done. lia.
Qed.

(** [bool(b & (1 << k))] reads bit [k]. *)
Lemma land_bit_nonzero b k : 0 <= k -> negb (Z.land b (bit k) =? 0) = Z.testbit b k.
Proof.
  intros Hk. rewrite land_bit_testbit by done. pose proof (bit_pos k Hk).
  destruct (Z.testbit b k); [|done]. apply negb_true_iff, Z.eqb_neq. lia.
Qed.

Lemma land_ones_zero_iff b n :
  0 <= n -> 0 <= b -> Z.land b (Z.lnot (ones n)) = 0 <-> (forall i, Z.testbit b i = true -> i < n).
Proof.
  intros Hn Hb. split.
  - intros H i Hi. assert (Z.testbit (Z.land b (Z.lnot (ones n))) i = false) as Hf
      by by rewrite H, Z.testbit_0_l.
    destruct (Z.lt_ge_cases i 0); [by rewrite Z.testbit_neg_r in Hi|].
    rewrite Z.land_spec, Hi, Z.lnot_spec, testbit_ones in Hf by done.
    cbn in Hf. apply negb_false_iff, andb_true_iff in Hf. lia.
  - intros H. apply Z.bits_inj'. intros i Hi.
    rewrite Z.land_spec, Z.lnot_spec, testbit_ones, Z.testbit_0_l by done.
    destruct (Z.testbit b i) eqn:Hbi; [|done]. cbn. apply H in Hbi.
    apply negb_false_iff, andb_true_iff. lia.
Qed.

Lemma land_neg_mask b n : 0 <= n -> b < 0 -> Z.land b (Z.lnot (ones n)) <> 0.
Proof.
  intros Hn Hb Heq. assert (Z.land b (Z.lnot (ones n)) < 0); [|lia].
  apply Z.land_neg. split; [done|]. rewrite ones_eq.
  pose proof (Z.ones_equiv n). pose proof (Z.pow_pos_nonneg 2 n ltac:(lia) Hn).
  unfold Z.lnot. lia.
Qed.

Lemma nonneg_ext a b :
  0 <= a -> 0 <= b -> (forall i, 0 <= i -> Z.testbit a i = Z.testbit b i) -> a = b.
Proof. intros _ _ H. by apply Z.bits_inj'. Qed.

Lemma testbit_lt_pow2 a n : 0 <= a -> (forall i, Z.testbit a i = true -> i < n) -> 0 <= n -> a < 2 ^ n.
Proof.
  intros Ha H Hn. destruct (Z.eq_dec a 0) as [->|?]; [by apply Z.pow_pos_nonneg|].
  apply Z.log2_lt_pow2; [lia|]. apply H. apply Z.bit_log2. lia.
Qed.

Lemma testbit_above_pow2 a n i : 0 <= a < 2 ^ n -> n <= i -> Z.testbit a i = false.
Proof.
  intros Ha Hi. destruct (Z.eq_dec a 0) as [->|?]; [apply Z.testbit_0_l|].
  apply Z.bits_above_log2; [lia|]. destruct (Z.lt_ge_cases n 0).
  { rewrite Z.pow_neg_r in Ha by done. lia. }
  assert (Z.log2 a < n); [|lia]. apply Z.log2_lt_pow2; lia.
Qed.

(** ** The least set bit *)

Lemma lsb_spec b : 0 < b ->
  exists k, 0 <= k /\ lsb b = bit k /\ Z.testbit b k = true /\
    forall i, Z.testbit b i = true -> k <= i.
Proof.
  intros Hb. unfold lsb. destruct b as [|p|p]; [lia| |lia]. clear Hb.
  induction p as [p IH|p IH|].
  - exists 0. split_all; [lia| |done|].
    + apply Z.bits_inj'. intros i Hi. rewrite Z.land_spec, testbit_bit by lia.
      destruct (Z.eqb_spec i 0) as [->|Hi0]; [done|].
      rewrite <- (Z.lnot_involutive (- Z.pos p~1)), Z.lnot_spec by lia.
      replace (Z.lnot (- Z.pos p~1)) with (Z.pos p~0) by (unfold Z.lnot; lia).
      replace i with (Z.succ (i - 1)) by lia.
      rewrite (Pos2Z.inj_xI p), (Pos2Z.inj_xO p), Z.testbit_odd_succ, Z.testbit_even_succ by lia.
      apply andb_negb_r.
    + intros i Hi. destruct (Z.lt_ge_cases i 0); [|lia].
      by rewrite Z.testbit_neg_r in Hi.
  - destruct IH as (k & Hk & Hl & Ht & Hm). exists (Z.succ k). split_all; [lia|..].
    + replace (- Z.pos p~0) with (2 * - Z.pos p) by lia.
      rewrite (Pos2Z.inj_xO p). apply Z.bits_inj'. intros i Hi.
      rewrite Z.land_spec, testbit_bit by lia.
      destruct (Z.eq_dec i 0) as [->|Hi0].
      { rewrite !Z.testbit_even_0. symmetry. apply Z.eqb_neq. lia. }
      replace i with (Z.succ (i - 1)) by lia.
      rewrite !Z.testbit_even_succ, <- Z.land_spec, Hl, testbit_bit by lia.
      zbool.
    + by rewrite (Pos2Z.inj_xO p), Z.testbit_even_succ.
    + intros i. destruct (Z.lt_ge_cases i 0); [by rewrite Z.testbit_neg_r|].
      destruct (Z.eq_dec i 0) as [->|Hi0]; [by rewrite (Pos2Z.inj_xO p), Z.testbit_even_0|].
      replace i with (Z.succ (i - 1)) by lia.
      rewrite (Pos2Z.inj_xO p), Z.testbit_even_succ by lia. intros Hi%Hm. lia.
  - exists 0. split_all; [lia|done|done|]. intros i Hi.
    destruct (Z.lt_ge_cases i 0); [|lia]. by rewrite Z.testbit_neg_r in Hi.
Qed.

Lemma bit_length_bit k : 0 <= k -> bit_length (bit k) = k + 1.
Proof.
  intros Hk. unfold bit_length. pose proof (bit_pos k Hk).
  replace (bit k =? 0) with false by lia.
  rewrite Z.abs_eq, bit_pow2, Z.log2_pow2 by (try lia; done). done.
Qed.

Lemma bit_length_nonneg b : 0 <= bit_length b.
Proof. unfold bit_length. destruct (b =? 0); [lia|]. pose proof (Z.log2_nonneg (Z.abs b)). lia. Qed.

(** One turn of the walk, on the bits *)
Lemma lsb_step b : 0 < b ->
  exists k, bit_length (lsb b) - 1 = k /\ 0 <= k /\ Z.testbit b k = true /\
    (forall i, Z.testbit b i = true -> k <= i) /\
    0 <= Z.lxor b (lsb b) /\
    forall i, Z.testbit (Z.lxor b (lsb b)) i = Z.testbit b i && negb (i =? k).
Proof.
  intros Hb. destruct (lsb_spec b Hb) as (k & Hk & Hl & Ht & Hm).
  exists k. rewrite Hl, bit_length_bit by done. split_all; [lia|done|done|done|..].
  - apply Z.lxor_nonneg. pose proof (bit_pos k Hk). lia.
  - intros i. rewrite Z.lxor_spec, testbit_bit by done.
    destruct (Z.eqb_spec i k) as [->|?]; [by rewrite Ht|]. by rewrite xorb_false_r, andb_true_r.
Qed.

(** ** The walk yields the set bits in increasing order *)

(** From the lowest bit [lo] up, the walk is the filter of a range. *)
Lemma iter_bits_filter fuel b lo m :
  0 <= b -> 0 <= lo -> (forall i, Z.testbit b i = true -> lo <= i < lo + Z.of_nat m) ->
  (m <= fuel)%nat ->
  iter_bits fuel b = filter (fun i => Z.testbit b i = true) (range lo (lo + Z.of_nat m)).
Proof.
  revert b lo m. induction fuel as [|f IH]; intros b lo m Hb Hlo Hbits Hf.
  { assert (m = O) as -> by lia. by rewrite range_nil by lia. }
  cbn [iter_bits]. destruct (Z.eqb_spec b 0) as [->|Hb0].
  { symmetry. apply filter_none. intros i _. by rewrite Z.testbit_0_l. }
  destruct (lsb_step b) as (k & -> & Hk & Ht & Hmin & Hnn & Hbit); [lia|].
  pose proof (Hbits k Ht) as Hkr.
  set (m' := Z.to_nat (lo + Z.of_nat m - (k + 1))).
  rewrite (IH _ (k + 1) m'); [|done|lia|..|lia].
  2: { intros i. rewrite Hbit. intros [Hi Hne]%andb_true_iff.
       pose proof (Hmin i Hi). pose proof (Hbits i Hi). lia. }
  replace (k + 1 + Z.of_nat m') with (lo + Z.of_nat m) by lia.
  rewrite (range_app lo k), (range_cons k), filter_app, filter_cons_True by (done || lia).
  rewrite (filter_none _ (range lo k)).
  2: { intros i Hi%elem_of_range Hbi. pose proof (Hmin i Hbi). lia. }
  cbn. f_equal. apply filter_ext_in. intros i Hi%elem_of_range.
  rewrite Hbit. replace (i =? k) with false by lia. by rewrite andb_true_r.
Qed.

Lemma bits_of_filter b n :
  0 <= b -> 0 <= n -> (forall i, Z.testbit b i = true -> i < n) ->
  bits_of b = filter (fun i => Z.testbit b i = true) (range 0 n).
Proof.
  intros Hb Hn Hbits. unfold bits_of. set (L := bit_length b).
  assert (forall i, Z.testbit b i = true -> 0 <= i < L) as HL.
  { intros i Hi. destruct (Z.lt_ge_cases i 0); [by rewrite Z.testbit_neg_r in Hi|].
    split; [done|]. unfold L, bit_length. destruct (Z.eqb_spec b 0) as [->|?].
    { by rewrite Z.testbit_0_l in Hi. }
    rewrite Z.abs_eq by done. apply Z.nle_gt. intros ?.
    rewrite Z.bits_above_log2 in Hi by lia. done. }
  pose proof (bit_length_nonneg b).
  rewrite (iter_bits_filter _ _ 0 (Z.to_nat L)); [|done|lia|..|done].
  2: { intros i Hi%HL. lia. }
  rewrite Z.add_0_l, Z2Nat.id by lia.
  destruct (Z.le_ge_cases L n) as [Hle|Hle].
  - rewrite (range_app 0 L n), filter_app by lia.
    rewrite (filter_none _ (range L n)), app_nil_r; [done|].
    intros i Hi%elem_of_range Hbi. pose proof (HL i Hbi). lia.
  - rewrite (range_app 0 n L), filter_app by lia.
    rewrite (filter_none _ (range n L)), app_nil_r; [done|].
    intros i Hi%elem_of_range Hbi. pose proof (Hbits i Hbi). lia.
Qed.

Lemma testbit_bounded b : 0 <= b -> exists n, 0 <= n /\ forall i, Z.testbit b i = true -> i < n.
Proof.
  intros Hb. exists (Z.succ (Z.log2 b)). split; [pose proof (Z.log2_nonneg b); lia|].
  intros i Hi. apply Z.nle_gt. intros ?.
  by rewrite Z.bits_above_log2 in Hi by lia.
Qed.

Lemma elem_of_bits_of b i : 0 <= b -> i ∈ bits_of b <-> Z.testbit b i = true.
Proof.
  intros Hb. destruct (testbit_bounded b Hb) as (n & Hn & Hbits).
  rewrite (bits_of_filter b n), list_elem_of_filter, elem_of_range by done.
  split; [tauto|]. intros Hi. split; [done|]. split; [|by apply Hbits].
  destruct (Z.lt_ge_cases i 0); [by rewrite Z.testbit_neg_r in Hi|done].
Qed.

Lemma NoDup_bits_of b : 0 <= b -> NoDup (bits_of b).
Proof.
  intros Hb. destruct (testbit_bounded b Hb) as (n & Hn & Hbits).
  rewrite (bits_of_filter b n) by done. apply NoDup_filter, NoDup_range.
Qed.

(** ** [bit_count] counts the walk *)

Lemma pos_ones_count p :
  pos_ones p = Z.of_nat (length (filter (fun i => Z.testbit (Zpos p) i = true)
    (range 0 (Z.succ (Z.log2 (Zpos p)))))).
Proof.
  assert (forall (a : Z) n (f : Z -> bool) , 0 <= n ->
    (forall i, 0 <= i -> Z.testbit a (Z.succ i) = f i) ->
    length (filter (fun i => Z.testbit a i = true) (range 0 (Z.succ n))) =
    ((if Z.testbit a 0 then 1 else 0) +
      length (filter (fun i => f i = true) (range 0 n)))%nat) as Hshift.
  { intros a n f Hn Hf. rewrite range_cons by lia. rewrite filter_cons. change (0 + 1) with 1.
    assert (length (filter (fun i => Z.testbit a i = true) (range 1 (Z.succ n))) =
      length (filter (fun i => f i = true) (range 0 n))) as Heq.
    { replace (range 1 (Z.succ n)) with (Z.add 1 <$> range 0 n).
      - rewrite filter_fmap, length_fmap. f_equal. apply filter_ext_in.
        intros i Hi%elem_of_range. cbn. rewrite <- Hf by lia. by rewrite Z.add_1_l.
      - unfold range. rewrite fmap_add_seqZ. f_equal; lia. }
    case_decide as Hd.
    - rewrite Hd. cbn. by rewrite Heq.
    - destruct (Z.testbit a 0); [done|]. by rewrite Heq. }
  induction p as [p IH|p IH|]; cbn [pos_ones]; [| |done].
  - replace (Z.log2 (Z.pos p~1)) with (Z.succ (Z.log2 (Z.pos p))).
    2: { rewrite (Pos2Z.inj_xI p), Z.log2_succ_double by lia. done. }
    rewrite (Hshift _ _ (Z.testbit (Z.pos p))).
    + rewrite IH. cbn [Z.testbit Z.odd]. lia.
    + pose proof (Z.log2_nonneg (Z.pos p)). lia.
    + intros i Hi. by rewrite (Pos2Z.inj_xI p), Z.testbit_odd_succ.
  - replace (Z.log2 (Z.pos p~0)) with (Z.succ (Z.log2 (Z.pos p))).
    2: { rewrite (Pos2Z.inj_xO p), Z.log2_double by lia. done. }
    rewrite (Hshift _ _ (Z.testbit (Z.pos p))).
    + rewrite IH. cbn [Z.testbit Z.odd]. lia.
    + pose proof (Z.log2_nonneg (Z.pos p)). lia.
    + intros i Hi. by rewrite (Pos2Z.inj_xO p), Z.testbit_even_succ.
Qed.

Lemma bit_count_bits_of b : 0 <= b -> bit_count b = Z.of_nat (length (bits_of b)).
Proof.
  intros Hb. destruct b as [|p|p]; [done| |lia]. cbn [bit_count].
  rewrite (bits_of_filter _ (Z.succ (Z.log2 (Zpos p)))), pos_ones_count; [done|done|..].
  - pose proof (Z.log2_nonneg (Z.pos p)). lia.
  - intros i Hi. apply Z.nle_gt. intros ?. by rewrite Z.bits_above_log2 in Hi by lia.
Qed.

#[export] Hint Resolve bit_pos NoDup_bits_of : heg.
