(* ===== verification/Model.v ===== *)
(** * [BitGraph]: simple undirected graphs on bitset rows

    [src/src/sglab/model.py], the class [BitGraph] without its graph6 codec
    (file Graph6) and without the cycle searches (file Cycles). A graph is the
    pair of its order and its tuple of integer rows; [post_init] is the
    dataclass's validation, so [wf] is the invariant of every graph that the
    constructors return. *)

From S2P Require Import Prelude Bits.

(** ** Data *)

Record BitGraph := mkBitGraph { gn : Z; rows : list Z }.

#[export] Instance BitGraph_eq_dec : EqDecision BitGraph.
Proof. solve_decision. Defined.

(** [rows[u]] where the code has already established [0 <= u < n]
    ([row_py_index]). *)
Definition cell (rs : list Z) (u : Z) : Z := default 0 (rs !! Z.to_nat u).
Definition row (g : BitGraph) (u : Z) : Z := cell (rows g) u.

(** ** Construction *)

Definition check_row (mask : Z) (ur : Z * Z) : res unit :=
  let '(u, r) := ur in
  raise_if (negb (Z.land r (Z.lnot mask) =? 0))
    (ValueError "adjacency row contains an out-of-range vertex") ;;;
  raise_if (negb (Z.land r (bit u) =? 0)) (ValueError "loops are not allowed").

Definition check_symmetric (all_rows : list Z) (ur : Z * Z) : res unit :=
  let '(u, r) := ur in
  for_each (fun v =>
    rv ← py_index all_rows v;
    raise_if (Z.land rv (bit u) =? 0) (ValueError "adjacency must be symmetric"))
    (bits_of r).

(** [BitGraph(n, rows)]: the dataclass's [__post_init__] *)
Definition post_init (n : Z) (rs : list Z) : res BitGraph :=
  raise_if (n <? 0) (ValueError "n must be non-negative") ;;;
  raise_if (negb (Z.of_nat (length rs) =? n)) (ValueError "rows length must equal n") ;;;
  let mask := if n =? 0 then 0 else Z.shiftl 1 n - 1 in
  for_each (check_row mask) (enumerate rs) ;;;
  for_each (check_symmetric rs) (enumerate rs) ;;;
  Ok (mkBitGraph n rs).

Definition empty (n : Z) : res BitGraph := post_init n (replicate (Z.to_nat n) 0).

(** [rows[u] |= 1 << v] and [rows[u] &= ~(1 << v)] *)
Definition or_bit (rs : list Z) (u v : Z) : res (list Z) :=
  r ← py_index rs u; b ← py_shift1 v; py_store rs u (Z.lor r b).
Definition clear_bit (rs : list Z) (u v : Z) : res (list Z) :=
  r ← py_index rs u; b ← py_shift1 v; py_store rs u (Z.land r (Z.lnot b)).

Definition in_range (n u : Z) : bool := (0 <=? u) && (u <? n).

Definition from_edges_step (n : Z) (rs : list Z) (e : Z * Z) : res (list Z) :=
  let '(u, v) := e in
  raise_if (negb (in_range n u && in_range n v)) (ValueError "edge endpoint out of range") ;;;
  raise_if (u =? v) (ValueError "loops are not allowed") ;;;
  r ← py_index rs u;
  raise_if (negb (Z.land r (bit v) =? 0)) (ValueError "duplicate edges are not allowed") ;;;
  rs' ← or_bit rs u v; or_bit rs' v u.

Definition from_edges (n : Z) (es : list (Z * Z)) : res BitGraph :=
  rs ← foldM (from_edges_step n) (replicate (Z.to_nat n) 0) es; post_init n rs.

(** ** Queries *)

Definition has_edge (g : BitGraph) (u v : Z) : res bool :=
  r ← py_index (rows g) u; b ← py_shift1 v; Ok (negb (Z.land r b =? 0)).

Definition degree (g : BitGraph) (u : Z) : Z := bit_count (row g u).

Definition degree_sequence (g : BitGraph) : list Z := bit_count <$> rows g.

(** [min(..., default=0)] *)
Definition minimum_degree (g : BitGraph) : Z :=
  match degree_sequence g with [] => 0 | d :: ds => foldl Z.min d ds end.

Definition size (g : BitGraph) : Z := foldl Z.add 0 (degree_sequence g) / 2.

Definition neighbors (g : BitGraph) (u : Z) : list Z := bits_of (row g u).

Definition edges (g : BitGraph) : list (Z * Z) :=
  u ← range 0 (gn g);
  v ← bits_of (Z.land (row g u) (Z.lnot (ones (u + 1))));
  [(u, v)].

(** ** Connectivity: breadth-first search over a bitset of seen vertices *)

(** The outer [while queue] loop; [None] is running out of fuel. *)
Fixpoint bfs (fuel : nat) (g : BitGraph) (seen : Z) (queue : list Z) : option Z :=
  match queue with
  | [] => Some seen
  | u :: queue' =>
      match fuel with
      | O => None
      | S f =>
          let unseen := bits_of (Z.land (row g u) (Z.lnot seen)) in
          bfs f g (foldl (fun s v => Z.lor s (bit v)) seen unseen) (queue' ++ unseen)
      end
  end.

(** Every vertex enters the queue once, so [n] turns are enough
    ([bfs_returns]). *)
Definition is_connected (g : BitGraph) : bool :=
  if gn g =? 0 then true
  else match bfs (Z.to_nat (gn g)) g 1 [0] with
       | Some seen => bit_count seen =? gn g
       | None => false
       end.

(** ** Edge updates *)

Definition remove_step (g : BitGraph) (rs : list Z) (e : Z * Z) : res (list Z) :=
  let '(u, v) := e in
  h ← has_edge g u v;
  raise_if (negb h) (ValueError "cannot remove a missing edge") ;;;
  rs' ← clear_bit rs u v; clear_bit rs' v u.

Definition add_step (n : Z) (rs : list Z) (e : Z * Z) : res (list Z) :=
  let '(u, v) := e in
  raise_if ((u =? v) || negb (in_range n u && in_range n v)) (ValueError "invalid edge") ;;;
  r ← py_index rs u;
  raise_if (negb (Z.land r (bit v) =? 0)) (ValueError "cannot add an existing edge") ;;;
  rs' ← or_bit rs u v; or_bit rs' v u.

Definition with_edges (g : BitGraph) (add remove : list (Z * Z)) : res BitGraph :=
  rs ← foldM (remove_step g) (rows g) remove;
  rs' ← foldM (add_step (gn g)) rs add;
  post_init (gn g) rs'.

(** ** The graph a row tuple stands for *)

Definition rows_adj (rs : list Z) (u v : Z) : bool :=
  (0 <=? u) && Z.testbit (cell rs u) v.

Definition adj (g : BitGraph) (u v : Z) : bool := rows_adj (rows g) u v.

Definition vertex (g : BitGraph) (u : Z) : Prop := 0 <= u < gn g.

(** What the constructor guarantees *)
Record wf (g : BitGraph) : Prop := {
  wf_n : 0 <= gn g;
  wf_len : Z.of_nat (length (rows g)) = gn g;
  wf_nonneg : forall u, 0 <= row g u;
  wf_range : forall u v, adj g u v = true -> vertex g u /\ vertex g v;
  wf_irrefl : forall u, adj g u u = false;
  wf_sym : forall u v, adj g u v = adj g v u
}.

Definition edge_rel (g : BitGraph) (u v : Z) : Prop := adj g u v = true.

(** Graph-theoretic connectedness: every two vertices are joined by a path *)
Definition connected (g : BitGraph) : Prop :=
  forall u v, vertex g u -> vertex g v -> rtc (edge_rel g) u v.

(** ** Rows and bits *)

Lemma cell_lookup rs u x : rs !! Z.to_nat u = Some x -> cell rs u = x.
Proof. unfold cell. by intros ->. Qed.

Lemma row_py_index g u :
  Z.of_nat (length (rows g)) = gn g -> vertex g u -> py_index (rows g) u = Ok (row g u).
Proof.
  intros Hl Hu. unfold vertex in Hu.
  destruct (py_index_in_range (rows g) u) as (x & Hx & ->); [lia|].
  f_equal. symmetry. by apply cell_lookup.
Qed.

Lemma cell_insert_eq rs u x :
  0 <= u < Z.of_nat (length rs) -> cell (<[Z.to_nat u := x]> rs) u = x.
Proof. intros. unfold cell. by rewrite list_lookup_insert_eq by lia. Qed.

Lemma cell_insert_ne rs u a x :
  Z.to_nat a <> Z.to_nat u -> cell (<[Z.to_nat u := x]> rs) a = cell rs a.
Proof. intros. unfold cell. by rewrite list_lookup_insert_ne by done. Qed.

Lemma rows_adj_overflow rs u v : Z.of_nat (length rs) <= u -> rows_adj rs u v = false.
Proof.
  intros H. unfold rows_adj, cell. rewrite lookup_ge_None_2 by lia.
  cbn. rewrite Z.testbit_0_l. apply andb_false_r.
Qed.

Lemma rows_adj_neg rs u v : u < 0 \/ v < 0 -> rows_adj rs u v = false.
Proof.
  unfold rows_adj. intros [?|?]; [by replace (0 <=? u) with false by lia|].
  rewrite Z.testbit_neg_r by done. apply andb_false_r.
Qed.

Lemma adj_row g u v : 0 <= u -> adj g u v = Z.testbit (row g u) v.
Proof. intros. unfold adj, rows_adj. by replace (0 <=? u) with true by lia. Qed.

Lemma py_shift1_bit k : 0 <= k -> py_shift1 k = Ok (bit k).
Proof. intros. unfold py_shift1. by replace (k <? 0) with false by lia. Qed.

Lemma set_cell rs u b' :
  0 <= u < Z.of_nat (length rs) ->
  forall a v, rows_adj (<[Z.to_nat u := b']> rs) a v =
    if a =? u then Z.testbit b' v else rows_adj rs a v.
Proof.
  intros Hu a v. unfold rows_adj. destruct (Z.eqb_spec a u) as [->|Hne].
  - replace (0 <=? u) with true by lia. cbn.
    by rewrite cell_insert_eq.
  - destruct (Z.leb_spec 0 a); [|done]. cbn. by rewrite cell_insert_ne by lia.
Qed.

Lemma or_bit_spec rs u v :
  0 <= u < Z.of_nat (length rs) -> 0 <= v ->
  exists rs', or_bit rs u v = Ok rs' /\ length rs' = length rs /\
    (forall a b, rows_adj rs' a b = rows_adj rs a b || ((a =? u) && (b =? v))) /\
    ((forall a, 0 <= cell rs a) -> forall a, 0 <= cell rs' a).
Proof.
  intros Hu Hv. unfold or_bit. destruct (py_index_in_range rs u Hu) as (x & Hx & ->).
  cbn. rewrite py_shift1_bit by done. cbn. rewrite py_store_in_range by done.
  exists (<[Z.to_nat u := Z.lor x (bit v)]> rs). split_all; [done|apply length_insert|..].
  - intros a b. rewrite set_cell by done. destruct (Z.eqb_spec a u) as [->|?].
    + rewrite testbit_lor_bit by done. unfold rows_adj.
      replace (0 <=? u) with true by lia. by rewrite (cell_lookup _ _ _ Hx).
    + by rewrite orb_false_r.
  - intros Hnn a. destruct (decide (Z.to_nat a = Z.to_nat u)) as [Hau|?].
    + unfold cell at 1. rewrite Hau, list_lookup_insert_eq by lia. cbn. apply Z.lor_nonneg.
      pose proof (bit_pos v Hv). split; [|lia].
      specialize (Hnn u). by rewrite (cell_lookup _ _ _ Hx) in Hnn.
    + rewrite cell_insert_ne by done. apply Hnn.
Qed.

Lemma clear_bit_spec rs u v :
  0 <= u < Z.of_nat (length rs) -> 0 <= v ->
  exists rs', clear_bit rs u v = Ok rs' /\ length rs' = length rs /\
    (forall a b, rows_adj rs' a b = rows_adj rs a b && negb ((a =? u) && (b =? v))) /\
    ((forall a, 0 <= cell rs a) -> forall a, 0 <= cell rs' a).
Proof.
  intros Hu Hv. unfold clear_bit. destruct (py_index_in_range rs u Hu) as (x & Hx & ->).
  cbn. rewrite py_shift1_bit by done. cbn. rewrite py_store_in_range by done.
  exists (<[Z.to_nat u := Z.land x (Z.lnot (bit v))]> rs). split_all; [done|apply length_insert|..].
  - intros a b. rewrite set_cell by done. destruct (Z.eqb_spec a u) as [->|?].
    + unfold rows_adj. replace (0 <=? u) with true by lia.
      rewrite (cell_lookup _ _ _ Hx). cbn.
      destruct (Z.lt_ge_cases b 0); [by rewrite !Z.testbit_neg_r by done|].
      by rewrite Z.land_spec, Z.lnot_spec, testbit_bit by done.
    + by rewrite andb_true_r.
  - intros Hnn a. destruct (decide (Z.to_nat a = Z.to_nat u)) as [Hau|?].
    + unfold cell at 1. rewrite Hau, list_lookup_insert_eq by lia. cbn. apply Z.land_nonneg. left.
      specialize (Hnn u). by rewrite (cell_lookup _ _ _ Hx) in Hnn.
    + rewrite cell_insert_ne by done. apply Hnn.
Qed.

(** Symmetric updates, as [from_edges] and [with_edges] make them *)
Definition same_edge (u v a b : Z) : bool :=
  ((a =? u) && (b =? v)) || ((a =? v) && (b =? u)).

Lemma same_edge_spec u v a b :
  same_edge u v a b = true <-> (a, b) = (u, v) \/ (b, a) = (u, v).
Proof.
  unfold same_edge. rewrite orb_true_iff, !andb_true_iff, !Z.eqb_eq.
  split; [intros [[-> ->]|[-> ->]]; auto|intros [[= -> ->]|[= -> ->]]; auto].
Qed.

Lemma or_edge_spec rs u v :
  0 <= u < Z.of_nat (length rs) -> 0 <= v < Z.of_nat (length rs) ->
  exists rs', (rs1 ← or_bit rs u v; or_bit rs1 v u) = Ok rs' /\ length rs' = length rs /\
    (forall a b, rows_adj rs' a b = rows_adj rs a b || same_edge u v a b) /\
    ((forall a, 0 <= cell rs a) -> forall a, 0 <= cell rs' a).
Proof.
  intros Hu Hv. destruct (or_bit_spec rs u v) as (rs1 & -> & Hl1 & Ha1 & Hn1); [lia..|].
  cbn. destruct (or_bit_spec rs1 v u) as (rs2 & -> & Hl2 & Ha2 & Hn2); [lia..|].
  exists rs2. split_all; [done|congruence| |auto].
  intros a b. unfold same_edge. by rewrite Ha2, Ha1, orb_assoc.
Qed.

Lemma clear_edge_spec rs u v :
  0 <= u < Z.of_nat (length rs) -> 0 <= v < Z.of_nat (length rs) ->
  exists rs', (rs1 ← clear_bit rs u v; clear_bit rs1 v u) = Ok rs' /\ length rs' = length rs /\
    (forall a b, rows_adj rs' a b = rows_adj rs a b && negb (same_edge u v a b)) /\
    ((forall a, 0 <= cell rs a) -> forall a, 0 <= cell rs' a).
Proof.
  intros Hu Hv. destruct (clear_bit_spec rs u v) as (rs1 & -> & Hl1 & Ha1 & Hn1); [lia..|].
  cbn. destruct (clear_bit_spec rs1 v u) as (rs2 & -> & Hl2 & Ha2 & Hn2); [lia..|].
  exists rs2. split_all; [done|congruence| |auto].
  intros a b. unfold same_edge. by rewrite Ha2, Ha1, negb_orb, andb_assoc.
Qed.

(** ** The constructor's check is the invariant *)

Lemma wf_row_bit g u v : wf g -> vertex g u -> Z.testbit (row g u) v = true -> vertex g v.
Proof.
  intros Hg Hu Hb. apply (wf_range g Hg u v). by rewrite adj_row by apply Hu.
Qed.

Lemma wf_lookup g u r : rows g !! Z.to_nat u = Some r -> 0 <= u -> row g u = r.
Proof. intros. by apply cell_lookup. Qed.

Lemma mask_eq n : 0 <= n -> (if n =? 0 then 0 else Z.shiftl 1 n - 1) = ones n.
Proof. intros. by destruct (Z.eqb_spec n 0) as [->|]. Qed.

Lemma check_row_ok n u r :
  0 <= n -> 0 <= u ->
  check_row (ones n) (u, r) = Ok tt <->
    0 <= r /\ (forall i, Z.testbit r i = true -> i < n) /\ Z.testbit r u = false.
Proof.
  intros Hn Hu. cbn [check_row]. rewrite land_bit_nonzero by done.
  rewrite raise_seq_Ok, raise_if_Ok, negb_false_iff, Z.eqb_eq. split.
  - intros (Hm & Hl). destruct (Z.lt_ge_cases r 0) as [Hneg|Hnn].
    { by apply land_neg_mask in Hm. }
    split_all; [done| |done]. by apply land_ones_zero_iff.
  - intros (Hnn & Hb & Hl). split; [|done]. by apply land_ones_zero_iff.
Qed.

Lemma check_symmetric_ok rs u r :
  0 <= u -> 0 <= r -> (forall i, Z.testbit r i = true -> i < Z.of_nat (length rs)) ->
  check_symmetric rs (u, r) = Ok tt <->
    forall v, Z.testbit r v = true -> rows_adj rs v u = true.
Proof.
  intros Hu Hr Hb. cbn [check_symmetric]. rewrite for_each_Ok.
  setoid_rewrite elem_of_bits_of; [|done]. split; intros H v Hv.
  - assert (0 <= v) as Hv0.
    { destruct (Z.lt_ge_cases v 0); [by rewrite Z.testbit_neg_r in Hv|done]. }
    specialize (H v Hv). destruct (py_index_in_range rs v) as (x & Hx & Hi).
    { split; [done|by apply Hb]. }
    rewrite Hi in H. cbn in H. apply raise_if_Ok in H.
    assert (negb (Z.land x (bit u) =? 0) = true) as Ht by by rewrite H.
    rewrite land_bit_nonzero in Ht by done. unfold rows_adj.
    replace (0 <=? v) with true by lia. by rewrite (cell_lookup _ _ _ Hx).
  - assert (0 <= v) as Hv0.
    { destruct (Z.lt_ge_cases v 0); [by rewrite Z.testbit_neg_r in Hv|done]. }
    specialize (H v Hv). destruct (py_index_in_range rs v) as (x & Hx & Hi).
    { split; [done|by apply Hb]. }
    rewrite Hi. cbn. apply raise_if_Ok. unfold rows_adj in H.
    replace (0 <=? v) with true in H by lia.
    rewrite (cell_lookup _ _ _ Hx) in H. cbn in H.
    rewrite <- (land_bit_nonzero _ _ Hu) in H. by apply negb_true_iff in H.
Qed.

Lemma enumerate_rows rs u r :
  (u, r) ∈ enumerate rs <-> 0 <= u < Z.of_nat (length rs) /\ r = cell rs u.
Proof.
  rewrite elem_of_enumerate. split.
  - intros [Hu Hl]. pose proof (lookup_lt_Some _ _ _ Hl).
    split; [lia|]. symmetry. by apply cell_lookup.
  - intros [Hu ->]. split; [lia|]. unfold cell.
    destruct (lookup_lt_is_Some_2 rs (Z.to_nat u)) as [x Hx]; [lia|]. by rewrite Hx.
Qed.

Lemma post_init_wf n rs g : post_init n rs = Ok g -> g = mkBitGraph n rs /\ wf g.
Proof.
  unfold post_init. rewrite !raise_seq_Ok, negb_false_iff, Z.ltb_ge, Z.eqb_eq.
  intros (Hn & Hlen & H). rewrite mask_eq in H by done. rewrite !seq_Ok in H.
  destruct H as (Hrows & Hsym & [= <-]). split; [done|].
  rewrite for_each_Ok in Hrows, Hsym.
  assert (forall u, 0 <= u < n -> 0 <= cell rs u /\
    (forall i, Z.testbit (cell rs u) i = true -> i < n) /\ Z.testbit (cell rs u) u = false) as Hr.
  { intros u Hu. apply check_row_ok; [done|lia|]. apply Hrows, enumerate_rows. split; [lia|done]. }
  assert (forall u v, rows_adj rs u v = true -> 0 <= u < n) as Hlt.
  { intros u v Ha. split.
    - apply Z.nlt_ge. intros ?. by rewrite rows_adj_neg in Ha by auto.
    - apply Z.nle_gt. intros ?. by rewrite rows_adj_overflow in Ha by lia. }
  assert (forall u v, rows_adj rs u v = true -> Z.testbit (cell rs u) v = true) as Hbit.
  { intros u v. unfold rows_adj. by intros [? ?]%andb_true_iff. }
  assert (forall u v, rows_adj rs u v = true -> rows_adj rs v u = true) as Hs.
  { intros u v Ha. pose proof (Hlt u v Ha) as Hu. destruct (Hr u Hu) as (Hnn & Hb & _).
    assert (check_symmetric rs (u, cell rs u) = Ok tt) as Hc.
    { apply Hsym, enumerate_rows. split; [lia|done]. }
    rewrite check_symmetric_ok in Hc by (lia || auto with lia || (intros; rewrite Hlen; auto)).
    apply Hc. by apply Hbit. }
  split; cbn [gn rows].
  - done.
  - lia.
  - intros u. unfold row. cbn [rows]. unfold cell.
    destruct (rs !! Z.to_nat u) as [x|] eqn:Hx; [|done]. cbn.
    pose proof (lookup_lt_Some _ _ _ Hx).
    destruct (Hr (Z.of_nat (Z.to_nat u))) as [Hnn _]; [lia|].
    unfold cell in Hnn. by rewrite Nat2Z.id, Hx in Hnn.
  - intros u v Ha. unfold vertex. cbn. split; [by apply (Hlt u v)|].
    apply (Hlt v u). by apply Hs.
  - intros u. unfold adj. cbn. destruct (rows_adj rs u u) eqn:E; [|done].
    pose proof (Hlt _ _ E). destruct (Hr u) as (_ & _ & Hl); [done|].
    apply Hbit in E. congruence.
  - intros u v. unfold adj. cbn.
    destruct (rows_adj rs u v) eqn:E1, (rows_adj rs v u) eqn:E2; try done.
    + apply Hs in E1. congruence.
    + apply Hs in E2. congruence.
Qed.

Lemma post_init_ok g : wf g -> post_init (gn g) (rows g) = Ok g.
Proof.
  intros Hg. pose proof (wf_n g Hg) as Hn. pose proof (wf_len g Hg) as Hlen.
  assert (forall u i, 0 <= u -> Z.testbit (cell (rows g) u) i = true -> i < gn g) as Hb.
  { intros u i Hu Hi. apply (wf_range g Hg u i). by rewrite adj_row. }
  unfold post_init. rewrite !raise_seq_Ok, negb_false_iff, Z.ltb_ge, Z.eqb_eq.
  split_all; [done..|]. rewrite mask_eq by done. rewrite !seq_Ok.
  split_all; [..|by destruct g]; apply for_each_Ok; intros [u r] [Hu ->]%enumerate_rows.
  - apply check_row_ok; [done|lia|]. split_all; [apply (wf_nonneg g Hg)|..].
    + intros i. apply Hb. lia.
    + rewrite <- (wf_irrefl g Hg u). symmetry. apply adj_row. lia.
  - apply check_symmetric_ok; [lia|apply (wf_nonneg g Hg)|..].
    + intros i Hi. rewrite Hlen. apply (Hb u); [lia|done].
    + intros v Hv. change (adj g v u = true). rewrite (wf_sym g Hg).
      by rewrite adj_row by lia.
Qed.

(** Rows with the invariant's shape build the graph they describe. *)
Lemma post_init_build n rs :
  0 <= n -> Z.of_nat (length rs) = n -> (forall u, 0 <= cell rs u) ->
  (forall u v, rows_adj rs u v = true -> v < n) ->
  (forall u, rows_adj rs u u = false) -> (forall u v, rows_adj rs u v = rows_adj rs v u) ->
  post_init n rs = Ok (mkBitGraph n rs) /\ wf (mkBitGraph n rs).
Proof.
  intros Hn Hl Hnn Hr Hi Hs.
  assert (wf (mkBitGraph n rs)) as Hwf; [|split; [by apply (post_init_ok _ Hwf)|done]].
  split; cbn; try done. intros u v Ha. unfold adj in Ha; cbn in Ha.
  assert (forall a b, rows_adj rs a b = true -> 0 <= a).
  { intros a b Hab. apply Z.nlt_ge. intros ?. by rewrite rows_adj_neg in Hab by auto. }
  unfold vertex; cbn. pose proof Ha as Ha'. rewrite Hs in Ha'. eauto 10.
Qed.

Lemma graph_ext g h :
  wf g -> wf h -> gn g = gn h -> (forall u v, adj g u v = adj h u v) -> g = h.
Proof.
  intros Hg Hh Hn Ha. destruct g as [n rs], h as [m ss]. cbn in Hn. subst m. f_equal.
  pose proof (wf_len _ Hg) as Hlg. pose proof (wf_len _ Hh) as Hlh. cbn in *.
  apply list_eq_same_length with (n := length rs); [lia|done|].
  intros i x y Hi Hx Hy. specialize (Ha (Z.of_nat i)).
  pose proof (wf_nonneg _ Hg (Z.of_nat i)) as Hxn. pose proof (wf_nonneg _ Hh (Z.of_nat i)) as Hyn.
  assert (row {| gn := n; rows := rs |} (Z.of_nat i) = x) as Ex
    by (apply cell_lookup; cbn; by rewrite Nat2Z.id).
  assert (row {| gn := n; rows := ss |} (Z.of_nat i) = y) as Ey
    by (apply cell_lookup; cbn; by rewrite Nat2Z.id).
  apply Z.bits_inj'. intros v Hv. specialize (Ha v).
  rewrite !adj_row in Ha by lia. by rewrite <- Ex, <- Ey.
Qed.

Lemma has_edge_adj g u v :
  wf g -> vertex g u -> 0 <= v -> has_edge g u v = Ok (adj g u v).
Proof.
  intros Hg Hu Hv. unfold has_edge. rewrite row_py_index by (apply Hg || done).
  cbn. rewrite py_shift1_bit by done. cbn. rewrite land_bit_nonzero by done.
  by rewrite adj_row by apply Hu.
Qed.

(** ** [from_edges] *)

(** The undirected edge {a, b} occurs in the list. *)
Definition edge_in (es : list (Z * Z)) (a b : Z) : bool :=
  existsb (fun e => same_edge e.1 e.2 a b) es.

(** The lists the constructor accepts: endpoints in range, no loop, no edge
    given twice in either direction *)
Definition simple_edges (n : Z) (es : list (Z * Z)) : Prop :=
  forall pre u v post, es = pre ++ (u, v) :: post ->
    0 <= u < n /\ 0 <= v < n /\ u <> v /\ edge_in pre u v = false.

Lemma in_range_spec n u : in_range n u = true <-> 0 <= u < n.
Proof. unfold in_range. rewrite andb_true_iff. lia. Qed.

Lemma edge_in_app es fs a b : edge_in (es ++ fs) a b = edge_in es a b || edge_in fs a b.
Proof. apply existsb_app. Qed.

Lemma edge_in_snoc es u v a b : edge_in (es ++ [(u, v)]) a b = edge_in es a b || same_edge u v a b.
Proof. rewrite edge_in_app. cbn. by rewrite orb_false_r. Qed.

Lemma edge_in_true es a b : edge_in es a b = true <-> (a, b) ∈ es \/ (b, a) ∈ es.
Proof.
  unfold edge_in. rewrite existsb_exists. setoid_rewrite same_edge_spec.
  setoid_rewrite <- list_elem_of_In. split.
  - intros ([u v] & Hin & [[= -> ->]|[= -> ->]]); auto.
  - intros [H|H]; eexists; (split; [exact H|]); auto.
Qed.

Lemma same_edge_comm u v a b : same_edge u v a b = same_edge u v b a.
Proof. unfold same_edge. zbool. Qed.

Lemma edge_in_comm es a b : edge_in es a b = edge_in es b a.
Proof.
  induction es as [|e es IH]; [done|]. cbn. f_equal; [apply same_edge_comm|apply IH].
Qed.

(** The loop invariant of [from_edges]: the rows are those of the prefix. *)
Definition rows_of (n : Z) (es : list (Z * Z)) (rs : list Z) : Prop :=
  Z.of_nat (length rs) = n /\ (forall a b, rows_adj rs a b = edge_in es a b) /\
  forall a, 0 <= cell rs a.

Lemma rows_of_nil n : 0 <= n -> rows_of n [] (replicate (Z.to_nat n) 0).
Proof.
  intros Hn. assert (forall a, cell (replicate (Z.to_nat n) 0) a = 0) as Hc.
  { intros a. unfold cell. destruct (_ !! _) as [x|] eqn:E; [|done]. cbn.
    by apply lookup_replicate in E as [-> _]. }
  unfold rows_of. split_all.
  - rewrite length_replicate. lia.
  - intros a b. unfold rows_adj. rewrite Hc, Z.testbit_0_l. apply andb_false_r.
  - intros a. by rewrite Hc.
Qed.

Lemma from_edges_step_Ok n es rs u v rs' :
  rows_of n es rs -> from_edges_step n rs (u, v) = Ok rs' ->
  (0 <= u < n /\ 0 <= v < n /\ u <> v /\ edge_in es u v = false) /\ rows_of n (es ++ [(u, v)]) rs'.
Proof.
  intros (Hl & Ha & Hnn). unfold from_edges_step.
  rewrite !raise_seq_Ok, negb_false_iff, andb_true_iff, !in_range_spec, Z.eqb_neq.
  intros ((Hu & Hv) & Hne & H). destruct (py_index_in_range rs u) as (x & Hx & Hi); [lia|].
  rewrite Hi in H. cbn in H. rewrite raise_seq_Ok in H. destruct H as [Hd H].
  rewrite land_bit_nonzero in Hd by lia.
  assert (edge_in es u v = false) as Hnew.
  { rewrite <- Ha. unfold rows_adj. rewrite (cell_lookup _ _ _ Hx), Hd. apply andb_false_r. }
  destruct (or_edge_spec rs u v) as (rs2 & Heq & Hl2 & Ha2 & Hn2); [lia..|].
  rewrite Heq in H. injection H as <-. split; [done|]. unfold rows_of. split_all; [lia| |auto].
  intros a b. by rewrite Ha2, edge_in_snoc, Ha.
Qed.

Lemma from_edges_step_total n es rs u v :
  rows_of n es rs -> 0 <= u < n -> 0 <= v < n -> u <> v -> edge_in es u v = false ->
  exists rs', from_edges_step n rs (u, v) = Ok rs' /\ rows_of n (es ++ [(u, v)]) rs'.
Proof.
  intros Hr Hu Hv Hne Hnew. pose proof Hr as (Hl & Ha & Hnn).
  destruct (or_edge_spec rs u v) as (rs2 & Heq & Hl2 & Ha2 & Hn2); [lia..|].
  assert (from_edges_step n rs (u, v) = Ok rs2) as Hs.
  { unfold from_edges_step. rewrite !raise_seq_Ok, negb_false_iff, andb_true_iff, !in_range_spec, Z.eqb_neq.
    split_all; [lia..|]. destruct (py_index_in_range rs u) as (x & Hx & Hi); [lia|].
    rewrite Hi. cbn. rewrite raise_seq_Ok, land_bit_nonzero by lia. split; [|done].
    rewrite <- Ha in Hnew. unfold rows_adj in Hnew.
    replace (0 <=? u) with true in Hnew by lia. by rewrite (cell_lookup _ _ _ Hx) in Hnew. }
  exists rs2. split; [done|]. eapply (from_edges_step_Ok _ _ rs); [|done]. done.
Qed.

Lemma rows_of_post_init n es rs :
  0 <= n -> simple_edges n es -> rows_of n es rs ->
  post_init n rs = Ok (mkBitGraph n rs) /\ wf (mkBitGraph n rs).
Proof.
  intros Hn Hes (Hl & Ha & Hnn).
  assert (forall u v, edge_in es u v = true -> 0 <= u < n /\ 0 <= v < n /\ u <> v) as Hin.
  { intros u v [H|H]%edge_in_true; apply list_elem_of_split in H as (l1 & l2 & ->);
      destruct (Hes _ _ _ _ eq_refl) as (? & ? & ? & ?); auto. }
  apply post_init_build; [done..| | |].
  - intros u v. rewrite Ha. intros ?%Hin. lia.
  - intros u. rewrite Ha. destruct (edge_in es u u) eqn:E; [|done]. apply Hin in E. lia.
  - intros u v. rewrite !Ha. apply edge_in_comm.
Qed.

(** [from_edges] accepts exactly the simple edge lists and builds their graph. *)
Lemma from_edges_total n es :
  0 <= n -> simple_edges n es ->
  exists g, from_edges n es = Ok g /\ wf g /\ gn g = n /\ forall a b, adj g a b = edge_in es a b.
Proof.
  intros Hn Hes. unfold from_edges.
  destruct (foldM_total (rows_of n) (from_edges_step n) es (replicate (Z.to_nat n) 0))
    as (rs & -> & Hrs).
  - intros pre [u v] post rs1 Heq Hr. destruct (Hes _ _ _ _ Heq) as (? & ? & ? & ?).
    by apply from_edges_step_total.
  - by apply rows_of_nil.
  - cbn. destruct (rows_of_post_init n es rs) as [-> Hwf]; [done..|].
    exists (mkBitGraph n rs). split_all; [done..|]. apply Hrs.
Qed.

Lemma from_edges_inv n es g :
  from_edges n es = Ok g -> 0 <= n /\ simple_edges n es.
Proof.
  unfold from_edges. intros (rs & Hf & Hp)%bind_Ok.
  apply post_init_wf in Hp as [-> Hwf]. pose proof (wf_n _ Hwf) as Hn. cbn in Hn.
  split; [done|].
  assert (rows_of n es rs /\ simple_edges n es) as [_ ?]; [|done].
  revert Hf. apply (foldM_Ok_ind (fun pre rs => rows_of n pre rs /\ simple_edges n pre)).
  - intros pre [u v] post rs1 rs2 _ [Hr Hse] Hst.
    destruct (from_edges_step_Ok _ _ _ _ _ _ Hr Hst) as [Hok Hr2]. split; [done|].
    intros l1 a b l2 Heq. destruct l2 as [|x l2 _] using rev_ind.
    + apply app_inj_tail in Heq as [<- [= -> ->]]. done.
    + rewrite app_comm_cons, app_assoc in Heq. apply app_inj_tail in Heq as [Heq _].
      by apply (Hse l1 a b l2).
  - split; [by apply rows_of_nil|]. intros [] ? ? ?; done.
Qed.

(** ** Enumerating neighbours and edges *)

Lemma elem_of_neighbors g u v : wf g -> vertex g u -> v ∈ neighbors g u <-> adj g u v = true.
Proof.
  intros Hg Hu. unfold neighbors. rewrite elem_of_bits_of by apply (wf_nonneg g Hg).
  by rewrite adj_row by apply Hu.
Qed.

Lemma above_mask g u v :
  wf g -> vertex g u ->
  v ∈ bits_of (Z.land (row g u) (Z.lnot (ones (u + 1)))) <-> adj g u v = true /\ u < v.
Proof.
  intros Hg Hu. destruct Hu as [Hu0 Hun].
  rewrite elem_of_bits_of by (apply Z.land_nonneg; left; apply (wf_nonneg g Hg)).
  rewrite adj_row by done. destruct (Z.lt_ge_cases v 0).
  { rewrite !Z.testbit_neg_r by done. intuition lia. }
  rewrite Z.land_spec, Z.lnot_spec, testbit_ones by lia.
  rewrite andb_true_iff, negb_true_iff, andb_false_iff. intuition lia.
Qed.

Lemma elem_of_edges g u v : wf g -> (u, v) ∈ edges g <-> adj g u v = true /\ u < v.
Proof.
  intros Hg. unfold edges. rewrite list_elem_of_bind. split.
  - intros (a & Hin & Ha%elem_of_range). apply list_elem_of_bind in Hin as (b & Hp & Hb).
    apply list_elem_of_singleton in Hp as [= -> ->]. by apply above_mask in Hb.
  - intros [Hadj Hlt]. pose proof (wf_range g Hg u v Hadj) as [Hu Hv].
    exists u. split; [|by apply elem_of_range].
    apply list_elem_of_bind. exists v. split; [by apply list_elem_of_singleton|].
    by apply above_mask.
Qed.

Lemma NoDup_edges g : wf g -> NoDup (edges g).
Proof.
  intros Hg. unfold edges. apply NoDup_bind; [| |apply NoDup_range].
  - intros u1 u2 [a b] _ _ H1 H2.
    apply list_elem_of_bind in H1 as (? & H1%list_elem_of_singleton & _).
    apply list_elem_of_bind in H2 as (? & H2%list_elem_of_singleton & _). congruence.
  - intros u _. apply NoDup_bind.
    + intros v1 v2 e _ _ H1%list_elem_of_singleton H2%list_elem_of_singleton. congruence.
    + intros v _. apply NoDup_singleton.
    + apply NoDup_bits_of, Z.land_nonneg. left. apply (wf_nonneg g Hg).
Qed.

Lemma edge_in_edges g u v : wf g -> edge_in (edges g) u v = adj g u v.
Proof.
  intros Hg. apply eq_true_iff_eq. rewrite edge_in_true, !elem_of_edges by done.
  rewrite (wf_sym g Hg v u). split; [intuition|].
  intros H. destruct (Z.lt_trichotomy u v) as [?|[->|?]]; [auto| |auto].
  by rewrite (wf_irrefl g Hg) in H.
Qed.

(** [for u in range(n): for v in range(u + 1, n)] *)
Definition pairs (n : Z) : list (Z * Z) := u ← range 0 n; (fun v => (u, v)) <$> range (u + 1) n.

Lemma elem_of_pairs n u v : (u, v) ∈ pairs n <-> 0 <= u < v /\ v < n.
Proof.
  unfold pairs. rewrite list_elem_of_bind. split.
  - intros (a & (b & [= -> ->] & Hb%elem_of_range)%list_elem_of_fmap & Ha%elem_of_range). lia.
  - intros [? ?]. exists u. split; [|apply elem_of_range; lia].
    apply list_elem_of_fmap. exists v. split; [done|]. apply elem_of_range. lia.
Qed.

Lemma NoDup_pairs n : NoDup (pairs n).
Proof.
  unfold pairs. apply NoDup_bind; [| |apply NoDup_range].
  - intros u1 u2 e _ _ (? & -> & _)%list_elem_of_fmap (? & [= ->] & _)%list_elem_of_fmap. done.
  - intros u _. apply NoDup_fmap_2; [by intros ? ? [= ->]|apply NoDup_range].
Qed.

(** Ordered pairs without repetition are accepted. *)
Lemma simple_edges_ordered n es :
  NoDup es -> (forall u v, (u, v) ∈ es -> 0 <= u < v /\ v < n) -> simple_edges n es.
Proof.
  intros Hnd He pre u v post ->. destruct (He u v) as [? ?]; [set_solver|].
  split_all; [lia..|]. destruct (edge_in pre u v) eqn:E; [|done]. exfalso.
  apply NoDup_app in Hnd as (_ & Hd & _). apply edge_in_true in E as [E|E].
  - apply (Hd _ E). set_solver.
  - destruct (He v u); [set_solver|lia].
Qed.

Lemma simple_edges_edges g : wf g -> simple_edges (gn g) (edges g).
Proof.
  intros Hg. apply simple_edges_ordered; [by apply NoDup_edges|].
  intros u v [Hadj Hlt]%elem_of_edges; [|done].
  pose proof (wf_range g Hg u v Hadj) as [Hu Hv]. unfold vertex in *. lia.
Qed.

Lemma from_edges_edges g : wf g -> from_edges (gn g) (edges g) = Ok g.
Proof.
  intros Hg. destruct (from_edges_total (gn g) (edges g)) as (h & Hh & Hwf & Hn & Ha).
  - apply (wf_n g Hg).
  - by apply simple_edges_edges.
  - rewrite Hh. f_equal. apply graph_ext; [done..|]. intros u v. by rewrite Ha, edge_in_edges.
Qed.

(** ** Degrees *)

Lemma degree_neighbors g u : wf g -> degree g u = Z.of_nat (length (neighbors g u)).
Proof. intros Hg. apply bit_count_bits_of, (wf_nonneg g Hg). Qed.

Lemma degree_sequence_lookup g u :
  wf g -> vertex g u -> degree_sequence g !! Z.to_nat u = Some (degree g u).
Proof.
  intros Hg [Hu0 Hun]. pose proof (wf_len g Hg). unfold degree_sequence, degree, row, cell.
  destruct (lookup_lt_is_Some_2 (rows g) (Z.to_nat u)) as [x Hx]; [lia|].
  by rewrite list_lookup_fmap, Hx.
Qed.

Lemma elem_of_degree_sequence g d :
  wf g -> d ∈ degree_sequence g <-> exists u, vertex g u /\ degree g u = d.
Proof.
  intros Hg. pose proof (wf_len g Hg) as Hl. split.
  - intros (i & Hi)%list_elem_of_lookup. exists (Z.of_nat i).
    assert (vertex g (Z.of_nat i)) as Hv.
    { pose proof (lookup_lt_Some _ _ _ Hi) as Hlt. unfold degree_sequence in Hlt.
      rewrite length_fmap in Hlt. unfold vertex. lia. }
    split; [done|]. pose proof (degree_sequence_lookup g _ Hg Hv) as Hd.
    rewrite Nat2Z.id in Hd. congruence.
  - intros (u & Hu & <-). apply list_elem_of_lookup. exists (Z.to_nat u).
    by apply degree_sequence_lookup.
Qed.

Lemma foldl_min_ge k ds d : k <= foldl Z.min d ds <-> k <= d /\ forall x, x ∈ ds -> k <= x.
Proof.
  revert d. induction ds as [|x ds IH]; intros d; cbn; [set_solver|].
  rewrite IH, Z.min_glb_iff. set_solver.
Qed.

Lemma minimum_degree_ge g k :
  wf g -> 0 < gn g -> k <= minimum_degree g <-> forall u, vertex g u -> k <= degree g u.
Proof.
  intros Hg Hn. unfold minimum_degree. destruct (degree_sequence g) as [|d ds] eqn:E.
  { pose proof (wf_len g Hg). unfold degree_sequence in E.
    apply fmap_nil_inv in E. rewrite E in *. cbn in *. lia. }
  rewrite foldl_min_ge. split.
  - intros [Hd Hds] u Hu.
    assert (degree g u ∈ d :: ds) as Hin.
    { rewrite <- E. apply elem_of_degree_sequence; [done|]. eauto. }
    apply elem_of_cons in Hin as [->|?]; auto.
  - intros H. assert (forall x, x ∈ d :: ds -> k <= x) as Hx.
    { intros x. rewrite <- E. intros (u & Hu & <-)%elem_of_degree_sequence; auto. }
    split; [apply Hx; set_solver|]. intros x ?. apply Hx. set_solver.
Qed.

(** ** Connectivity *)

Lemma foldl_lor_bits s l :
  0 <= s -> (forall v, v ∈ l -> 0 <= v) ->
  0 <= foldl (fun s v => Z.lor s (bit v)) s l /\
  forall i, Z.testbit (foldl (fun s v => Z.lor s (bit v)) s l) i = true <->
            Z.testbit s i = true \/ i ∈ l.
Proof.
  revert s. induction l as [|v l IH]; intros s Hs Hl; cbn; [split; [done|set_solver]|].
  assert (0 <= v) as Hv by (apply Hl; set_solver). pose proof (bit_pos v Hv).
  destruct (IH (Z.lor s (bit v))) as [Hn Hi].
  { apply Z.lor_nonneg. lia. }
  { intros w Hw. apply Hl. set_solver. }
  split; [done|]. intros i. rewrite Hi, testbit_lor_bit, orb_true_iff, Z.eqb_eq, elem_of_cons by done.
  tauto.
Qed.

(** Vertices not yet seen; the loop's measure counts them. *)
Definition missing (g : BitGraph) (seen : Z) : list Z :=
  filter (fun i => Z.testbit seen i = false) (range 0 (gn g)).

Record bfs_inv (g : BitGraph) (seen : Z) (queue : list Z) : Prop := {
  bi_nonneg : 0 <= seen;
  bi_vertex : forall i, Z.testbit seen i = true -> vertex g i;
  bi_queue : forall u, u ∈ queue -> Z.testbit seen u = true;
  bi_start : Z.testbit seen 0 = true;
  bi_reach : forall i, Z.testbit seen i = true -> rtc (edge_rel g) 0 i;
  bi_closed : forall u v, Z.testbit seen u = true -> u ∉ queue -> adj g u v = true ->
                Z.testbit seen v = true
}.

Section BfsStep.
Context (g : BitGraph) (Hg : wf g) (seen u : Z) (queue : list Z).
Context (Hinv : bfs_inv g seen (u :: queue)).
Let unseen := bits_of (Z.land (row g u) (Z.lnot seen)).
Let seen' := foldl (fun s v => Z.lor s (bit v)) seen unseen.

Lemma bfs_unseen v : v ∈ unseen <-> adj g u v = true /\ Z.testbit seen v = false.
Proof.
  assert (vertex g u) as Hu by (apply (bi_vertex _ _ _ Hinv), (bi_queue _ _ _ Hinv); set_solver).
  unfold unseen. rewrite elem_of_bits_of by (apply Z.land_nonneg; left; apply (wf_nonneg g Hg)).
  rewrite adj_row by apply Hu. destruct (Z.lt_ge_cases v 0).
  { rewrite !Z.testbit_neg_r by done. intuition. }
  by rewrite Z.land_spec, Z.lnot_spec, andb_true_iff, negb_true_iff by done.
Qed.

Lemma bfs_seen' i : 0 <= seen' /\ (Z.testbit seen' i = true <-> Z.testbit seen i = true \/ i ∈ unseen).
Proof.
  unfold seen'. destruct (foldl_lor_bits seen unseen) as [? Hi]; [apply Hinv| |by split].
  intros v [Ha _]%bfs_unseen. by apply (wf_range g Hg) in Ha as [_ [? _]].
Qed.

Lemma bfs_missing : length (missing g seen) = (length unseen + length (missing g seen'))%nat.
Proof.
  rewrite <- length_app. apply Permutation_length, NoDup_Permutation.
  - apply NoDup_filter, NoDup_range.
  - apply NoDup_app. split_all.
    + apply NoDup_bits_of, Z.land_nonneg. left. apply (wf_nonneg g Hg).
    + intros i Hi [Hs _]%list_elem_of_filter. pose proof (proj2 (bfs_seen' i)) as Hiff.
      rewrite Hs in Hiff. discriminate (proj2 Hiff (or_intror Hi)).
    + apply NoDup_filter, NoDup_range.
  - intros i. rewrite elem_of_app. unfold missing. rewrite !list_elem_of_filter.
    pose proof (proj2 (bfs_seen' i)) as Hiff. rewrite bfs_unseen in *.
    rewrite elem_of_range. destruct (Z.testbit seen i) eqn:E1, (Z.testbit seen' i) eqn:E2.
    + intuition congruence.
    + intuition congruence.
    + destruct (proj1 Hiff eq_refl) as [?|[Ha _]]; [done|].
      pose proof (wf_range g Hg u i Ha) as [_ ?]. unfold vertex in *. intuition.
    + intuition congruence.
Qed.

Lemma bfs_inv_step : bfs_inv g seen' (queue ++ unseen).
Proof.
  assert (Z.testbit seen u = true) as Hu by (apply (bi_queue _ _ _ Hinv); set_solver).
  pose proof (fun i => proj2 (bfs_seen' i)) as Hs. split.
  - apply (bfs_seen' 0).
  - intros i [?|[Ha _]%bfs_unseen]%Hs; [by apply (bi_vertex _ _ _ Hinv)|].
    by apply (wf_range g Hg) in Ha as [_ ?].
  - intros v [Hv|Hv]%elem_of_app; apply Hs; [left|by right].
    apply (bi_queue _ _ _ Hinv). set_solver.
  - apply Hs. left. apply (bi_start _ _ _ Hinv).
  - intros i [Hi|[Ha _]%bfs_unseen]%Hs; [by apply (bi_reach _ _ _ Hinv)|].
    apply rtc_r with u; [by apply (bi_reach _ _ _ Hinv)|done].
  - intros a b Ha Hq Hab. rewrite not_elem_of_app in Hq. destruct Hq as [Hq1 Hq2].
    apply Hs in Ha as [Ha|Ha]; [|done]. apply Hs.
    destruct (Z.testbit seen b) eqn:E; [by left|].
    destruct (decide (a = u)) as [->|Hne]; [right; by apply bfs_unseen|].
    rewrite (bi_closed _ _ _ Hinv a b) in E; [done|done| |done]. set_solver.
Qed.
End BfsStep.

(** An empty queue: what has been seen is closed, so it is the component. *)
Lemma bfs_done g seen i :
  bfs_inv g seen [] -> Z.testbit seen i = true <-> vertex g i /\ rtc (edge_rel g) 0 i.
Proof.
  intros Hinv. split.
  { intros H. split; [by apply (bi_vertex _ _ _ Hinv)|by apply (bi_reach _ _ _ Hinv)]. }
  intros [_ Hr]. pose proof (bi_start _ _ _ Hinv) as H0. revert H0.
  induction Hr as [|a b c Hab _ IHr]; [done|]. intros Ha. apply IHr.
  refine (bi_closed _ _ _ Hinv a b Ha _ Hab). set_solver.
Qed.

(** With fuel for the queue and for every vertex not yet seen, the search
    returns, and what it has seen is the component of vertex 0. *)
Lemma bfs_returns g fuel seen queue :
  wf g -> bfs_inv g seen queue -> (length queue + length (missing g seen) <= fuel)%nat ->
  exists s, bfs fuel g seen queue = Some s /\ 0 <= s /\
    forall i, Z.testbit s i = true <-> vertex g i /\ rtc (edge_rel g) 0 i.
Proof.
  intros Hg. revert seen queue. induction fuel as [|f IH]; intros seen queue Hinv Hf.
  - destruct queue; [|cbn in Hf; lia]. exists seen.
    split_all; [done|apply (bi_nonneg _ _ _ Hinv)|]. intros i. by apply bfs_done.
  - destruct queue as [|u queue].
    { exists seen. split_all; [done|apply (bi_nonneg _ _ _ Hinv)|]. intros i. by apply bfs_done. }
    cbn [bfs]. apply IH; [by apply bfs_inv_step|].
    pose proof (bfs_missing g Hg seen u queue Hinv). rewrite length_app. cbn in Hf. lia.
Qed.

Lemma rtc_edge_sym g u v : wf g -> rtc (edge_rel g) u v -> rtc (edge_rel g) v u.
Proof.
  intros Hg. induction 1 as [|a b c Hab _ IH]; [done|].
  apply rtc_r with b; [done|]. unfold edge_rel. by rewrite (wf_sym g Hg).
Qed.

Lemma bit_count_full g s :
  wf g -> 0 <= s -> (forall i, Z.testbit s i = true -> vertex g i) ->
  bit_count s = gn g <-> forall i, vertex g i -> Z.testbit s i = true.
Proof.
  intros Hg Hs Hv. pose proof (wf_n g Hg) as Hn.
  rewrite bit_count_bits_of by done.
  rewrite (bits_of_filter s (gn g)); [|done|done|intros i Hi; by apply Hv in Hi as [_ ?]].
  split.
  - intros Hc i Hi. destruct (Z.testbit s i) eqn:E; [done|]. exfalso.
    assert (length (filter (fun i => Z.testbit s i = true) (range 0 (gn g))) < length (range 0 (gn g)))%nat
      as Hlt.
    { apply (length_filter_lt _ _ i); [by apply elem_of_range|congruence]. }
    rewrite length_range in Hlt. lia.
  - intros Hall. rewrite filter_all.
    + rewrite length_range. lia.
    + intros i Hi%elem_of_range. by apply Hall.
Qed.

Lemma is_connected_iff g : wf g -> is_connected g = true <-> connected g.
Proof.
  intros Hg. pose proof (wf_n g Hg) as Hn. unfold is_connected.
  destruct (Z.eqb_spec (gn g) 0) as [H0|H0].
  { split; [|done]. intros _ u v Hu. unfold vertex in Hu. lia. }
  destruct (bfs_returns g (Z.to_nat (gn g)) 1 [0] Hg) as (s & -> & Hs & Hi).
  - assert (forall i, Z.testbit 1 i = true -> i = 0) as H1.
    { intros i. change 1 with (bit 0). rewrite testbit_bit by lia. apply Z.eqb_eq. }
    split; [lia|..].
    + intros i ->%H1. unfold vertex. lia.
    + intros u ->%list_elem_of_singleton. done.
    + done.
    + intros i ->%H1. apply rtc_refl.
    + intros u v ->%H1. set_solver.
  - unfold missing. rewrite range_cons by lia. rewrite filter_cons_False by done.
    pose proof (length_filter (fun i => Z.testbit 1 i = false) (range (0 + 1) (gn g))) as Hl.
    rewrite length_range in Hl. cbn [length]. lia.
  - rewrite Z.eqb_eq, bit_count_full; [|done|done|intros i ?%Hi; tauto].
    split.
    + intros Hall u v Hu Hv. transitivity 0; [apply rtc_edge_sym; [done|]|]; by apply Hi, Hall.
    + intros Hc i Hv. apply Hi. split; [done|]. apply Hc; [unfold vertex; lia|done].
Qed.

(** ** [with_edges] *)

(** Rows that stand for [f] on [n] vertices *)
Definition rows_like (n : Z) (f : Z -> Z -> bool) (rs : list Z) : Prop :=
  Z.of_nat (length rs) = n /\ (forall a b, rows_adj rs a b = f a b) /\ forall a, 0 <= cell rs a.

Definition removed (g : BitGraph) (es : list (Z * Z)) (a b : Z) : bool :=
  adj g a b && negb (edge_in es a b).

Lemma rows_like_graph g : wf g -> rows_like (gn g) (removed g []) (rows g).
Proof.
  intros Hg. unfold rows_like. split_all; [apply (wf_len g Hg)| |apply (wf_nonneg g Hg)].
  intros a b. unfold removed. by rewrite andb_true_r.
Qed.

Lemma remove_step_total g es rs u v :
  wf g -> rows_like (gn g) (removed g es) rs -> adj g u v = true ->
  exists rs', remove_step g rs (u, v) = Ok rs' /\ rows_like (gn g) (removed g (es ++ [(u, v)])) rs'.
Proof.
  intros Hg (Hl & Ha & Hnn) Hadj. pose proof (wf_range g Hg u v Hadj) as [Hu Hv].
  unfold vertex in *. destruct (clear_edge_spec rs u v) as (rs2 & Heq & Hl2 & Ha2 & Hn2); [lia..|].
  exists rs2. split.
  - unfold remove_step. rewrite (has_edge_adj g u v Hg Hu) by apply Hv. cbn. by rewrite Hadj.
  - unfold rows_like. split_all; [lia| |auto]. intros a b. rewrite Ha2, Ha. unfold removed.
    by rewrite edge_in_snoc, negb_orb, andb_assoc.
Qed.

Lemma clear_bit_neg_shift rs u v : v < 0 -> forall rs', clear_bit rs u v <> Ok rs'.
Proof.
  intros Hv rs'. unfold clear_bit, py_shift1. replace (v <? 0) with true by lia.
  by destruct (py_index rs u).
Qed.

(** Python's negative indices do not slip through: the second shift raises. *)
Lemma remove_step_adj g rs u v rs' :
  wf g -> remove_step g rs (u, v) = Ok rs' -> adj g u v = true.
Proof.
  intros Hg H. unfold remove_step in H. apply bind_Ok in H as (h & Hh & H).
  apply raise_seq_Ok in H as [Hn H]. apply negb_false_iff in Hn. subst h.
  apply bind_Ok in H as (rs1 & H1 & H2).
  destruct (Z.lt_ge_cases u 0) as [Hu|Hu]; [by apply clear_bit_neg_shift in H2|].
  destruct (Z.lt_ge_cases v 0) as [Hv|Hv]; [by apply clear_bit_neg_shift in H1|].
  pose proof Hh as Hi. unfold has_edge in Hi. apply bind_Ok in Hi as (r & Hr & _).
  unfold py_index in Hr. replace (u <? 0) with false in Hr by lia.
  replace (u <? 0) with false in Hr by lia.
  destruct (rows g !! Z.to_nat u) eqn:E; [|done].
  apply lookup_lt_Some in E. pose proof (wf_len g Hg).
  rewrite has_edge_adj in Hh by (done || (unfold vertex; lia)). congruence.
Qed.

Lemma add_step_total n f rs u v :
  rows_like n f rs -> 0 <= u < n -> 0 <= v < n -> u <> v -> f u v = false ->
  exists rs', add_step n rs (u, v) = Ok rs' /\ rows_like n (fun a b => f a b || same_edge u v a b) rs'.
Proof.
  intros (Hl & Ha & Hnn) Hu Hv Hne Hnew.
  destruct (or_edge_spec rs u v) as (rs2 & Heq & Hl2 & Ha2 & Hn2); [lia..|].
  exists rs2. split.
  - unfold add_step. rewrite raise_seq_Ok, orb_false_iff, negb_false_iff, andb_true_iff, !in_range_spec, Z.eqb_neq.
    split_all; [lia..|]. destruct (py_index_in_range rs u) as (x & Hx & Hi); [lia|].
    rewrite Hi. cbn. rewrite raise_seq_Ok, land_bit_nonzero by lia. split; [|done].
    rewrite <- Ha in Hnew. unfold rows_adj in Hnew.
    replace (0 <=? u) with true in Hnew by lia. by rewrite (cell_lookup _ _ _ Hx) in Hnew.
  - unfold rows_like. split_all; [lia| |auto]. intros a b. by rewrite Ha2, Ha.
Qed.

Lemma add_step_Ok n f rs u v rs' :
  rows_like n f rs -> add_step n rs (u, v) = Ok rs' ->
  (0 <= u < n /\ 0 <= v < n /\ u <> v /\ f u v = false) /\
  rows_like n (fun a b => f a b || same_edge u v a b) rs'.
Proof.
  intros Hr H. assert (0 <= u < n /\ 0 <= v < n /\ u <> v /\ f u v = false) as Hok.
  { destruct Hr as (Hl & Ha & _). unfold add_step in H.
    rewrite raise_seq_Ok, orb_false_iff, negb_false_iff, andb_true_iff, !in_range_spec, Z.eqb_neq in H.
    destruct H as ((Hne & Hu & Hv) & H). split_all; [lia..|].
    destruct (py_index_in_range rs u) as (x & Hx & Hi); [lia|].
    rewrite Hi in H. cbn in H. apply raise_seq_Ok in H as [Hd _].
    rewrite land_bit_nonzero in Hd by lia. rewrite <- Ha. unfold rows_adj.
    rewrite (cell_lookup _ _ _ Hx), Hd. apply andb_false_r. }
  split; [done|]. destruct Hok as (Hu & Hv & Hne & Hf).
  destruct (add_step_total n f rs u v) as (rs2 & H2 & ?); [done..|]. congruence.
Qed.

Definition rewired (g : BitGraph) (add remove : list (Z * Z)) (a b : Z) : bool :=
  removed g remove a b || edge_in add a b.

(** The updates [with_edges] accepts *)
Definition rewirable (g : BitGraph) (add remove : list (Z * Z)) : Prop :=
  (forall u v, (u, v) ∈ remove -> adj g u v = true) /\
  forall pre u v post, add = pre ++ (u, v) :: post ->
    vertex g u /\ vertex g v /\ u <> v /\ rewired g pre remove u v = false.

Lemma rewired_snoc g add remove u v a b :
  rewired g (add ++ [(u, v)]) remove a b = rewired g add remove a b || same_edge u v a b.
Proof. unfold rewired. by rewrite edge_in_snoc, orb_assoc. Qed.

Lemma rewired_build g add remove rs :
  wf g -> rewirable g add remove -> rows_like (gn g) (rewired g add remove) rs ->
  post_init (gn g) rs = Ok (mkBitGraph (gn g) rs) /\ wf (mkBitGraph (gn g) rs).
Proof.
  intros Hg [_ Hadd] (Hl & Ha & Hnn).
  assert (forall u v, edge_in add u v = true -> vertex g u /\ vertex g v /\ u <> v) as Hin.
  { intros u v [H|H]%edge_in_true; apply list_elem_of_split in H as (l1 & l2 & ->);
      destruct (Hadd _ _ _ _ eq_refl) as (? & ? & ? & ?); auto. }
  assert (forall u v, rewired g add remove u v = true -> vertex g v /\ u <> v) as Hre.
  { unfold rewired, removed. intros u v [[H _]%andb_true_iff|H]%orb_true_iff.
    - split; [by apply (wf_range g Hg) in H as [_ ?]|]. intros ->. by rewrite (wf_irrefl g Hg) in H.
    - apply Hin in H. tauto. }
  apply post_init_build; [apply (wf_n g Hg)|done|done|..].
  - intros u v. rewrite Ha. by intros [[_ ?] _]%Hre.
  - intros u. rewrite Ha. destruct (rewired g add remove u u) eqn:E; [|done].
    apply Hre in E as [_ ?]. done.
  - intros u v. rewrite !Ha. unfold rewired, removed.
    by rewrite (wf_sym g Hg u v), (edge_in_comm remove u v), (edge_in_comm add u v).
Qed.

Lemma with_edges_total g add remove :
  wf g -> rewirable g add remove ->
  exists h, with_edges g add remove = Ok h /\ wf h /\ gn h = gn g /\
    forall a b, adj h a b = rewired g add remove a b.
Proof.
  intros Hg Hre. pose proof Hre as [Hrem Hadd]. unfold with_edges.
  destruct (foldM_total (fun pre rs => rows_like (gn g) (removed g pre) rs) (remove_step g) remove (rows g))
    as (rs1 & -> & H1).
  { intros pre [u v] post rs Heq Hr. apply remove_step_total; [done..|].
    apply Hrem. rewrite Heq. set_solver. }
  { by apply rows_like_graph. }
  cbn. destruct (foldM_total (fun pre rs => rows_like (gn g) (rewired g pre remove) rs)
    (add_step (gn g)) add rs1) as (rs2 & -> & H2).
  { intros pre [u v] post rs Heq Hr. destruct (Hadd _ _ _ _ Heq) as (? & ? & ? & ?).
    destruct (add_step_total _ _ _ u v Hr) as (rs' & -> & Hl & Ha & Hn); [done..|].
    exists rs'. split; [done|]. unfold rows_like. split_all; [done| |done]. intros a b. by rewrite Ha, rewired_snoc. }
  { destruct H1 as (Hl & Ha & Hn). unfold rows_like. split_all; [done| |done]. intros a b. rewrite Ha.
    unfold rewired. by rewrite orb_false_r. }
  cbn. destruct (rewired_build g add remove rs2) as [-> Hwf]; [done..|].
  exists (mkBitGraph (gn g) rs2). split_all; [done..|]. apply H2.
Qed.

Lemma with_edges_inv g add remove h :
  wf g -> with_edges g add remove = Ok h -> rewirable g add remove.
Proof.
  intros Hg. unfold with_edges. intros (rs1 & H1 & H)%bind_Ok. apply bind_Ok in H as (rs2 & H2 & _).
  assert (forall u v, (u, v) ∈ remove -> adj g u v = true) as Hrem.
  { assert ((forall u v, (u, v) ∈ remove -> adj g u v = true)) as Hx; [|exact Hx].
    revert H1. apply (foldM_Ok_ind (fun pre _ => forall u v, (u, v) ∈ pre -> adj g u v = true)).
    - intros pre [a b] post r1 r2 _ IH Hst u v [Hin|Hin]%elem_of_app; [by apply IH|].
      apply list_elem_of_singleton in Hin as [= -> ->]. by apply (remove_step_adj g r1 a b r2).
    - set_solver. }
  destruct (foldM_total (fun pre rs => rows_like (gn g) (removed g pre) rs) (remove_step g) remove (rows g))
    as (rs1' & H1' & Hr1).
  { intros pre [u v] post rs Heq Hr. apply remove_step_total; [done..|].
    apply Hrem. rewrite Heq. set_solver. }
  { by apply rows_like_graph. }
  rewrite H1 in H1'. injection H1' as <-.
  split; [done|].
  assert (rows_like (gn g) (rewired g add remove) rs2 /\
    forall pre u v post, add = pre ++ (u, v) :: post ->
      vertex g u /\ vertex g v /\ u <> v /\ rewired g pre remove u v = false) as [_ Hx]; [|exact Hx].
  revert H2. apply (foldM_Ok_ind (fun pre rs => rows_like (gn g) (rewired g pre remove) rs /\
    forall p u v post, pre = p ++ (u, v) :: post ->
      vertex g u /\ vertex g v /\ u <> v /\ rewired g p remove u v = false)).
  - intros pre [u v] post r1 r2 _ [Hr Hp] Hst.
    destruct (add_step_Ok _ _ _ _ _ _ Hr Hst) as [Hok (Hl & Ha & Hn)]. split.
    + unfold rows_like. split_all; [done| |done]. intros a b. by rewrite Ha, rewired_snoc.
    + intros l1 a b l2 Heq. destruct l2 as [|x l2 _] using rev_ind.
      * apply app_inj_tail in Heq as [<- [= -> ->]]. done.
      * rewrite app_comm_cons, app_assoc in Heq. apply app_inj_tail in Heq as [Heq _].
        by apply (Hp l1 a b l2).
  - split; [|by intros []]. destruct Hr1 as (Hl & Ha & Hn). unfold rows_like. split_all; [done| |done].
    intros a b. rewrite Ha. unfold rewired. by rewrite orb_false_r.
Qed.

(** ** The properties of the graph type *)

(** Errors of the constructor are [ValueError]s. *)
Lemma post_init_raises n rs e : post_init n rs = Raise e -> exists msg, e = ValueError msg.
Proof.
  unfold post_init. destruct (Z.ltb_spec n 0); cbn; [intros [= <-]; eauto|].
  destruct (Z.eqb_spec (Z.of_nat (length rs)) n) as [Hl|]; cbn; [|intros [= <-]; eauto].
  rewrite mask_eq by done. intros H1.
  destruct (for_each (check_row (ones n)) (enumerate rs)) as [u|e'] eqn:Er.
  - cbn in H1. rename Er into Hr. rewrite for_each_Ok in Hr.
    destruct (for_each (check_symmetric rs) (enumerate rs)) as [|e''] eqn:Es; cbn in H1; [done|].
    injection H1 as <-. apply for_each_Raise in Es as ([u' r] & Hin & Hs).
    unfold check_symmetric in Hs. apply for_each_Raise in Hs as (v & Hv & Hb).
    apply elem_of_enumerate in Hin as Hu. destruct Hu as [Hu _].
    specialize (Hr _ Hin). apply check_row_ok in Hr as (Hr0 & Hr & _); [|done|done].
    apply elem_of_bits_of in Hv; [|done].
    destruct (py_index_in_range rs v) as (x & _ & Hx).
    { rewrite Hl. split; [|by apply Hr]. destruct (Z.lt_ge_cases v 0); [|done].
      by rewrite Z.testbit_neg_r in Hv. }
    rewrite Hx in Hb. cbn in Hb. unfold raise_if in Hb. case_match; [|done].
    injection Hb as <-. eauto.
  - cbn in H1. injection H1 as <-. apply for_each_Raise in Er as ([u' r] & _ & Hc).
    unfold check_row, raise_if in Hc. repeat case_match; cbn in Hc; try discriminate;
      injection Hc as <-; eauto.
Qed.

(** The directed edges: every edge of the list, in both directions *)
Definition arcs (g : BitGraph) : list (Z * Z) :=
  u ← range 0 (gn g); (fun v => (u, v)) <$> neighbors g u.

Lemma elem_of_arcs g u v : wf g -> (u, v) ∈ arcs g <-> adj g u v = true.
Proof.
  intros Hg. unfold arcs. rewrite list_elem_of_bind. split.
  - intros (w & Hin & Hw%elem_of_range). apply list_elem_of_fmap in Hin as (x & [= -> ->] & Hx).
    by apply elem_of_neighbors in Hx.
  - intros Ha. pose proof (wf_range g Hg u v Ha) as [Hu _]. exists u.
    split; [|by apply elem_of_range]. apply list_elem_of_fmap. exists v.
    split; [done|]. by apply elem_of_neighbors.
Qed.

Lemma arcs_edges g : wf g -> arcs g ≡ₚ edges g ++ (prod_swap <$> edges g).
Proof.
  intros Hg. apply NoDup_Permutation.
  - unfold arcs. apply NoDup_bind; [| |apply NoDup_range].
    + intros u1 u2 e _ _ (? & -> & _)%list_elem_of_fmap (? & [= ->] & _)%list_elem_of_fmap. done.
    + intros u _. apply NoDup_fmap_2; [by intros ? ? [= ->]|].
      apply NoDup_bits_of, (wf_nonneg g Hg).
  - apply NoDup_app. split_all; [by apply NoDup_edges| |].
    + intros [u v] [_ ?]%elem_of_edges ([a b] & [= -> ->] & [_ ?]%elem_of_edges)%list_elem_of_fmap; first [done|lia].
    + apply NoDup_fmap_2; [|by apply NoDup_edges]. intros [] [] [= -> ->]. done.
  - intros [u v]. rewrite elem_of_arcs, elem_of_app, list_elem_of_fmap, elem_of_edges by done. split.
    + intros Ha. destruct (Z.lt_trichotomy u v) as [?|[->|?]]; [by left| |].
      * by rewrite (wf_irrefl g Hg) in Ha.
      * right. exists (v, u). split; [done|]. apply elem_of_edges; [done|].
        by rewrite (wf_sym g Hg).
    + intros [[? _]|([a b] & [= -> ->] & Hin)]; [done|].
      rewrite (wf_sym g Hg). by apply elem_of_edges in Hin as [? _].
Qed.

Lemma sum_degrees_arcs g : wf g -> foldl Z.add 0 (degree_sequence g) = Z.of_nat (length (arcs g)).
Proof.
  intros Hg. assert (degree_sequence g = degree g <$> range 0 (gn g)) as ->.
  { apply list_eq. intros i. rewrite list_lookup_fmap. pose proof (wf_n g Hg). pose proof (wf_len g Hg).
    destruct (decide (Z.of_nat i < gn g)) as [Hi|Hi].
    - rewrite <- (Nat2Z.id i) at 1. rewrite degree_sequence_lookup by (done || (unfold vertex; lia)).
      unfold range. rewrite lookup_seqZ_lt by lia. cbn. do 2 f_equal.
    - rewrite !lookup_ge_None_2; [done|rewrite length_range; lia|].
      unfold degree_sequence. rewrite length_fmap. lia. }
  unfold arcs. assert (forall l a, foldl Z.add a (degree g <$> l) =
    a + Z.of_nat (length (l ≫= fun u => (fun v => (u, v)) <$> neighbors g u))) as Hsum; [|apply Hsum].
  induction l as [|u l IH]; intros a; cbn [fmap list_fmap foldl mbind list_bind]; [cbn; lia|].
  rewrite IH, length_app, length_fmap, degree_neighbors by done. lia.
Qed.

(** The handshake lemma: [size] counts the edge list. *)
Lemma size_edges g : wf g -> size g = Z.of_nat (length (edges g)).
Proof.
  intros Hg. unfold size. rewrite sum_degrees_arcs by done.
  rewrite (arcs_edges g Hg), length_app, length_fmap.
  replace (Z.of_nat (length (edges g) + length (edges g))) with (Z.of_nat (length (edges g)) * 2) by lia.
  by apply Z.div_mul.
Qed.

(** ** Properties *)

(** The complete graph on four vertices, for the witnesses *)
Definition K4 : BitGraph := mkBitGraph 4 [14; 13; 11; 7].

Lemma K4_wf : wf K4.
Proof. by apply (post_init_wf 4 [14; 13; 11; 7]). Qed.

(** [BitGraph(n, rows)] returns exactly when the rows are a
    symmetric, irreflexive adjacency matrix on [n] vertices, and then it is that
    graph; everything else is rejected with a [ValueError]. *)
Theorem post_init_correct n rs :
  (forall g, post_init n rs = Ok g <-> g = mkBitGraph n rs /\ wf g) /\
  (forall e, post_init n rs = Raise e -> exists msg, e = ValueError msg).
Proof.
  split; [|apply post_init_raises]. intros g. split; [apply post_init_wf|].
  intros [-> Hg]. apply (post_init_ok _ Hg).
Qed.

(** [from_edges] returns exactly on the edge lists of simple
    graphs (endpoints in range, no loop, no edge repeated in either direction),
    and the graph it returns has exactly the listed edges. *)
Theorem from_edges_correct n es g :
  from_edges n es = Ok g <->
  0 <= n /\ simple_edges n es /\ wf g /\ gn g = n /\ forall a b, adj g a b = edge_in es a b.
Proof.
  split.
  - intros H. pose proof (from_edges_inv _ _ _ H) as [Hn Hs].
    destruct (from_edges_total n es Hn Hs) as (h & Hh & ?). rewrite H in Hh. by injection Hh as <-.
  - intros (Hn & Hs & Hg & <- & Ha). destruct (from_edges_total (gn g) es Hn Hs) as (h & -> & Hh & Heq & Hb).
    f_equal. apply graph_ext; [done..|]. intros u v. by rewrite Ha, Hb.
Qed.

(** Listing the edges of a graph and building a graph from the
    list gives the graph back, and [size] is the number of edges listed. *)
Theorem edges_roundtrip g :
  wf g -> from_edges (gn g) (edges g) = Ok g /\ size g = Z.of_nat (length (edges g)).
Proof. intros Hg. split; [by apply from_edges_edges|by apply size_edges]. Qed.

Lemma edges_roundtrip_witness :
  from_edges 4 (edges K4) = Ok K4 /\ size K4 = Z.of_nat (length (edges K4)).
Proof. apply (edges_roundtrip K4 K4_wf). Defined.

(** The breadth-first search over bitsets answers whether
    every two vertices are joined by a path; its fuel is never short. *)
Theorem is_connected_correct g :
  wf g -> is_connected g = true <-> connected g.
Proof. apply is_connected_iff. Qed.

Lemma is_connected_correct_witness : connected K4.
Proof. apply (is_connected_correct K4 K4_wf). vm_compute. reflexivity. Defined.

(** [with_edges] returns exactly when every removed edge is an
    edge of the graph and every added pair is a new edge at its turn; the result
    is a graph of the same order whose edges are the old ones without the
    removed, with the added. Repeated removals are accepted. *)
Theorem with_edges_correct g add remove h :
  wf g ->
  with_edges g add remove = Ok h <->
  rewirable g add remove /\ wf h /\ gn h = gn g /\
    forall a b, adj h a b = (adj g a b && negb (edge_in remove a b)) || edge_in add a b.
Proof.
  intros Hg. split.
  - intros H. pose proof (with_edges_inv _ _ _ _ Hg H) as Hr.
    destruct (with_edges_total g add remove Hg Hr) as (k & Hk & ?). rewrite H in Hk. by injection Hk as <-.
  - intros (Hr & Hh & Hn & Ha). destruct (with_edges_total g add remove Hg Hr) as (k & -> & Hk & Hnk & Hb).
    f_equal. apply graph_ext; [done..|congruence|]. intros u v. by rewrite Ha, Hb.
Qed.

Lemma with_edges_correct_witness :
  exists h, with_edges K4 [] [(0, 1)] = Ok h /\ wf h /\ adj h 1 0 = false.
Proof.
  eexists. split; [vm_compute; reflexivity|].
  destruct (proj1 (with_edges_correct K4 [] [(0, 1)] (mkBitGraph 4 [12; 12; 11; 7]) K4_wf)) as (_ & Hh & _ & Ha);
    [vm_compute; reflexivity|].
  split; [exact Hh|]. rewrite Ha. vm_compute. reflexivity.
Defined.
