(* ===== verification/Cycles.v ===== *)
(** * The reference cycle searches

    [src/src/sglab/model.py]: [find_cycle_of_length], the deliberately slow
    depth-first reference, and [find_cycles_of_length_bounded_profiled] with
    its two wrappers, the enumeration under a witness limit and a node budget.
    Both grow simple paths from a start vertex through larger vertices only;
    [rpath] is the relation that both explore. *)

From S2P Require Import Prelude Bits Model.

(** ** [find_cycle_of_length] *)

(** [bits = rows[last] & ~visited; bits &= ~((1 << (start + 1)) - 1)] *)
Definition avail (g : BitGraph) (start visited last : Z) : Z :=
  Z.land (Z.land (row g last) (Z.lnot visited)) (Z.lnot (ones (start + 1))).

(** The inner [dfs]. [path] and [visited] are the closure's list and cell, which
    the code restores after each call; [fuel] bounds the recursion depth. *)
Fixpoint dfs (g : BitGraph) (len start : Z) (fuel : nat) (path : list Z) (visited last : Z)
  : option (list Z) :=
  if Z.of_nat (length path) =? len then
    if adj g last start then Some path else None
  else
    match fuel with
    | O => None
    | S f =>
        first_some (fun nxt => dfs g len start f (path ++ [nxt]) (Z.lor visited (bit nxt)) nxt)
          (bits_of (avail g start visited last))
    end.

(** A path grows to [length] vertices, so [length] calls deep is enough
    ([dfs_complete]). *)
Definition find_cycle_of_length (g : BitGraph) (len : Z) : option (list Z) :=
  if (len <? 3) || (gn g <? len) then None
  else first_some (fun start => dfs g len start (Z.to_nat len) [start] (bit start) start)
         (range 0 (gn g)).

(** ** [find_cycles_of_length_bounded_profiled] *)

(** The variables the closure shares: [found], [visited_nodes],
    [budget_exhausted] *)
Record Enum := mkEnum { found : list (list Z); visited_nodes : Z; budget_exhausted : bool }.

Section Enumerate.
Context (g : BitGraph) (len limit : Z) (node_budget : option Z).

(** [len(found) >= limit or budget_exhausted] *)
Definition stopped (s : Enum) : bool :=
  (limit <=? Z.of_nat (length (found s))) || budget_exhausted s.

Definition over_budget (nodes : Z) : bool :=
  match node_budget with Some b => b <? nodes | None => false end.

Section Start.
Context (start : Z).

(** [while bits and len(found) < limit and not budget_exhausted] *)
Fixpoint while_bits (body : Enum -> Z -> Enum) (s : Enum) (bits : list Z) : Enum :=
  match bits with
  | [] => s
  | b :: bits' => if stopped s then s else while_bits body (body s b) bits'
  end.

Fixpoint enum_dfs (fuel : nat) (path : list Z) (last seen : Z) (s : Enum) : Enum :=
  if stopped s then s
  else
    let nodes := visited_nodes s + 1 in
    if over_budget nodes then mkEnum (found s) nodes true
    else
      let s := mkEnum (found s) nodes (budget_exhausted s) in
      if Z.of_nat (length path) =? len then
        match path !! 1%nat, list.last path with
        | Some second, Some final =>
            if adj g last start && (second <? final)
            then mkEnum (found s ++ [path]) (visited_nodes s) (budget_exhausted s)
            else s
        | _, _ => s
        end
      else
        match fuel with
        | O => s
        | S f =>
            while_bits (fun s nxt => enum_dfs f (path ++ [nxt]) nxt (Z.lor seen (bit nxt)) s) s
              (bits_of (avail g start seen last))
        end.
End Start.

(** [for start in range(n)], left by [break] once a bound is reached *)
Fixpoint enum_starts (starts : list Z) (s : Enum) : Enum :=
  match starts with
  | [] => s
  | start :: starts' =>
      let s' := enum_dfs start (Z.to_nat len) [start] start (bit start) s in
      if stopped s' then s' else enum_starts starts' s'
  end.

Definition find_cycles_of_length_bounded_profiled : res (list (list Z) * bool * Z) :=
  if (limit <=? 0) || (len <? 3) || (gn g <? len) then Ok ([], true, 0)
  else if match node_budget with Some b => b <? 1 | None => false end
  then Raise (ValueError "node_budget must be positive")
  else
    let s := enum_starts (range 0 (gn g)) (mkEnum [] 0 false) in
    Ok (found s, negb (budget_exhausted s) && (Z.of_nat (length (found s)) <? limit), visited_nodes s).

Definition find_cycles_of_length_bounded : res (list (list Z) * bool) :=
  r ← find_cycles_of_length_bounded_profiled; Ok (r.1.1, r.1.2).
End Enumerate.

Definition find_cycles_of_length (g : BitGraph) (len limit : Z) : res (list (list Z)) :=
  r ← find_cycles_of_length_bounded g len limit None; Ok r.1.

(** ** What a cycle is *)

(** A simple cycle of [len] vertices, written from any of them *)
Definition is_cycle (g : BitGraph) (len : Z) (c : list Z) : Prop :=
  3 <= len /\ Z.of_nat (length c) = len /\ NoDup c /\ chain (edge_rel g) (c ++ take 1 c).

Definition has_cycle (g : BitGraph) (len : Z) : Prop := exists c, is_cycle g len c.

(** The same cycle started elsewhere, or walked the other way *)
Definition rotation (c d : list Z) : Prop := exists l1 l2, c = l1 ++ l2 /\ d = l2 ++ l1.
Definition same_cycle (c d : list Z) : Prop := rotation c d \/ rotation (reverse c) d.

(** Simple paths from [start] through larger vertices, with their last vertex *)
Inductive rpath (g : BitGraph) (start : Z) : list Z -> Z -> Prop :=
  | rpath_one : vertex g start -> rpath g start [start] start
  | rpath_snoc path last v :
      rpath g start path last -> adj g last v = true -> v ∉ path -> start < v ->
      rpath g start (path ++ [v]) v.

(** A cycle written from its smallest vertex *)
Definition rooted (g : BitGraph) (len start : Z) (c : list Z) : Prop :=
  3 <= len /\ Z.of_nat (length c) = len /\
  exists last, rpath g start c last /\ adj g last start = true.

(** The bitset that goes with a path *)
Definition mask_of (path : list Z) (m : Z) : Prop :=
  0 <= m /\ forall i, Z.testbit m i = true <-> i ∈ path.

(** ** Rooted paths *)

Section RPath.
Context (g : BitGraph) (start : Z).

Lemma rpath_hd path last : rpath g start path last -> exists p, path = start :: p /\ forall x, x ∈ p -> start < x.
Proof.
  induction 1 as [|path last v _ (p & -> & Hp) _ _ Hv]; [exists []; set_solver|].
  exists (p ++ [v]). split; [done|]. set_solver.
Qed.

Lemma rpath_last path last : rpath g start path last -> exists p, path = p ++ [last].
Proof. destruct 1 as [|path last v]; [by exists []|by exists path]. Qed.

Lemma rpath_vertex path last x : wf g -> rpath g start path last -> x ∈ path -> vertex g x.
Proof.
  intros Hg. induction 1 as [|path last v _ IH Ha _ _]; intros Hx.
  - apply list_elem_of_singleton in Hx. by subst.
  - apply elem_of_app in Hx as [?|Hx]; [auto|]. apply list_elem_of_singleton in Hx as ->.
    by apply (wf_range g Hg) in Ha as [_ ?].
Qed.

Lemma rpath_NoDup path last : rpath g start path last -> NoDup path.
Proof.
  induction 1 as [|path last v _ IH _ Hv _]; [apply NoDup_singleton|].
  apply NoDup_app. split_all; [done|set_solver|apply NoDup_singleton].
Qed.

Lemma rpath_chain path last : rpath g start path last -> chain (edge_rel g) path.
Proof.
  induction 1 as [|path last v Hp IH Ha _ _]; [done|].
  destruct (rpath_last _ _ Hp) as (p & ->). rewrite <- app_assoc. cbn. by apply chain_snoc.
Qed.

Lemma rpath_last_in path last : rpath g start path last -> last ∈ path.
Proof. intros (p & ->)%rpath_last. set_solver. Qed.

Lemma rpath_bound path last :
  wf g -> rpath g start path last -> Z.of_nat (length path) <= gn g.
Proof.
  intros Hg Hp. pose proof (wf_n g Hg).
  assert (length path <= length (range 0 (gn g)))%nat as Hle.
  { apply submseteq_length, NoDup_submseteq; [by apply (rpath_NoDup _ last)|].
    intros x Hx. apply elem_of_range. by apply (rpath_vertex _ _ _ Hg Hp). }
  rewrite length_range in Hle. lia.
Qed.

Lemma rpath_snoc_inv p v z :
  rpath g start (p ++ [v]) z -> p <> [] ->
  z = v /\ exists last, rpath g start p last /\ adj g last v = true /\ v ∉ p /\ start < v.
Proof.
  intros Hz Hne. remember (p ++ [v]) as q eqn:Eq. destruct Hz as [Hs|p' l' w Hp' Ha Hin Hlt].
  - change [start] with ([] ++ [start]) in Eq. apply app_inj_tail in Eq as [<- _]. done.
  - apply app_inj_tail in Eq as [-> ->]. eauto 10.
Qed.

Lemma rpath_last_unique p last last' : rpath g start p last -> rpath g start p last' -> last = last'.
Proof.
  intros (a & ->)%rpath_last (b & Hb)%rpath_last. by apply app_inj_tail in Hb as [_ ?].
Qed.

(** A proper extension of a rooted path starts with an allowed step. *)
Lemma rpath_extend p last v q z :
  rpath g start p last -> rpath g start (p ++ v :: q) z ->
  adj g last v = true /\ v ∉ p /\ start < v /\ rpath g start (p ++ [v]) v.
Proof.
  intros Hp. assert (p <> []) as Hne by (destruct (rpath_hd _ _ Hp) as (? & -> & _); done).
  revert z. induction q as [|x q IH] using rev_ind; intros z Hz.
  - pose proof Hz as Hz'. apply rpath_snoc_inv in Hz' as (-> & l' & Hp' & Ha & Hin & Hlt); [|done].
    rewrite <- (rpath_last_unique _ _ _ Hp Hp') in Ha. done.
  - rewrite app_comm_cons, app_assoc in Hz.
    apply rpath_snoc_inv in Hz as (-> & l' & Hp' & _); [by apply (IH l')|].
    by destruct p.
Qed.

Lemma rpath_intro p :
  vertex g start -> chain (edge_rel g) (start :: p) -> NoDup (start :: p) ->
  (forall x, x ∈ p -> start < x) -> exists last, rpath g start (start :: p) last.
Proof.
  induction p as [|v p IH] using rev_ind; intros Hs Hc Hnd Hlt.
  { exists start. by apply rpath_one. }
  rewrite app_comm_cons in Hc, Hnd.
  destruct IH as (last & Hp).
  - done.
  - destruct p as [|y p] using rev_ind; [done|]. rewrite app_comm_cons, <- app_assoc in Hc.
    cbn in Hc. apply (chain_cut _ (start :: p) y [v]) in Hc. tauto.
  - by apply NoDup_app in Hnd as [? _].
  - intros x Hx. apply Hlt. set_solver.
  - exists v. rewrite app_comm_cons. apply rpath_snoc with last; [done| | |].
    + destruct (rpath_last _ _ Hp) as (q & Hq). rewrite Hq, <- app_assoc in Hc. cbn in Hc.
      by apply chain_snoc in Hc as [_ ?].
    + apply NoDup_app in Hnd as (_ & Hd & _). intros Hin. apply (Hd _ Hin). set_solver.
    + apply Hlt. set_solver.
Qed.

Lemma mask_of_start : 0 <= start -> mask_of [start] (bit start).
Proof.
  intros Hs. pose proof (bit_pos start Hs). split; [lia|]. intros i.
  rewrite testbit_bit, Z.eqb_eq by done. by rewrite list_elem_of_singleton.
Qed.

Lemma mask_of_snoc path m v : 0 <= v -> mask_of path m -> mask_of (path ++ [v]) (Z.lor m (bit v)).
Proof.
  intros Hv [Hm Hi]. pose proof (bit_pos v Hv). split; [apply Z.lor_nonneg; lia|].
  intros i. rewrite testbit_lor_bit, orb_true_iff, Z.eqb_eq, Hi by done.
  by rewrite elem_of_app, list_elem_of_singleton.
Qed.

(** The bits a search tries next are the allowed steps. *)
Lemma elem_of_avail path m last v :
  wf g -> rpath g start path last -> mask_of path m ->
  v ∈ bits_of (avail g start m last) <-> adj g last v = true /\ v ∉ path /\ start < v.
Proof.
  intros Hg Hp [Hm Hi]. assert (vertex g last) as Hl.
  { apply (rpath_vertex _ _ _ Hg Hp). by apply rpath_last_in. }
  assert (vertex g start) as Hs.
  { apply (rpath_vertex _ _ _ Hg Hp). destruct (rpath_hd _ _ Hp) as (? & -> & _). set_solver. }
  destruct Hs as [Hs _]. unfold avail.
  rewrite elem_of_bits_of by (rewrite !Z.land_nonneg; left; left; apply (wf_nonneg g Hg)).
  rewrite adj_row by apply Hl. destruct (Z.lt_ge_cases v 0).
  { rewrite !Z.testbit_neg_r by done. intuition congruence. }
  rewrite !Z.land_spec, !Z.lnot_spec, testbit_ones by lia.
  rewrite !andb_true_iff, !negb_true_iff, andb_false_iff, <- Hi.
  destruct (Z.testbit m v); intuition (congruence || lia).
Qed.
End RPath.

(** ** The depth-first search is sound and complete *)

Section Dfs.
Context (g : BitGraph) (Hg : wf g) (len start : Z).

Lemma dfs_sound fuel path m last c :
  rpath g start path last -> mask_of path m -> dfs g len start fuel path m last = Some c ->
  exists z, rpath g start c z /\ Z.of_nat (length c) = len /\ adj g z start = true.
Proof.
  revert path m last. induction fuel as [|f IH]; intros path m last Hp Hm; cbn [dfs];
    (destruct (Z.eqb_spec (Z.of_nat (length path)) len) as [Hl|Hl];
     [destruct (adj g last start) eqn:Ha; [intros [= <-]; by exists last|done]|]); [done|].
  intros (v & Hv & Hd)%first_some_Some.
  apply (elem_of_avail g start path m last v Hg Hp Hm) in Hv as (Ha & Hn & Hlt).
  eapply (IH _ _ _ _ _ Hd). Unshelve.
  - by apply rpath_snoc with last.
  - apply mask_of_snoc; [|done]. by apply (wf_range g Hg) in Ha as [_ [? _]].
Qed.

Lemma dfs_complete fuel path m last q z :
  rpath g start path last -> mask_of path m ->
  rpath g start (path ++ q) z -> Z.of_nat (length (path ++ q)) = len -> adj g z start = true ->
  (length q <= fuel)%nat -> dfs g len start fuel path m last <> None.
Proof.
  revert path m last q. induction fuel as [|f IH]; intros path m last q Hp Hm Hz Hl Ha Hf; cbn [dfs].
  - destruct q; [|cbn in Hf; lia]. rewrite app_nil_r in *. rewrite Hl, Z.eqb_refl.
    destruct (rpath_last _ _ _ _ Hp) as (a & ->), (rpath_last _ _ _ _ Hz) as (b & Hb).
    apply app_inj_tail in Hb as [_ ->]. by rewrite Ha.
  - destruct q as [|v q].
    { rewrite app_nil_r in *. rewrite Hl, Z.eqb_refl.
      destruct (rpath_last _ _ _ _ Hp) as (a & ->), (rpath_last _ _ _ _ Hz) as (b & Hb).
      apply app_inj_tail in Hb as [_ ->]. by rewrite Ha. }
    rewrite length_app in Hl. cbn in Hl.
    destruct (Z.eqb_spec (Z.of_nat (length path)) len); [lia|].
    destruct (rpath_extend _ _ _ _ _ _ _ Hp Hz) as (Hav & Hn & Hlt & Hp').
    rewrite first_some_None. intros Hnone.
    refine (IH (path ++ [v]) (Z.lor m (bit v)) v q Hp' _ _ _ Ha _ (Hnone v _)).
    + apply mask_of_snoc; [|done]. by apply (wf_range g Hg) in Hav as [_ [? _]].
    + by rewrite <- app_assoc.
    + rewrite !length_app. cbn. lia.
    + cbn in Hf. lia.
    + by apply (elem_of_avail g start path m last v Hg Hp Hm).
Qed.
End Dfs.

Lemma find_cycle_sound g len c :
  wf g -> find_cycle_of_length g len = Some c -> exists start, rooted g len start c.
Proof.
  intros Hg. unfold find_cycle_of_length.
  destruct ((len <? 3) || (gn g <? len)) eqn:Eb; [done|]. apply orb_false_iff in Eb as [Hb _].
  intros (s & Hs%elem_of_range & Hd)%first_some_Some. exists s.
  destruct (dfs_sound g Hg len s _ _ _ _ _ (rpath_one g s Hs) (mask_of_start s ltac:(lia)) Hd)
    as (z & Hp & Hl & Ha).
  unfold rooted; split_all; [lia|done|]. by exists z.
Qed.

Lemma find_cycle_complete g len start c :
  wf g -> rooted g len start c -> find_cycle_of_length g len <> None.
Proof.
  intros Hg (H3 & Hl & z & Hp & Ha). unfold find_cycle_of_length.
  pose proof (rpath_bound _ _ _ _ Hg Hp) as Hb.
  replace ((len <? 3) || (gn g <? len)) with false by (symmetry; apply orb_false_iff; lia).
  rewrite first_some_None. intros Hn.
  destruct (rpath_hd _ _ _ _ Hp) as (p & -> & Hlt).
  assert (vertex g start) as Hs by (apply (rpath_vertex _ _ _ _ _ Hg Hp); set_solver).
  refine (dfs_complete g Hg len start _ [start] (bit start) start p z (rpath_one g start Hs) _ Hp Hl Ha _ (Hn start _)).
  - apply mask_of_start, Hs.
  - cbn in Hl. lia.
  - by apply elem_of_range.
Qed.

(** ** Cycles, rotations, and the rooted form *)

Lemma closed_chain_rotate {A} (R : A -> A -> Prop) h l1 m l2 :
  chain R (h :: l1 ++ m :: l2 ++ [h]) -> chain R (m :: l2 ++ h :: l1 ++ [m]).
Proof.
  intros [H1 H2]%(chain_cut R (h :: l1) m (l2 ++ [h])).
  by apply (chain_cut R (m :: l2) h (l1 ++ [m])).
Qed.

Lemma is_cycle_rotation g len c d : is_cycle g len c -> rotation c d -> is_cycle g len d.
Proof.
  intros (H3 & Hl & Hnd & Hc) (l1 & l2 & -> & ->).
  unfold is_cycle. rewrite length_app in *. split_all; [done|lia|..].
  - apply NoDup_app in Hnd as (? & Hd & ?). apply NoDup_app. split_all; [done| |done].
    intros x H2 H1. by apply (Hd x).
  - destruct l1 as [|h l1]; [by rewrite app_nil_r|].
    destruct l2 as [|m l2]; [by rewrite app_nil_r in Hc|].
    change (take 1 ((h :: l1) ++ m :: l2)) with [h] in Hc.
    change (take 1 ((m :: l2) ++ h :: l1)) with [m].
    rewrite <- ?app_assoc, <- ?app_comm_cons, <- ?app_assoc in *.
    by apply closed_chain_rotate.
Qed.

Lemma rotation_sym c d : rotation c d -> rotation d c.
Proof. intros (l1 & l2 & -> & ->). by exists l2, l1. Qed.

Lemma is_cycle_reverse g len c : wf g -> is_cycle g len c -> is_cycle g len (reverse c).
Proof.
  intros Hg (H3 & Hl & Hnd & Hc). destruct c as [|h p]; [cbn in Hl; lia|].
  apply (is_cycle_rotation g len (h :: reverse p)).
  2: { exists [h], (reverse p). by rewrite reverse_cons. }
  unfold is_cycle. split_all; [done| |..].
  - cbn in *. by rewrite length_reverse.
  - apply NoDup_cons in Hnd as [? ?]. apply NoDup_cons.
    split; [by rewrite elem_of_reverse|by rewrite reverse_Permutation].
  - change (take 1 (h :: p)) with [h] in Hc. change (take 1 (h :: reverse p)) with [h].
    apply (chain_reverse (edge_rel g)) in Hc.
    + by rewrite reverse_snoc, reverse_cons in Hc.
    + intros x y. unfold edge_rel. by rewrite (wf_sym g Hg).
Qed.

Lemma is_cycle_vertex g len c x : wf g -> is_cycle g len c -> x ∈ c -> vertex g x.
Proof.
  intros Hg Hc (l1 & l2 & ->)%list_elem_of_split.
  assert (is_cycle g len (x :: l2 ++ l1)) as (H3 & Hl & _ & Hch).
  { apply (is_cycle_rotation _ _ _ _ Hc). by exists l1, (x :: l2). }
  destruct (l2 ++ l1) as [|y l] eqn:E; [cbn in Hl; lia|].
  rewrite <- app_comm_cons in Hch. cbn in Hch. destruct Hch as [Hxy _].
  by apply (wf_range g Hg) in Hxy as [? _].
Qed.

Lemma rooted_is_cycle g len start c : rooted g len start c -> is_cycle g len c.
Proof.
  intros (H3 & Hl & last & Hp & Ha). unfold is_cycle. split_all; [done..| |].
  - by apply (rpath_NoDup g start c last).
  - pose proof (rpath_chain _ _ _ _ Hp) as Hc.
    destruct (rpath_hd _ _ _ _ Hp) as (p & Hcp & _). destruct (rpath_last _ _ _ _ Hp) as (q & Hq).
    replace (take 1 c) with [start] by by rewrite Hcp. rewrite Hq, <- app_assoc. cbn.
    apply chain_snoc. by rewrite <- Hq.
Qed.

Lemma list_minimum (l : list Z) : l <> [] -> exists m, m ∈ l /\ forall x, x ∈ l -> m <= x.
Proof.
  induction l as [|a l IH]; [done|]. intros _. destruct l as [|b l].
  { exists a. split; [set_solver|]. intros x ->%list_elem_of_singleton. lia. }
  destruct IH as (m & Hm & Hmin); [done|].
  destruct (Z.le_ge_cases a m); [exists a|exists m]; (split; [set_solver|]);
    intros x [->|Hx]%elem_of_cons; try lia; specialize (Hmin x Hx); lia.
Qed.

(** Every cycle can be written from its smallest vertex. *)
Lemma is_cycle_rooted g len c :
  wf g -> is_cycle g len c -> exists start d, rotation c d /\ rooted g len start d.
Proof.
  intros Hg Hc. pose proof Hc as (H3 & Hl & Hnd & _).
  destruct (list_minimum c) as (m & Hm & Hmin); [intros ->; cbn in Hl; lia|].
  pose proof (is_cycle_vertex g len c m Hg Hc Hm) as Hv.
  apply list_elem_of_split in Hm as (l1 & l2 & ->).
  assert (rotation (l1 ++ m :: l2) (m :: l2 ++ l1)) as Hr by (by exists l1, (m :: l2)).
  exists m, (m :: l2 ++ l1). split; [done|].
  destruct (is_cycle_rotation _ _ _ _ Hc Hr) as (_ & Hld & Hndd & Hcd).
  change (take 1 (m :: l2 ++ l1)) with [m] in Hcd.
  destruct (rpath_intro g m (l2 ++ l1)) as (last & Hp); [done| |done|..].
  - destruct (exists_last (l := m :: l2 ++ l1) ltac:(done)) as (q & z & Hq).
    rewrite Hq, <- app_assoc in Hcd. cbn in Hcd. apply chain_snoc in Hcd as [? _]. by rewrite Hq.
  - intros x Hx. assert (m <= x) by (apply Hmin; set_solver).
    assert (m <> x); [|lia]. intros ->. apply NoDup_cons in Hndd as [? _]. done.
  - unfold rooted; split_all; [done..|]. exists last. split; [done|].
    destruct (rpath_last _ _ _ _ Hp) as (q & Hq).
    rewrite Hq, <- app_assoc in Hcd. cbn in Hcd. by apply chain_snoc in Hcd as [_ ?].
Qed.

Lemma find_cycle_None_iff g len :
  wf g -> find_cycle_of_length g len = None <-> ~ has_cycle g len.
Proof.
  intros Hg. split.
  - intros Hn (c & Hc). destruct (is_cycle_rooted g len c Hg Hc) as (s & d & _ & Hd).
    by apply (find_cycle_complete g len s d).
  - intros Hn. destruct (find_cycle_of_length g len) as [c|] eqn:E; [|done].
    destruct Hn. apply find_cycle_sound in E as (s & Hs); [|done]. exists c.
    by apply (rooted_is_cycle g len s).
Qed.

Lemma find_cycle_Some_cycle g len c :
  wf g -> find_cycle_of_length g len = Some c -> is_cycle g len c.
Proof. intros Hg (s & Hs)%find_cycle_sound; [|done]. by apply (rooted_is_cycle g len s). Qed.

(** ** The bounded enumeration *)

(** The form in which the enumeration lists a cycle: from its smallest vertex,
    towards the smaller of that vertex's two neighbours. *)
Definition canonical_from (g : BitGraph) (len start : Z) (c : list Z) : Prop :=
  rooted g len start c /\
  exists a b, c !! 1%nat = Some a /\ list.last c = Some b /\ a < b.
Definition canonical (g : BitGraph) (len : Z) (c : list Z) : Prop :=
  exists start, canonical_from g len start c.

Section Enumeration.
Context (g : BitGraph) (Hg : wf g) (len limit : Z) (node_budget : option Z).

Local Abbreviation halted := (stopped limit).

(** Running from [s] to [s'] lists the cycles of [P]: what is new are distinct
    members of [P], and all of them unless a bound was reached. *)
Definition explored (P : list Z -> Prop) (s s' : Enum) : Prop :=
  exists new, found s' = found s ++ new /\ NoDup new /\ (forall c, c ∈ new -> P c) /\
    (halted s' = false -> halted s = false /\ forall c, P c -> c ∈ new).

Lemma explored_halted P s : halted s = true -> explored P s s.
Proof.
  intros Hs. exists []. rewrite app_nil_r. split_all; [done|apply NoDup_nil_2|set_solver|].
  congruence.
Qed.

Lemma explored_none P s s' :
  found s' = found s -> (halted s' = false -> halted s = false) ->
  (halted s' = false -> forall c, ~ P c) -> explored P s s'.
Proof.
  intros Hf Hs Hn. exists []. rewrite app_nil_r. split_all; [done|apply NoDup_nil_2|set_solver|].
  intros Hh. split; [by apply Hs|]. intros c Hc. by apply (Hn Hh) in Hc.
Qed.

Lemma explored_ext (P Q : list Z -> Prop) s s' :
  (forall c, P c <-> Q c) -> explored P s s' -> explored Q s s'.
Proof.
  intros He (new & Hf & Hnd & Hp & Hc). exists new.
  split_all; [done..| |].
  - intros c Hcn. by apply He, Hp.
  - intros Hh. destruct (Hc Hh) as [? Hall]. split; [done|].
    intros c Hq. by apply Hall, He.
Qed.

Lemma explored_seq (P Q : list Z -> Prop) s s1 s2 :
  (forall c, P c -> ~ Q c) -> explored P s s1 -> explored Q s1 s2 ->
  explored (fun c => P c \/ Q c) s s2.
Proof.
  intros Hd (n1 & Hf1 & Hn1 & Hp1 & Hc1) (n2 & Hf2 & Hn2 & Hp2 & Hc2).
  exists (n1 ++ n2). split_all.
  - by rewrite Hf2, Hf1, app_assoc.
  - apply NoDup_app. split_all; [done| |done]. intros c H1 H2.
    by apply (Hd c); [apply Hp1|apply Hp2].
  - intros c [?|?]%elem_of_app; [left; by apply Hp1|right; by apply Hp2].
  - intros Hh. destruct (Hc2 Hh) as [Hh1 Hall2]. destruct (Hc1 Hh1) as [Hh0 Hall1].
    split; [done|]. intros c [Hc|Hc]; apply elem_of_app; [left; by apply Hall1|right; by apply Hall2].
Qed.

Lemma while_bits_explored (P : Z -> list Z -> Prop) body bits s :
  NoDup bits -> (forall v w c, v <> w -> P v c -> ~ P w c) ->
  (forall v s, v ∈ bits -> explored (P v) s (body s v)) ->
  explored (fun c => exists v, v ∈ bits /\ P v c) s (while_bits limit body s bits).
Proof.
  intros Hnd Hd. revert s. induction bits as [|b bits IH]; intros s Hb; cbn.
  { apply explored_none; [done|done|]. intros _ c (v & Hv & _). set_solver. }
  apply NoDup_cons in Hnd as [Hnb Hnd].
  destruct (halted s) eqn:Hs; [by apply explored_halted|].
  apply (explored_ext (fun c => P b c \/ exists v, v ∈ bits /\ P v c)).
  { intros c. set_solver. }
  apply explored_seq with (body s b).
  - intros c Hpb (v & Hv & Hpv). refine (Hd b v c _ Hpb Hpv). by intros ->.
  - apply Hb. set_solver.
  - apply IH; [done|]. intros v s' Hv. apply Hb. set_solver.
Qed.

Section FromStart.
Context (start : Z).

Definition extends (path c : list Z) : Prop :=
  canonical_from g len start c /\ exists q, c = path ++ q.

Lemma extends_step path last m c :
  rpath g start path last -> mask_of path m -> Z.of_nat (length path) < len ->
  extends path c <->
    exists v, v ∈ bits_of (avail g start m last) /\ extends (path ++ [v]) c.
Proof.
  intros Hp Hm Hl. split.
  - intros [Hc [q ->]]. destruct Hc as [(H3 & Hlc & z & Hz & Ha) Hcan] eqn:E. clear E.
    destruct q as [|v q].
    { rewrite app_nil_r in Hlc. lia. }
    exists v. pose proof (rpath_extend _ _ _ _ _ _ _ Hp Hz) as (? & ? & ? & _). split.
    + by apply (elem_of_avail g start path m last v Hg Hp Hm).
    + split; [|exists q; by rewrite <- app_assoc]. split; [|done].
      unfold rooted. split_all; [done..|]. by exists z.
  - intros (v & _ & Hc & q & ->). split; [done|]. exists (v :: q). by rewrite <- app_assoc.
Qed.

Lemma extends_disjoint path v w c :
  v <> w -> extends (path ++ [v]) c -> ~ extends (path ++ [w]) c.
Proof.
  intros Hne [_ [q ->]] [_ [r Hr]]. rewrite <- !app_assoc in Hr.
  apply app_inv_head in Hr. by injection Hr as ? _.
Qed.

(** A path of full length extends to itself at most. *)
Lemma extends_full path last c :
  3 <= len -> rpath g start path last -> Z.of_nat (length path) = len ->
  extends path c <-> c = path /\ adj g last start = true /\
    exists a b, path !! 1%nat = Some a /\ list.last path = Some b /\ a < b.
Proof.
  intros H3 Hp Hl. split.
  - intros [[(_ & Hlc & z & Hz & Ha) Hcan] [q ->]].
    assert (q = []) as ->. { rewrite length_app in Hlc. destruct q; [done|cbn in Hlc; lia]. }
    rewrite app_nil_r in *. by rewrite (rpath_last_unique _ _ _ _ _ Hp Hz).
  - intros (-> & Ha & Hcan). split; [|exists []; by rewrite app_nil_r].
    split; [|done]. unfold rooted. split_all; [done..|]. by exists last.
Qed.

Lemma explored_over_budget P s nodes : explored P s (mkEnum (found s) nodes true).
Proof.
  assert (halted (mkEnum (found s) nodes true) = true) as Hh by apply orb_true_r.
  apply explored_none; [done|congruence..].
Qed.

(** The visit of a path of full length *)
Lemma full_explored path last s s' :
  3 <= len -> rpath g start path last -> Z.of_nat (length path) = len ->
  halted s = false -> found s' = found s -> budget_exhausted s' = budget_exhausted s ->
  explored (extends path) s
    match path !! 1%nat, list.last path with
    | Some second, Some final =>
        if adj g last start && (second <? final)
        then mkEnum (found s' ++ [path]) (visited_nodes s') (budget_exhausted s')
        else s'
    | _, _ => s'
    end.
Proof.
  intros H3 Hp Hfull Hs Hf Hb. pose proof (fun c => extends_full path last c H3 Hp Hfull) as Hx.
  destruct (lookup_lt_is_Some_2 path 1) as [a Ha1]; [lia|].
  destruct (rpath_last _ _ _ _ Hp) as (p & Hpl).
  assert (list.last path = Some last) as Hlast by (rewrite Hpl; apply last_snoc).
  rewrite Ha1, Hlast. destruct (adj g last start && (a <? last)) eqn:Hadj.
  - apply andb_true_iff in Hadj as [Hadj Hlt]. apply Z.ltb_lt in Hlt.
    exists [path]. split_all; [cbn; by rewrite Hf|apply NoDup_singleton|..].
    + intros c ->%list_elem_of_singleton. apply Hx. split_all; [done..|by exists a, last].
    + intros _. split; [done|]. intros c [-> _]%Hx. set_solver.
  - apply explored_none; [done|done|]. intros _ c (-> & Hadj2 & a' & b' & Ha' & Hb' & Hlt)%Hx.
    rewrite Hadj2 in Hadj. cbn in Hadj. apply Z.ltb_ge in Hadj.
    rewrite Ha1 in Ha'. rewrite Hlast in Hb'. injection Ha' as <-. injection Hb' as <-. lia.
Qed.

Lemma enum_dfs_explored fuel path last m s :
  3 <= len -> rpath g start path last -> mask_of path m ->
  Z.of_nat (length path) <= len -> (Z.to_nat len <= length path + fuel)%nat ->
  explored (extends path) s (enum_dfs g len limit node_budget start fuel path last m s).
Proof.
  intros H3. revert path last m s. induction fuel as [|f IH]; intros path last m s Hp Hm Hl Hf.
  all: cbn [enum_dfs]; destruct (halted s) eqn:Hs; [by apply explored_halted|].
  all: destruct (over_budget node_budget (visited_nodes s + 1)); [by apply explored_over_budget|].
  all: destruct (Z.eqb_spec (Z.of_nat (length path)) len) as [Hfull|Hnf];
    [by apply full_explored|].
  { lia. }
  apply (explored_ext (fun c => exists v, v ∈ bits_of (avail g start m last) /\ extends (path ++ [v]) c)).
  { intros c. symmetry. apply extends_step; [done..|lia]. }
  set (s1 := mkEnum (found s) (visited_nodes s + 1) (budget_exhausted s)).
  change (explored (fun c => exists v, v ∈ bits_of (avail g start m last) /\ extends (path ++ [v]) c) s1
    (while_bits limit (fun s nxt => enum_dfs g len limit node_budget start f (path ++ [nxt]) nxt (Z.lor m (bit nxt)) s)
      s1 (bits_of (avail g start m last)))).
  apply while_bits_explored.
  - apply NoDup_bits_of. unfold avail. rewrite !Z.land_nonneg. left; left. apply (wf_nonneg g Hg).
  - intros v w c. apply extends_disjoint.
  - intros v s' Hv. apply (elem_of_avail g start path m last v Hg Hp Hm) in Hv as (Ha & Hn & Hlt).
    apply IH.
    + by apply rpath_snoc with last.
    + apply mask_of_snoc; [|done]. by apply (wf_range g Hg) in Ha as [_ [? _]].
    + rewrite length_app. cbn. lia.
    + rewrite length_app. cbn. lia.
Qed.
End FromStart.

Lemma extends_start start c : extends start [start] c <-> canonical_from g len start c.
Proof.
  split; [by intros [? _]|]. intros Hc. split; [done|].
  destruct Hc as [(_ & _ & z & Hz & _) _]. destruct (rpath_hd _ _ _ _ Hz) as (p & -> & _).
  by exists p.
Qed.

Lemma enum_starts_explored starts s :
  3 <= len -> NoDup starts -> (forall u, u ∈ starts -> vertex g u) ->
  explored (fun c => exists u, u ∈ starts /\ canonical_from g len u c) s
    (enum_starts g len limit node_budget starts s).
Proof.
  intros H3 Hnd. revert s. induction starts as [|u us IH]; intros s Hv; cbn [enum_starts].
  { apply explored_none; [done|done|]. intros _ c (w & Hw & _). set_solver. }
  apply NoDup_cons in Hnd as [Hnu Hnd].
  assert (vertex g u) as Hu by (apply Hv; set_solver).
  assert (explored (canonical_from g len u) s
    (enum_dfs g len limit node_budget u (Z.to_nat len) [u] u (bit u) s)) as H1.
  { apply (explored_ext (extends u [u])); [by apply extends_start|].
    apply enum_dfs_explored; [done|by apply rpath_one|apply mask_of_start, Hu|cbn; lia|cbn; lia]. }
  set (s1 := enum_dfs _ _ _ _ _ _ _ _ _ _) in *.
  destruct (halted s1) eqn:Hs1.
  - destruct H1 as (new & Hf & Hn & Hp & _). exists new. split_all; [done..| |congruence].
    intros c Hc. exists u. split; [set_solver|]. by apply Hp.
  - apply (explored_ext (fun c => canonical_from g len u c \/
      exists w, w ∈ us /\ canonical_from g len w c)).
    { intros c. set_solver. }
    apply explored_seq with s1; [|done|].
    + intros c [(_ & _ & z & Hz & _) _] (w & Hw & (_ & _ & z' & Hz' & _) & _).
      destruct (rpath_hd _ _ _ _ Hz) as (p & -> & _). destruct (rpath_hd _ _ _ _ Hz') as (p' & Heq & _).
      injection Heq as ->. done.
    + apply IH; [done|]. intros w Hw. apply Hv. set_solver.
Qed.

(** ** The bounds: at most [limit] cycles, at most one node past the budget *)

Definition within (s : Enum) : Prop :=
  Z.of_nat (length (found s)) <= limit /\
  match node_budget with
  | Some b => if budget_exhausted s then visited_nodes s = b + 1 else visited_nodes s <= b
  | None => budget_exhausted s = false
  end.

Lemma while_bits_within body bits s :
  (forall v s, within s -> within (body s v)) -> within s -> within (while_bits limit body s bits).
Proof.
  intros Hb. revert s. induction bits as [|b bits IH]; intros s Hs; cbn; [done|].
  destruct (halted s); [done|]. by apply IH, Hb.
Qed.

Lemma enum_dfs_within start fuel path last m s :
  within s -> within (enum_dfs g len limit node_budget start fuel path last m s).
Proof.
  revert path last m s. induction fuel as [|f IH]; intros path last m s Hw.
  all: cbn [enum_dfs]; destruct (halted s) eqn:Hs; [done|].
  all: apply orb_false_iff in Hs as [Hlim Hex]; apply Z.leb_gt in Hlim.
  all: destruct (over_budget node_budget (visited_nodes s + 1)) eqn:Hob.
  1,3: destruct Hw as [Hlen Hn]; unfold within, over_budget in *; cbn;
    destruct node_budget; [rewrite Hex in Hn; apply Z.ltb_lt in Hob; lia|done].
  all: assert (within (mkEnum (found s) (visited_nodes s + 1) (budget_exhausted s))) as Hw1
    by (destruct Hw as [Hlen Hn]; unfold within, over_budget in *; cbn;
        destruct node_budget; [rewrite Hex in *; apply Z.ltb_ge in Hob; lia|done]).
  all: destruct (Z.of_nat (length path) =? len).
  all: try (destruct (path !! 1%nat); [|done]; destruct (list.last path); [|done];
    destruct (adj g last start && _); [|done]; destruct Hw1 as [Hl1 Hn1]; split;
    [cbn in *; rewrite length_app; cbn; lia|done]).
  - done.
  - apply while_bits_within; [|done]. intros v s' Hs'. by apply IH.
Qed.

Lemma enum_starts_within starts s : within s -> within (enum_starts g len limit node_budget starts s).
Proof.
  revert s. induction starts as [|u us IH]; intros s Hs; cbn [enum_starts]; [done|].
  assert (within (enum_dfs g len limit node_budget u (Z.to_nat len) [u] u (bit u) s))
    by by apply enum_dfs_within.
  destruct (halted _); [done|]. by apply IH.
Qed.
End Enumeration.

(** ** Canonical forms *)

Lemma rotation_trans c d e : rotation c d -> rotation d e -> rotation c e.
Proof.
  intros (l1 & l2 & -> & ->) (m1 & m2 & Heq & ->).
  apply app_eq_inv in Heq as [(k & -> & ->)|(k & -> & ->)].
  - exists (l1 ++ m1), k. by rewrite <- !app_assoc.
  - exists k, (m2 ++ l2). by rewrite <- !app_assoc.
Qed.

Lemma rotation_reverse c d : rotation c d -> rotation (reverse c) (reverse d).
Proof.
  intros (l1 & l2 & -> & ->). exists (reverse l2), (reverse l1). by rewrite !reverse_app.
Qed.

Lemma rotation_elem_of c d x : rotation c d -> x ∈ c <-> x ∈ d.
Proof. intros (l1 & l2 & -> & ->). set_solver. Qed.

Lemma rooted_hd g len start c :
  rooted g len start c -> exists p, c = start :: p /\ forall x, x ∈ p -> start < x.
Proof. intros (_ & _ & z & Hz & _). by apply (rpath_hd g start c z). Qed.

Lemma rooted_rotation_eq g len s t c d :
  rooted g len s c -> rooted g len t d -> rotation c d -> c = d.
Proof.
  intros Hc Hd Hr. destruct (rooted_hd _ _ _ _ Hc) as (p & Hcp & Hp).
  destruct (rooted_hd _ _ _ _ Hd) as (q & Hdq & Hq).
  assert (s = t) as <-.
  { assert (s ∈ d) as Hs by (apply (rotation_elem_of c d s Hr); set_solver).
    assert (t ∈ c) as Ht by (apply (rotation_elem_of c d t Hr); set_solver).
    rewrite Hdq in Hs. rewrite Hcp in Ht.
    apply elem_of_cons in Hs as [?|Hs], Ht as [?|Ht]; try done.
    apply Hq in Hs. apply Hp in Ht. lia. }
  destruct Hr as (l1 & l2 & -> & ->).
  destruct l1 as [|x l1]; [by rewrite app_nil_r|]. destruct l2 as [|y l2]; [by rewrite app_nil_r|].
  cbn in Hcp, Hdq. injection Hcp as -> _. injection Hdq as -> _.
  apply rooted_is_cycle in Hc as (_ & _ & Hnd & _).
  apply NoDup_app in Hnd as (_ & Hdj & _). exfalso. apply (Hdj s); set_solver.
Qed.

(** The walk the other way, from the same root *)
Lemma rooted_reversed g len s p :
  wf g -> rooted g len s (s :: p) ->
  rooted g len s (s :: reverse p) /\ rotation (reverse (s :: p)) (s :: reverse p).
Proof.
  intros Hg Hr. assert (rotation (reverse (s :: p)) (s :: reverse p)) as Hrot.
  { rewrite reverse_cons. by exists (reverse p), [s]. }
  split; [|done]. pose proof (rooted_is_cycle _ _ _ _ Hr) as Hc.
  pose proof (is_cycle_rotation _ _ _ _ (is_cycle_reverse _ _ _ Hg Hc) Hrot) as Hc'.
  destruct (rooted_hd _ _ _ _ Hr) as (p' & [= <-] & Hlt).
  pose proof Hc' as (H3 & Hl & Hnd & Hch).
  change (take 1 (s :: reverse p)) with [s] in Hch.
  destruct (rpath_intro g s (reverse p)) as (z & Hz).
  - apply (is_cycle_vertex g len (s :: p)); [done|done|set_solver].
  - destruct (exists_last (l := s :: reverse p) ltac:(done)) as (q & z & Hq).
    rewrite Hq, <- app_assoc in Hch. cbn in Hch. apply chain_snoc in Hch as [? _]. by rewrite Hq.
  - done.
  - intros x Hx. apply Hlt. by rewrite elem_of_reverse in Hx.
  - unfold rooted. split_all; [done..|]. exists z. split; [done|].
    destruct (rpath_last _ _ _ _ Hz) as (q & Hq).
    rewrite Hq, <- app_assoc in Hch. cbn in Hch. by apply chain_snoc in Hch as [_ ?].
Qed.

Lemma ends_of_reverse (s a b : Z) p :
  (s :: p) !! 1%nat = Some a -> list.last (s :: p) = Some b ->
  (s :: reverse p) !! 1%nat = Some b /\ list.last (s :: reverse p) = Some a.
Proof.
  destruct p as [|x p]; [done|]. intros [= ->] Hl.
  destruct p as [|y p _] using rev_ind.
  - cbn in Hl. injection Hl as <-. done.
  - assert (y = b) as ->.
    { rewrite !app_comm_cons, last_snoc in Hl. congruence. }
    rewrite reverse_cons, reverse_snoc. cbn. split; [done|].
    rewrite !app_comm_cons, last_snoc. done.
Qed.

(** Every cycle has a canonical form, and only one. *)
Lemma canonical_exists g len c :
  wf g -> is_cycle g len c -> exists d, canonical g len d /\ same_cycle c d.
Proof.
  intros Hg Hc. destruct (is_cycle_rooted g len c Hg Hc) as (s & d & Hrot & Hd).
  destruct (rooted_hd _ _ _ _ Hd) as (p & -> & Hlt). pose proof Hd as (H3 & Hl & _).
  destruct (lookup_lt_is_Some_2 (s :: p) 1) as [a Ha]; [lia|].
  destruct (list.last (s :: p)) as [b|] eqn:Hb; [|by apply last_None in Hb].
  destruct (ends_of_reverse s a b p Ha Hb) as [Hb' Ha'].
  destruct (rooted_reversed g len s p Hg Hd) as [Hd' Hrot'].
  destruct (Z.lt_trichotomy a b) as [?|[->|?]].
  - exists (s :: p). split; [|by left]. exists s. split; [done|]. by exists a, b.
  - exfalso. apply rooted_is_cycle in Hd as (_ & _ & Hnd & _).
    rewrite last_lookup in Hb. pose proof (NoDup_lookup _ _ _ _ Hnd Ha Hb) as Heq.
    cbn in Heq, Hl. lia.
  - exists (s :: reverse p). split; [exists s; split; [done|]; by exists b, a|].
    right. apply rotation_trans with (reverse (s :: p)); [|done]. by apply rotation_reverse.
Qed.

Lemma canonical_unique g len c d :
  wf g -> canonical g len c -> canonical g len d -> same_cycle c d -> c = d.
Proof.
  intros Hg (s & Hc & a & b & Ha & Hb & Hab) (t & Hd & a' & b' & Ha' & Hb' & Hab') [Hr|Hr].
  { by apply (rooted_rotation_eq g len s t). }
  destruct (rooted_hd _ _ _ _ Hc) as (p & -> & _).
  destruct (rooted_reversed g len s p Hg Hc) as [Hc' Hrot].
  assert (s :: reverse p = d) as <-.
  { apply (rooted_rotation_eq g len s t); [done..|].
    apply rotation_trans with (reverse (s :: p)); [by apply rotation_sym|done]. }
  destruct (ends_of_reverse s a b p Ha Hb) as [Hb2 Ha2].
  rewrite Hb2 in Ha'. rewrite Ha2 in Hb'. injection Ha' as <-. injection Hb' as <-. lia.
Qed.

Lemma canonical_is_cycle g len c : canonical g len c -> is_cycle g len c.
Proof. intros (s & Hc & _). by apply (rooted_is_cycle g len s). Qed.

Lemma canonical_root g len u c : wf g -> canonical_from g len u c -> vertex g u.
Proof.
  intros Hg [Hr _]. destruct (rooted_hd _ _ _ _ Hr) as (p & -> & _).
  apply (is_cycle_vertex g len (u :: p)); [done|by apply (rooted_is_cycle g len u)|set_solver].
Qed.

(** What the enumeration returns *)
Lemma enumerate_spec g len limit nb cs complete nodes :
  wf g -> find_cycles_of_length_bounded_profiled g len limit nb = Ok (cs, complete, nodes) ->
  NoDup cs /\ (forall c, c ∈ cs -> canonical g len c) /\
  (complete = true -> 0 < limit -> forall c, canonical g len c -> c ∈ cs) /\
  Z.of_nat (length cs) <= Z.max 0 limit /\
  (forall b, nb = Some b -> nodes <= Z.max 0 (b + 1)).
Proof.
  intros Hg. unfold find_cycles_of_length_bounded_profiled.
  destruct ((limit <=? 0) || (len <? 3) || (gn g <? len)) eqn:Ebad.
  { intros [= <- <- <-]. split_all; [apply NoDup_nil_2|set_solver| |cbn; lia|intros; lia].
    intros _ Hlim c (s & (H3 & Hl & z & Hz & _) & _). exfalso.
    pose proof (rpath_bound _ _ _ _ Hg Hz). rewrite !orb_true_iff in Ebad. lia. }
  rewrite !orb_false_iff in Ebad. destruct Ebad as ((Hlim & H3) & Hlen).
  destruct (match nb with Some b => b <? 1 | None => false end) eqn:Enb; [done|].
  intros [= <- <- <-].
  pose proof (enum_starts_explored g Hg len limit nb (range 0 (gn g)) (mkEnum [] 0 false)
    ltac:(lia) (NoDup_range _ _) (fun u => proj1 (elem_of_range _ _ _))) as (new & Hf & Hnd & Hp & Hall).
  assert (within limit nb (enum_starts g len limit nb (range 0 (gn g)) (mkEnum [] 0 false))) as [Hwl Hwn].
  { apply enum_starts_within. split; cbn; [lia|]. destruct nb; [lia|done]. }
  set (s := enum_starts _ _ _ _ _ _) in *. cbn in Hf. rewrite Hf in *. split_all; [done| |..].
  - intros c (u & _ & Hc)%Hp. by exists u.
  - intros Hcomp _ c [u Hu]. apply andb_true_iff in Hcomp as [Hb Hlt].
    apply negb_true_iff in Hb. apply Hall.
    + unfold stopped. rewrite Hb, Hf, orb_false_r. lia.
    + exists u. split; [|done]. apply elem_of_range. by apply (canonical_root g len u c).
  - lia.
  - intros b ->. destruct (budget_exhausted s); lia.
Qed.

(** ** Cycles by index *)

Lemma chain_lookup {A} (R : A -> A -> Prop) l :
  chain R l <-> forall i x y, l !! i = Some x -> l !! S i = Some y -> R x y.
Proof.
  induction l as [|x [|y l] IH].
  - split; [intros _ i|done]. by rewrite lookup_nil.
  - split; [|done]. intros _ [|i] a b Ha Hb; cbn in *; done.
  - rewrite chain_cons, IH. split.
    + intros [Hxy Hr] [|i] a b Ha Hb; [cbn in *; congruence|]. by apply (Hr i).
    + intros Hr. split; [by apply (Hr 0%nat)|]. intros i a b. apply (Hr (S i)).
Qed.

(** The arcs of a closed walk, by index *)
Definition next_index (c : list Z) (i : Z) : Z := (i + 1) mod Z.of_nat (length c).

Lemma closed_chain (R : Z -> Z -> Prop) c :
  chain R (c ++ take 1 c) <->
  forall i, 0 <= i < Z.of_nat (length c) -> R (cell c i) (cell c (next_index c i)).
Proof.
  rewrite chain_lookup. unfold cell, next_index. split.
  - intros Hr i Hi. apply (Hr (Z.to_nat i)).
    + rewrite lookup_app_l by lia. destruct (lookup_lt_is_Some_2 c (Z.to_nat i)) as [x Hx]; [lia|].
      by rewrite Hx.
    + destruct (decide (i + 1 < Z.of_nat (length c))) as [Hlt|Hge].
      * rewrite Z.mod_small, lookup_app_l by lia. replace (S (Z.to_nat i)) with (Z.to_nat (i + 1)) by lia.
        destruct (lookup_lt_is_Some_2 c (Z.to_nat (i + 1))) as [x Hx]; [lia|]. by rewrite Hx.
      * replace (i + 1) with (Z.of_nat (length c)) by lia. rewrite Z.mod_same by lia.
        rewrite lookup_app_r by lia. replace (S (Z.to_nat i) - length c)%nat with 0%nat by lia.
        destruct c; [cbn in Hi; lia|done].
  - intros Hr i x y Hx Hy. assert (S i < length (c ++ take 1 c))%nat as Hlt by by eapply lookup_lt_Some.
    rewrite length_app, length_take in Hlt.
    specialize (Hr (Z.of_nat i)). rewrite Nat2Z.id in Hr. rewrite lookup_app_l in Hx by lia.
    rewrite Hx in Hr. cbn in Hr. enough (default 0 (c !! Z.to_nat ((Z.of_nat i + 1) mod Z.of_nat (length c))) = y) as He.
    { rewrite He in Hr. apply Hr. lia. }
    destruct (decide (S i < length c)%nat) as [Hs|Hs].
    + rewrite Z.mod_small by lia. replace (Z.to_nat (Z.of_nat i + 1)) with (S i) by lia.
      rewrite lookup_app_l in Hy by lia. by rewrite Hy.
    + replace (Z.of_nat i + 1) with (Z.of_nat (length c)) by lia. rewrite Z.mod_same by lia.
      rewrite lookup_app_r in Hy by lia. replace (S i - length c)%nat with 0%nat in Hy by lia.
      destruct c; [done|]. cbn in Hy. by injection Hy as <-.
Qed.

(** The only error is a node budget below one. *)
Lemma profiled_returns g len limit nb :
  (forall b, nb = Some b -> 1 <= b) ->
  exists r, find_cycles_of_length_bounded_profiled g len limit nb = Ok r.
Proof.
  intros Hb. unfold find_cycles_of_length_bounded_profiled. destruct (_ || _); [by eauto|].
  destruct nb as [b|]; [|by eauto]. specialize (Hb b eq_refl).
  replace (b <? 1) with false by lia. by eauto.
Qed.

(** ** Properties *)

(** The reference depth-first search is a decision procedure:
    what it returns is a simple cycle of exactly the requested length, and it
    returns nothing only when the graph has none. *)
Theorem find_cycle_correct g len :
  wf g ->
  match find_cycle_of_length g len with
  | Some c => is_cycle g len c
  | None => ~ has_cycle g len
  end.
Proof.
  intros Hg. destruct (find_cycle_of_length g len) eqn:E; [by apply find_cycle_Some_cycle|].
  by apply find_cycle_None_iff.
Qed.

Lemma find_cycle_correct_witness : is_cycle K4 4 [0; 1; 2; 3] /\ ~ has_cycle K4 5.
Proof.
  split; [exact (find_cycle_correct K4 4 K4_wf)|exact (find_cycle_correct K4 5 K4_wf)].
Defined.


