(* ===== verification/Graph6.v ===== *)
(** * The graph6 codec

    [src/src/sglab/model.py], [BitGraph.encode_graph6_into], [to_graph6],
    [from_graph6] and [stable_hash]. Bytes are integers; a text is the list of
    its code points. *)

From S2P Require Import Prelude Bits Model.

(** ** Encoding *)

(** The upper triangle in the order both loops walk it:
    [for v in range(1, n): for u in range(v)] *)
Definition triangle (n : Z) : list (Z * Z) :=
  v ← range 1 n; u ← range 0 v; [(u, v)].

(** The loop state of [encode_graph6_into]: [output], [value], [width] *)
Record Enc := mkEnc { output : list Z; value : Z; width : Z }.

Definition enc_step (g : BitGraph) (s : Enc) (uv : Z * Z) : Enc :=
  let '(u, v) := uv in
  let b := if negb (Z.land (row g u) (bit v) =? 0) then 1 else 0 in
  let value := Z.lor (Z.shiftl (value s) 1) b in
  let width := width s + 1 in
  if width =? 6 then mkEnc (output s ++ [value + 63]) 0 0
  else mkEnc (output s) value width.

(** The order bytes *)
Definition enc_order (n : Z) : res (list Z) :=
  if n <=? 62 then Ok [n + 63]
  else if n <=? 258047 then
    Ok [126; Z.land (Z.shiftr n 12) 63 + 63; Z.land (Z.shiftr n 6) 63 + 63; Z.land n 63 + 63]
  else Raise (ValueError "graph6 export supports at most 258047 vertices").

Definition encode_graph6_into (g : BitGraph) : res (list Z) :=
  order ← enc_order (gn g);
  let s := foldl (enc_step g) (mkEnc order 0 0) (triangle (gn g)) in
  Ok (if width s =? 0 then output s
      else output s ++ [Z.shiftl (value s) (6 - width s) + 63]).

(** The bytes are all ASCII ([encoded_bytes]), so decoding them is the
    identity on code points. *)
Definition to_graph6 (g : BitGraph) : res (list Z) := encode_graph6_into g.

Section Hash.
(** [hashlib.sha256(...).hexdigest()] *)
Context (sha256 : list Z -> string).

Definition stable_hash (g : BitGraph) : res string :=
  encoded ← encode_graph6_into g; Ok (sha256 encoded).
End Hash.

(** ** Decoding *)

Inductive graph6_input :=
  | Text (code_points : list Z)
  | Bytes (bytes : list Z).

(** [str.encode("ascii")], whose [UnicodeEncodeError] is a [ValueError] *)
Definition encode_ascii (s : list Z) : res (list Z) :=
  if forallb (fun c => c <? 128) s then Ok s else Raise (ValueError "ordinal not in range(128)").

(** [bytes.strip()] removes space, tab, newline, return, vertical tab and form
    feed. *)
Definition is_space (b : Z) : bool := (b =? 32) || ((9 <=? b) && (b <=? 13)).
Fixpoint lstrip (l : list Z) : list Z :=
  match l with
  | b :: l' => if is_space b then lstrip l' else l
  | [] => []
  end.
Definition strip (l : list Z) : list Z := reverse (lstrip (reverse (lstrip l))).

(** [b">>graph6<<"] *)
Definition graph6_header : list Z := [62; 62; 103; 114; 97; 112; 104; 54; 60; 60].
Definition drop_header (raw : list Z) : list Z :=
  if decide (take 10 raw = graph6_header) then drop 10 raw else raw.

(** The order and where the bit bytes start *)
Definition decode_order (raw : list Z) : res (Z * nat) :=
  match raw with
  | [] => Raise (ValueError "empty graph6 input")
  | b0 :: rest =>
      if negb (b0 =? 126) then Ok (b0 - 63, 1%nat)
      else match rest with
           | b1 :: b2 :: b3 :: _ =>
               if negb (b1 =? 126)
               then Ok (Z.lor (Z.lor (Z.shiftl (b1 - 63) 12) (Z.shiftl (b2 - 63) 6)) (b3 - 63), 4%nat)
               else Raise (ValueError "large graph6 order encoding is unsupported")
           | _ => Raise (ValueError "large graph6 order encoding is unsupported")
           end
  end.

(** The loop state of the decoder: [edges] and [position] *)
Definition dec_step (encoded : list Z) (s : list (Z * Z) * Z) (uv : Z * Z)
  : res (list (Z * Z) * Z) :=
  let '(es, position) := s in
  b ← py_index encoded (position / 6);
  m ← py_shift1 (5 - position mod 6);
  Ok (if negb (Z.land (b - 63) m =? 0) then es ++ [uv] else es, position + 1).

Definition from_graph6 (input : graph6_input) : res BitGraph :=
  raw ← (match input with Text s => encode_ascii s | Bytes b => Ok b end);
  let raw := drop_header (strip raw) in
  no ← decode_order raw;
  let '(n, offset) := no in
  raise_if (n <? 0) (ValueError "invalid graph6 order") ;;;
  let encoded := drop offset raw in
  raise_if (existsb (fun b => (b <? 63) || (126 <? b)) encoded) (ValueError "invalid graph6 byte") ;;;
  let required := n * (n - 1) / 2 in
  let required_bytes := (required + 5) / 6 in
  let len := Z.of_nat (length encoded) in
  raise_if (len <? required_bytes) (ValueError "truncated graph6 input") ;;;
  raise_if (required_bytes <? len) (ValueError "graph6 input contains trailing data") ;;;
  (if negb (required mod 6 =? 0) && negb (len =? 0) then
     last_byte ← py_index encoded (-1);
     m ← py_shift1 (6 - required mod 6);
     raise_if (negb (Z.land (last_byte - 63) (m - 1) =? 0))
       (ValueError "graph6 padding bits must be zero")
   else Ok tt) ;;;
  s ← foldM (dec_step encoded) ([], 0) (triangle n);
  from_edges n s.1.

(** ** The triangle *)

Lemma elem_of_triangle n u v : (u, v) ∈ triangle n <-> 0 <= u < v /\ v < n.
Proof.
  unfold triangle. rewrite list_elem_of_bind. split.
  - intros (b & Hin & Hb%elem_of_range). apply list_elem_of_bind in Hin as (a & Hp & Ha%elem_of_range).
    apply list_elem_of_singleton in Hp as [= -> ->]. lia.
  - intros [? ?]. exists v. split; [|apply elem_of_range; lia].
    apply list_elem_of_bind. exists u. split; [by apply list_elem_of_singleton|]. apply elem_of_range. lia.
Qed.

Lemma NoDup_triangle n : NoDup (triangle n).
Proof.
  unfold triangle. apply NoDup_bind; [| |apply NoDup_range].
  - intros v1 v2 [a b] _ _ H1 H2.
    apply list_elem_of_bind in H1 as (? & H1%list_elem_of_singleton & _).
    apply list_elem_of_bind in H2 as (? & H2%list_elem_of_singleton & _). congruence.
  - intros v _. apply NoDup_bind.
    + intros u1 u2 e _ _ H1%list_elem_of_singleton H2%list_elem_of_singleton. congruence.
    + intros u _. apply NoDup_singleton.
    + apply NoDup_range.
Qed.

Lemma length_triangle n : 0 <= n -> Z.of_nat (length (triangle n)) = n * (n - 1) / 2.
Proof.
  intros Hn. assert (forall m, 0 <= m -> 2 * Z.of_nat (length (triangle (m + 1))) = (m + 1) * m) as H.
  { apply natlike_ind; [done|]. intros m Hm IH. unfold triangle in *.
    rewrite <- Z.add_1_r, range_snoc by lia. rewrite bind_app, length_app. cbn [mbind list_bind].
    rewrite app_nil_r. assert (length (range 0 (m + 1) ≫= fun u => [(u, m + 1)]) = Z.to_nat (m + 1)) as ->.
    { rewrite <- (Z.sub_0_r (m + 1)) at 2. rewrite <- length_range.
      generalize (range 0 (m + 1)). intros l. induction l as [|x l IHl]; [done|]. cbn. by f_equal. }
    lia. }
  destruct (Z.eq_dec n 0) as [->|?]; [done|].
  specialize (H (n - 1)). rewrite Z.sub_add in H. rewrite <- H by lia.
  rewrite Z.mul_comm, Z.div_mul; lia.
Qed.

(** ** Packing bits six to a byte *)

Definition bit_at (bs : list bool) (i : Z) : bool := default false (bs !! Z.to_nat i).

(** Bit [i] of the stream is bit [5 - i mod 6] of byte [i / 6]. *)
Definition stream_bit (enc : list Z) (i : Z) : bool :=
  Z.testbit (cell enc (i / 6) - 63) (5 - i mod 6).

Definition sixbit (b : Z) : Prop := 63 <= b <= 126.

(** What [enc_step] keeps: the whole groups, and the pending bits in [value] *)
Record enc_inv (order : list Z) (bs : list bool) (s : Enc) (groups : list Z) : Prop := {
  ei_output : output s = order ++ groups;
  ei_len : Z.of_nat (length bs) = 6 * Z.of_nat (length groups) + width s;
  ei_width : 0 <= width s < 6;
  ei_value : 0 <= value s < 2 ^ width s;
  ei_bytes : Forall sixbit groups;
  ei_stream : forall i, 0 <= i < 6 * Z.of_nat (length groups) -> stream_bit groups i = bit_at bs i;
  ei_pending : forall j, 0 <= j < width s ->
    Z.testbit (value s) (width s - 1 - j) = bit_at bs (6 * Z.of_nat (length groups) + j)
}.

Lemma bit_at_snoc bs b i :
  0 <= i <= Z.of_nat (length bs) ->
  bit_at (bs ++ [b]) i = if i =? Z.of_nat (length bs) then b else bit_at bs i.
Proof.
  intros Hi. unfold bit_at. destruct (Z.eqb_spec i (Z.of_nat (length bs))) as [->|Hne].
  - by rewrite Nat2Z.id, lookup_app_r, Nat.sub_diag by lia.
  - by rewrite lookup_app_l by lia.
Qed.

Lemma cell_app_l l1 l2 i : 0 <= i < Z.of_nat (length l1) -> cell (l1 ++ l2) i = cell l1 i.
Proof. intros. unfold cell. by rewrite lookup_app_l by lia. Qed.

Lemma cell_app_r l1 l2 i :
  Z.of_nat (length l1) <= i -> cell (l1 ++ l2) i = cell l2 (i - Z.of_nat (length l1)).
Proof. intros. unfold cell. rewrite lookup_app_r by lia. repeat f_equal. lia. Qed.

Lemma stream_bit_app_l l1 l2 i :
  0 <= i < 6 * Z.of_nat (length l1) -> stream_bit (l1 ++ l2) i = stream_bit l1 i.
Proof.
  intros. unfold stream_bit. rewrite cell_app_l; [done|].
  split; [apply Z.div_pos; lia|]. apply Z.div_lt_upper_bound; lia.
Qed.

Lemma stream_bit_app_r l1 l2 i :
  6 * Z.of_nat (length l1) <= i -> stream_bit (l1 ++ l2) i = stream_bit l2 (i - 6 * Z.of_nat (length l1)).
Proof.
  intros. unfold stream_bit.
  replace i with ((i - 6 * Z.of_nat (length l1)) + Z.of_nat (length l1) * 6) at 1 2 by lia.
  rewrite Z.mod_add, Z.div_add by lia. rewrite cell_app_r.
  - do 2 f_equal. f_equal. lia.
  - assert (0 <= (i - 6 * Z.of_nat (length l1)) / 6) by (apply Z.div_pos; lia). lia.
Qed.

Lemma stream_bit_one x i : 0 <= i < 6 -> stream_bit [x + 63] i = Z.testbit x (5 - i).
Proof.
  intros. unfold stream_bit, cell. rewrite Z.div_small, Z.mod_small by lia.
  change (default 0 ([x + 63] !! Z.to_nat 0)) with (x + 63). f_equal. lia.
Qed.

(** [value = (value << 1) | b] *)
Lemma shift_in v b k :
  0 <= v -> 0 <= k ->
  Z.testbit (Z.lor (Z.shiftl v 1) (if b : bool then 1 else 0)) k =
    if k =? 0 then b else Z.testbit v (k - 1).
Proof.
  intros Hv Hk. rewrite Z.lor_spec, Z.shiftl_spec by done.
  destruct (Z.eqb_spec k 0) as [->|?].
  - rewrite Z.testbit_neg_r by lia. by destruct b.
  - assert (Z.testbit (if b then 1 else 0) k = false) as ->; [|apply orb_false_r].
    destruct b; [|apply Z.testbit_0_l]. change 1 with (bit 0). rewrite testbit_bit by lia. lia.
Qed.

Lemma shift_in_bound v (b : bool) w :
  0 <= w -> 0 <= v < 2 ^ w -> 0 <= Z.lor (Z.shiftl v 1) (if b then 1 else 0) < 2 ^ (w + 1).
Proof.
  intros Hw Hv. assert (0 <= Z.lor (Z.shiftl v 1) (if b then 1 else 0)) as H0.
  { apply Z.lor_nonneg. split; [apply Z.shiftl_nonneg; lia|by destruct b]. }
  split; [done|]. apply testbit_lt_pow2; [done| |lia]. intros i Hi.
  destruct (Z.lt_ge_cases i 0); [by rewrite Z.testbit_neg_r in Hi|].
  rewrite shift_in in Hi by lia. destruct (Z.eqb_spec i 0); [lia|].
  apply Z.nle_gt. intros ?. by rewrite (testbit_above_pow2 v w) in Hi by lia.
Qed.

Lemma sixbit_value v : 0 <= v < 2 ^ 6 -> sixbit (v + 63).
Proof. unfold sixbit. change (2 ^ 6) with 64. lia. Qed.

Lemma enc_inv_step order bs s groups g uv :
  enc_inv order bs s groups -> 0 <= uv.1 -> 0 <= uv.2 ->
  exists groups', enc_inv order (bs ++ [adj g uv.1 uv.2]) (enc_step g s uv) groups'.
Proof.
  intros Hinv Hu Hv. destruct uv as [u v]. cbn in Hu, Hv. cbn [fst snd enc_step].
  rewrite land_bit_nonzero by done. rewrite <- adj_row by done.
  set (b := adj g u v). destruct Hinv as [Ho Hl Hw Hval Hby Hst Hpe].
  pose proof (shift_in_bound (value s) b (width s) ltac:(lia) Hval) as Hb'.
  set (v' := Z.lor (Z.shiftl (value s) 1) (if b then 1 else 0)) in *.
  assert (forall j, 0 <= j < width s + 1 ->
    Z.testbit v' (width s - j) = bit_at (bs ++ [b]) (6 * Z.of_nat (length groups) + j)) as Hpe'.
  { intros j Hj. unfold v'. rewrite shift_in by lia. rewrite bit_at_snoc by lia.
    destruct (Z.eqb_spec (width s - j) 0), (Z.eqb_spec (6 * Z.of_nat (length groups) + j) (Z.of_nat (length bs)));
      try lia; [done|]. rewrite <- Hpe by lia. f_equal. lia. }
  assert (forall i, 0 <= i < 6 * Z.of_nat (length groups) -> stream_bit groups i = bit_at (bs ++ [b]) i) as Hst'.
  { intros i Hi. rewrite bit_at_snoc by lia.
    replace (i =? Z.of_nat (length bs)) with false by lia. by apply Hst. }
  destruct (Z.eqb_spec (width s + 1) 6) as [H6|H6].
  - exists (groups ++ [v' + 63]). rewrite H6 in Hb'. split; cbn.
    + by rewrite Ho, app_assoc.
    + rewrite !length_app. cbn. lia.
    + lia.
    + lia.
    + apply Forall_app. split; [done|]. apply Forall_singleton. by apply sixbit_value.
    + intros i Hi. rewrite length_app in Hi. cbn in Hi.
      destruct (Z.lt_ge_cases i (6 * Z.of_nat (length groups))).
      * rewrite stream_bit_app_l by lia. apply Hst'. lia.
      * rewrite stream_bit_app_r, stream_bit_one by lia.
        replace (5 - (i - 6 * Z.of_nat (length groups))) with
          (width s - (i - 6 * Z.of_nat (length groups))) by lia.
        rewrite Hpe' by lia. f_equal. lia.
    + intros j Hj. lia.
  - exists groups. split; cbn; [done| |lia|done|done|done|].
    + rewrite length_app. cbn. lia.
    + intros j Hj. rewrite <- Hpe' by lia. f_equal. lia.
Qed.

(** The finished byte string packs the bits, padded with zeros. *)
Record packs (bs : list bool) (enc : list Z) : Prop := {
  pk_len : Z.of_nat (length enc) = (Z.of_nat (length bs) + 5) / 6;
  pk_bytes : Forall sixbit enc;
  pk_stream : forall i, 0 <= i < Z.of_nat (length bs) -> stream_bit enc i = bit_at bs i;
  pk_padding : forall i, Z.of_nat (length bs) <= i < 6 * Z.of_nat (length enc) -> stream_bit enc i = false
}.

Lemma enc_inv_packs order bs s groups :
  enc_inv order bs s groups ->
  exists enc, (if width s =? 0 then output s
       else output s ++ [Z.shiftl (value s) (6 - width s) + 63]) = order ++ enc /\ packs bs enc.
Proof.
  intros [Ho Hl Hw Hval Hby Hst Hpe]. destruct (Z.eqb_spec (width s) 0) as [H0|H0].
  - exists groups. split; [done|]. split; [|done|..].
    + rewrite Hl, H0. rewrite Z.add_0_r, Z.mul_comm, Z.div_add_l by lia. rewrite (Z.div_small 5) by lia. lia.
    + intros i Hi. apply Hst. lia.
    + intros i Hi. lia.
  - set (v' := Z.shiftl (value s) (6 - width s)).
    assert (0 <= v' < 2 ^ 6) as Hv'.
    { unfold v'. rewrite Z.shiftl_mul_pow2 by lia. replace 6 with (width s + (6 - width s)) at 3 by lia.
      rewrite Z.pow_add_r by lia. pose proof (Z.pow_pos_nonneg 2 (6 - width s)). nia. }
    exists (groups ++ [v' + 63]). split; [by rewrite Ho, app_assoc|].
    assert (forall i, 6 * Z.of_nat (length groups) <= i < 6 * Z.of_nat (length groups) + 6 ->
      stream_bit (groups ++ [v' + 63]) i =
        Z.testbit (value s) (width s - 1 - (i - 6 * Z.of_nat (length groups)))) as Hlast.
    { intros i Hi. rewrite stream_bit_app_r, stream_bit_one by lia.
      unfold v'. rewrite Z.shiftl_spec by lia. f_equal. lia. }
    split.
    + rewrite length_app. cbn. rewrite Hl.
      replace (6 * Z.of_nat (length groups) + width s + 5) with
        ((width s - 1) + (Z.of_nat (length groups) + 1) * 6) by lia.
      rewrite Z.div_add, Z.div_small by lia. lia.
    + apply Forall_app. split; [done|]. apply Forall_singleton. by apply sixbit_value.
    + intros i Hi. destruct (Z.lt_ge_cases i (6 * Z.of_nat (length groups))).
      * rewrite stream_bit_app_l by lia. apply Hst. lia.
      * rewrite Hlast, Hpe by lia. f_equal. lia.
    + intros i Hi. rewrite length_app in Hi. cbn in Hi. rewrite Hlast by lia.
      apply Z.testbit_neg_r. lia.
Qed.

(** ** What the encoder writes *)

Definition triangle_bits (g : BitGraph) : list bool :=
  (fun uv => adj g uv.1 uv.2) <$> triangle (gn g).

Lemma enc_loop g order l :
  (forall u v, (u, v) ∈ l -> 0 <= u /\ 0 <= v) ->
  exists groups, enc_inv order ((fun uv => adj g uv.1 uv.2) <$> l)
    (foldl (enc_step g) (mkEnc order 0 0) l) groups.
Proof.
  induction l as [|[u v] l IH] using rev_ind; intros Hl.
  - exists []. split; cbn; try done; try lia; [by rewrite app_nil_r].
  - destruct IH as (groups & Hinv); [intros a b Hab; apply Hl; set_solver|].
    destruct (Hl u v) as [Hu Hv]; [set_solver|].
    rewrite foldl_app, fmap_app. cbn. by apply (enc_inv_step _ _ _ _ g (u, v)) in Hinv.
Qed.

Lemma encode_packs g :
  gn g <= 258047 ->
  exists order enc, enc_order (gn g) = Ok order /\ encode_graph6_into g = Ok (order ++ enc) /\
    packs (triangle_bits g) enc.
Proof.
  intros Hn. unfold encode_graph6_into. destruct (enc_order (gn g)) as [order|e] eqn:Eo.
  2: { unfold enc_order in Eo. destruct (gn g <=? 62); [done|].
       replace (gn g <=? 258047) with true in Eo by lia. done. }
  cbn. destruct (enc_loop g order (triangle (gn g))) as (groups & Hinv).
  { intros u v ?%elem_of_triangle. lia. }
  destruct (enc_inv_packs _ _ _ _ Hinv) as (enc & Heq & Hp). rewrite Heq. eauto.
Qed.

Lemma length_triangle_bits g : 0 <= gn g -> Z.of_nat (length (triangle_bits g)) = gn g * (gn g - 1) / 2.
Proof. intros. unfold triangle_bits. rewrite length_fmap. by apply length_triangle. Qed.

Lemma land_63 x : 0 <= Z.land x 63 < 64.
Proof. change 63 with (Z.ones 6). rewrite Z.land_ones by lia. by apply Z.mod_pos_bound. Qed.

Lemma enc_order_bytes n order :
  0 <= n -> enc_order n = Ok order -> Forall sixbit order /\ order <> [] /\ hd 0 order <> 62.
Proof.
  unfold enc_order, sixbit. intros Hn. destruct (Z.leb_spec n 62).
  { intros [= <-]. split_all; [|done|cbn; lia]. apply Forall_singleton. lia. }
  destruct (n <=? 258047); [|done]. intros [= <-]. split_all; [|done|cbn; lia].
  pose proof (land_63 (Z.shiftr n 12)). pose proof (land_63 (Z.shiftr n 6)). pose proof (land_63 n).
  repeat (apply Forall_cons; split; [lia|]). apply Forall_nil_2.
Qed.

(** The three six-bit digits put the order together again. *)
Lemma order_digits n :
  0 <= n <= 258047 ->
  Z.lor (Z.lor (Z.shiftl (Z.land (Z.shiftr n 12) 63) 12) (Z.shiftl (Z.land (Z.shiftr n 6) 63) 6))
    (Z.land n 63) = n.
Proof.
  intros Hn. change 63 with (Z.ones 6). apply Z.bits_inj'. intros i Hi.
  rewrite !Z.lor_spec, !Z.shiftl_spec, !Z.land_spec by done.
  assert (forall j, Z.testbit (Z.ones 6) j = (0 <=? j) && (j <? 6)) as Ho.
  { intros j. by apply Z.testbit_ones. }
  rewrite !Ho. destruct (Z.lt_ge_cases i 18) as [Hlt|Hge].
  - destruct (Z.lt_ge_cases i 6), (Z.lt_ge_cases i 12); try lia.
    + rewrite (Z.testbit_neg_r _ (i - 12)), (Z.testbit_neg_r _ (i - 6)) by lia.
      replace (0 <=? i) with true by lia. replace (i <? 6) with true by lia. by rewrite andb_true_r.
    + rewrite (Z.testbit_neg_r _ (i - 12)), Z.shiftr_spec, Z.sub_add by lia.
      replace (0 <=? i - 6) with true by lia. replace (i - 6 <? 6) with true by lia.
      replace (i <? 6) with false by lia. by rewrite !andb_true_r, !andb_false_r, orb_false_r.
    + rewrite (Z.shiftr_spec _ _ (i - 12)), Z.sub_add by lia.
      replace (0 <=? i - 12) with true by lia. replace (i - 12 <? 6) with true by lia.
      replace (i - 6 <? 6) with false by lia. replace (i <? 6) with false by lia.
      by rewrite !andb_true_r, !andb_false_r, !orb_false_r.
  - replace (i - 12 <? 6) with false by lia. replace (i - 6 <? 6) with false by lia.
    replace (i <? 6) with false by lia. rewrite !andb_false_r. cbn. symmetry.
    apply (testbit_above_pow2 n 18); [|done]. change (2 ^ 18) with 262144. lia.
Qed.

Lemma decode_enc_order n order rest :
  0 <= n <= 258047 -> enc_order n = Ok order ->
  decode_order (order ++ rest) = Ok (n, length order).
Proof.
  intros Hn. unfold enc_order. destruct (Z.leb_spec n 62).
  { intros [= <-]. cbn [app decode_order]. replace (n + 63 =? 126) with false by lia. cbn.
    do 2 f_equal. lia. }
  replace (n <=? 258047) with true by lia. intros [= <-]. cbn [app decode_order].
  assert (Z.land (Z.shiftr n 12) 63 <> 63) as Hne.
  { change 63 with (Z.ones 6) at 1. rewrite Z.land_ones, Z.shiftr_div_pow2 by lia.
    change (2 ^ 12) with 4096. change (2 ^ 6) with 64.
    assert (n / 4096 < 63) by (apply Z.div_lt_upper_bound; lia).
    assert (0 <= n / 4096) by (apply Z.div_pos; lia). rewrite Z.mod_small by lia. lia. }
  replace (Z.land (Z.shiftr n 12) 63 + 63 =? 126) with false by lia. cbn [negb].
  rewrite !Z.add_simpl_r. cbn. by rewrite order_digits.
Qed.

(** ** What the decoder reads back *)

Lemma lstrip_sixbit l : Forall sixbit l -> lstrip l = l.
Proof.
  destruct 1 as [|b l Hb _]; [done|]. cbn. unfold is_space, sixbit in *.
  replace (b =? 32) with false by lia. by replace ((9 <=? b) && (b <=? 13)) with false by lia.
Qed.

Lemma strip_sixbit l : Forall sixbit l -> strip l = l.
Proof.
  intros Hl. unfold strip. rewrite (lstrip_sixbit l Hl), lstrip_sixbit.
  - apply reverse_involutive.
  - by apply Forall_reverse.
Qed.

Lemma drop_header_other l : hd 0 l <> 62 -> drop_header l = l.
Proof.
  intros Hl. unfold drop_header. case_decide as Hd; [|done]. destruct l; [done|].
  cbn in Hd, Hl. injection Hd as -> _. done.
Qed.

Lemma dec_loop g enc :
  packs (triangle_bits g) enc ->
  foldM (dec_step enc) ([], 0) (triangle (gn g)) =
    Ok (filter (fun uv => adj g uv.1 uv.2 = true) (triangle (gn g)),
        Z.of_nat (length (triangle (gn g)))).
Proof.
  intros Hp. destruct (foldM_total (fun pre s =>
    s = (filter (fun uv => adj g uv.1 uv.2 = true) pre, Z.of_nat (length pre)))
    (dec_step enc) (triangle (gn g)) ([], 0)) as (s & -> & ->); [|done|done].
  intros pre uv post s Heq ->. eexists. split; [|done]. cbn [dec_step].
  assert (Z.of_nat (length pre) < Z.of_nat (length (triangle_bits g))) as Hlt.
  { unfold triangle_bits. rewrite length_fmap, Heq, length_app. cbn. lia. }
  pose proof (pk_len _ _ Hp) as Hlen.
  destruct (py_index_in_range enc (Z.of_nat (length pre) / 6)) as (b & Hb & ->).
  { split; [apply Z.div_pos; lia|]. rewrite Hlen. apply Z.div_lt_upper_bound; [lia|].
    pose proof (Z.div_mod (Z.of_nat (length (triangle_bits g)) + 5) 6).
    pose proof (Z.mod_pos_bound (Z.of_nat (length (triangle_bits g)) + 5) 6). lia. }
  cbn. pose proof (Z.mod_pos_bound (Z.of_nat (length pre)) 6 ltac:(lia)).
  rewrite py_shift1_bit by lia. cbn. rewrite land_bit_nonzero by lia.
  assert (Z.testbit (b - 63) (5 - Z.of_nat (length pre) mod 6) = adj g uv.1 uv.2) as ->.
  { pose proof (pk_stream _ _ Hp (Z.of_nat (length pre)) ltac:(lia)) as Hs.
    unfold stream_bit in Hs. rewrite (cell_lookup _ _ _ Hb) in Hs. rewrite Hs.
    unfold bit_at, triangle_bits. rewrite Nat2Z.id, list_lookup_fmap, Heq.
    by rewrite list_lookup_middle. }
  rewrite filter_app, filter_cons, length_app. do 2 f_equal; [|cbn; lia].
  destruct (adj g uv.1 uv.2); case_decide; [done|congruence|congruence|by rewrite app_nil_r].
Qed.

Lemma from_edges_triangle g :
  wf g -> from_edges (gn g) (filter (fun uv => adj g uv.1 uv.2 = true) (triangle (gn g))) = Ok g.
Proof.
  intros Hg. set (es := filter _ _).
  assert (forall u v, (u, v) ∈ es <-> adj g u v = true /\ u < v) as He.
  { intros u v. unfold es. rewrite list_elem_of_filter, elem_of_triangle. cbn. split; [tauto|].
    intros [Ha Hlt]. pose proof (wf_range g Hg u v Ha) as [Hu Hv]. unfold vertex in *. intuition. }
  assert (forall a b, edge_in es a b = adj g a b) as Hin.
  { intros a b. rewrite <- (edge_in_edges g) by done. apply eq_true_iff_eq.
    rewrite !edge_in_true, !He, !elem_of_edges by done. tauto. }
  destruct (from_edges_total (gn g) es) as (h & -> & Hwf & Hn & Ha).
  - apply (wf_n g Hg).
  - intros pre u v post Heq. assert ((u, v) ∈ es) as Huv by (rewrite Heq; set_solver).
    apply He in Huv as [Hadj Hlt]. pose proof (wf_range g Hg u v Hadj) as [Hu Hv]. unfold vertex in *.
    split_all; [lia..|]. destruct (edge_in pre u v) eqn:E; [|done]. exfalso.
    assert (NoDup es) as Hnd by (apply NoDup_filter, NoDup_triangle). rewrite Heq in Hnd.
    apply NoDup_app in Hnd as (_ & Hd & _). apply edge_in_true in E as [E|E].
    + apply (Hd _ E). set_solver.
    + assert ((v, u) ∈ es) as Hvu by (rewrite Heq; set_solver). apply He in Hvu. lia.
  - f_equal. apply graph_ext; [done..|]. intros u v. by rewrite Ha, Hin.
Qed.

Lemma padding_zero bs enc x r :
  packs bs enc -> r = Z.of_nat (length bs) mod 6 -> r <> 0 ->
  cell enc (Z.of_nat (length enc) - 1) = x -> Z.land (x - 63) (bit (6 - r) - 1) = 0.
Proof.
  intros Hp -> Hr <-. pose proof (Z.mod_pos_bound (Z.of_nat (length bs)) 6 ltac:(lia)) as Hm.
  apply Z.bits_inj'. intros k Hk. rewrite Z.land_spec, Z.testbit_0_l.
  change (bit ?k - 1) with (ones k). rewrite testbit_ones by lia.
  destruct (Z.ltb_spec k (6 - Z.of_nat (length bs) mod 6)) as [Hlt|]; [|by rewrite !andb_false_r].
  replace (0 <=? k) with true by lia. rewrite andb_true_r.
  pose proof (pk_len _ _ Hp) as Hl. pose proof (Z.div_mod (Z.of_nat (length bs)) 6 ltac:(lia)) as Hdm.
  assert (Z.of_nat (length enc) = Z.of_nat (length bs) / 6 + 1) as Hl'.
  { rewrite Hl. rewrite Hdm at 1. rewrite Z.mul_comm, <- Z.add_assoc, Z.div_add_l by lia.
    rewrite (Z.div_unique (Z.of_nat (length bs) mod 6 + 5) 6 1 (Z.of_nat (length bs) mod 6 - 1)); lia. }
  pose proof (pk_padding _ _ Hp (6 * (Z.of_nat (length enc) - 1) + (5 - k)) ltac:(lia)) as Hs.
  unfold stream_bit in Hs. rewrite Z.mul_comm, Z.div_add_l, (Z.div_small (5 - k)), Z.add_0_r in Hs by lia.
  rewrite Z.add_comm, Z.mod_add, Z.mod_small in Hs by lia.
  by replace (5 - (5 - k)) with k in Hs by lia.
Qed.

(** Decoding what the encoder wrote gives the graph back. *)
Lemma decode_encoded g s :
  wf g -> encode_graph6_into g = Ok s -> from_graph6 (Bytes s) = Ok g.
Proof.
  intros Hg Henc. pose proof (wf_n g Hg) as Hn.
  assert (gn g <= 258047) as Hmax.
  { unfold encode_graph6_into, enc_order in Henc. destruct (gn g <=? 62) eqn:?; [lia|].
    destruct (gn g <=? 258047) eqn:?; [lia|done]. }
  destruct (encode_packs g Hmax) as (order & enc & Ho & He & Hp).
  rewrite He in Henc. injection Henc as <-.
  destruct (enc_order_bytes _ _ Hn Ho) as (Hb & Hne & H62).
  unfold from_graph6. cbn [mbind res_bind].
  rewrite strip_sixbit by (apply Forall_app; split; [done|apply (pk_bytes _ _ Hp)]).
  rewrite drop_header_other by (destruct order; [done|apply H62]).
  rewrite (decode_enc_order (gn g)) by (done || lia). cbn [mbind res_bind].
  rewrite drop_app_length. replace (gn g <? 0) with false by lia. cbn [raise_if mbind res_bind].
  assert (existsb (fun b => (b <? 63) || (126 <? b)) enc = false) as ->.
  { destruct (existsb _ enc) eqn:E; [|done]. apply existsb_exists in E as (b & Hin & E).
    apply list_elem_of_In in Hin. pose proof (proj1 (Forall_forall _ _) (pk_bytes _ _ Hp) b Hin).
    unfold sixbit in *. apply orb_true_iff in E. lia. }
  cbn [raise_if mbind res_bind]. rewrite <- length_triangle_bits by done.
  pose proof (pk_len _ _ Hp) as Hlen. rewrite <- Hlen, Z.ltb_irrefl. cbn [raise_if mbind res_bind].
  assert ((if negb (Z.of_nat (length (triangle_bits g)) mod 6 =? 0) && negb (Z.of_nat (length enc) =? 0)
     then last_byte ← py_index enc (-1); m ← py_shift1 (6 - Z.of_nat (length (triangle_bits g)) mod 6);
       raise_if (negb (Z.land (last_byte - 63) (m - 1) =? 0)) (ValueError "graph6 padding bits must be zero")
     else Ok tt) = Ok tt) as ->.
  { destruct (Z.eqb_spec (Z.of_nat (length (triangle_bits g)) mod 6) 0); [done|].
    destruct (Z.eqb_spec (Z.of_nat (length enc)) 0); [done|]. cbn [negb andb].
    pose proof (Z.mod_pos_bound (Z.of_nat (length (triangle_bits g))) 6 ltac:(lia)).
    unfold py_index. replace (-1 <? 0) with true by lia.
    replace (-1 + Z.of_nat (length enc) <? 0) with false by lia.
    destruct (lookup_lt_is_Some_2 enc (Z.to_nat (-1 + Z.of_nat (length enc)))) as [x Hx]; [lia|].
    rewrite Hx. cbn. rewrite py_shift1_bit by lia. cbn.
    rewrite (padding_zero (triangle_bits g) enc x); [done|done|done|done|].
    apply cell_lookup. rewrite <- Hx. f_equal. lia. }
  cbn [mbind res_bind]. rewrite dec_loop by done. cbn. by apply from_edges_triangle.
Qed.

Lemma encoded_bytes g s :
  wf g -> encode_graph6_into g = Ok s -> Forall sixbit s.
Proof.
  intros Hg Henc. assert (gn g <= 258047) as Hmax.
  { unfold encode_graph6_into, enc_order in Henc. destruct (gn g <=? 62) eqn:?; [lia|].
    destruct (gn g <=? 258047) eqn:?; [lia|done]. }
  destruct (encode_packs g Hmax) as (order & enc & Ho & He & Hp).
  rewrite He in Henc. injection Henc as <-. apply Forall_app.
  split; [by apply (enc_order_bytes (gn g)); [apply (wf_n g Hg)|]|apply (pk_bytes _ _ Hp)].
Qed.

(** ** Totality of the decoder *)

Lemma dec_loop_total n enc :
  0 <= n -> Z.of_nat (length enc) = (n * (n - 1) / 2 + 5) / 6 ->
  exists es k, foldM (dec_step enc) ([], 0) (triangle n) = Ok (es, k) /\ es `sublist_of` triangle n.
Proof.
  intros Hn Hlen. rewrite <- length_triangle in Hlen by done.
  destruct (foldM_total (fun pre s => s.2 = Z.of_nat (length pre) /\ s.1 `sublist_of` pre)
    (dec_step enc) (triangle n) ([], 0)) as ([es k] & -> & _ & Hsub); [|done|by exists es, k].
  intros pre uv post [es k] Heq [Hk Hsub]. cbn in Hk, Hsub. subst k.
  assert (Z.of_nat (length pre) < Z.of_nat (length (triangle n))) as Hlt.
  { rewrite Heq, length_app. cbn. lia. }
  cbn [dec_step]. destruct (py_index_in_range enc (Z.of_nat (length pre) / 6)) as (b & _ & ->).
  { split; [apply Z.div_pos; lia|]. rewrite Hlen. apply Z.div_lt_upper_bound; [lia|].
    pose proof (Z.div_mod (Z.of_nat (length (triangle n)) + 5) 6).
    pose proof (Z.mod_pos_bound (Z.of_nat (length (triangle n)) + 5) 6). lia. }
  pose proof (Z.mod_pos_bound (Z.of_nat (length pre)) 6 ltac:(lia)).
  cbn. rewrite py_shift1_bit by lia. cbn. eexists. split; [done|]. cbn.
  rewrite length_app. cbn. split; [lia|]. case_match.
  - by apply sublist_app.
  - by apply sublist_inserts_r.
Qed.

Lemma triangle_sublist n es : 0 <= n -> es `sublist_of` triangle n -> exists g, from_edges n es = Ok g /\ wf g.
Proof.
  intros Hn Hs. destruct (from_edges_total n es Hn) as (g & ? & ? & _); [|by exists g].
  apply simple_edges_ordered.
  - by apply (sublist_NoDup _ _ (NoDup_triangle n)).
  - intros u v Hin. apply elem_of_triangle. by apply (elem_of_sublist _ _ _ Hin Hs).
Qed.

Definition is_value_error {A} (r : res A) : Prop := exists msg, r = Raise (ValueError msg).

Lemma decode_order_cases raw :
  (exists no, decode_order raw = Ok no) \/ is_value_error (decode_order raw).
Proof.
  unfold decode_order, is_value_error.
  repeat case_match; first [left; by eexists | right; by eexists].
Qed.

(** Once the length check has passed, nothing below it can fail but the padding
    check. *)
Lemma decode_body n enc :
  0 <= n -> Z.of_nat (length enc) = (n * (n - 1) / 2 + 5) / 6 ->
  exists g, (s ← foldM (dec_step enc) ([], 0) (triangle n); from_edges n s.1) = Ok g /\ wf g.
Proof.
  intros Hn Hl. destruct (dec_loop_total n enc Hn Hl) as (es & k & -> & Hs).
  by apply triangle_sublist.
Qed.

Lemma from_graph6_cases input :
  (exists g, from_graph6 input = Ok g /\ wf g) \/ is_value_error (from_graph6 input).
Proof.
  unfold from_graph6. set (raw0 := match input with Text s => encode_ascii s | Bytes b => Ok b end).
  assert ((exists r, raw0 = Ok r) \/ is_value_error raw0) as [[r ->]|[msg ->]].
  { unfold raw0, encode_ascii, is_value_error. destruct input as [s|b]; [|left; by eexists].
    destruct (forallb _ s); [left; by eexists|right; by eexists]. }
  2: { right. by eexists. }
  cbn [mbind res_bind]. destruct (decode_order_cases (drop_header (strip r))) as [[[n off] ->]|[msg ->]];
    [|right; by eexists]. cbn [mbind res_bind].
  set (enc := drop off _). unfold raise_if.
  destruct (Z.ltb_spec n 0); [right; by eexists|]. cbn [mbind res_bind].
  destruct (existsb _ enc); [right; by eexists|]. cbn [mbind res_bind].
  destruct (Z.ltb_spec (Z.of_nat (length enc)) ((n * (n - 1) / 2 + 5) / 6)); [right; by eexists|].
  cbn [mbind res_bind].
  destruct (Z.ltb_spec ((n * (n - 1) / 2 + 5) / 6) (Z.of_nat (length enc))); [right; by eexists|].
  cbn [mbind res_bind]. destruct (decode_body n enc) as (g & Hbody & Hg); [lia..|].
  destruct (negb (n * (n - 1) / 2 mod 6 =? 0) && negb (Z.of_nat (length enc) =? 0)) eqn:Ep;
    [|left; by exists g].
  apply andb_true_iff in Ep as [_ Hne].
  destruct (py_index_last enc) as [x ->]; [by destruct enc|].
  pose proof (Z.mod_pos_bound (n * (n - 1) / 2) 6 ltac:(lia)).
  cbn [mbind res_bind]. rewrite py_shift1_bit by lia. cbn [mbind res_bind].
  destruct (negb (Z.land _ _ =? 0)); [right; eexists; reflexivity|]. left. by exists g.
Qed.

Lemma encode_returns g : gn g <= 258047 -> exists s, encode_graph6_into g = Ok s.
Proof.
  intros Hn. unfold encode_graph6_into, enc_order.
  destruct (gn g <=? 62); [by eexists|]. replace (gn g <=? 258047) with true by lia. by eexists.
Qed.

Lemma decode_encoded_text g s : wf g -> encode_graph6_into g = Ok s -> from_graph6 (Text s) = Ok g.
Proof.
  intros Hg Hs. pose proof (encoded_bytes g s Hg Hs) as Hb. pose proof (decode_encoded g s Hg Hs) as Hd.
  assert (encode_ascii s = Ok s) as He; [|unfold from_graph6 in *; by rewrite He].
  unfold encode_ascii. replace (forallb _ s) with true; [done|]. symmetry.
  apply forallb_forall. intros b Hin%list_elem_of_In. rewrite Forall_forall in Hb.
  specialize (Hb b Hin). unfold sixbit in Hb. lia.
Qed.

(** ** Properties *)

(** C28: every graph of at most 258047 vertices has a graph6 encoding,
    its bytes are printable ASCII, and decoding it, as bytes or as text, gives
    the graph back; hence graphs with the same encoding are equal. *)
Theorem graph6_roundtrip g :
  wf g -> gn g <= 258047 ->
  exists s, to_graph6 g = Ok s /\ Forall (fun b => 63 <= b <= 126) s /\
    from_graph6 (Bytes s) = Ok g /\ from_graph6 (Text s) = Ok g /\
    forall h, wf h -> to_graph6 h = Ok s -> h = g.
Proof.
  intros Hg Hn. destruct (encode_returns g Hn) as [s Hs]. exists s.
  pose proof (encoded_bytes g s Hg Hs) as Hb. pose proof (decode_encoded g s Hg Hs) as Hd.
  split_all; [done|done|done| |].
  - by eapply decode_encoded_text.
  - intros h Hh Hs'. pose proof (decode_encoded h s Hh Hs'). congruence.
Qed.

Lemma graph6_roundtrip_witness :
  exists s, to_graph6 K4 = Ok s /\ s = [67; 126] /\ from_graph6 (Bytes s) = Ok K4.
Proof.
  destruct (graph6_roundtrip K4 K4_wf) as (s & Hs & _ & Hb & _); [vm_compute; discriminate|].
  exists s. split; [exact Hs|]. split; [|exact Hb]. vm_compute in Hs. by injection Hs as <-.
Defined.

(** C30: the decoder is total on arbitrary input: it returns a
    well-formed graph or raises [ValueError]; no index or shift in it can fail. *)
Theorem from_graph6_safe input :
  (exists g, from_graph6 input = Ok g /\ wf g) \/
  (exists msg, from_graph6 input = Raise (ValueError msg)).
Proof. apply from_graph6_cases. Qed.
