(* ===== verification/Verification.v ===== *)
(** * The two verifiers and the target plugins' verdicts

    [targets/base.py] (the result records), [targets/erdos_gyarfas.py]
    ([forbidden_lengths], [verify_reference], [validate_graph]),
    [verification.py] (the independent subset-DP verifier) and
    [targets/hidden_witness_control.py]. [elapsed] stands for the difference
    of the two clock readings that a result carries. *)

From S2P Require Import Prelude Bits Model Cycles.
From stdpp Require Import sorting.
From Stdlib Require Export QArith_base.

#[global] Open Scope Z_scope.

(** ** Results ([targets/base.py]) *)

Inductive Status := VERIFIED | REJECTED | UNKNOWN | INVALID.

#[export] Instance Status_eq_dec : EqDecision Status.
Proof. solve_decision. Defined.

Record Witness := mkWitness { kind : string; vertices : list Z }.

Record VerifyResult := mkVerifyResult {
  status : Status;
  complete : bool;
  message : string;
  witnesses : list Witness;
  elapsed_seconds : Q;
  implementation : string;
  error : option string
}.

Record ValidationResult := mkValidationResult { valid : bool; validation_message : string }.

(** ** [forbidden_lengths]: the powers of two from 4 up to the order *)

Fixpoint forbidden_from (fuel : nat) (n current : Z) : list Z :=
  match fuel with
  | O => []
  | S f => if current <=? n then current :: forbidden_from f n (current * 2) else []
  end.

(** The lengths are distinct and at most [n], so [n] turns are enough
    ([elem_of_forbidden_lengths]). *)
Definition forbidden_lengths (n : Z) : list Z := forbidden_from (Z.to_nat n) n 4.

(** The message of a rejection and the kind of its witness *)
Definition found_message (len : Z) : string := ("found a forbidden cycle of length " ++ pretty len)%string.
Definition cycle_kind (len : Z) : string := ("cycle_" ++ pretty len)%string.

(** The first forbidden length that the search finds a cycle of *)
Definition first_forbidden (search : Z -> option (list Z)) (lens : list Z) : option (Z * list Z) :=
  first_some (fun len => (fun c => (len, c)) <$> search len) lens.

Section Clock.
Context (elapsed : Q).

(** ** [verify_reference] *)

Definition verify_reference (g : BitGraph) : VerifyResult :=
  let result st msg ws := mkVerifyResult st true msg ws elapsed "python-reference-dfs" None in
  if gn g =? 0 then result INVALID "graph must be non-empty" []
  else if negb (is_connected g) then result INVALID "minimal-candidate mode requires connectedness" []
  else if minimum_degree g <? 3 then result INVALID "minimum degree is below 3" []
  else
    match first_forbidden (find_cycle_of_length g) (forbidden_lengths (gn g)) with
    | Some (len, c) => result REJECTED (found_message len) [mkWitness (cycle_kind len) c]
    | None => result VERIFIED "no power-of-two cycle was found by the complete reference verifier" []
    end.
End Clock.

(** ** [find_cycle_dynamic]: the subset dynamic program *)

(** The dict of states: (visited set, last vertex) to the first path found *)
Definition dp_states := list ((Z * Z) * list Z).

(** Paths of two vertices *)
Definition dp_init (g : BitGraph) (start : Z) : dp_states :=
  foldl (fun states v =>
    if start <? v then dict_set states (Z.lor (bit start) (bit v), v) [start; v] else states)
    [] (neighbors g start).

(** The body of [for (mask, last), path in states.items()] *)
Definition dp_extend (g : BitGraph) (start : Z) (following : dp_states) (st : (Z * Z) * list Z) : dp_states :=
  let '((mask, last), path) := st in
  foldl (fun fol v => dict_setdefault fol (Z.lor mask (bit v), v) (path ++ [v]))
    following (bits_of (avail g start mask last)).

Definition dp_step (g : BitGraph) (start : Z) (states : dp_states) : dp_states :=
  foldl (dp_extend g start) [] states.

(** [for _ in range(2, length)], left by [break] when no state remains *)
Fixpoint dp_loop (g : BitGraph) (start : Z) (turns : nat) (states : dp_states) : dp_states :=
  match turns with
  | O => states
  | S t =>
      let states' := dp_step g start states in
      match states' with [] => [] | _ => dp_loop g start t states' end
  end.

Definition dp_close (g : BitGraph) (start : Z) (states : dp_states) : option (list Z) :=
  first_some (fun st : (Z * Z) * list Z => if adj g st.1.2 start then Some st.2 else None) states.

Definition find_cycle_dynamic (g : BitGraph) (len : Z) : option (list Z) :=
  if (len <? 3) || (gn g <? len) then None
  else first_some (fun start => dp_close g start (dp_loop g start (Z.to_nat (len - 2)) (dp_init g start)))
         (range 0 (gn g)).

Section Clock.
Context (elapsed : Q).

Definition _result (st : Status) (msg : string) : VerifyResult :=
  mkVerifyResult st true msg [] elapsed "python-subset-dp" None.

Definition verify_dynamic (g : BitGraph) : VerifyResult :=
  if gn g =? 0 then _result INVALID "graph must be non-empty"
  else if negb (is_connected g) then _result INVALID "minimal-candidate mode requires connectedness"
  else if minimum_degree g <? 3 then _result INVALID "minimum degree is below 3"
  else
    match first_forbidden (find_cycle_dynamic g) (forbidden_lengths (gn g)) with
    | Some (len, c) =>
        mkVerifyResult REJECTED true (found_message len) [mkWitness (cycle_kind len) c] elapsed
          "python-subset-dp" None
    | None => _result VERIFIED "no power-of-two cycle was found by the complete subset-DP verifier"
    end.
End Clock.

(** ** The plugins *)

Definition validate_graph (g : BitGraph) : ValidationResult :=
  if gn g =? 0 then mkValidationResult false "graph must be non-empty"
  else if negb (is_connected g) then mkValidationResult false "graph must be connected"
  else if minimum_degree g <? 3 then mkValidationResult false "minimum degree is below 3"
  else mkValidationResult true "valid structural candidate".

Module HiddenWitness.

Definition forbidden_lengths (order : Z) : list Z := if order =? 10 then [3] else [].

Definition validate_graph (g : BitGraph) : ValidationResult :=
  if negb (gn g =? 10) then mkValidationResult false "control target requires order ten"
  else if negb (is_connected g) then mkValidationResult false "control graph must be connected"
  else if existsb (fun u => negb (degree g u =? 3)) (range 0 (gn g))
  then mkValidationResult false "control graph must be cubic"
  else mkValidationResult true "valid hidden-witness control candidate".

Definition exact_verify (elapsed : Q) (g : BitGraph) : VerifyResult :=
  let validation := validate_graph g in
  if negb (valid validation)
  then mkVerifyResult INVALID true (validation_message validation) [] elapsed "python-reference-dfs" None
  else
    match find_cycle_of_length g 3 with
    | Some triangle =>
        mkVerifyResult REJECTED true "found the required triangle" [mkWitness "cycle_3" triangle]
          elapsed "python-reference-dfs" None
    | None =>
        mkVerifyResult VERIFIED true "no triangle exists in the complete reference search" []
          elapsed "python-reference-dfs" None
    end.

End HiddenWitness.

(** ** The claims the verdicts make *)

(** A length the Erdos-Gyarfas conjecture speaks of *)
Definition power_of_two_length (len : Z) : Prop := exists k, 2 <= k /\ len = 2 ^ k.

(** The structural precondition: a non-empty connected graph in which every
    vertex has at least three neighbours *)
Definition minimal_candidate (g : BitGraph) : Prop :=
  gn g <> 0 /\ connected g /\ forall u, vertex g u -> 3 <= degree g u.

(** A counterexample to the conjecture among the minimal candidates *)
Definition counterexample (g : BitGraph) : Prop :=
  minimal_candidate g /\ forall len, power_of_two_length len -> ~ has_cycle g len.

(** ** Forbidden lengths *)

Lemma elem_of_forbidden_from fuel n j len :
  2 <= j -> n < 2 ^ (j + Z.of_nat fuel) ->
  len ∈ forbidden_from fuel n (2 ^ j) <-> len <= n /\ exists k, j <= k /\ len = 2 ^ k.
Proof.
  revert j. induction fuel as [|f IH]; intros j Hj Hn; cbn [forbidden_from].
  { rewrite Nat2Z.inj_0, Z.add_0_r in Hn. split; [set_solver|]. intros (Hle & k & Hk & ->).
    pose proof (Z.pow_le_mono_r 2 j k). lia. }
  destruct (Z.leb_spec (2 ^ j) n) as [Hle|Hgt].
  - rewrite elem_of_cons. replace (2 ^ j * 2) with (2 ^ (j + 1)) by (rewrite Z.pow_add_r; lia).
    rewrite IH; [|lia|by replace (j + 1 + Z.of_nat f) with (j + Z.of_nat (S f)) by lia].
    split.
    + intros [->|(? & k & ? & ->)]; split; [done|exists j; split; [lia|done]|done|exists k; split; [lia|done]].
    + intros (? & k & ? & ->). destruct (decide (k = j)) as [->|]; [by left|].
      right. split; [done|]. exists k. split; [lia|done].
  - split; [set_solver|]. intros (Hl & k & Hk & ->). pose proof (Z.pow_le_mono_r 2 j k). lia.
Qed.

Lemma elem_of_forbidden_lengths n len :
  len ∈ forbidden_lengths n <-> len <= n /\ power_of_two_length len.
Proof.
  unfold forbidden_lengths. change 4 with (2 ^ 2). apply elem_of_forbidden_from; [done|].
  destruct (Z.le_gt_cases n 0) as [Hn|Hn].
  - replace (Z.to_nat n) with 0%nat by lia. cbn. lia.
  - rewrite Z2Nat.id by lia. pose proof (Z.pow_gt_lin_r 2 (2 + n)). lia.
Qed.

(** Lengths above the order have no cycle, so the forbidden ones are enough. *)
Lemma has_cycle_le g len : wf g -> has_cycle g len -> len <= gn g.
Proof.
  intros Hg (c & Hc). pose proof Hc as (_ & Hl & Hnd & _). pose proof (wf_n g Hg).
  assert (length c <= length (range 0 (gn g)))%nat as Hle.
  { apply submseteq_length, NoDup_submseteq; [done|]. intros x Hx. apply elem_of_range.
    by apply (is_cycle_vertex g len c). }
  rewrite length_range in Hle. lia.
Qed.

Lemma forbidden_cycles g :
  wf g ->
  (forall len, len ∈ forbidden_lengths (gn g) -> ~ has_cycle g len) <->
  (forall len, power_of_two_length len -> ~ has_cycle g len).
Proof.
  intros Hg. split; intros H len Hl.
  - intros Hc. apply (H len); [|done]. apply elem_of_forbidden_lengths. split; [|done].
    by apply has_cycle_le.
  - apply elem_of_forbidden_lengths in Hl as [_ ?]. by apply H.
Qed.

(** ** The dynamic program explores the same paths as the depth-first search *)

Definition dp_inv (g : BitGraph) (start : Z) (k : nat) (states : dp_states) : Prop :=
  (forall m z path, ((m, z), path) ∈ states ->
     rpath g start path z /\ mask_of path m /\ length path = k) /\
  (forall path z, rpath g start path z -> length path = k ->
     exists m path', mask_of path m /\ ((m, z), path') ∈ states).

Lemma mask_of_same p q m x : mask_of p m -> mask_of q m -> x ∈ p <-> x ∈ q.
Proof. intros [_ Hp] [_ Hq]. by rewrite <- Hp, <- Hq. Qed.

Lemma foldl_elem_of {A B} (f : list A -> B -> list A) (P : B -> A -> Prop) l acc x :
  (forall acc b y, y ∈ f acc b -> y ∈ acc \/ P b y) ->
  x ∈ foldl f acc l -> x ∈ acc \/ exists b, b ∈ l /\ P b x.
Proof.
  intros Hf. revert acc. induction l as [|b l IH]; cbn; intros acc Hx; [by left|].
  apply IH in Hx as [Hx|(b' & ? & ?)]; [|right; exists b'; set_solver].
  apply Hf in Hx as [?|?]; [by left|]. right. exists b. set_solver.
Qed.

Lemma foldl_mono {A B} (f : list A -> B -> list A) l acc x :
  (forall acc b y, y ∈ acc -> y ∈ f acc b) -> x ∈ acc -> x ∈ foldl f acc l.
Proof. intros Hf. revert acc. induction l as [|b l IH]; cbn; auto. Qed.

(** A body run on a list that holds [b] has run on [b]. *)
Lemma foldl_reaches {A B} (f : list A -> B -> list A) (Q : list A -> Prop) l acc b :
  b ∈ l -> (forall acc, Q (f acc b)) -> (forall acc c, Q acc -> Q (f acc c)) -> Q (foldl f acc l).
Proof.
  intros Hb Hq Hm. revert acc. induction l as [|c l IH]; [set_solver|]. intros acc. cbn.
  apply elem_of_cons in Hb as [->|Hb]; [|by apply IH].
  clear IH. generalize (f acc c) (Hq acc). induction l as [|d l IH]; cbn; intros a Ha; [done|].
  apply IH, Hm, Ha.
Qed.

Section Dynamic.
Context (g : BitGraph) (start : Z) (Hg : wf g) (Hs : vertex g start).

(** What a state stands for *)
Definition dp_state (k : nat) (st : (Z * Z) * list Z) : Prop :=
  rpath g start st.2 st.1.2 /\ mask_of st.2 st.1.1 /\ length st.2 = k.

Lemma dp_state_snoc k m z path v :
  dp_state k ((m, z), path) -> adj g z v = true -> v ∉ path -> start < v ->
  dp_state (S k) ((Z.lor m (bit v), v), path ++ [v]).
Proof.
  intros (Hp & Hm & Hl) Ha Hn Hlt. unfold dp_state. cbn in *. split_all.
  - by apply (rpath_snoc g start path z v).
  - apply mask_of_snoc; [|done]. apply (wf_range g Hg) in Ha as [_ Ha]. apply Ha.
  - rewrite length_app. cbn. lia.
Qed.

Lemma dp_state_start : dp_state 1 ((bit start, start), [start]).
Proof.
  unfold dp_state. split_all; [by apply rpath_one| |done]. apply mask_of_start. apply Hs.
Qed.

Lemma elem_of_greater_neighbors v :
  v ∈ neighbors g start /\ start < v <-> adj g start v = true /\ v ∉ [start] /\ start < v.
Proof. rewrite elem_of_neighbors, list_elem_of_singleton by done. intuition lia. Qed.

Lemma dp_init_inv : dp_inv g start 2 (dp_init g start).
Proof.
  split.
  - intros m z path Hin. unfold dp_init in Hin.
    apply (foldl_elem_of _ (fun v x => v ∈ neighbors g start -> dp_state 2 x))
      in Hin as [Hin|(v & Hv & Hx)]; [set_solver|by apply Hx|].
    intros acc v y. destruct (Z.ltb_spec start v); [|by left].
    intros [?| ->]%elem_of_dict_set; [by left|]. right. intros Hv.
    destruct (proj1 (elem_of_greater_neighbors v)) as (Ha & Hn & Hlt); [done|].
    by apply (dp_state_snoc _ _ _ _ v dp_state_start).
  - intros path z Hp Hl. destruct path as [|a [|b [|]]]; try done.
    destruct (rpath_snoc_inv g start [a] b z Hp) as (-> & last & Hp1 & Ha & Hn & Hlt); [done|].
    destruct (rpath_hd _ _ _ _ Hp1) as (p & [= -> <-] & _).
    assert (last = start) as ->.
    { apply (rpath_last_unique g start [start]); [done|by apply rpath_one]. }
    destruct (proj2 (elem_of_greater_neighbors b)) as [Hin _]; [done|].
    destruct (dp_state_snoc _ _ _ _ b dp_state_start Ha Hn Hlt) as (_ & Hm & _).
    exists (Z.lor (bit start) (bit b)).
    enough (has_key (dp_init g start) (Z.lor (bit start) (bit b), b)) as [p' ?] by eauto.
    unfold dp_init. apply (foldl_reaches _ (fun d => has_key d (Z.lor (bit start) (bit b), b)) _ _ b Hin).
    + intros acc. replace (start <? b) with true by lia. apply dict_set_key.
    + intros acc c Hacc. case_match; [|done]. by apply dict_set_key_mono.
Qed.

Lemma dp_extend_key_mono acc st k : has_key acc k -> has_key (dp_extend g start acc st) k.
Proof.
  destruct st as [[m z] path]. cbn. generalize (bits_of (avail g start m z)).
  intros l. revert acc. induction l as [|v l IH]; cbn; intros acc Hk; [done|].
  by apply IH, setdefault_key_mono.
Qed.

Lemma dp_step_inv k states :
  (0 < k)%nat -> dp_inv g start k states -> dp_inv g start (S k) (dp_step g start states).
Proof.
  intros Hk [Hsound Hcomp]. split.
  - intros m z path Hin. unfold dp_step in Hin.
    apply (foldl_elem_of _ (fun st x => st ∈ states -> dp_state (S k) x))
      in Hin as [Hin|(st & Hst & Hx)]; [set_solver|by apply Hx|].
    intros acc [[m1 z1] p1] y Hy. cbn in Hy.
    apply (foldl_elem_of _ (fun v x => v ∈ bits_of (avail g start m1 z1) ->
      x = ((Z.lor m1 (bit v), v), p1 ++ [v]))) in Hy as [?|(v & Hv & Hx)]; [by left| |].
    + right. intros Hold. rewrite (Hx Hv). destruct (Hsound _ _ _ Hold) as (Hp & Hm & Hl). apply (elem_of_avail g start p1 m1 z1 v Hg Hp Hm) in Hv as (? & ? & ?).
      by apply (dp_state_snoc k m1 z1 p1 v).
    + intros acc' v x [?|?]%elem_of_setdefault; [by left|by right].
  - intros path z Hp Hl. destruct path as [|v path _] using rev_ind; [done|].
    rewrite length_app in Hl. cbn in Hl.
    apply rpath_snoc_inv in Hp as (-> & last & Hp & Ha & Hn & Hlt); [|by intros ->; cbn in Hl; lia].
    destruct (Hcomp path last Hp) as (m & q & Hm & Hq); [lia|].
    destruct (Hsound _ _ _ Hq) as (Hrq & Hmq & Hlq).
    assert (v ∈ bits_of (avail g start m last)) as Hv.
    { apply (elem_of_avail g start q m last v Hg Hrq Hmq). split_all; [done| |done].
      by rewrite <- (mask_of_same path q m v). }
    exists (Z.lor m (bit v)).
    enough (has_key (dp_step g start states) (Z.lor m (bit v), v)) as [p' ?].
    { exists p'. split; [|done]. apply mask_of_snoc; [|done].
      apply (wf_range g Hg) in Ha as [_ Ha]. apply Ha. }
    unfold dp_step. apply (foldl_reaches _ (fun d => has_key d (Z.lor m (bit v), v)) _ _ _ Hq).
    + intros acc. cbn. apply (foldl_reaches _ (fun d => has_key d (Z.lor m (bit v), v)) _ _ v Hv).
      * intros acc'. apply setdefault_key.
      * intros acc' c. apply setdefault_key_mono.
    + intros acc st. apply dp_extend_key_mono.
Qed.

(** No path of [k] vertices, so none that is longer *)
Lemma dp_inv_empty t k :
  (0 < k)%nat -> dp_inv g start k [] -> dp_inv g start (t + k) [].
Proof.
  intros Hk [_ Hc]. split; [set_solver|]. induction t as [|t IH]; intros path z Hp Hl; [by eapply Hc|].
  destruct path as [|v path _] using rev_ind; [done|]. rewrite length_app in Hl. cbn in Hl.
  apply rpath_snoc_inv in Hp as (-> & last & Hp & _); [|by intros ->; cbn in Hl; lia].
  destruct (IH path last Hp) as (? & ? & _ & ?); [lia|set_solver].
Qed.

Lemma dp_loop_inv turns k states :
  (0 < k)%nat -> dp_inv g start k states -> dp_inv g start (turns + k) (dp_loop g start turns states).
Proof.
  revert k states. induction turns as [|t IH]; intros k states Hk Hi; [done|]. cbn [dp_loop].
  pose proof (dp_step_inv k states Hk Hi) as Hi'.
  destruct (dp_step g start states) as [|st sts] eqn:E.
  - replace (S t + k)%nat with (t + S k)%nat by lia. by apply dp_inv_empty; [lia|].
  - replace (S t + k)%nat with (t + S k)%nat by lia. apply IH; [lia|done].
Qed.

Lemma dp_close_spec k states :
  dp_inv g start k states ->
  (forall c, dp_close g start states = Some c ->
     exists z, rpath g start c z /\ length c = k /\ adj g z start = true) /\
  (dp_close g start states = None ->
     forall c z, rpath g start c z -> length c = k -> adj g z start = false).
Proof.
  intros [Hsound Hcomp]. unfold dp_close. split.
  - intros c ([[m z] path] & Hin & Hc)%first_some_Some. cbn in Hc.
    destruct (adj g z start) eqn:Ha; [|done]. injection Hc as <-.
    destruct (Hsound _ _ _ Hin) as (? & _ & ?). eauto.
  - intros Hn c z Hp Hl. destruct (Hcomp c z Hp Hl) as (m & q & _ & Hin).
    rewrite first_some_None in Hn. specialize (Hn _ Hin). cbn in Hn. by destruct (adj g z start).
Qed.
End Dynamic.

Lemma find_cycle_dynamic_sound g len c :
  wf g -> find_cycle_dynamic g len = Some c -> exists start, rooted g len start c.
Proof.
  intros Hg. unfold find_cycle_dynamic. destruct (_ || _) eqn:E; [done|].
  apply orb_false_iff in E as [?%Z.ltb_ge _].
  intros (start & Hs%elem_of_range & Hc)%first_some_Some. exists start.
  destruct (proj1 (dp_close_spec g start _ _
    (dp_loop_inv g start Hg Hs (Z.to_nat (len - 2)) 2 _ ltac:(lia) (dp_init_inv g start Hg Hs))) c Hc)
    as (z & Hp & Hl & Ha).
  unfold rooted. split_all; [done|lia|]. by exists z.
Qed.

Lemma find_cycle_dynamic_complete g len start c :
  wf g -> rooted g len start c -> find_cycle_dynamic g len <> None.
Proof.
  intros Hg Hr Hn. pose proof (rooted_is_cycle _ _ _ _ Hr) as Hc.
  destruct (rooted_hd _ _ _ _ Hr) as (p & Hcp & _). destruct Hr as (H3 & Hl & z & Hp & Ha).
  assert (vertex g start) as Hs by (apply (is_cycle_vertex g len c); [done..|set_solver]).
  unfold find_cycle_dynamic in Hn. destruct (_ || _) eqn:E.
  { pose proof (has_cycle_le g len Hg (ex_intro _ c Hc)). lia. }
  rewrite first_some_None in Hn. specialize (Hn start (proj2 (elem_of_range _ _ _) Hs)).
  rewrite (proj2 (dp_close_spec g start _ _
    (dp_loop_inv g start Hg Hs (Z.to_nat (len - 2)) 2 _ ltac:(lia) (dp_init_inv g start Hg Hs))) Hn c z) in Ha;
    [done|done|lia].
Qed.

Lemma find_cycle_dynamic_None_iff g len :
  wf g -> find_cycle_dynamic g len = None <-> ~ has_cycle g len.
Proof.
  intros Hg. split.
  - intros Hn (c & Hc). destruct (is_cycle_rooted g len c Hg Hc) as (s & d & _ & Hd).
    by apply (find_cycle_dynamic_complete g len s d).
  - intros Hn. destruct (find_cycle_dynamic g len) as [c|] eqn:E; [|done].
    destruct (find_cycle_dynamic_sound g len c Hg E) as (s & Hr). destruct Hn. exists c.
    by apply (rooted_is_cycle g len s).
Qed.

(** ** Verdicts *)

Lemma minimal_candidate_iff g :
  wf g -> minimal_candidate g <-> gn g <> 0 /\ is_connected g = true /\ 3 <= minimum_degree g.
Proof.
  intros Hg. unfold minimal_candidate. rewrite is_connected_iff by done.
  pose proof (wf_n g Hg). destruct (decide (gn g = 0)) as [|]; [tauto|].
  by rewrite minimum_degree_ge by (done || lia).
Qed.

(** What a complete verifier's result must say *)
Definition verdict (g : BitGraph) (r : VerifyResult) : Prop :=
  match status r with
  | VERIFIED => counterexample g /\ witnesses r = []
  | REJECTED => minimal_candidate g /\ exists len c,
      power_of_two_length len /\ is_cycle g len c /\ witnesses r = [mkWitness (cycle_kind len) c] /\
      forall len', power_of_two_length len' -> has_cycle g len' -> len <= len'
  | INVALID => ~ minimal_candidate g /\ witnesses r = []
  | UNKNOWN => False
  end.

Lemma forbidden_from_sorted fuel n c : 0 < c -> StronglySorted Z.lt (forbidden_from fuel n c).
Proof.
  assert (forall fuel c x, 0 < c -> x ∈ forbidden_from fuel n c -> c <= x) as Hge.
  { clear. induction fuel as [|f IH]; cbn; intros c x Hc; [set_solver|].
    destruct (c <=? n); [|set_solver]. intros [->|Hx]%elem_of_cons; [lia|].
    apply IH in Hx; lia. }
  revert c. induction fuel as [|f IH]; cbn; intros c Hc; [constructor|].
  destruct (c <=? n); constructor; [apply IH; lia|]. apply Forall_forall. intros x Hx%Hge; lia.
Qed.

Lemma first_some_first {A B} (f : A -> option B) l b :
  first_some f l = Some b ->
  exists l1 x l2, l = l1 ++ x :: l2 /\ f x = Some b /\ forall y, y ∈ l1 -> f y = None.
Proof.
  induction l as [|x l IH]; cbn; [done|]. destruct (f x) eqn:Hx.
  - intros [= ->]. exists [], x, l. set_solver.
  - intros (l1 & y & l2 & -> & ? & ?)%IH. exists (x :: l1), y, l2. set_solver.
Qed.

Lemma first_forbidden_spec g search :
  wf g -> (forall len, search len = None <-> ~ has_cycle g len) ->
  (forall len c, search len = Some c -> is_cycle g len c) ->
  match first_forbidden search (forbidden_lengths (gn g)) with
  | Some (len, c) => power_of_two_length len /\ is_cycle g len c /\
      forall len', power_of_two_length len' -> has_cycle g len' -> len <= len'
  | None => forall len, power_of_two_length len -> ~ has_cycle g len
  end.
Proof.
  intros Hg Hnone Hsome. destruct (first_forbidden _ _) as [[len c]|] eqn:E.
  - apply first_some_first in E as (l1 & x & l2 & Hl & Hx & Hbefore).
    destruct (search x) as [c'|] eqn:Ex; [|done]. cbn in Hx. injection Hx as -> ->.
    assert (len ∈ forbidden_lengths (gn g)) as [_ Hp]%elem_of_forbidden_lengths by (rewrite Hl; set_solver).
    split_all; [done|by apply Hsome|]. intros len' Hp' Hc.
    assert (len' ∈ forbidden_lengths (gn g)) as Hin.
    { apply elem_of_forbidden_lengths. split; [by apply has_cycle_le|done]. }
    pose proof (forbidden_from_sorted (Z.to_nat (gn g)) (gn g) 4 ltac:(lia)) as Hsort.
    fold (forbidden_lengths (gn g)) in Hsort. rewrite Hl in Hin, Hsort.
    apply elem_of_app in Hin as [Hin|Hin].
    + apply Hbefore in Hin. destruct (search len') eqn:El; [done|]. by apply Hnone in El.
    + apply elem_of_cons in Hin as [->|Hin]; [lia|].
      apply StronglySorted_app_1_r in Hsort. apply StronglySorted_inv in Hsort as [_ Hf].
      rewrite Forall_forall in Hf. apply Hf in Hin. lia.
  - apply forbidden_cycles; [done|]. intros len Hl. apply Hnone.
    unfold first_forbidden in E. rewrite first_some_None in E. specialize (E len Hl).
    by destruct (search len).
Qed.

Lemma verify_reference_verdict elapsed g :
  wf g -> verdict g (verify_reference elapsed g) /\ complete (verify_reference elapsed g) = true.
Proof.
  intros Hg. pose proof (minimal_candidate_iff g Hg) as Hm.
  pose proof (first_forbidden_spec g (find_cycle_of_length g) Hg
    (fun len => find_cycle_None_iff g len Hg) (fun len c => find_cycle_Some_cycle g len c Hg)) as Hf.
  unfold verify_reference.
  destruct (Z.eqb_spec (gn g) 0); [cbn; intuition|].
  destruct (is_connected g) eqn:Ec; [|cbn; intuition congruence].
  destruct (Z.ltb_spec (minimum_degree g) 3); cbn [negb]; [cbn; intuition lia|].
  destruct (first_forbidden _ _) as [[len c]|]; cbn; [|unfold counterexample; intuition].
  split; [|done]. split; [intuition|]. exists len, c. intuition.
Qed.

Lemma verify_dynamic_verdict elapsed g :
  wf g -> verdict g (verify_dynamic elapsed g) /\ complete (verify_dynamic elapsed g) = true.
Proof.
  intros Hg. pose proof (minimal_candidate_iff g Hg) as Hm.
  assert (forall len c, find_cycle_dynamic g len = Some c -> is_cycle g len c) as Hsound.
  { intros len c H. destruct (find_cycle_dynamic_sound g len c Hg H) as (s & ?).
    by apply (rooted_is_cycle g len s). }
  pose proof (first_forbidden_spec g (find_cycle_dynamic g) Hg
    (fun len => find_cycle_dynamic_None_iff g len Hg) Hsound) as Hf.
  unfold verify_dynamic.
  destruct (Z.eqb_spec (gn g) 0); [cbn; intuition|].
  destruct (is_connected g) eqn:Ec; [|cbn; intuition congruence].
  destruct (Z.ltb_spec (minimum_degree g) 3); cbn [negb]; [cbn; intuition lia|].
  destruct (first_forbidden _ _) as [[len c]|]; cbn; [|unfold counterexample; intuition].
  split; [|done]. split; [intuition|]. exists len, c. intuition.
Qed.

(** A verdict is determined by the graph, up to the choice of a witness of the
    same length. *)
Lemma verdict_unique g r1 r2 :
  verdict g r1 -> verdict g r2 ->
  status r1 = status r2 /\ (kind <$> witnesses r1) = (kind <$> witnesses r2).
Proof.
  unfold verdict, counterexample.
  destruct (status r1), (status r2); try tauto; intros H1 H2.
  - destruct H1 as [_ ->], H2 as [_ ->]. done.
  - destruct H1 as [[_ Hn] _], H2 as (_ & len & c & Hp & Hc & _). destruct (Hn len Hp). by exists c.
  - destruct H2 as [[_ Hn] _], H1 as (_ & len & c & Hp & Hc & _). destruct (Hn len Hp). by exists c.
  - destruct H1 as (_ & l1 & c1 & Hp1 & Hc1 & -> & Hm1), H2 as (_ & l2 & c2 & Hp2 & Hc2 & -> & Hm2).
    assert (l1 = l2) as ->; [|done].
    apply Z.le_antisymm; [apply Hm1|apply Hm2]; try done; by eexists.
  - destruct H1 as [_ ->], H2 as [_ ->]. done.
Qed.

Lemma control_valid_iff g :
  wf g -> valid (HiddenWitness.validate_graph g) = true <->
    gn g = 10 /\ connected g /\ forall u, vertex g u -> degree g u = 3.
Proof.
  intros Hg. unfold HiddenWitness.validate_graph. rewrite <- is_connected_iff by done.
  destruct (Z.eqb_spec (gn g) 10); cbn [negb]; [|cbn; intuition congruence].
  destruct (is_connected g); cbn [negb]; [|cbn; intuition congruence].
  destruct (existsb _ _) eqn:E; cbn; split; try done.
  - intros (_ & _ & H). apply existsb_exists in E as (u & Hu & Hd).
    apply list_elem_of_In, elem_of_range in Hu. specialize (H u Hu). lia.
  - intros _. split_all; [done..|]. intros u Hu.
    destruct (Z.eqb_spec (degree g u) 3) as [|Hne]; [done|].
    assert (existsb (fun u => negb (degree g u =? 3)) (range 0 (gn g)) = true); [|congruence].
    apply existsb_exists. exists u. split; [by apply list_elem_of_In, elem_of_range|lia].
Qed.

(** ** Properties *)

(** The Petersen graph: the withheld witness of the control target *)
Definition petersen_edges : list (Z * Z) :=
  [(0,1); (1,2); (2,3); (3,4); (0,4); (0,5); (1,6); (2,7); (3,8); (4,9);
   (5,7); (7,9); (6,9); (6,8); (5,8)].
Definition petersen : BitGraph :=
  match from_edges 10 petersen_edges with Ok g => g | Raise _ => K4 end.

Lemma petersen_wf : wf petersen.
Proof.
  apply (post_init_wf (gn petersen) (rows petersen) petersen). vm_compute. reflexivity.
Qed.

(** C1: the reference verifier is always complete and never
    wrong. VERIFIED holds exactly for counterexamples of the conjecture (connected
    graphs of minimum degree three without any cycle whose length is a power of
    two, of any length); REJECTED comes with a simple cycle of the least
    power-of-two length there is; INVALID is exactly a violated precondition. *)
Theorem verify_reference_correct elapsed g :
  wf g ->
  let r := verify_reference elapsed g in
  complete r = true /\
  match status r with
  | VERIFIED => counterexample g /\ witnesses r = []
  | REJECTED => minimal_candidate g /\ exists len c,
      power_of_two_length len /\ is_cycle g len c /\ witnesses r = [mkWitness (cycle_kind len) c] /\
      forall len', power_of_two_length len' -> has_cycle g len' -> len <= len'
  | INVALID => ~ minimal_candidate g /\ witnesses r = []
  | UNKNOWN => False
  end.
Proof.
  intros Hg r. destruct (verify_reference_verdict elapsed g Hg) as [Hv Hc]. split; [exact Hc|exact Hv].
Qed.

Lemma verify_reference_correct_witness :
  status (verify_reference 0 K4) = REJECTED /\
  witnesses (verify_reference 0 K4) = [mkWitness "cycle_4" [0; 1; 2; 3]] /\
  exists len c, power_of_two_length len /\ is_cycle K4 len c.
Proof.
  split; [vm_compute; reflexivity|]. split; [vm_compute; reflexivity|].
  destruct (verify_reference_correct 0 K4 K4_wf) as [_ H].
  replace (status (verify_reference 0 K4)) with REJECTED in H by (vm_compute; reflexivity).
  destruct H as (_ & len & c & Hp & Hc & _). exists len, c. split; [exact Hp|exact Hc].
Defined.

(** C8: the subset dynamic program is an independent decision
    procedure with the same answers: it reports the same status as the
    depth-first reference, names the same cycle length on a rejection, and its
    own witness is a simple cycle of that length. *)
Theorem verifiers_agree e1 e2 g :
  wf g ->
  status (verify_dynamic e1 g) = status (verify_reference e2 g) /\
  (kind <$> witnesses (verify_dynamic e1 g)) = (kind <$> witnesses (verify_reference e2 g)) /\
  forall len, match find_cycle_dynamic g len with
              | Some c => is_cycle g len c
              | None => find_cycle_of_length g len = None
              end.
Proof.
  intros Hg. destruct (verify_reference_verdict e2 g Hg) as [Hr _].
  destruct (verify_dynamic_verdict e1 g Hg) as [Hd _].
  destruct (verdict_unique g _ _ Hd Hr) as [Hs Hk]. split_all; [done|done|].
  intros len. destruct (find_cycle_dynamic g len) as [c|] eqn:E.
  - destruct (find_cycle_dynamic_sound g len c Hg E) as (s & ?). by apply (rooted_is_cycle g len s).
  - apply find_cycle_None_iff; [done|]. by apply find_cycle_dynamic_None_iff.
Qed.

Lemma verifiers_agree_witness :
  status (verify_dynamic 0 petersen) = REJECTED /\
  find_cycle_dynamic petersen 4 = None /\ find_cycle_of_length petersen 4 = None.
Proof.
  destruct (verifiers_agree 0 0 petersen petersen_wf) as (-> & _ & H).
  specialize (H 4). replace (find_cycle_dynamic petersen 4) with (@None (list Z)) in * by (vm_compute; reflexivity).
  split; [vm_compute; reflexivity|]. split; [reflexivity|exact H].
Defined.

(** What the control target's verifier answers *)
Lemma control_verdict elapsed g :
  wf g ->
  let candidate := gn g = 10 /\ connected g /\ forall u, vertex g u -> degree g u = 3 in
  let r := HiddenWitness.exact_verify elapsed g in
  (status r = VERIFIED <-> candidate /\ ~ has_cycle g 3) /\
  (status r = INVALID <-> ~ candidate) /\
  (status r = REJECTED <-> candidate /\ exists c, is_cycle g 3 c /\ witnesses r = [mkWitness "cycle_3" c]).
Proof.
  intros Hg candidate r. pose proof (control_valid_iff g Hg) as Hv. fold candidate in Hv.
  unfold r, HiddenWitness.exact_verify. destruct (valid _) eqn:Ev; cbn [negb]; [|cbn; intuition congruence].
  pose proof (find_cycle_None_iff g 3 Hg) as Hn. pose proof (find_cycle_Some_cycle g 3) as Hs.
  assert candidate as Hc by tauto.
  destruct (find_cycle_of_length g 3) as [c|]; cbn.
  - split_all; split; try done.
    + intros [_ Hno]. destruct Hno. exists c. by apply Hs.
    + intros _. split; [done|]. exists c. split; [by apply Hs|done].
  - split_all; split; try done.
    + intros _. split; [done|by apply Hn].
    + by intros (_ & c & _ & ?).
Qed.

(** The control target's verifier answers VERIFIED exactly
    for the connected cubic graphs of order ten without a triangle, REJECTED
    (with the triangle) exactly for those with one, and INVALID for all other
    graphs. *)
Theorem control_target_correct elapsed g :
  wf g ->
  let candidate := gn g = 10 /\ connected g /\ forall u, vertex g u -> degree g u = 3 in
  let r := HiddenWitness.exact_verify elapsed g in
  (status r = VERIFIED <-> candidate /\ ~ has_cycle g 3) /\
  (status r = INVALID <-> ~ candidate) /\
  (status r = REJECTED <-> candidate /\ exists c, is_cycle g 3 c /\ witnesses r = [mkWitness "cycle_3" c]).
Proof. apply control_verdict. Qed.

Lemma control_target_correct_witness :
  status (HiddenWitness.exact_verify 0 petersen) = VERIFIED /\ ~ has_cycle petersen 3.
Proof.
  split; [vm_compute; reflexivity|].
  destruct (control_target_correct 0 petersen petersen_wf) as (H & _).
  apply H. vm_compute. reflexivity.
Defined.
