(* ===== verification/Floats.v ===== *)
(** * Python's floats

    A [float] is a binary64 number, the Standard Library's [spec_float] with
    53 bits of precision. Only the operations the modelled code uses are here. *)

From Stdlib Require Export SpecFloat.
From S2P Require Import Prelude.

#[global] Open Scope Z_scope.

Abbreviation float := spec_float.

#[export] Instance float_eq_dec : EqDecision float.
Proof. solve_decision. Defined.

Definition prec : Z := 53.
Definition emax : Z := 1024.

Definition f_add : float -> float -> float := SFadd prec emax.
Definition f_sub : float -> float -> float := SFsub prec emax.
Definition f_mul : float -> float -> float := SFmul prec emax.
Definition f_div : float -> float -> float := SFdiv prec emax.
Definition f_lt (x y : float) : bool := SFltb x y.
Definition f_le (x y : float) : bool := SFleb x y.
Definition f_eq (x y : float) : bool := SFeqb x y.

Definition is_inf (x : float) : bool := match x with S754_infinity _ => true | _ => false end.

(** [float(n)], which rounds to nearest even and raises on overflow *)
Definition f_of_Z (n : Z) : res float :=
  let x := binary_normalize prec emax n 0 false in
  if is_inf x then Raise OverflowError else Ok x.

(** [a / b] on integers: the quotient, rounded once *)
Definition py_truediv (a b : Z) : res float :=
  if b =? 0 then Raise ZeroDivisionError
  else if a =? 0 then Ok (S754_zero false)
  else
    let '(mz, ez, lz) := SFdiv_core_binary prec emax (Z.abs a) 0 (Z.abs b) 0 in
    let x := binary_round_aux prec emax (xorb (a <? 0) (b <? 0)) mz ez lz in
    if is_inf x then Raise OverflowError else Ok x.

(** An integer literal of the code *)
Definition f_lit (n : Z) : float := binary_normalize prec emax n 0 false.

Definition is_finite (x : float) : bool :=
  match x with S754_zero _ | S754_finite _ _ _ => true | _ => false end.

(** [round(x)] with no digits: to the nearest integer, ties to even *)
Definition round_half_even (m d : Z) : Z :=
  let q := m / d in
  let r := m mod d in
  if 2 * r <? d then q
  else if d <? 2 * r then q + 1
  else if Z.even q then q else q + 1.

Definition py_round (x : float) : res Z :=
  match x with
  | S754_zero _ => Ok 0
  | S754_infinity _ => Raise OverflowError
  | S754_nan => Raise (ValueError "cannot convert float NaN to integer")
  | S754_finite s m e =>
      let v := if 0 <=? e then Z.shiftl (Zpos m) e else round_half_even (Zpos m) (Z.shiftl 1 (- e)) in
      Ok (if s then - v else v)
  end.

(** [math.ceil(x)] *)
Definition py_ceil (x : float) : res Z :=
  match x with
  | S754_zero _ => Ok 0
  | S754_infinity _ => Raise OverflowError
  | S754_nan => Raise (ValueError "cannot convert float NaN to integer")
  | S754_finite s m e =>
      let m := if s then Zneg m else Zpos m in
      Ok (if 0 <=? e then Z.shiftl m e else - ((- m) / Z.shiftl 1 (- e)))
  end.

(** Rounding to an integer moves a number by at most a half. *)
Lemma round_half_even_near m d : 0 < d -> Z.abs (2 * (round_half_even m d * d - m)) <= d.
Proof.
  intros Hd. unfold round_half_even. pose proof (Z.div_mod m d ltac:(lia)) as Hdm.
  pose proof (Z.mod_pos_bound m d Hd).
  destruct (Z.ltb_spec (2 * (m mod d)) d); [nia|].
  destruct (Z.ltb_spec d (2 * (m mod d))); [nia|]. destruct (Z.even (m / d)); nia.
Qed.
