(* ===== verification/Score.v ===== *)
(** * Scores

    [targets/base.py] ([ScoreResult]), [targets/erdos_gyarfas.py]
    ([ScoreProfileAccumulator], [score_from_cycle_counts],
    [record_cycle_count_profile]) and the score helpers of [search.py]. The
    counters of a profile are charged with the clock differences [validation_ns]
    and [score_ns] that the call measures. *)

From S2P Require Import Prelude Bits Model Cycles Verification Floats.

#[global] Open Scope Z_scope.

(** ** Data *)

(** [score_worker.CycleCountResult] *)
Record CycleCountResult := mkCount {
  cc_length : Z; cc_count : Z; cc_complete : bool; cc_nodes : Z; cc_elapsed_ns : Z
}.

#[export] Instance CycleCountResult_eq_dec : EqDecision CycleCountResult.
Proof. solve_decision. Defined.

Record ScoreResult := mkScore {
  score_valid : bool;
  witness_counts : list (Z * Z);
  weighted_penalty : Z;
  score_complete : bool;
  novelty : float;
  simplicity : Z
}.

(** [ordering_key]; [round] raises on an infinite or undefined novelty. *)
Definition ordering_key (s : ScoreResult) : res (list Z) :=
  let total := foldl Z.add 0 (snd <$> witness_counts s) in
  n ← py_round (f_mul (novelty s) (f_lit 1000000));
  Ok [if score_valid s then 0 else 1; total; weighted_penalty s; - n; simplicity s].

(** Python's comparison of tuples of equal length *)
Fixpoint tuple_lt (x y : list Z) : bool :=
  match x, y with
  | a :: x', b :: y' => if a =? b then tuple_lt x' y' else a <? b
  | [], _ :: _ => true
  | _, [] => false
  end.
Definition tuple_le (x y : list Z) : bool := negb (tuple_lt y x).

(** ** [ScoreProfileAccumulator] *)

Definition PROFILED_CYCLE_LENGTHS : list Z := [3; 4; 8; 16; 32; 64; 128].

Record ScoreProfileAccumulator := mkScoreProfile {
  graph_validation_ns : Z; witness_counting_ns : Z; score_calculation_ns : Z;
  cycle_ns : list Z; cycle_nodes : list Z; cycle_evaluations : list Z;
  cycle_complete : list Z; cycle_cutoff : list Z
}.

Definition new_score_profile : ScoreProfileAccumulator :=
  mkScoreProfile 0 0 0 (replicate 7 0) (replicate 7 0) (replicate 7 0) (replicate 7 0) (replicate 7 0).

Definition reset_score_profile (p : ScoreProfileAccumulator) : res ScoreProfileAccumulator :=
  foldM (fun p index =>
    ns ← py_store (cycle_ns p) index 0;
    nodes ← py_store (cycle_nodes p) index 0;
    evaluations ← py_store (cycle_evaluations p) index 0;
    complete ← py_store (cycle_complete p) index 0;
    cutoff ← py_store (cycle_cutoff p) index 0;
    Ok (mkScoreProfile 0 0 0 ns nodes evaluations complete cutoff))
    (mkScoreProfile 0 0 0 (cycle_ns p) (cycle_nodes p) (cycle_evaluations p) (cycle_complete p) (cycle_cutoff p))
    (range 0 (Z.of_nat (length PROFILED_CYCLE_LENGTHS))).

Definition score_profile_payload (p : ScoreProfileAccumulator) : res (list (string * Z)) :=
  foldM (fun result il =>
    let '(index, len) := il in
    let key (suffix : string) := ("cycle_" ++ pretty (len : Z) ++ suffix)%string in
    ns ← py_index (cycle_ns p) index;
    nodes ← py_index (cycle_nodes p) index;
    evaluations ← py_index (cycle_evaluations p) index;
    complete ← py_index (cycle_complete p) index;
    cutoff ← py_index (cycle_cutoff p) index;
    Ok (dict_set (dict_set (dict_set (dict_set (dict_set result
      (key "_ns") ns) (key "_nodes") nodes) (key "_evaluations") evaluations)
      (key "_complete") complete) (key "_cutoff") cutoff))
    [] (enumerate PROFILED_CYCLE_LENGTHS).

Definition b2z (b : bool) : Z := if b then 1 else 0.

Definition record_one (cutoff : bool) (total : Z) (p : ScoreProfileAccumulator) (ir : Z * CycleCountResult)
  : res ScoreProfileAccumulator :=
  let '(index_in_results, r) := ir in
  index ← tuple_index PROFILED_CYCLE_LENGTHS (cc_length r);
  ns ← incr (cycle_ns p) index (cc_elapsed_ns r);
  nodes ← incr (cycle_nodes p) index (cc_nodes r);
  evaluations ← incr (cycle_evaluations p) index 1;
  let is_cutoff := cutoff && (index_in_results =? total - 1) in
  cut ← incr (cycle_cutoff p) index (b2z is_cutoff);
  complete ← incr (cycle_complete p) index (b2z (negb is_cutoff && cc_complete r));
  Ok (mkScoreProfile (graph_validation_ns p) (witness_counting_ns p + cc_elapsed_ns r) (score_calculation_ns p)
        ns nodes evaluations complete cut).

Definition record_cycle_count_profile (results : list CycleCountResult) (cutoff : bool)
  (p : ScoreProfileAccumulator) : res ScoreProfileAccumulator :=
  foldM (record_one cutoff (Z.of_nat (length results))) p (enumerate results).

(** ** [score_from_cycle_counts] *)

Definition add_validation_ns (ns : Z) (p : ScoreProfileAccumulator) : ScoreProfileAccumulator :=
  mkScoreProfile (graph_validation_ns p + ns) (witness_counting_ns p) (score_calculation_ns p)
    (cycle_ns p) (cycle_nodes p) (cycle_evaluations p) (cycle_complete p) (cycle_cutoff p).
Definition add_score_ns (ns : Z) (p : ScoreProfileAccumulator) : ScoreProfileAccumulator :=
  mkScoreProfile (graph_validation_ns p) (witness_counting_ns p) (score_calculation_ns p + ns)
    (cycle_ns p) (cycle_nodes p) (cycle_evaluations p) (cycle_complete p) (cycle_cutoff p).

(** The accumulators of the loop: [counts], [weighted], [complete] and the
    profile *)
Record Tally := mkTally {
  counts : list (Z * Z); weighted : Z; tally_complete : bool; tally_profile : option ScoreProfileAccumulator
}.

Definition tally_one (cap : Z) (t : Tally) (r : CycleCountResult) : res Tally :=
  let count := Z.min (cc_count r) cap in
  p ← match tally_profile t with
      | Some p => p' ← record_cycle_count_profile [r] false p; Ok (Some p')
      | None => Ok None
      end;
  Ok (mkTally (counts t ++ [(cc_length r, count)])
        (weighted t + count * Z.max 1 (64 / cc_length r))
        (tally_complete t && (cc_count r <=? cap) && cc_complete r) p).

Record GraphValidationContext := mkValidationContext { context_graph : BitGraph; context_result : ValidationResult }.

Section Score.
Context (validation_ns score_ns : Z).

(** The profile is updated up to the point where an exception leaves; only the
    profile of a returned score is kept here. *)
Definition score_from_cycle_counts (g : BitGraph) (cap : Z) (results : list CycleCountResult)
  (profile : option ScoreProfileAccumulator) (ctx : option GraphValidationContext)
  : res (ScoreResult * option ScoreProfileAccumulator) :=
  raise_if (match ctx with Some c => negb (bool_decide (context_graph c = g)) | None => false end)
    (ValueError "validation context belongs to a different graph") ;;;
  let validation := match ctx with Some c => context_result c | None => validate_graph g end in
  let profile := match ctx with Some _ => profile | None => add_validation_ns validation_ns <$> profile end in
  if negb (valid validation)
  then Ok (mkScore false [] (10 ^ 9) true (S754_zero false) (size g), profile)
  else
    raise_if (negb (bool_decide ((cc_length <$> results) = forbidden_lengths (gn g))))
      (ValueError "cycle-count backend returned unexpected lengths") ;;;
    t ← foldM (tally_one cap) (mkTally [] 0 true profile) results;
    Ok (mkScore true (counts t) (weighted t) (tally_complete t) (S754_zero false) (size g),
        add_score_ns score_ns <$> tally_profile t).
End Score.

(** ** The helpers of [search.py] *)

(** [_scalar]; the sum is taken from the left. An exact integer is converted
    when it meets a float. *)
Definition _scalar (s : ScoreResult) : res float :=
  key ← ordering_key s;
  match key with
  | [invalid; total; weighted; nov; simp] =>
      base ← f_of_Z (invalid * 2000000 + total);
      w ← py_truediv weighted 2000000;
      n ← py_truediv nov 4000000000000;
      m ← py_truediv simp 80000000000000000;
      Ok (f_add (f_add (f_add base w) n) m)
  | _ => Raise AssertionError
  end.

(** [_novelty] *)
Definition differing (g elite : BitGraph) : Z :=
  foldl Z.add 0 (zip_with (fun l r => bit_count (Z.lxor l r)) (rows g) (rows elite)) / 2.
Definition _novelty (g elite : BitGraph) : res float :=
  let possible := Z.max 1 (gn g * (gn g - 1) / 2) in
  py_truediv (differing g elite) possible.

(** ** The order of keys *)

Lemma tuple_lt_irrefl x : tuple_lt x x = false.
Proof. induction x as [|a x IH]; [done|]. cbn. by rewrite Z.eqb_refl. Qed.

Lemma tuple_lt_trans x y z : tuple_lt x y = true -> tuple_lt y z = true -> tuple_lt x z = true.
Proof.
  revert y z. induction x as [|a x IH]; intros [|b y] [|c z]; cbn; try done.
  destruct (Z.eqb_spec a b) as [->|], (Z.eqb_spec b c) as [->|]; intros H1 H2;
    repeat match goal with |- context [?p =? ?q] => destruct (Z.eqb_spec p q) end; try lia.
  - by apply (IH y).
Qed.

Lemma tuple_lt_total x y : length x = length y -> x <> y -> tuple_lt x y = true \/ tuple_lt y x = true.
Proof.
  revert y. induction x as [|a x IH]; intros [|b y] Hl Hne; try done. cbn in *.
  destruct (Z.eqb_spec a b) as [->|]; [|replace (b =? a) with false by lia; lia].
  rewrite Z.eqb_refl. apply IH; [lia|congruence].
Qed.

(** ** The tally *)

Definition total (s : ScoreResult) : Z := foldl Z.add 0 (snd <$> witness_counts s).

Definition penalty_of (cap : Z) (r : CycleCountResult) : Z :=
  Z.min (cc_count r) cap * Z.max 1 (64 / cc_length r).

Lemma tally_spec cap results t0 t :
  foldM (tally_one cap) t0 results = Ok t ->
  counts t = counts t0 ++ ((fun r => (cc_length r, Z.min (cc_count r) cap)) <$> results) /\
  weighted t = foldl Z.add (weighted t0) (penalty_of cap <$> results) /\
  tally_complete t = tally_complete t0 && forallb (fun r => (cc_count r <=? cap) && cc_complete r) results.
Proof.
  revert t0. induction results as [|r results IH]; intros t0; cbn [foldM].
  { intros [= <-]. cbn. by rewrite app_nil_r, andb_true_r. }
  intros (t1 & H1 & H2)%bind_Ok. apply IH in H2 as (-> & -> & ->).
  unfold tally_one in H1. apply bind_Ok in H1 as (p & _ & [= <-]). cbn.
  split_all; [by rewrite <- app_assoc|done|by rewrite !andb_assoc].
Qed.

(** Without a profile the tally cannot fail; with one it needs a known length. *)
Lemma tally_total cap results c w b :
  exists t, foldM (tally_one cap) (mkTally c w b None) results = Ok t.
Proof.
  revert c w b. induction results as [|r results IH]; intros c w b; cbn; [by eexists|apply IH].
Qed.

Lemma sum_zero_iff (l : list Z) a :
  (forall x, x ∈ l -> 0 <= x) -> 0 <= a -> foldl Z.add a l = 0 <-> a = 0 /\ forall x, x ∈ l -> x = 0.
Proof.
  revert a. induction l as [|x l IH]; intros a Hl Ha; cbn; [set_solver|].
  pose proof (Hl x ltac:(set_solver)). rewrite IH; [|intros; apply Hl; set_solver|lia].
  setoid_rewrite elem_of_cons. split.
  - intros [? Hz]. split; [lia|]. intros y [->|Hy]; [lia|auto].
  - intros [? Hz]. pose proof (Hz x ltac:(auto)). split; [lia|auto].
Qed.

Lemma validate_graph_valid g : wf g -> valid (validate_graph g) = true <-> minimal_candidate g.
Proof.
  intros Hg. rewrite minimal_candidate_iff by done. unfold validate_graph.
  destruct (Z.eqb_spec (gn g) 0); [cbn; intuition congruence|].
  destruct (is_connected g); [|cbn; intuition congruence].
  destruct (Z.ltb_spec (minimum_degree g) 3); cbn; intuition (lia || congruence).
Qed.

(** What a count backend promises about one length *)
Definition count_sound (g : BitGraph) (r : CycleCountResult) : Prop :=
  0 <= cc_count r /\ (0 < cc_count r -> has_cycle g (cc_length r)) /\
  (cc_complete r = true -> cc_count r = 0 -> ~ has_cycle g (cc_length r)).

(** ** Properties *)



(** Scores are compared by a strict total order in which every
    valid score comes before every invalid one, and among equally valid scores
    fewer witnesses win whatever the penalty, novelty and size. *)
Theorem ordering_key_order s1 s2 k1 k2 :
  ordering_key s1 = Ok k1 -> ordering_key s2 = Ok k2 ->
  (k1 <> k2 -> tuple_lt k1 k2 = true \/ tuple_lt k2 k1 = true) /\
  ~ (tuple_lt k1 k2 = true /\ tuple_lt k2 k1 = true) /\
  (score_valid s1 = true -> score_valid s2 = false -> tuple_lt k1 k2 = true) /\
  (score_valid s1 = score_valid s2 -> total s1 < total s2 -> tuple_lt k1 k2 = true) /\
  (score_valid s1 = score_valid s2 -> total s1 = total s2 ->
    weighted_penalty s1 < weighted_penalty s2 -> tuple_lt k1 k2 = true).
Proof.
  unfold ordering_key. intros (n1 & _ & [= <-])%bind_Ok (n2 & _ & [= <-])%bind_Ok. split_all.
  - by apply tuple_lt_total.
  - intros [H1 H2]. pose proof (tuple_lt_trans _ _ _ H1 H2) as H. by rewrite tuple_lt_irrefl in H.
  - intros -> ->. done.
  - intros -> Ht. unfold total in Ht. cbn. rewrite Z.eqb_refl.
    destruct (Z.eqb_spec (foldl Z.add 0 (snd <$> witness_counts s1)) (foldl Z.add 0 (snd <$> witness_counts s2))); lia.
  - intros -> Ht Hw. unfold total in Ht. cbn. rewrite Ht, !Z.eqb_refl.
    destruct (Z.eqb_spec (weighted_penalty s1) (weighted_penalty s2)); lia.
Qed.

Lemma ordering_key_order_witness :
  tuple_lt [0; 1; 16; -1000000; 6] [0; 3; 3; 0; 5] = true.
Proof.
  destruct (ordering_key_order (mkScore true [(4, 1)] 16 true (f_lit 1) 6) (mkScore true [(4, 1); (8, 2)] 3 true (S754_zero false) 5)
    [0; 1; 16; -1000000; 6] [0; 3; 3; 0; 5]) as (_ & _ & _ & H & _);
    [vm_compute; reflexivity|vm_compute; reflexivity|apply H; vm_compute; reflexivity].
Defined.
