(* ===== verification/ScoreWorker.v ===== *)
(** * The score-worker protocol

    [src/src/sglab/score_worker.py]: the request frames sent to the C++ scorer
    and the parsing of its responses. Bytes are integers from 0 to 255. The
    worker process is the environment [Env]: whether it starts and takes the
    request, and what the reads from its pipe give. Timing ([profile_timing])
    is left out. *)

From stdpp Require Import gmap sorting.
From S2P Require Import Prelude Bits Model Cycles Verification Score.

#[global] Open Scope Z_scope.

Definition PROTOCOL_VERSION : Z := 2.
Definition COMMAND_SCORE : Z := 1.
Definition STATUS_OK : Z := 0.
Definition STATUS_DOMINATED : Z := 2.
Definition MAXIMUM_FRAME_BYTES : Z := 64 * 1024.
Definition _COMPACT_DOMINATED_FLAG : Z := 4.

(** [b"SGSC"] and [b"SGSR"] *)
Definition request_magic : list Z := [83; 71; 83; 67].
Definition response_magic : list Z := [83; 71; 83; 82].

(** ** [struct], little-endian without padding *)

Fixpoint le_bytes (k : nat) (x : Z) : list Z :=
  match k with O => [] | S k' => x mod 256 :: le_bytes k' (x / 256) end.
Fixpoint le_value (l : list Z) : Z :=
  match l with [] => 0 | b :: l' => b + 256 * le_value l' end.

(** One unsigned field of [k] bytes: [H] is 2, [I] is 4, [Q] is 8. *)
Definition pack (k : nat) (x : Z) : res (list Z) :=
  if (0 <=? x) && (x <? 256 ^ Z.of_nat k) then Ok (le_bytes k x) else Raise StructError.

Fixpoint pack_all (fields : list (nat * Z)) : res (list Z) :=
  match fields with
  | [] => Ok []
  | (k, x) :: fields' => b ← pack k x; bs ← pack_all fields'; Ok (b ++ bs)
  end.

(** The unsigned field of [k] bytes at an offset *)
Definition field (offset k : nat) (l : list Z) : Z := le_value (take k (drop offset l)).

(** ** [_prepare_request_plan] *)

Record PlanKey := mkKey {
  key_n : Z; key_lengths : list Z; key_limit : Z; key_node_budget : Z;
  key_cutoff_enabled : bool; key_cutoff_inclusive : bool; key_compact : bool; key_longest_first : bool
}.

#[export] Instance PlanKey_eq_dec : EqDecision PlanKey.
Proof. solve_decision. Defined.

Record _PreparedRequestPlan := mkPlan {
  key : PlanKey; word_count : Z; length_bytes : Z; payload_bytes : Z;
  packed_lengths : list Z; prefix : list Z
}.

Inductive Process := NotStarted | Running | Exited.

Record Worker := mkWorker {
  cutoff_longest_first : bool;
  prepared_request_cache_enabled : bool;
  _prepared_request_plan : option _PreparedRequestPlan;
  process : Process;
  request_id : Z
}.

Definition with_plan (w : Worker) (p : _PreparedRequestPlan) : Worker :=
  mkWorker (cutoff_longest_first w) (prepared_request_cache_enabled w) (Some p) (process w) (request_id w).
Definition with_process (w : Worker) (p : Process) : Worker :=
  mkWorker (cutoff_longest_first w) (prepared_request_cache_enabled w) (_prepared_request_plan w) p (request_id w).
Definition next_request (w : Worker) : Worker :=
  mkWorker (cutoff_longest_first w) (prepared_request_cache_enabled w) (_prepared_request_plan w) (process w)
    (request_id w + 1).

(** [tuple(sorted(set(lengths)))] *)
Definition sorted_set (l : list Z) : list Z := merge_sort Z.le (remove_dups l).

(** The plan of a key, when the cache does not have it *)
Definition make_plan (k : PlanKey) : res _PreparedRequestPlan :=
  raise_if ((key_limit k <? 1) || (key_node_budget k <? 1)) (ValueError "score-worker bounds must be positive") ;;;
  raise_if ((64 <? Z.of_nat (length (key_lengths k))) ||
            existsb (fun len => (len <? 3) || (key_n k <? len)) (key_lengths k) ||
            negb (bool_decide (sorted_set (key_lengths k) = key_lengths k)))
    (ValueError "score-worker lengths must be unique, increasing and between 3 and the graph order") ;;;
  raise_if (key_compact k && negb (key_cutoff_enabled k))
    (ValueError "compact dominated responses require a cutoff") ;;;
  let word_count := (key_n k + 63) / 64 in
  let length_bytes := Z.of_nat (length (key_lengths k)) * 2 in
  let payload_bytes := length_bytes + key_n k * word_count * 8 in
  packed_lengths ← pack_all ((fun len => (2%nat, len)) <$> key_lengths k);
  rest ← pack_all [(2%nat, PROTOCOL_VERSION); (2%nat, COMMAND_SCORE); (4%nat, payload_bytes)];
  Ok (mkPlan k word_count length_bytes payload_bytes packed_lengths (request_magic ++ rest)).

Definition _prepare_request_plan (w : Worker) (k : PlanKey) : res _PreparedRequestPlan * Worker :=
  let hit := match _prepared_request_plan w with
             | Some cached => prepared_request_cache_enabled w && bool_decide (key cached = k)
             | None => false
             end in
  match (if hit then _prepared_request_plan w else None) with
  | Some cached => (Ok cached, w)
  | None =>
      match make_plan k with
      | Ok plan => (Ok plan, if prepared_request_cache_enabled w then with_plan w plan else w)
      | Raise e => (Raise e, w)
      end
  end.

(** ** Requests *)

(** [struct.pack_into] at [offset], in range *)
Definition pack_into (buf : list Z) (offset : nat) (k : nat) (x : Z) : res (list Z) :=
  bs ← pack k x;
  if (length buf <? offset + k)%nat then Raise StructError
  else Ok (take offset buf ++ bs ++ drop (offset + k) buf).

(** The loop over the rows: the buffer and the offset *)
Definition pack_row (word_count : Z) (s : list Z * nat) (row : Z) : res (list Z * nat) :=
  let '(payload, offset) := s in
  payload ← pack_into payload offset 8 (Z.land row (Z.shiftl 1 64 - 1));
  let offset := (offset + 8)%nat in
  if word_count =? 2 then
    payload ← pack_into payload offset 8 (Z.shiftr row 64); Ok (payload, (offset + 8)%nat)
  else Ok (payload, offset).

Definition build_payload (plan : _PreparedRequestPlan) (g : BitGraph) : res (list Z) :=
  let payload := packed_lengths plan ++
    drop (Z.to_nat (length_bytes plan)) (replicate (Z.to_nat (payload_bytes plan)) 0) in
  s ← foldM (pack_row (word_count plan)) (payload, Z.to_nat (length_bytes plan)) (rows g);
  Ok s.1.

Definition cutoff_flags (w : Worker) (cutoff : option (Z * Z * Z)) (compact : bool) : Z :=
  match cutoff with
  | Some _ => Z.lor (Z.lor 1 (if cutoff_longest_first w then 2 else 0)) (if compact then _COMPACT_DOMINATED_FLAG else 0)
  | None => 0
  end.

Definition build_request (w : Worker) (plan : _PreparedRequestPlan) (g : BitGraph) (lengths : list Z)
  (limit node_budget : Z) (cutoff : option (Z * Z * Z)) (inclusive compact : bool) : res (list Z) :=
  payload ← build_payload plan g;
  let '(c0, c1, c2) := default (0, 0, 0) cutoff in
  body ← pack_all [(8%nat, request_id w); (2%nat, gn g); (2%nat, word_count plan); (4%nat, limit);
    (4%nat, node_budget); (4%nat, cutoff_flags w cutoff compact); (4%nat, c0); (4%nat, c1); (4%nat, c2);
    (4%nat, if inclusive then 1 else 0); (2%nat, Z.of_nat (length lengths)); (2%nat, 0)];
  let request := prefix plan ++ body ++ payload in
  raise_if (MAXIMUM_FRAME_BYTES <? Z.of_nat (length request)) (ScoreWorkerError "score-worker request is oversized") ;;;
  Ok request.

(** ** Responses *)

(** What a [select] and [read] of the pipe may give: no data before the
    deadline, end of file, or a chunk, of which the read takes as much as it
    asked for *)
Inductive event := TimedOut | Closed | Chunk (bytes : list Z).

Fixpoint _read_exact (size : nat) (result : list Z) (events : list event) : res (list Z * list event) :=
  if (size <=? length result)%nat then Ok (result, events)
  else
    match events with
    | [] | TimedOut :: _ => Raise (ScoreWorkerError "score-worker request timed out")
    | Closed :: _ => Raise (ScoreWorkerError "score worker closed its response")
    | Chunk bytes :: events' =>
        let wanted := (size - length result)%nat in
        match bytes with
        | [] => Raise (ScoreWorkerError "score worker closed its response")
        | _ =>
            if (length bytes <=? wanted)%nat then _read_exact size (result ++ bytes) events'
            else Ok (result ++ take wanted bytes, Chunk (drop wanted bytes) :: events')
        end
    end.

Definition unpack_count (payload : list Z) (index : Z) : res CycleCountResult :=
  let o := Z.to_nat (index * 24) in
  raise_if (Z.of_nat (length payload) <? index * 24 + 24) StructError ;;;
  let complete := field (o + 2) 1 payload in
  let record_reserved := field (o + 3) 1 payload in
  raise_if (negb ((complete =? 0) || (complete =? 1)) || negb (record_reserved =? 0))
    (ScoreWorkerError "invalid score-worker count record") ;;;
  Ok (mkCount (field o 2 payload) (field (o + 4) 4 payload) (negb (complete =? 0))
        (field (o + 8) 8 payload) (field (o + 16) 8 payload)).

(** One turn of the loop over the records *)
Definition unpack_step (payload : list Z) (results : list CycleCountResult) (index : Z) : res (list CycleCountResult) :=
  r ← unpack_count payload index; Ok (results ++ [r]).

Record ScoreWorkerResponse := mkResponse { results : list CycleCountResult; dominated : bool }.

(** The bytes of a header: magic, version, status, id, count, reserved, size *)
Definition check_header (request_id : Z) (header : list Z) : res unit :=
  raise_if (negb (bool_decide (take 4 header = response_magic)) ||
            negb (field 4 2 header =? PROTOCOL_VERSION) ||
            negb (field 8 8 header =? request_id) ||
            negb (field 18 2 header =? 0) ||
            negb (field 20 4 header =? field 16 2 header * 24) ||
            (MAXIMUM_FRAME_BYTES <? field 20 4 header))
    (ScoreWorkerError "invalid score-worker response header").

Definition check_lengths (status : Z) (lengths result_lengths : list Z) : res unit :=
  raise_if
    (if status =? STATUS_OK then negb (bool_decide (result_lengths = lengths))
     else negb (bool_decide (result_lengths = merge_sort Z.le result_lengths)) ||
          negb (bool_decide (length (remove_dups result_lengths) = length result_lengths)) ||
          existsb (fun len => negb (bool_decide (len ∈ lengths))) result_lengths)
    (ScoreWorkerError "score worker returned unexpected cycle lengths").

Definition parse_response (request_id : Z) (lengths : list Z) (events : list event) : res ScoreWorkerResponse :=
  h ← _read_exact 24 [] events;
  let '(header, events) := h in
  check_header request_id header ;;;
  p ← _read_exact (Z.to_nat (field 20 4 header)) [] events;
  let response_payload := p.1 in
  let status := field 6 2 header in
  raise_if (negb ((status =? STATUS_OK) || (status =? STATUS_DOMINATED)))
    (ScoreWorkerError "score worker rejected the request") ;;;
  results ← foldM (unpack_step response_payload) [] (range 0 (field 16 2 header));
  check_lengths status lengths (cc_length <$> results) ;;;
  Ok (mkResponse results (status =? STATUS_DOMINATED)).

(** ** [score] *)

Record Env := mkEnv { starts : bool; accepts : bool; response : list event }.

Definition score (w : Worker) (env : Env) (g : BitGraph) (lengths : list Z) (limit node_budget : Z)
  (cutoff : option (Z * Z * Z)) (inclusive compact : bool) : res ScoreWorkerResponse * Worker :=
  let k := mkKey (gn g) lengths limit node_budget
             (match cutoff with Some _ => true | None => false end) inclusive compact (cutoff_longest_first w) in
  let '(plan, w) := _prepare_request_plan w k in
  match plan with
  | Raise e => (Raise e, w)
  | Ok plan =>
      match process w with
      | Exited => (Raise (ScoreWorkerError "score worker exited before request"), w)
      | p =>
          if match p with NotStarted => negb (starts env) | _ => false end
          then (Raise (ScoreWorkerError "could not start score worker"), w)
          else
            let w := next_request (with_process w Running) in
            (request ← build_request w plan g lengths limit node_budget cutoff inclusive compact;
             raise_if (negb (accepts env)) (ScoreWorkerError "score-worker request failed") ;;;
             parse_response (request_id w) lengths (response env), w)
      end
  end.

(** [close] forgets the process; a running one is sent a [COMMAND_QUIT] frame.
    The result is that frame and the worker. *)
Definition COMMAND_QUIT : Z := 2.
Definition close (w : Worker) : res (list Z) * Worker :=
  (match process w with
   | Running => rest ← pack_all [(2%nat, PROTOCOL_VERSION); (2%nat, COMMAND_QUIT); (4%nat, 0)]; Ok (request_magic ++ rest)
   | _ => Ok []
   end, with_process w NotStarted).

(** ** Little-endian fields *)

Definition byte (b : Z) : Prop := 0 <= b < 256.

Lemma le_bytes_length k x : length (le_bytes k x) = k.
Proof. revert x. induction k as [|k IH]; intros x; cbn; [done|]. by rewrite IH. Qed.

Lemma le_value_bytes k x : 0 <= x < 256 ^ Z.of_nat k -> le_value (le_bytes k x) = x.
Proof.
  revert x. induction k as [|k IH]; intros x Hx; cbn [le_bytes le_value].
  { cbn in Hx. lia. }
  rewrite Nat2Z.inj_succ, Z.pow_succ_r in Hx by lia.
  rewrite IH; [pose proof (Z.div_mod x 256); lia|].
  split; [apply Z.div_pos; lia|]. apply Z.div_lt_upper_bound; lia.
Qed.

Lemma le_value_bound l : Forall byte l -> 0 <= le_value l < 256 ^ Z.of_nat (length l).
Proof.
  induction 1 as [|b l Hb _ IH]; cbn [le_value length]; [cbn; lia|].
  unfold byte in Hb. rewrite Nat2Z.inj_succ, Z.pow_succ_r by lia. nia.
Qed.

Lemma le_bytes_byte k x : Forall byte (le_bytes k x).
Proof.
  revert x. induction k as [|k IH]; intros x; constructor; [|apply IH].
  apply Z.mod_pos_bound. lia.
Qed.

Lemma pack_Ok k x l : pack k x = Ok l -> length l = k /\ le_value l = x.
Proof.
  unfold pack. destruct (_ && _) eqn:H; [|done]. intros [= <-].
  split; [apply le_bytes_length|]. apply le_value_bytes. lia.
Qed.

Lemma pack_in_range k x : 0 <= x < 256 ^ Z.of_nat k -> pack k x = Ok (le_bytes k x).
Proof. intros Hx. unfold pack. by replace ((0 <=? x) && (x <? 256 ^ Z.of_nat k)) with true by lia. Qed.

(** A frame laid out field after field *)
Definition layout (fields : list (nat * Z)) : list Z := fields ≫= (fun f => le_bytes f.1 f.2).
Definition fits (f : nat * Z) : Prop := 0 <= f.2 < 256 ^ Z.of_nat f.1.

Lemma pack_all_Ok fields l : pack_all fields = Ok l <-> Forall fits fields /\ l = layout fields.
Proof.
  revert l. induction fields as [|[k x] fields IH]; intros l; cbn.
  { split; [intros [= <-]; by split|by intros [_ ->]]. }
  rewrite bind_Ok. split.
  - intros (b & Hb & Hl). unfold pack in Hb. destruct (_ && _) eqn:Hx; [|done]. injection Hb as <-.
    apply bind_Ok in Hl as (bs & [Hf ->]%IH & [= <-]). split; [|done]. constructor; [unfold fits; cbn; lia|done].
  - intros [[Hf Hfs]%Forall_cons ->]. exists (le_bytes k x). split; [by apply pack_in_range|].
    apply bind_Ok. exists (layout fields). split; [|done]. by apply IH.
Qed.

Lemma layout_length fields : length (layout fields) = sum_list (fields.*1).
Proof.
  induction fields as [|[k x] fields IH]; [done|]. cbn. rewrite length_app, le_bytes_length.
  unfold layout in IH. by rewrite IH.
Qed.

(** Reading back the field that starts where the fields before it end *)
Lemma field_layout pre k x post l o :
  o = (length l + sum_list (pre.*1))%nat -> fits (k, x) ->
  field o k (l ++ layout (pre ++ (k, x) :: post)) = x.
Proof.
  intros -> Hx. unfold field. rewrite drop_app_ge by lia.
  replace (length l + sum_list (pre.*1) - length l)%nat with (sum_list (pre.*1)) by lia.
  unfold layout. rewrite bind_app, drop_app_length' by (symmetry; apply layout_length).
  cbn. rewrite take_app_length' by (symmetry; apply le_bytes_length). by apply le_value_bytes.
Qed.

Lemma field_prefix o k l l' : (o + k <= length l)%nat -> field o k (l ++ l') = field o k l.
Proof. intros H. unfold field. by rewrite drop_app_le, take_app_le by (rewrite ?length_drop; lia). Qed.

Lemma field_suffix o k l l' : (length l <= o)%nat -> field o k (l ++ l') = field (o - length l) k l'.
Proof. intros H. unfold field. by rewrite drop_app_ge. Qed.

Lemma field_bound o k l : Forall byte l -> 0 <= field o k l < 256 ^ Z.of_nat k.
Proof.
  intros H. unfold field. pose proof (le_value_bound (take k (drop o l))) as Hb.
  split; [apply Hb; by apply Forall_take, Forall_drop|].
  eapply Z.lt_le_trans; [apply Hb; by apply Forall_take, Forall_drop|].
  apply Z.pow_le_mono_r; [lia|]. rewrite length_take. lia.
Qed.

(** ** Reading a frame *)

(** The bytes the pipe delivers before the first timeout or end of file *)
Fixpoint received (events : list event) : list Z :=
  match events with Chunk [] :: _ => [] | Chunk bytes :: events' => bytes ++ received events' | _ => [] end.

(** Whatever the chunks, the read takes the next bytes of the stream. *)
Lemma read_exact_received size acc events :
  (length acc <= size)%nat ->
  (size <= length acc + length (received events))%nat ->
  exists events',
    _read_exact size acc events = Ok (acc ++ take (size - length acc) (received events), events') /\
    received events' = drop (size - length acc) (received events).
Proof.
  revert acc. induction events as [|ev events IH]; intros acc Ha Hs; cbn [_read_exact];
    (destruct (Nat.leb_spec size (length acc)) as [Hle|Hlt];
      [replace (size - length acc)%nat with 0%nat by lia; rewrite take_0, drop_0, app_nil_r; eauto|]).
  { cbn in Hs. lia. }
  destruct ev as [| |[|b bytes]]; [cbn in Hs; lia..|]. change (received (Chunk (b :: bytes) :: events)) with ((b :: bytes) ++ received events) in *.
  rewrite length_app in Hs; cbn [length] in Hs |- *. destruct (Nat.leb_spec (S (length bytes)) (size - length acc)) as [Hall|Hsome].
  - destruct (IH (acc ++ b :: bytes)) as (events' & Hread & Hrest);
      [rewrite length_app; cbn; lia..|].
    exists events'. rewrite Hread, Hrest, <- app_assoc. rewrite length_app. cbn [length].
    rewrite take_app_ge, drop_app_ge by (cbn; lia). cbn [length].
    replace (size - (length acc + S (length bytes)))%nat with (size - length acc - S (length bytes))%nat by lia.
    done.
  - exists (Chunk (drop (size - length acc) (b :: bytes)) :: events).
    rewrite take_app_le, drop_app_le by (cbn; lia). split; [done|].
    assert (length (drop (size - length acc) (b :: bytes)) <> 0%nat) by (rewrite length_drop; cbn; lia).
    cbn [received]. by destruct (drop _ _).
Qed.

(** A read that returned has the size asked for and took the stream in order. *)
Lemma read_exact_Ok size acc events out events' :
  (length acc <= size)%nat -> _read_exact size acc events = Ok (out, events') ->
  length out = size /\ acc ++ received events = out ++ received events'.
Proof.
  revert acc. induction events as [|ev events IH]; intros acc Ha; cbn [_read_exact];
    (destruct (Nat.leb_spec size (length acc)) as [Hle|Hlt]; [intros [= <- <-]; split; [lia|done]|]); [done|].
  destruct ev as [| |[|b bytes]]; [done..|]. cbn [received].
  destruct (Nat.leb_spec (length (b :: bytes)) (size - length acc)) as [Hall|Hsome].
  - intros [Hl Hr]%IH; [|rewrite length_app; lia]. split; [done|]. by rewrite <- Hr, <- !app_assoc.
  - intros [= <- <-]. rewrite length_app, length_take. split; [lia|].
    assert (length (drop (size - length acc) (b :: bytes)) <> 0%nat) by (rewrite length_drop; lia).
    cbn [received]. destruct (drop _ _) as [|c l] eqn:Hd; [done|].
    rewrite <- app_assoc. f_equal. rewrite app_assoc. f_equal. rewrite <- Hd. by rewrite take_drop.
Qed.

(** ** What a response frame says *)

Definition count_fields (r : CycleCountResult) : list (nat * Z) :=
  [(2%nat, cc_length r); (1%nat, b2z (cc_complete r)); (1%nat, 0); (4%nat, cc_count r);
   (8%nat, cc_nodes r); (8%nat, cc_elapsed_ns r)].
Definition encode_count (r : CycleCountResult) : list Z := layout (count_fields r).
Definition header_fields (id status count : Z) : list (nat * Z) :=
  [(2%nat, PROTOCOL_VERSION); (2%nat, status); (8%nat, id); (2%nat, count); (2%nat, 0); (4%nat, count * 24)].

(** The bytes of a response: the reference the parser is compared with *)
Definition encode_response (id status : Z) (rs : list CycleCountResult) : list Z :=
  (response_magic ++ layout (header_fields id status (Z.of_nat (length rs)))) ++ (rs ≫= encode_count).

(** The lengths a response may report *)
Definition lengths_allowed (status : Z) (lengths reported : list Z) : Prop :=
  (status = STATUS_OK /\ reported = lengths) \/
  (status = STATUS_DOMINATED /\ StronglySorted Z.lt reported /\ reported ⊆ lengths).

Lemma sorted_set_lt l :
  StronglySorted Z.lt l <-> l = merge_sort Z.le l /\ length (remove_dups l) = length l.
Proof.
  split.
  - intros Hs. assert (NoDup l) as Hnd.
    { clear -Hs. induction Hs as [|x l _ IH Hx]; constructor; [|done].
      intros Hin. rewrite Forall_forall in Hx. specialize (Hx x Hin). lia. }
    split.
    + apply (StronglySorted_unique Z.le); [|apply StronglySorted_merge_sort; apply _|by rewrite merge_sort_Permutation].
      clear Hnd. induction Hs as [|x l _ IH Hx]; constructor; [done|]. eapply Forall_impl; [done|]. cbn. lia.
    + clear Hs. induction Hnd as [|x l Hx _ IH]; cbn; [done|]. case_decide; [done|]. cbn. by rewrite IH.
  - intros [Hs Hl]. assert (StronglySorted Z.le l) as Hle.
    { rewrite Hs. apply StronglySorted_merge_sort; apply _. }
    clear Hs. induction Hle as [|x l Hss IH Hx]; [constructor|]. cbn in Hl.
    pose proof (remove_dups_le l) as Hdl.
    case_decide as Hin; [cbn in Hl; lia|]. constructor; [apply IH; cbn in Hl; lia|].
    rewrite Forall_forall in *. intros y Hy. specialize (Hx y Hy).
    assert (x <> y) by (intros ->; done). lia.
Qed.

Lemma check_lengths_Ok status lengths reported u :
  status = STATUS_OK \/ status = STATUS_DOMINATED ->
  check_lengths status lengths reported = Ok u <-> lengths_allowed status lengths reported.
Proof.
  intros Hst. unfold check_lengths, lengths_allowed. rewrite raise_if_Ok.
  destruct Hst as [-> | ->]; cbn [Z.eqb STATUS_OK STATUS_DOMINATED Pos.eqb].
  - rewrite negb_false_iff, bool_decide_eq_true. unfold STATUS_OK, STATUS_DOMINATED. split; [by left|].
    intros [[_ H]|[H _]]; [done|lia].
  - rewrite !orb_false_iff, !negb_false_iff, !bool_decide_eq_true, <- sorted_set_lt.
    split.
    + intros [Hs He]. right. split_all; [done..|]. intros x Hx.
      destruct (decide (x ∈ lengths)) as [Hin|Hout]; [done|]. exfalso.
      enough (existsb (fun len => negb (bool_decide (len ∈ lengths))) reported = true) by congruence.
      apply existsb_exists. exists x. split; [by apply list_elem_of_In|]. by rewrite bool_decide_eq_false_2.
    + intros [[H _]|(_ & Hs & Hsub)]; [done|]. split; [done|].
      apply not_true_is_false. intros (x & Hx%list_elem_of_In & Hn)%existsb_exists.
      rewrite bool_decide_eq_true_2 in Hn; [done|]. by apply Hsub.
Qed.

(** The fields of given widths that start at an offset *)
Fixpoint read_fields (o : nat) (widths : list nat) (l : list Z) : list (nat * Z) :=
  match widths with [] => [] | k :: widths' => (k, field o k l) :: read_fields (o + k) widths' l end.

Lemma le_bytes_value l : Forall byte l -> le_bytes (length l) (le_value l) = l.
Proof.
  induction 1 as [|b l Hb _ IH]; cbn [length le_bytes le_value]; [done|]. unfold byte in Hb.
  rewrite (Z.mul_comm 256), Z.mod_add, Z.div_add, Z.mod_small, Z.div_small by lia. by rewrite Z.add_0_l, IH.
Qed.

Lemma layout_read_fields o widths l :
  Forall byte l -> (o + sum_list widths <= length l)%nat ->
  layout (read_fields o widths l) = take (sum_list widths) (drop o l).
Proof.
  intros Hb. revert o. induction widths as [|k widths IH]; intros o Hl; [by rewrite take_0|].
  cbn [read_fields sum_list sum_list_with] in *. unfold id in Hl at 1. cbn. unfold layout in IH.
  rewrite IH by lia. unfold field.
  pose proof (le_bytes_value (take k (drop o l)) ltac:(by apply Forall_take, Forall_drop)) as He.
  rewrite length_take, length_drop in He. replace (k `min` (length l - o))%nat with k in He by lia.
  rewrite He, <- drop_drop. unfold id. by rewrite take_take_drop.
Qed.

Lemma read_fields_fit o widths l : Forall byte l -> Forall fits (read_fields o widths l).
Proof.
  intros Hb. revert o. induction widths as [|k widths IH]; intros o; constructor; [|apply IH].
  unfold fits. cbn. by apply field_bound.
Qed.

Lemma encode_count_length r : length (encode_count r) = 24%nat.
Proof. apply layout_length. Qed.

Lemma encode_counts_length rs : length (rs ≫= encode_count) = (length rs * 24)%nat.
Proof. induction rs as [|r rs IH]; [done|]. rewrite bind_cons, length_app, encode_count_length, IH. cbn [length]. lia. Qed.

Lemma count_fields_read r :
  Forall fits (count_fields r) ->
  field 2 1 (encode_count r) = b2z (cc_complete r) /\ field 3 1 (encode_count r) = 0 /\
  field 0 2 (encode_count r) = cc_length r /\ field 4 4 (encode_count r) = cc_count r /\
  field 8 8 (encode_count r) = cc_nodes r /\ field 16 8 (encode_count r) = cc_elapsed_ns r.
Proof.
  unfold count_fields. rewrite !Forall_cons. intros (? & ? & ? & ? & ? & ? & _). split_all.
  - by apply (field_layout (take 1 (count_fields r)) 1%nat _ (drop 2 (count_fields r)) []).
  - by apply (field_layout (take 2 (count_fields r)) 1%nat _ (drop 3 (count_fields r)) []).
  - by apply (field_layout [] 2%nat _ (drop 1 (count_fields r)) []).
  - by apply (field_layout (take 3 (count_fields r)) 4%nat _ (drop 4 (count_fields r)) []).
  - by apply (field_layout (take 4 (count_fields r)) 8%nat _ (drop 5 (count_fields r)) []).
  - by apply (field_layout (take 5 (count_fields r)) 8%nat _ (drop 6 (count_fields r)) []).
Qed.

(** Reading one count record back *)
Lemma unpack_count_encode i pre r post :
  Forall fits (count_fields r) -> length pre = (i * 24)%nat ->
  unpack_count (pre ++ encode_count r ++ post) (Z.of_nat i) = Ok r.
Proof.
  intros Hr Hi. assert (Z.of_nat i * 24 = Z.of_nat (length pre)) as Ho by lia.
  unfold unpack_count. rewrite Ho, Nat2Z.id.
  rewrite (proj2 (Z.ltb_ge _ _)) by (rewrite !length_app, encode_count_length; lia).
  cbn [mbind res_bind raise_if].
  assert (forall o k, (o + k <= 24)%nat ->
    field (length pre + o) k (pre ++ encode_count r ++ post) = field o k (encode_count r)) as Hf.
  { intros o k Hk. rewrite field_suffix by lia. replace (length pre + o - length pre)%nat with o by lia.
    apply field_prefix. by rewrite encode_count_length. }
  pose proof (Hf 0%nat 2%nat ltac:(lia)) as H0. rewrite Nat.add_0_r in H0. rewrite H0, !Hf by lia.
  destruct (count_fields_read r Hr) as (-> & -> & -> & -> & -> & ->).
  by destruct r as [len c [] nodes ns].
Qed.

Lemma unpack_step_encode i pre r post acc :
  Forall fits (count_fields r) -> length pre = (i * 24)%nat ->
  unpack_step (pre ++ encode_count r ++ post) acc (Z.of_nat i) = Ok (acc ++ [r]).
Proof. intros. unfold unpack_step. by rewrite unpack_count_encode. Qed.

Lemma unpack_counts_encode rs pre post acc :
  Forall (fun r => Forall fits (count_fields r)) rs -> length pre = (length acc * 24)%nat ->
  foldM (unpack_step (pre ++ (rs ≫= encode_count) ++ post)) acc
    (range (Z.of_nat (length acc)) (Z.of_nat (length acc + length rs))) = Ok (acc ++ rs).
Proof.
  revert pre acc. induction rs as [|r rs IH]; intros pre acc Hr Hl.
  { rewrite range_nil by (cbn; lia). by rewrite app_nil_r. }
  apply Forall_cons in Hr as [Hr Hrs]. rewrite range_cons by (cbn; lia). cbn [foldM].
  rewrite bind_cons, <- (app_assoc (encode_count r)).
  rewrite unpack_step_encode by done. cbn [mbind res_bind].
  specialize (IH (pre ++ encode_count r) (acc ++ [r]) Hrs).
  rewrite !length_app, encode_count_length, <- !app_assoc in IH. cbn [length app] in IH |- *.
  replace (Z.of_nat (length acc) + 1) with (Z.of_nat (length acc + 1)) by lia.
  replace (length acc + S (length rs))%nat with (length acc + 1 + length rs)%nat by lia.
  apply IH. lia.
Qed.

(** A record that was accepted is the encoding of its result. *)
Lemma unpack_count_Ok payload i r :
  Forall byte payload -> unpack_count payload (Z.of_nat i) = Ok r ->
  take 24 (drop (i * 24) payload) = encode_count r /\ Forall fits (count_fields r).
Proof.
  intros Hb. unfold unpack_count. replace (Z.to_nat (Z.of_nat i * 24)) with (i * 24)%nat by lia.
  set (o := (i * 24)%nat). intros H. apply raise_seq_Ok in H as [Hl H]. apply raise_seq_Ok in H as [Hc [= <-]].
  apply Z.ltb_ge in Hl. apply orb_false_iff in Hc as [Hc Hz].
  rewrite negb_false_iff in Hc, Hz. apply orb_true_iff in Hc. apply Z.eqb_eq in Hz.
  set (widths := [2; 1; 1; 4; 8; 8]%nat).
  enough (count_fields (mkCount (field o 2 payload) (field (o + 4) 4 payload) (negb (field (o + 2) 1 payload =? 0))
            (field (o + 8) 8 payload) (field (o + 16) 8 payload)) = read_fields o widths payload) as Heq.
  - unfold encode_count. rewrite Heq. split; [|by apply read_fields_fit].
    symmetry. apply layout_read_fields; [done|]. change (sum_list widths) with 24%nat. lia.
  - unfold count_fields. cbn [read_fields widths cc_length cc_count cc_complete cc_nodes cc_elapsed_ns].
    rewrite <- !Nat.add_assoc. cbn [Nat.add]. rewrite Hz.
    assert (b2z (negb (field (o + 2) 1 payload =? 0)) = field (o + 2) 1 payload) as ->; [|done].
    destruct Hc as [Hc|Hc]; apply Z.eqb_eq in Hc; by rewrite Hc.
Qed.

Lemma unpack_counts_Ok payload n rs :
  Forall byte payload -> 
  foldM (unpack_step payload) [] (range 0 (Z.of_nat n)) = Ok rs ->
  length rs = n /\ take (n * 24) payload = (rs ≫= encode_count) /\ Forall (fun r => Forall fits (count_fields r)) rs.
Proof.
  intros Hb. revert rs. induction n as [|n IH]; intros rs.
  { rewrite range_nil by lia. intros [= <-]. split_all; [done| |constructor]. by rewrite take_0. }
  replace (Z.of_nat (S n)) with (Z.of_nat n + 1) by lia. rewrite range_snoc, foldM_app by lia.
  intros H. apply bind_Ok in H as (rs0 & (Hl & Ht & Hf)%IH & H). cbn in H.
  apply bind_Ok in H as (r' & H & [= ->]). unfold unpack_step in H.
  apply bind_Ok in H as (r & [He Hr]%unpack_count_Ok & [= <-]); [|done].
  split_all; [rewrite length_app; cbn; lia| |by apply Forall_app_2, Forall_singleton].
  rewrite bind_app, <- Ht. cbn [mbind list_bind]. rewrite app_nil_r, <- He.
  replace (S n * 24)%nat with (n * 24 + 24)%nat by lia. symmetry. apply take_take_drop.
Qed.

Lemma header_length id status count : length (response_magic ++ layout (header_fields id status count)) = 24%nat.
Proof. by rewrite length_app, layout_length. Qed.

Lemma header_read id status count :
  Forall fits (header_fields id status count) ->
  let h := response_magic ++ layout (header_fields id status count) in
  field 4 2 h = PROTOCOL_VERSION /\ field 6 2 h = status /\ field 8 8 h = id /\ field 16 2 h = count /\
  field 18 2 h = 0 /\ field 20 4 h = count * 24.
Proof.
  unfold header_fields. rewrite !Forall_cons. intros (? & ? & ? & ? & ? & ? & _). cbn zeta. split_all.
  - by apply (field_layout [] 2%nat _ (drop 1 (header_fields id status count)) response_magic).
  - by apply (field_layout (take 1 (header_fields id status count)) 2%nat _ (drop 2 (header_fields id status count)) response_magic).
  - by apply (field_layout (take 2 (header_fields id status count)) 8%nat _ (drop 3 (header_fields id status count)) response_magic).
  - by apply (field_layout (take 3 (header_fields id status count)) 2%nat _ (drop 4 (header_fields id status count)) response_magic).
  - by apply (field_layout (take 4 (header_fields id status count)) 2%nat _ (drop 5 (header_fields id status count)) response_magic).
  - by apply (field_layout (take 5 (header_fields id status count)) 4%nat _ (drop 6 (header_fields id status count)) response_magic).
Qed.

(** An accepted header is the header of its own status and count. *)
Lemma check_header_Ok id header :
  Forall byte header -> length header = 24%nat -> check_header id header = Ok tt ->
  header = response_magic ++ layout (header_fields id (field 6 2 header) (field 16 2 header)) /\
  field 20 4 header = field 16 2 header * 24 /\ field 20 4 header <= MAXIMUM_FRAME_BYTES.
Proof.
  intros Hb Hl H%raise_if_Ok. rewrite !orb_false_iff, !negb_false_iff, bool_decide_eq_true, !Z.eqb_eq, Z.ltb_ge in H.
  destruct H as (((((Hm & Hv) & Hid) & Hz) & Hs) & Hmax). split_all; [|done..].
  rewrite <- (take_drop 4 header) at 1. rewrite Hm. f_equal.
  pose proof (layout_read_fields 4 [2; 2; 8; 2; 2; 4]%nat header Hb ltac:(rewrite Hl; cbn; lia)) as Hlay.
  rewrite take_ge in Hlay by (rewrite length_drop, Hl; cbn; lia). rewrite <- Hlay. f_equal.
  cbn [read_fields Nat.add]. unfold header_fields. by rewrite Hv, Hid, Hz, Hs.
Qed.

Lemma check_header_encode id status count :
  Forall fits (header_fields id status count) -> count * 24 <= MAXIMUM_FRAME_BYTES ->
  check_header id (response_magic ++ layout (header_fields id status count)) = Ok tt.
Proof.
  intros Hf Hmax. destruct (header_read id status count Hf) as (H1 & _ & H2 & H3 & H4 & H5).
  unfold check_header. rewrite H1, H2, H3, H4, H5, !Z.eqb_refl. cbn [take app response_magic].
  by rewrite (proj2 (Z.ltb_ge _ _)).
Qed.

Lemma allowed_status status lengths reported :
  lengths_allowed status lengths reported -> status = STATUS_OK \/ status = STATUS_DOMINATED.
Proof. intros [[? _]|[? _]]; tauto. Qed.

(** What the worker may have sent for a response to be accepted *)
Definition response_for (id status : Z) (lengths : list Z) (rs : list CycleCountResult) : Prop :=
  Forall (fun r => Forall fits (count_fields r)) rs /\
  Z.of_nat (length rs) * 24 <= MAXIMUM_FRAME_BYTES /\
  lengths_allowed status lengths (cc_length <$> rs).

(** ** The parser inverts the encoding *)

Lemma parse_encoded id status lengths rs events more :
  0 <= id < 2 ^ 64 -> response_for id status lengths rs ->
  received events = encode_response id status rs ++ more ->
  parse_response id lengths events = Ok (mkResponse rs (status =? STATUS_DOMINATED)).
Proof.
  intros Hid (Hrs & Hmax & Hal) Hrec. pose proof (allowed_status _ _ _ Hal) as Hst.
  set (count := Z.of_nat (length rs)) in *.
  assert (Forall fits (header_fields id status count)) as Hf.
  { unfold MAXIMUM_FRAME_BYTES in Hmax. unfold header_fields, fits. rewrite !Forall_cons. cbn [fst snd].
    unfold PROTOCOL_VERSION. split_all; try (cbn; lia); try apply Forall_nil_2; destruct Hst as [-> | ->]; done. }
  unfold encode_response in Hrec. set (header := response_magic ++ _) in Hrec.
  assert (length header = 24%nat) as Hhl by apply header_length.
  rewrite <- app_assoc in Hrec. unfold parse_response.
  destruct (read_exact_received 24 [] events) as (ev1 & -> & Hr1);
    [cbn; lia|rewrite Hrec, length_app, Hhl; cbn; lia|].
  cbn [length app Nat.sub mbind res_bind] in Hr1 |- *. rewrite Hrec in Hr1.
  rewrite Hrec, take_app_length' by done. rewrite drop_app_length' in Hr1 by done.
  unfold header. rewrite check_header_encode by done. cbn [mbind res_bind].
  fold count. destruct (header_read id status count Hf) as (_ & -> & _ & -> & _ & ->).
  replace (Z.to_nat (count * 24)) with (length rs * 24)%nat by lia.
  pose proof (encode_counts_length rs) as Hcl.
  destruct (read_exact_received (length rs * 24) [] ev1) as (ev2 & -> & _);
    [cbn; lia|rewrite Hr1, length_app, Hcl; cbn; lia|].
  cbn [length app mbind res_bind fst snd]. rewrite Nat.sub_0_r, Hr1, take_app_length' by done.
  assert ((status =? STATUS_OK) || (status =? STATUS_DOMINATED) = true) as -> by (destruct Hst as [-> | ->]; done).
  cbn [negb raise_if mbind res_bind].
  pose proof (unpack_counts_encode rs [] [] [] Hrs eq_refl) as Hu. cbn [length app Nat.add] in Hu.
  rewrite app_nil_r in Hu. change (Z.of_nat 0) with 0 in Hu. unfold count. rewrite Hu. cbn [mbind res_bind].
  destruct (check_lengths status lengths (cc_length <$> rs)) as [[]|] eqn:Hc; [done|].
  apply (check_lengths_Ok _ _ _ tt Hst) in Hal. congruence.
Qed.

Lemma parse_accepted id lengths events resp :
  Forall byte (received events) -> parse_response id lengths events = Ok resp ->
  exists status more, response_for id status lengths (results resp) /\
    dominated resp = (status =? STATUS_DOMINATED) /\
    received events = encode_response id status (results resp) ++ more.
Proof.
  intros Hb H. unfold parse_response in H. apply bind_Ok in H as ([header ev1] & Hh & H).
  apply read_exact_Ok in Hh as [Hhl Hr1]; [|cbn; lia]. cbn [app] in Hr1. rewrite Hr1 in Hb.
  apply Forall_app in Hb as [Hbh Hb1]. apply seq_Ok in H as [[Hhead [Hs Hmax]]%check_header_Ok H]; [|done..].
  apply bind_Ok in H as ([payload ev2] & Hp & H). apply read_exact_Ok in Hp as [Hpl Hr2]; [|cbn; lia].
  cbn [app fst snd] in *. rewrite Hr2 in Hb1. apply Forall_app in Hb1 as [Hbp _].
  apply raise_seq_Ok in H as [Hst H]. apply bind_Ok in H as (rs & Hu & H).
  apply seq_Ok in H as [Hc [= <-]]. cbn [results dominated].
  set (count := field 16 2 header) in *. set (status := field 6 2 header) in *.
  pose proof (field_bound 16 2 header Hbh) as Hcount. fold count in Hcount.
  replace count with (Z.of_nat (Z.to_nat count)) in Hu by lia.
  apply unpack_counts_Ok in Hu as (Hlen & Htake & Hfit); [|done].
  rewrite take_ge in Htake by lia.
  assert (status = STATUS_OK \/ status = STATUS_DOMINATED) as Hst'.
  { apply negb_false_iff, orb_true_iff in Hst. rewrite !Z.eqb_eq in Hst. done. }
  exists status, (received ev2). split_all; [|done|].
  - unfold response_for. split_all; [done|lia|]. by apply (check_lengths_Ok _ _ _ tt).
  - rewrite Hr1, Hr2, app_assoc. f_equal. unfold encode_response. rewrite Hlen, Z2Nat.id by lia.
    by rewrite <- Hhead, <- Htake.
Qed.

(** C20: the response parser accepts exactly the encodings of
    the responses the protocol allows, however the pipe cuts the bytes into
    chunks and whatever follows: it returns the encoded results, with the
    request's id in the header, the requested lengths in order (or, for a
    dominated answer, an increasing part of them), and fails on every other
    byte stream. *)
Theorem response_exact id lengths events resp :
  Forall byte (received events) -> 0 <= id < 2 ^ 64 ->
  parse_response id lengths events = Ok resp <->
  exists status more, response_for id status lengths (results resp) /\
    dominated resp = (status =? STATUS_DOMINATED) /\
    received events = encode_response id status (results resp) ++ more.
Proof.
  intros Hb Hid. split; [by apply parse_accepted|].
  intros (status & more & Hfor & Hd & Hrec). rewrite (parse_encoded id status lengths (results resp) _ more) by done.
  rewrite <- Hd. by destruct resp.
Qed.

(** ** What a request frame says *)

(** The words of a row, as the loop over the rows writes them *)
Definition row_words (word_count row : Z) : list Z :=
  if word_count =? 2 then [Z.land row (Z.shiftl 1 64 - 1); Z.shiftr row 64] else [Z.land row (Z.shiftl 1 64 - 1)].
Definition words8 (ws : list Z) : list (nat * Z) := (fun x => (8%nat, x)) <$> ws.
Definition halves (ws : list Z) : list (nat * Z) := (fun x => (2%nat, x)) <$> ws.

(** The rows of a request for a graph of up to 128 vertices *)
Definition rows_fit (word_count : Z) (g : BitGraph) : Prop :=
  Forall (fun row => 0 <= row < 2 ^ (64 * word_count)) (rows g).

Lemma pack_into_layout pre zs x :
  0 <= x < 256 ^ 8 -> (8 <= length zs)%nat ->
  pack_into (pre ++ zs) (length pre) 8 x = Ok ((pre ++ le_bytes 8 x) ++ drop 8 zs).
Proof.
  intros Hx Hl. unfold pack_into. rewrite pack_in_range by done. cbn [mbind res_bind].
  destruct (Nat.ltb_spec (length (pre ++ zs)) (length pre + 8)) as [Hlt|_]; [rewrite length_app in Hlt; lia|].
  rewrite take_app_length, drop_app_add, <- app_assoc. done.
Qed.

Lemma low_word row : 0 <= Z.land row (Z.shiftl 1 64 - 1) < 256 ^ 8.
Proof. change (Z.shiftl 1 64 - 1) with (Z.ones 64). rewrite Z.land_ones by lia. apply Z.mod_pos_bound. lia. Qed.

Lemma row_words_spec wc row :
  wc = 1 \/ wc = 2 -> 0 <= row < 2 ^ (64 * wc) ->
  Forall fits (words8 (row_words wc row)) /\ length (row_words wc row) = Z.to_nat wc.
Proof.
  intros Hwc Hr. pose proof (low_word row). unfold row_words. destruct Hwc as [-> | ->]; cbn [Z.eqb Pos.eqb].
  - split; [|done]. by apply Forall_singleton.
  - split; [|done]. apply Forall_cons. split; [done|]. apply Forall_singleton. unfold fits. cbn [fst snd].
    rewrite Z.shiftr_div_pow2 by lia. split; [apply Z.div_pos; lia|]. apply Z.div_lt_upper_bound; [lia|].
    change (2 ^ 64 * 256 ^ Z.of_nat 8) with (2 ^ (64 * 2)). lia.
Qed.

Lemma pack_row_layout wc pre zs row :
  wc = 1 \/ wc = 2 -> 0 <= row < 2 ^ (64 * wc) -> (Z.to_nat wc * 8 <= length zs)%nat ->
  pack_row wc (pre ++ zs, length pre) row =
    Ok ((pre ++ layout (words8 (row_words wc row))) ++ drop (Z.to_nat wc * 8) zs,
        length (pre ++ layout (words8 (row_words wc row)))).
Proof.
  intros Hwc Hr Hl. destruct (row_words_spec wc row Hwc Hr) as [Hf _]. pose proof (low_word row) as Hlow.
  unfold pack_row, row_words in *. rewrite pack_into_layout by (done || lia). cbn [mbind res_bind].
  destruct Hwc as [-> | ->]; cbn [Z.eqb Pos.eqb] in *.
  - unfold layout, words8. cbn [fmap list_fmap mbind list_bind fst snd].
    rewrite app_nil_r, !length_app, le_bytes_length. done.
  - apply Forall_cons in Hf as [_ [Hhigh _]%Forall_cons].
    replace (length pre + 8)%nat with (length (pre ++ le_bytes 8 (Z.land row (Z.shiftl 1 64 - 1))))
      by (by rewrite length_app, le_bytes_length).
    rewrite pack_into_layout by (done || rewrite length_drop; lia). cbn [mbind res_bind].
    unfold layout, words8. cbn [fmap list_fmap mbind list_bind fst snd]. rewrite app_nil_r, <- !app_assoc, drop_drop.
    rewrite !length_app, !le_bytes_length. do 2 f_equal. lia.
Qed.

Lemma pack_rows_layout wc rs pre zs :
  wc = 1 \/ wc = 2 -> Forall (fun row => 0 <= row < 2 ^ (64 * wc)) rs ->
  length zs = (length rs * (Z.to_nat wc * 8))%nat ->
  exists offset, foldM (pack_row wc) (pre ++ zs, length pre) rs =
    Ok (pre ++ layout (words8 (rs ≫= row_words wc)), offset).
Proof.
  intros Hwc. revert pre zs. induction rs as [|row rs IH]; intros pre zs Hr Hl.
  { apply nil_length_inv in Hl as ->. eexists. cbn. by rewrite !app_nil_r. }
  apply Forall_cons in Hr as [Hrow Hrs]. cbn [foldM length] in *. rewrite pack_row_layout by (done || lia).
  cbn [mbind res_bind]. destruct (IH (pre ++ layout (words8 (row_words wc row))) (drop (Z.to_nat wc * 8) zs))
    as [o ->]; [done|rewrite length_drop; lia|].
  exists o. do 2 f_equal. rewrite bind_cons. unfold words8, layout. by rewrite fmap_app, bind_app, <- app_assoc.
Qed.

(** What a reader of the frame takes from it, field by field *)
Record Query := mkQuery {
  q_id : Z; q_limit : Z; q_node_budget : Z; q_flags : Z; q_cutoff : Z * Z * Z; q_inclusive : Z;
  q_lengths : list Z; q_rows : list Z
}.

Definition read_row (word_count : Z) (o : nat) (l : list Z) : Z :=
  if word_count =? 2 then field o 8 l + 2 ^ 64 * field (o + 8) 8 l else field o 8 l.

Definition read_request (l : list Z) : Query :=
  let n := Z.to_nat (field 20 2 l) in
  let wc := field 22 2 l in
  let count := Z.to_nat (field 52 2 l) in
  mkQuery (field 12 8 l) (field 24 4 l) (field 28 4 l) (field 32 4 l)
    (field 36 4 l, field 40 4 l, field 44 4 l) (field 48 4 l)
    ((fun i => field (56 + i * 2) 2 l) <$> seq 0 count)
    ((fun i => read_row wc (56 + count * 2 + i * (Z.to_nat wc * 8)) l) <$> seq 0 n).

Definition u32 (x : Z) : Prop := 0 <= x < 2 ^ 32.

(** The calls the protocol can carry *)
Record score_inputs (id : Z) (g : BitGraph) (lengths : list Z) (limit node_budget : Z)
  (cutoff : option (Z * Z * Z)) (compact : bool) : Prop := {
  in_id : 0 <= id < 2 ^ 64;
  in_wf : wf g;
  in_order : 1 <= gn g <= 128;
  in_lengths : StronglySorted Z.lt lengths /\ Forall (fun len => 3 <= len <= gn g) lengths /\ (length lengths <= 64)%nat;
  in_limit : 1 <= limit < 2 ^ 32;
  in_budget : 1 <= node_budget < 2 ^ 32;
  in_cutoff : let '(c0, c1, c2) := default (0, 0, 0) cutoff in u32 c0 /\ u32 c1 /\ u32 c2;
  in_compact : compact = true -> is_Some cutoff
}.

Definition request_key (w : Worker) (g : BitGraph) (lengths : list Z) (limit node_budget : Z)
  (cutoff : option (Z * Z * Z)) (inclusive compact : bool) : PlanKey :=
  mkKey (gn g) lengths limit node_budget
    (match cutoff with Some _ => true | None => false end) inclusive compact (cutoff_longest_first w).

Definition body_fields (id n wc limit budget flags c0 c1 c2 inclusive count : Z) : list (nat * Z) :=
  [(8%nat, id); (2%nat, n); (2%nat, wc); (4%nat, limit); (4%nat, budget); (4%nat, flags);
   (4%nat, c0); (4%nat, c1); (4%nat, c2); (4%nat, inclusive); (2%nat, count); (2%nat, 0)].
Definition prefix_fields (payload_bytes : Z) : list (nat * Z) :=
  [(2%nat, PROTOCOL_VERSION); (2%nat, COMMAND_SCORE); (4%nat, payload_bytes)].

Lemma layout_uniform_length k xs : length (layout ((fun x => (k, x)) <$> xs)) = (length xs * k)%nat.
Proof.
  unfold layout. induction xs as [|x xs IH]; [done|].
  rewrite fmap_cons, bind_cons, length_app, le_bytes_length, IH. done.
Qed.

Lemma field_uniform k xs pre post i x :
  Forall fits ((fun x => (k, x)) <$> xs) -> xs !! i = Some x ->
  field (length pre + i * k) k (pre ++ layout ((fun x => (k, x)) <$> xs) ++ post) = x.
Proof.
  intros Hf Hx. rewrite field_suffix by lia. replace (length pre + i * k - length pre)%nat with (i * k)%nat by lia.
  pose proof (lookup_lt_Some _ _ _ Hx). rewrite field_prefix by (rewrite layout_uniform_length; nia).
  apply take_drop_middle in Hx as Hsplit. rewrite <- Hsplit, fmap_app, fmap_cons in Hf |- *.
  apply (field_layout _ k x _ []).
  - rewrite <- layout_length, layout_uniform_length, length_take. cbn. nia.
  - by apply Forall_app in Hf as [_ [? _]%Forall_cons].
Qed.

Lemma words_lookup wc rs i j row :
  wc = 1 \/ wc = 2 -> rs !! i = Some row -> (j < Z.to_nat wc)%nat ->
  (rs ≫= row_words wc) !! (i * Z.to_nat wc + j)%nat = row_words wc row !! j.
Proof.
  intros Hwc. assert (forall r, length (row_words wc r) = Z.to_nat wc) as Hl.
  { intros r. unfold row_words. by destruct Hwc as [-> | ->]. }
  revert i. induction rs as [|r rs IH]; intros i Hi Hj; [done|]. rewrite bind_cons.
  destruct i as [|i]; cbn in Hi.
  - injection Hi as ->. rewrite lookup_app_l; [done|]. rewrite Hl. lia.
  - rewrite lookup_app_r by (rewrite Hl; nia). rewrite Hl, <- (IH i) by done. f_equal. nia.
Qed.

Lemma row_join row : 0 <= row -> Z.land row (Z.shiftl 1 64 - 1) + 2 ^ 64 * Z.shiftr row 64 = row.
Proof.
  intros Hr. change (Z.shiftl 1 64 - 1) with (Z.ones 64). rewrite Z.land_ones, Z.shiftr_div_pow2 by lia.
  pose proof (Z.div_mod row (2 ^ 64) ltac:(lia)). lia.
Qed.

Section Request.
Context (w : Worker) (g : BitGraph) (lengths : list Z) (limit node_budget : Z)
  (cutoff : option (Z * Z * Z)) (inclusive compact : bool).
Context (Hin : score_inputs (request_id w) g lengths limit node_budget cutoff compact).

Let wc : Z := (gn g + 63) / 64.
Let count : Z := Z.of_nat (length lengths).
Let payload_size : Z := count * 2 + gn g * wc * 8.
Let k : PlanKey := request_key w g lengths limit node_budget cutoff inclusive compact.
Let the_plan : _PreparedRequestPlan :=
  mkPlan k wc (count * 2) payload_size (layout (halves lengths)) (request_magic ++ layout (prefix_fields payload_size)).
Let the_body : list (nat * Z) :=
  let '(c0, c1, c2) := default (0, 0, 0) cutoff in
  body_fields (request_id w) (gn g) wc limit node_budget (cutoff_flags w cutoff compact) c0 c1 c2 (b2z inclusive) count.
Let the_request : list Z :=
  (request_magic ++ layout (prefix_fields payload_size)) ++ layout the_body ++
  layout (halves lengths) ++ layout (words8 (rows g ≫= row_words wc)).

Lemma word_count_small : (wc = 1 /\ gn g <= 64) \/ (wc = 2 /\ 64 < gn g).
Proof. clear -Hin. destruct Hin. unfold wc. destruct (Z.le_gt_cases (gn g) 64).
  - left. split; [|done]. symmetry. apply (Z.div_unique _ 64 1 (gn g - 1)); lia.
  - right. split; [|done]. symmetry. apply (Z.div_unique _ 64 2 (gn g - 65)); lia.
Qed.

Lemma words_of_row : wc = 1 \/ wc = 2.
Proof. destruct word_count_small as [[? _]|[? _]]; tauto. Qed.

Lemma request_rows_fit : rows_fit wc g.
Proof.
  apply Forall_forall. intros row Hrow. apply list_elem_of_lookup in Hrow as [i Hi].
  destruct Hin as [_ Hwf Hn _ _ _ _ _]. pose proof (lookup_lt_Some _ _ _ Hi) as Hlt.
  assert (Model.row g (Z.of_nat i) = row) as <-.
  { unfold Model.row. apply cell_lookup. by rewrite Nat2Z.id. }
  pose proof (wf_nonneg g Hwf (Z.of_nat i)) as Hpos. split; [done|].
  apply testbit_lt_pow2; [done| |destruct words_of_row as [-> | ->]; lia].
  intros j Hj. rewrite <- adj_row in Hj by lia. apply (wf_range g Hwf) in Hj as [_ Hj].
  unfold vertex in Hj. destruct word_count_small as [[-> ?]|[-> ?]]; lia.
Qed.

Lemma halves_fit : Forall fits (halves lengths).
Proof.
  destruct Hin as [_ _ Hn (_ & Hr & _) _ _ _ _]. unfold halves. apply Forall_fmap. eapply Forall_impl; [exact Hr|].
  intros len Hlen. cbn in Hlen |- *. unfold fits. cbn. lia.
Qed.

Lemma payload_bound : 0 <= payload_size <= 2176 /\ 0 <= count <= 64.
Proof.
  destruct Hin as [_ _ Hn (_ & _ & Hl) _ _ _ _]. unfold payload_size, count.
  destruct word_count_small as [[-> ?]|[-> ?]]; lia.
Qed.

Lemma prefix_fit : Forall fits (prefix_fields payload_size).
Proof.
  pose proof payload_bound. unfold prefix_fields, fits. rewrite !Forall_cons. cbn [fst snd].
  split_all; try apply Forall_nil_2; unfold PROTOCOL_VERSION, COMMAND_SCORE; cbn; lia.
Qed.

Lemma make_plan_valid : make_plan k = Ok the_plan.
Proof.
  pose proof payload_bound as [_ Hcount]. pose proof halves_fit as Hh. pose proof prefix_fit as Hp.
  destruct Hin as [_ _ Hn (Hs & Hr & Hl) Hlim Hbud _ Hc]. unfold make_plan, k, request_key.
  cbn [key_limit key_node_budget key_lengths key_n key_compact key_cutoff_enabled].
  replace ((limit <? 1) || (node_budget <? 1)) with false by lia. cbn [raise_if mbind res_bind].
  fold count. rewrite (proj2 (Z.ltb_ge _ _)) by lia. cbn [orb].
  assert (existsb (fun len => (len <? 3) || (gn g <? len)) lengths = false) as ->.
  { apply not_true_is_false. intros (x & Hx%list_elem_of_In & Hb)%existsb_exists.
    rewrite Forall_forall in Hr. specialize (Hr x Hx). lia. }
  assert (sorted_set lengths = lengths) as Hss.
  { apply (proj1 (sorted_set_lt lengths)) in Hs as [Hm Hrd]. unfold sorted_set.
    by rewrite remove_dups_full. }
  rewrite bool_decide_eq_true_2 by done. cbn [negb raise_if mbind res_bind].
  assert (compact && negb match cutoff with Some _ => true | None => false end = false) as ->.
  { destruct compact; [|done]. by destruct (Hc eq_refl) as [? ->]. }
  cbn [raise_if mbind res_bind]. fold (halves lengths). fold wc. fold payload_size.
  rewrite (proj2 (pack_all_Ok _ _)) by done. cbn [mbind res_bind]. fold (prefix_fields payload_size).
  by rewrite (proj2 (pack_all_Ok _ _)) by done.
Qed.

Lemma cutoff_flags_bound : 0 <= cutoff_flags w cutoff compact <= 7.
Proof. unfold cutoff_flags. destruct cutoff, (cutoff_longest_first w), compact; split; by vm_compute. Qed.

Lemma body_fit : Forall fits the_body.
Proof.
  pose proof payload_bound as [_ Hcount]. pose proof cutoff_flags_bound.
  destruct Hin as [Hid _ Hn _ Hlim Hbud Hc _]. pose proof words_of_row.
  unfold the_body, body_fields, u32 in *. destruct (default (0, 0, 0) cutoff) as [[c0 c1] c2].
  assert (0 <= b2z inclusive <= 1) by (destruct inclusive; cbn; lia).
  unfold fits. rewrite !Forall_cons. cbn [fst snd].
  split_all; try apply Forall_nil_2; cbn; lia.
Qed.

Lemma build_payload_layout :
  build_payload the_plan g = Ok (layout (halves lengths) ++ layout (words8 (rows g ≫= row_words wc))).
Proof.
  pose proof words_of_row as Hwc. pose proof payload_bound as [Hp Hc].
  unfold build_payload, the_plan. cbn [packed_lengths length_bytes payload_bytes word_count].
  assert (Z.to_nat (count * 2) = length (layout (halves lengths))) as ->
    by (unfold halves; rewrite layout_uniform_length; unfold count; lia).
  edestruct (pack_rows_layout wc (rows g) (layout (halves lengths))) as [o ->]; [done|apply request_rows_fit| |done].
  rewrite length_drop, length_replicate. unfold halves. rewrite layout_uniform_length.
  pose proof (wf_len g (in_wf _ _ _ _ _ _ _ Hin)). unfold payload_size, count. destruct Hwc as [-> | ->]; lia.
Qed.

Lemma request_length :
  length the_request = (56 + length lengths * 2 + length (rows g) * (Z.to_nat wc * 8))%nat.
Proof.
  unfold the_request, words8, halves. rewrite !length_app, !layout_uniform_length.
  assert (length (layout the_body) = 44%nat) as ->.
  { rewrite layout_length. unfold the_body. by destruct (default (0, 0, 0) cutoff) as [[c0 c1] c2]. }
  rewrite layout_length. cbn [length request_magic prefix_fields fmap list_fmap fst sum_list sum_list_with].
  assert (length (rows g ≫= row_words wc) = (length (rows g) * Z.to_nat wc)%nat) as ->; [|unfold id; lia].
  induction (rows g) as [|r rs IH]; [done|]. rewrite bind_cons, length_app, IH.
  unfold row_words. destruct words_of_row as [-> | ->]; cbn; lia.
Qed.

Lemma build_request_layout :
  build_request w the_plan g lengths limit node_budget cutoff inclusive compact = Ok the_request.
Proof.
  unfold build_request. rewrite build_payload_layout. cbn [mbind res_bind].
  pose proof body_fit as Hb. pose proof request_length as Hl. unfold the_request, the_body, body_fields in *.
  destruct (default (0, 0, 0) cutoff) as [[c0 c1] c2]. unfold count, b2z in *.
  cbn [the_plan word_count prefix].
  rewrite (proj2 (pack_all_Ok _ _)) by done. cbn [mbind res_bind].
  rewrite (proj2 (Z.ltb_ge _ _)); [done|]. rewrite Hl. unfold MAXIMUM_FRAME_BYTES.
  pose proof payload_bound as [Hp Hc]. pose proof (wf_len g (in_wf _ _ _ _ _ _ _ Hin)).
  unfold payload_size, count in *. destruct words_of_row as [-> | ->]; lia.
Qed.

Lemma the_body_length : length (layout the_body) = 44%nat.
Proof. rewrite layout_length. unfold the_body. by destruct (default (0, 0, 0) cutoff) as [[c0 c1] c2]. Qed.

Lemma body_field pre j x post o :
  the_body = pre ++ (j, x) :: post -> o = (12 + sum_list (pre.*1))%nat -> field o j the_request = x.
Proof.
  intros Hb ->. pose proof body_fit as Hf. pose proof the_body_length as Hl.
  assert (length (request_magic ++ layout (prefix_fields payload_size)) = 12%nat) as Hp
    by by rewrite length_app, layout_length.
  unfold the_request. rewrite field_suffix by (rewrite Hp; lia). rewrite Hp.
  replace (12 + sum_list pre.*1 - 12)%nat with (sum_list pre.*1) by lia.
  rewrite field_prefix.
  - rewrite Hb in Hf |- *. apply (field_layout pre j x post []); [done|].
    by apply Forall_app in Hf as [_ [? _]%Forall_cons].
  - rewrite Hb, layout_length, fmap_app, sum_list_with_app, fmap_cons in Hl.
    cbn in Hl. rewrite the_body_length. lia.
Qed.

Lemma length_field i len : lengths !! i = Some len -> field (56 + i * 2) 2 the_request = len.
Proof.
  intros Hi. unfold the_request. rewrite app_assoc.
  replace 56%nat with (length ((request_magic ++ layout (prefix_fields payload_size)) ++ layout the_body))
    by by rewrite !length_app, the_body_length, layout_length.
  apply field_uniform; [apply halves_fit|done].
Qed.

Lemma word_field i x :
  (rows g ≫= row_words wc) !! i = Some x -> field (56 + length lengths * 2 + i * 8) 8 the_request = x.
Proof.
  intros Hi. unfold the_request. rewrite !app_assoc.
  set (pre := ((request_magic ++ _) ++ _) ++ _). rewrite <- (app_nil_r (layout _)).
  assert (length pre = (56 + length lengths * 2)%nat) as <-.
  { unfold pre, halves. rewrite !length_app, the_body_length, layout_uniform_length, layout_length. done. }
  apply field_uniform; [|done]. fold (words8 (rows g ≫= row_words wc)).
  pose proof request_rows_fit as Hr. unfold rows_fit in Hr. clear Hi. unfold words8 in *.
  induction Hr as [|r rs Hrow _ IH]; [constructor|]. rewrite bind_cons, fmap_app. apply Forall_app_2; [|done].
  by apply row_words_spec; [apply words_of_row|].
Qed.

Lemma row_read i r :
  rows g !! i = Some r ->
  read_row wc (56 + length lengths * 2 + i * (Z.to_nat wc * 8)) the_request = r.
Proof.
  intros Hi. pose proof words_of_row as Hwc.
  pose proof (proj1 (Forall_lookup _ _) request_rows_fit i r Hi) as Hr. cbn in Hr.
  assert (forall j x, (j < Z.to_nat wc)%nat -> row_words wc r !! j = Some x ->
    field (56 + length lengths * 2 + i * (Z.to_nat wc * 8) + j * 8) 8 the_request = x) as Hw.
  { intros j x Hj Hx. rewrite <- (words_lookup wc (rows g) i j r) in Hx by done.
    apply word_field in Hx. rewrite <- Hx. f_equal. lia. }
  unfold read_row. unfold row_words in Hw. destruct (Z.eqb_spec wc 2) as [Hwc2|Hwc1].
  - rewrite Hwc2 in *. rewrite <- (row_join r) by lia.
    specialize (Hw 0%nat _ ltac:(lia) eq_refl) as H0. specialize (Hw 1%nat _ ltac:(lia) eq_refl) as H1.
    rewrite Nat.add_0_r in H0. rewrite H0. change (1 * 8)%nat with 8%nat in H1. by rewrite H1.
  - specialize (Hw 0%nat _ ltac:(lia) eq_refl) as H0. rewrite Nat.add_0_r in H0. rewrite H0.
    destruct Hwc as [Hwc|]; [|done]. rewrite Hwc in Hr.
    rewrite <- (row_join r) at 2 by lia. rewrite Z.shiftr_div_pow2, (Z.div_small r) by lia. lia.
Qed.

Lemma fmap_seq_lookup {A} (f : nat -> A) (xs : list A) :
  (forall i x, xs !! i = Some x -> f i = x) -> f <$> seq 0 (length xs) = xs.
Proof.
  intros Hf. apply list_eq. intros i. rewrite list_lookup_fmap. destruct (xs !! i) as [x|] eqn:Hx.
  - rewrite lookup_seq_lt by by eapply lookup_lt_Some. cbn. by rewrite (Hf i x).
  - rewrite lookup_seq_ge; [done|]. by apply lookup_ge_None.
Qed.

Lemma read_the_request :
  read_request the_request = mkQuery (request_id w) limit node_budget (cutoff_flags w cutoff compact)
    (default (0, 0, 0) cutoff) (b2z inclusive) lengths (rows g).
Proof.
  assert (exists c0 c1 c2, default (0, 0, 0) cutoff = (c0, c1, c2)) as (c0 & c1 & c2 & Hc).
  { clear. destruct (default (0, 0, 0) cutoff) as [[c0 c1] c2]. by exists c0, c1, c2. }
  pose proof body_field as Hb. unfold the_body, body_fields in Hb. rewrite Hc in Hb |- *.
  unfold read_request.
  rewrite (Hb [_] 2%nat (gn g) _ 20%nat eq_refl eq_refl).
  rewrite (Hb [_; _] 2%nat wc _ 22%nat eq_refl eq_refl).
  rewrite (Hb [_; _; _; _; _; _; _; _; _; _] 2%nat count _ 52%nat eq_refl eq_refl).
  rewrite (Hb [] 8%nat (request_id w) _ 12%nat eq_refl eq_refl).
  rewrite (Hb [_; _; _] 4%nat limit _ 24%nat eq_refl eq_refl).
  rewrite (Hb [_; _; _; _] 4%nat node_budget _ 28%nat eq_refl eq_refl).
  rewrite (Hb [_; _; _; _; _] 4%nat (cutoff_flags w cutoff compact) _ 32%nat eq_refl eq_refl).
  rewrite (Hb [_; _; _; _; _; _] 4%nat c0 _ 36%nat eq_refl eq_refl).
  rewrite (Hb [_; _; _; _; _; _; _] 4%nat c1 _ 40%nat eq_refl eq_refl).
  rewrite (Hb [_; _; _; _; _; _; _; _] 4%nat c2 _ 44%nat eq_refl eq_refl).
  rewrite (Hb [_; _; _; _; _; _; _; _; _] 4%nat (b2z inclusive) _ 48%nat eq_refl eq_refl).
  replace (Z.to_nat count) with (length lengths) by (unfold count; lia).
  pose proof (wf_len g (in_wf _ _ _ _ _ _ _ Hin)).
  replace (Z.to_nat (gn g)) with (length (rows g)) by lia.
  rewrite !fmap_seq_lookup; [done|apply row_read|apply length_field].
Qed.
End Request.

(** for a well-formed graph of at most 128 vertices and
    in-range bounds the request is built, fits the frame limit, and says
    exactly what was asked: the id, the bounds, the cutoff and its flags, the
    lengths and the adjacency rows are all recovered from its bytes. *)
Theorem request_exact w g lengths limit node_budget cutoff inclusive compact :
  score_inputs (request_id w) g lengths limit node_budget cutoff compact ->
  exists plan request,
    make_plan (request_key w g lengths limit node_budget cutoff inclusive compact) = Ok plan /\
    build_request w plan g lengths limit node_budget cutoff inclusive compact = Ok request /\
    take 4 request = request_magic /\ field 8 4 request = Z.of_nat (length request) - 56 /\
    Z.of_nat (length request) <= MAXIMUM_FRAME_BYTES /\
    read_request request = mkQuery (request_id w) limit node_budget (cutoff_flags w cutoff compact)
      (default (0, 0, 0) cutoff) (b2z inclusive) lengths (rows g).
Proof.
  intros Hin. eexists _, _. split; [by apply make_plan_valid|]. split; [by apply build_request_layout|].
  split; [done|].
  pose proof (payload_bound w g lengths limit node_budget cutoff inclusive compact Hin) as [Hp _].
  pose proof (request_length w g lengths limit node_budget cutoff inclusive compact Hin) as Hl.
  pose proof (words_of_row w g lengths limit node_budget cutoff compact Hin) as Hwc.
  pose proof (wf_len g (in_wf _ _ _ _ _ _ _ Hin)) as Hrows. rewrite !Hl.
  assert (Z.of_nat (56 + length lengths * 2 + length (rows g) * (Z.to_nat ((gn g + 63) / 64) * 8)) - 56 =
    Z.of_nat (length lengths) * 2 + gn g * ((gn g + 63) / 64) * 8) as Hsize.
  { rewrite <- Hrows at 2. destruct Hwc as [-> | ->]; lia. }
  split; [|split; [unfold MAXIMUM_FRAME_BYTES; lia|by apply read_the_request]]. rewrite Hsize.
  pose proof (prefix_fit w g lengths limit node_budget cutoff inclusive compact Hin) as Hf. rewrite field_prefix by done.
  apply (field_layout [_; _] 4%nat _ [] request_magic); [done|].
  by apply Forall_cons in Hf as [_ [_ [? _]%Forall_cons]%Forall_cons].
Qed.

Lemma request_exact_witness :
  exists plan request,
    make_plan (request_key (mkWorker true true None NotStarted 1) K4 [4] 100 1000 (Some (0, 5, 20)) false true) = Ok plan /\
    build_request (mkWorker true true None NotStarted 1) plan K4 [4] 100 1000 (Some (0, 5, 20)) false true = Ok request /\
    q_rows (read_request request) = [14; 13; 11; 7].
Proof.
  destruct (request_exact (mkWorker true true None NotStarted 1) K4 [4] 100 1000 (Some (0, 5, 20)) false true)
    as (plan & request & Hp & Hr & _ & _ & _ & Hq).
  - constructor; [cbn; lia|apply K4_wf|cbn; lia| |lia|lia| |by intros _; eexists].
    + split; [repeat constructor|]. split; [|cbn; lia]. apply Forall_singleton. cbn. lia.
    + unfold u32. cbn. lia.
  - exists plan, request. split; [done|]. split; [done|]. by rewrite Hq.
Defined.

Definition sample_count : CycleCountResult := mkCount 4 7 true 12 3456.

Lemma response_exact_witness :
  parse_response 9 [4] [Chunk (take 5 (encode_response 9 0 [sample_count])); Chunk (drop 5 (encode_response 9 0 [sample_count])); TimedOut]
    = Ok (mkResponse [sample_count] false).
Proof.
  apply response_exact.
  - apply Forall_forall. intros b Hb. assert (forallb (fun b => (0 <=? b) && (b <? 256))
      (received [Chunk (take 5 (encode_response 9 0 [sample_count])); Chunk (drop 5 (encode_response 9 0 [sample_count])); TimedOut]) = true) as Hall by by vm_compute.
    rewrite forallb_forall in Hall. specialize (Hall b (proj1 (list_elem_of_In _ _) Hb)). unfold byte. lia.
  - lia.
  - exists 0, []. split_all; [|done|by vm_compute]. split; [|split; [by vm_compute|by left]].
    apply Forall_singleton. unfold count_fields, fits, sample_count. rewrite !Forall_cons. cbn. split_all; try apply Forall_nil_2; lia.
Defined.

(** ** The plan cache *)

(** A cached plan is the plan of its key. *)
Definition cache_ok (w : Worker) : Prop :=
  forall p, _prepared_request_plan w = Some p -> make_plan (key p) = Ok p.

(** The same worker with the cache switched off *)
Definition uncached (w : Worker) : Worker :=
  mkWorker (cutoff_longest_first w) false None (process w) (request_id w).

Lemma make_plan_key k p : make_plan k = Ok p -> key p = k.
Proof.
  unfold make_plan. intros H. do 3 (apply raise_seq_Ok in H as [_ H]).
  apply bind_Ok in H as (? & _ & H). by apply bind_Ok in H as (? & _ & [= <-]).
Qed.

Lemma prepare_cases w k :
  cache_ok w ->
  (_prepare_request_plan w k = (make_plan k, w)) \/
  (exists p, make_plan k = Ok p /\ _prepare_request_plan w k = (Ok p, with_plan w p)).
Proof.
  intros Hc. unfold _prepare_request_plan. destruct (_prepared_request_plan w) as [p|] eqn:Hp.
  - destruct (_ && _) eqn:Hhit.
    + apply andb_true_iff in Hhit as [_ Hk%bool_decide_eq_true]. subst k. left. by rewrite (Hc p).
    + destruct (make_plan k), (prepared_request_cache_enabled w); by eauto.
  - destruct (make_plan k), (prepared_request_cache_enabled w); by eauto.
Qed.

Lemma prepare_uncached w k :
  cache_ok w ->
  (_prepare_request_plan w k).1 = make_plan k /\ _prepare_request_plan (uncached w) k = (make_plan k, uncached w) /\
  cache_ok (_prepare_request_plan w k).2 /\ uncached (_prepare_request_plan w k).2 = uncached w.
Proof.
  intros Hc. assert (_prepare_request_plan (uncached w) k = (make_plan k, uncached w)) as ->.
  { unfold _prepare_request_plan. cbn. by destruct (make_plan k). }
  destruct (prepare_cases w k Hc) as [-> | (p & Hm & ->)]; [done|]. rewrite Hm. split_all; [done..| |done].
  intros p' [= <-]. by rewrite (make_plan_key k p Hm).
Qed.

Record Call := mkCall {
  call_env : Env; call_graph : BitGraph; call_lengths : list Z; call_limit : Z; call_budget : Z;
  call_cutoff : option (Z * Z * Z); call_inclusive : bool; call_compact : bool
}.

Definition run_call (w : Worker) (c : Call) : res ScoreWorkerResponse * Worker :=
  score w (call_env c) (call_graph c) (call_lengths c) (call_limit c) (call_budget c)
    (call_cutoff c) (call_inclusive c) (call_compact c).

(** The results of a sequence of calls on one worker *)
Fixpoint run_calls (w : Worker) (calls : list Call) : list (res ScoreWorkerResponse) * Worker :=
  match calls with
  | [] => ([], w)
  | c :: calls' =>
      let '(r, w1) := run_call w c in
      let '(rs, w2) := run_calls w1 calls' in (r :: rs, w2)
  end.

Lemma run_call_uncached w c :
  cache_ok w ->
  (run_call w c).1 = (run_call (uncached w) c).1 /\ cache_ok (run_call w c).2 /\
  uncached (run_call w c).2 = (run_call (uncached w) c).2.
Proof.
  intros Hc. unfold run_call, score.
  change (cutoff_longest_first (uncached w)) with (cutoff_longest_first w).
  set (k := mkKey _ _ _ _ _ _ _ _). destruct (prepare_uncached w k Hc) as (H1 & -> & H3 & H4).
  destruct (_prepare_request_plan w k) as [plan w']. cbn [fst snd] in H1, H3, H4. subst plan.
  rewrite <- H4. destruct (make_plan k) as [plan|]; [|done]. clear H4 Hc k.
  change (process (uncached w')) with (process w').
  destruct (process w'); [destruct (negb (starts (call_env c)))| |]; done.
Qed.

