(* ===== verification/Json.v ===== *)
(** * JSON values

    The values [json.loads] gives and the code walks: [None], booleans,
    integers, floats, strings, lists and dicts with string keys (in insertion
    order). A string is a sequence of characters up to U+00FF. The part of
    Python's text and comparison behaviour the validation code depends on is
    here: [str] and [repr], [float.__repr__], membership in tuples and in sets,
    sorted strings and [json.dumps]. *)

From Stdlib Require Ascii Strings.String.
From stdpp Require Import sorting.
From S2P Require Import Prelude Floats.

#[global] Open Scope Z_scope.

Inductive json :=
  | JNull
  | JBool (b : bool)
  | JInt (z : Z)
  | JFloat (x : float)
  | JStr (s : string)
  | JList (l : list json)
  | JObj (d : list (string * json)).

(** [value == "text"] *)
Definition is_text (v : json) (s : string) : bool := match v with JStr t => bool_decide (t = s) | _ => false end.

(** [value in ("a", "b")]: a comparison with each item *)
Definition in_tuple (v : json) (l : list string) : bool :=
  match v with JStr s => bool_decide (s ∈ l) | _ => false end.

(** [value in {"a", "b"}] hashes the value first: a list or a dict has no hash. *)
Definition in_set (v : json) (l : list string) : res bool :=
  match v with JList _ | JObj _ => Raise TypeError | _ => Ok (in_tuple v l) end.

(** [value.get(name)] *)
Definition get (d : list (string * json)) (name : string) : json := default JNull (dict_get d name).

(** [value.keys()] *)
Definition keys (d : list (string * json)) : list string := fst <$> d.

(** [value.pop(name, None)] *)
Definition dict_pop {V} (d : list (string * V)) (name : string) : list (string * V) :=
  filter (fun kv => kv.1 <> name) d.

(** [value[name]], which raises when the key is missing *)
Definition subscript (d : list (string * json)) (name : string) : res json :=
  match dict_get d name with Some v => Ok v | None => Raise KeyError end.

(** ** Strings *)

(** Comparison by code point *)
Fixpoint string_le (s t : string) : bool :=
  match s, t with
  | EmptyString, _ => true
  | String _ _, EmptyString => false
  | String a s', String b t' =>
      if (Ascii.N_of_ascii a =? Ascii.N_of_ascii b)%N then string_le s' t' else (Ascii.N_of_ascii a <? Ascii.N_of_ascii b)%N
  end.

Definition string_leP (s t : string) : Prop := string_le s t = true.
#[export] Instance string_leP_dec : RelDecision string_leP.
Proof. intros s t. unfold string_leP. apply _. Defined.

(** [sorted(a set of strings)] *)
Definition sorted_strings (l : list string) : list string := merge_sort string_leP (remove_dups l).

#[export] Instance string_leP_total : Total string_leP.
Proof.
  intros s. unfold string_leP. induction s as [|a s IH]; intros [|b t]; cbn [string_le]; [by left..|by right|].
  rewrite (N.eqb_sym (Ascii.N_of_ascii b)). destruct (N.eqb_spec (Ascii.N_of_ascii a) (Ascii.N_of_ascii b)); [apply IH|].
  rewrite !N.ltb_lt. lia.
Qed.

#[export] Instance string_leP_trans : Transitive string_leP.
Proof.
  intros s. unfold string_leP. induction s as [|a s IH]; intros [|b t] [|c u]; cbn [string_le]; try done.
  destruct (N.eqb_spec (Ascii.N_of_ascii a) (Ascii.N_of_ascii b)) as [->|Hab];
    destruct (N.eqb_spec (Ascii.N_of_ascii b) (Ascii.N_of_ascii c)) as [Hbc|Hbc].
  - by apply IH.
  - done.
  - intros Hlt _. rewrite <- Hbc, Hlt. by destruct (N.eqb_spec (Ascii.N_of_ascii a) (Ascii.N_of_ascii b)).
  - rewrite !N.ltb_lt. intros. destruct (N.eqb_spec (Ascii.N_of_ascii a) (Ascii.N_of_ascii c)) as [E|]; [|apply N.ltb_lt]; lia.
Qed.

Lemma elem_of_sorted_strings k l : k ∈ sorted_strings l <-> k ∈ l.
Proof. unfold sorted_strings. by rewrite merge_sort_Permutation, elem_of_remove_dups. Qed.

Lemma sorted_strings_nil l : sorted_strings l = [] -> l = [].
Proof.
  destruct l as [|k l]; intros Hs; [done|]. exfalso. apply (not_elem_of_nil k). rewrite <- Hs.
  apply elem_of_sorted_strings. by left.
Qed.

Lemma sorted_strings_sorted l : StronglySorted string_leP (sorted_strings l).
Proof. apply (StronglySorted_merge_sort string_leP). Qed.

Lemma NoDup_sorted_strings l : NoDup (sorted_strings l).
Proof. unfold sorted_strings. rewrite merge_sort_Permutation. apply NoDup_remove_dups. Qed.

Definition len (s : string) : Z := Z.of_nat (String.length s).

Definition startswith (s prefix : string) : bool := String.prefix prefix s.

Definition code (a : Ascii.ascii) : Z := Z.of_N (Ascii.N_of_ascii a).
Definition is_digit (a : Ascii.ascii) : bool := (48 <=? code a) && (code a <=? 57).
Definition is_alpha (a : Ascii.ascii) : bool :=
  ((65 <=? code a) && (code a <=? 90)) || ((97 <=? code a) && (code a <=? 122)).
Definition all_chars (p : Ascii.ascii -> bool) (s : string) : bool := forallb p (Stdlib.Strings.String.list_ascii_of_string s).

Fixpoint join (sep : string) (l : list string) : string :=
  match l with
  | [] => EmptyString
  | [s] => s
  | s :: l' => (s ++ sep ++ join sep l')%string
  end.

(** Two hexadecimal digits *)
Definition hex_digit (d : Z) : Ascii.ascii := Ascii.ascii_of_N (Z.to_N (if d <? 10 then 48 + d else 87 + d)).
Definition hex2 (c : Z) : string := String (hex_digit (c / 16)) (String (hex_digit (c mod 16)) EmptyString).

(** The character of a code *)
Definition chr (c : Z) : string := String (Ascii.ascii_of_N (Z.to_N c)) EmptyString.

(** ** [float.__repr__] *)

(** The float nearest to [digits * 10 ^ exponent] *)
Definition f_decimal (digits exponent : Z) : res float :=
  if 0 <=? exponent then f_of_Z (digits * 10 ^ exponent) else py_truediv digits (10 ^ (- exponent)).

Definition pos_ratio (m : positive) (e : Z) : Z * Z :=
  if 0 <=? e then (Z.shiftl (Zpos m) e, 1) else (Zpos m, Z.shiftl 1 (- e)).

(** The least [k] from [k0] on with [p / q < 10 ^ k] *)
Fixpoint decimal_point (fuel : nat) (p q k : Z) : Z :=
  match fuel with
  | O => k
  | S f => if (if 0 <=? k then p <? q * 10 ^ k else p * 10 ^ (- k) <? q) then k else decimal_point f p q (k + 1)
  end.

(** The shortest digits that read back as the float, with the position of the
    decimal point *)
Definition shortest (m : positive) (e : Z) : Z * Z :=
  let '(p, q) := pos_ratio m e in
  let k := decimal_point 8 p q ((Z.log2 (Zpos m) + e) * 30103 / 100000 - 2) in
  let digits (nd : Z) :=
    let shift := nd - k in
    if 0 <=? shift then round_half_even (p * 10 ^ shift) q else round_half_even p (q * 10 ^ (- shift)) in
  match list_find (fun nd => f_decimal (digits nd) (k - nd) = Ok (S754_finite false m e)) (range 1 18) with
  | Some (_, nd) => if digits nd =? 10 ^ nd then (1, k + 1) else (digits nd, k)
  | None => (digits 17, k)
  end.

Definition zeros (n : Z) : string := String.concat "" (replicate (Z.to_nat n) "0"%string).

Definition repr_finite (m : positive) (e : Z) : string :=
  let '(digits, point) := shortest m e in
  let s := pretty digits in
  let n := len s in
  let cut (from upto : Z) := String.substring (Z.to_nat from) (Z.to_nat (upto - from)) s in
  if (-4 <? point) && (point <=? 16) then
    if point <=? 0 then ("0." ++ zeros (- point) ++ s)%string
    else if n <=? point then (s ++ zeros (point - n) ++ ".0")%string
    else (cut 0 point ++ "." ++ cut point n)%string
  else
    let x := point - 1 in
    let mantissa := if n =? 1 then s else (cut 0 1 ++ "." ++ cut 1 n)%string in
    let sign := if x <? 0 then "-"%string else "+"%string in
    let pad := if Z.abs x <? 10 then "0"%string else EmptyString in
    (mantissa ++ "e" ++ sign ++ pad ++ pretty (Z.abs x))%string.

Definition float_repr (x : float) : string :=
  match x with
  | S754_zero s => if s then "-0.0" else "0.0"
  | S754_infinity s => if s then "-inf" else "inf"
  | S754_nan => "nan"
  | S754_finite s m e => ((if s then "-" else "") ++ repr_finite m e)%string
  end.

(** ** [repr] and [str] *)

(** [int.__repr__] refuses more than 4300 digits; a number below [2 ^ 14284] has
    no more. *)
Definition int_text (z : Z) : res string :=
  if Z.log2 (Z.abs z) <? 14284 then Ok (pretty z)
  else if 10 ^ 4300 <=? Z.abs z then Raise (ValueError "Exceeds the limit (4300 digits) for integer string conversion")
  else Ok (pretty z).

Lemma int_text_pretty z : 0 <= z < 10 ^ 4300 -> int_text z = Ok (pretty z).
Proof.
  intros [Hz Hlt]. unfold int_text. destruct (Z.log2 (Z.abs z) <? 14284); [done|].
  by rewrite Z.abs_eq, (proj2 (Z.leb_gt _ _) Hlt) by done.
Qed.

Definition repr_char (quote : Z) (a : Ascii.ascii) : string :=
  let c := code a in
  if (c =? quote) || (c =? 92) then (chr 92 ++ chr c)%string
  else if c =? 9 then (chr 92 ++ "t")%string
  else if c =? 10 then (chr 92 ++ "n")%string
  else if c =? 13 then (chr 92 ++ "r")%string
  else if (c <? 32) || ((127 <=? c) && (c <=? 160)) || (c =? 173) then (chr 92 ++ "x" ++ hex2 c)%string
  else chr c.

Definition str_repr (s : string) : string :=
  let chars := Stdlib.Strings.String.list_ascii_of_string s in
  let quote := if existsb (fun a => code a =? 39) chars && negb (existsb (fun a => code a =? 34) chars) then 34 else 39 in
  (chr quote ++ String.concat "" (repr_char quote <$> chars) ++ chr quote)%string.

Fixpoint py_repr (v : json) : res string :=
  match v with
  | JNull => Ok "None"%string
  | JBool b => Ok (if b then "True" else "False")%string
  | JInt z => int_text z
  | JFloat x => Ok (float_repr x)
  | JStr s => Ok (str_repr s)
  | JList l =>
      items ← (fix all (l : list json) : res (list string) :=
        match l with [] => Ok [] | v :: l' => s ← py_repr v; ss ← all l'; Ok (s :: ss) end) l;
      Ok ("[" ++ join ", " items ++ "]")%string
  | JObj d =>
      items ← (fix all (d : list (string * json)) : res (list string) :=
        match d with
        | [] => Ok []
        | (k, v) :: d' => s ← py_repr v; ss ← all d'; Ok ((str_repr k ++ ": " ++ s)%string :: ss)
        end) d;
      Ok ("{" ++ join ", " items ++ "}")%string
  end.

Definition py_str (v : json) : res string := match v with JStr s => Ok s | _ => py_repr v end.

(** ** [json.dumps(value, sort_keys=True, separators=(",", ":"), ensure_ascii=True)] *)

Definition dumps_char (a : Ascii.ascii) : string :=
  let c := code a in
  if (c =? 34) || (c =? 92) then (chr 92 ++ chr c)%string
  else if c =? 8 then (chr 92 ++ "b")%string
  else if c =? 9 then (chr 92 ++ "t")%string
  else if c =? 10 then (chr 92 ++ "n")%string
  else if c =? 12 then (chr 92 ++ "f")%string
  else if c =? 13 then (chr 92 ++ "r")%string
  else if (c <? 32) || (126 <? c) then (chr 92 ++ "u00" ++ hex2 c)%string
  else chr c.

Definition dumps_string (s : string) : string :=
  (chr 34 ++ String.concat "" (dumps_char <$> Stdlib.Strings.String.list_ascii_of_string s) ++ chr 34)%string.

Definition dumps_float (x : float) : string :=
  match x with
  | S754_infinity s => if s then "-Infinity" else "Infinity"
  | S754_nan => "NaN"
  | _ => float_repr x
  end.

Definition key_le (x y : string * string) : Prop := string_leP x.1 y.1.
#[export] Instance key_le_dec : RelDecision key_le.
Proof. intros x y. unfold key_le. apply _. Defined.

(** The text of strings and floats depends on the options of the call. *)
Section Dumps.
Context (text : string -> string) (number : float -> res string).

Fixpoint dumps_with (v : json) : res string :=
  match v with
  | JNull => Ok "null"%string
  | JBool b => Ok (if b then "true" else "false")%string
  | JInt z => int_text z
  | JFloat x => number x
  | JStr s => Ok (text s)
  | JList l =>
      items ← (fix all (l : list json) : res (list string) :=
        match l with [] => Ok [] | v :: l' => s ← dumps_with v; ss ← all l'; Ok (s :: ss) end) l;
      Ok ("[" ++ join "," items ++ "]")%string
  | JObj d =>
      items ← (fix all (d : list (string * json)) : res (list (string * string)) :=
        match d with
        | [] => Ok []
        | (k, v) :: d' => s ← dumps_with v; ss ← all d'; Ok ((k, s) :: ss)
        end) d;
      Ok ("{" ++ join "," ((fun ks => text ks.1 ++ ":" ++ ks.2)%string <$> merge_sort key_le items) ++ "}")%string
  end.
End Dumps.

Definition dumps : json -> res string := dumps_with dumps_string (fun x => Ok (dumps_float x)).

(** [protocol.canonical_json]: the text is ASCII, so its length is its size. *)
Definition canonical_json (v : json) (max_bytes : Z) : res string :=
  payload ← dumps v;
  raise_if (max_bytes <? len payload) (ValueError ("JSON payload exceeds " ++ pretty max_bytes ++ " bytes")%string) ;;;
  Ok payload.

Definition f_ratio (p q : Z) : float := match py_truediv p q with Ok x => x | Raise _ => S754_nan end.
Example repr_samples :
  float_repr <$> [f_lit 100; f_lit 1; f_ratio 1 1000; f_ratio 9 10; f_ratio 1 3; f_lit (10 ^ 16); f_lit (10 ^ 22); f_ratio 1 100000; f_ratio 25 (2 ^ 80)]
   = ["100.0"; "1.0"; "0.001"; "0.9"; "0.3333333333333333"; "1e+16"; "1e+22"; "1e-05"; "2.0679515313825692e-23"]%string.
Proof. vm_compute. reflexivity. Qed.
