(* ===== verification/Convert.v ===== *)
(** * Conversions between JSON values and numbers

    Python's [int], [float], [bool] and [dict.get] on the values the code reads
    from files and messages. [int] reads text as Python does; the reading of text
    by [float] is a parameter. *)

From S2P Require Import Prelude Floats Json.

#[global] Open Scope Z_scope.

(** ** Dicts *)

(** [d.get(name, default)] *)
Definition get_or (d : list (string * json)) (name : string) (other : json) : json := default other (dict_get d name).

(** ** Truth *)

(** [bool(value)] *)
Definition truthy (v : json) : bool :=
  match v with
  | JNull => false | JBool b => b | JInt z => negb (z =? 0) | JFloat x => negb (f_eq x (f_lit 0))
  | JStr s => negb (bool_decide (s = EmptyString)) | JList l => negb (bool_decide (length l = O))
  | JObj d => negb (bool_decide (length d = O))
  end.

(** ** Integers in text

    [int(text)]: white space around the number is ignored, a sign may come first,
    and single underscores may separate digits. *)

Definition is_space (a : Ascii.ascii) : bool :=
  ((9 <=? code a) && (code a <=? 13)) || ((28 <=? code a) && (code a <=? 32)) || (code a =? 133) || (code a =? 160).

Fixpoint strip_left (l : list Ascii.ascii) : list Ascii.ascii :=
  match l with a :: l' => if is_space a then strip_left l' else l | [] => [] end.
Definition strip (l : list Ascii.ascii) : list Ascii.ascii := reverse (strip_left (reverse (strip_left l))).

(** The value of a digit sequence read so far; [fresh] says that the previous
    character was not a digit. *)
Fixpoint digits_value (l : list Ascii.ascii) (fresh : bool) (acc : Z) : option Z :=
  match l with
  | [] => if fresh then None else Some acc
  | a :: l' =>
      if is_digit a then digits_value l' false (10 * acc + (code a - 48))
      else if (code a =? 95) && negb fresh then digits_value l' true acc
      else None
  end.

Definition int_of_text (s : string) : res Z :=
  let bad := Raise (ValueError ("invalid literal for int() with base 10: " ++ str_repr s)%string) in
  let l := strip (Stdlib.Strings.String.list_ascii_of_string s) in
  raise_if (bool_decide (4300 < Z.of_nat (length (filter (fun a => is_digit a = true) l))))
    (ValueError "Exceeds the limit (4300 digits) for integer string conversion") ;;;
  match l with
  | a :: l' =>
      if code a =? 45 then match digits_value l' true 0 with Some z => Ok (- z) | None => bad end
      else if code a =? 43 then match digits_value l' true 0 with Some z => Ok z | None => bad end
      else match digits_value l true 0 with Some z => Ok z | None => bad end
  | [] => bad
  end.

(** ** Numbers *)

Definition to_int (v : json) : res Z :=
  match v with
  | JInt z => Ok z
  | JBool b => Ok (if b then 1 else 0)
  | JFloat (S754_zero _) => Ok 0
  | JFloat (S754_finite s m k) =>
      let t := if 0 <=? k then Z.shiftl (Zpos m) k else Z.shiftr (Zpos m) (- k) in Ok (if s then - t else t)
  | JFloat (S754_infinity _) => Raise OverflowError
  | JFloat S754_nan => Raise (ValueError "cannot convert float NaN to integer")
  | JStr s => int_of_text s
  | JNull | JList _ | JObj _ => Raise TypeError
  end.

Section Number.
Variable parse_float : string -> res float.

Definition to_float (v : json) : res float :=
  match v with
  | JInt z => f_of_Z z
  | JFloat x => Ok x
  | JBool b => Ok (f_lit (if b then 1 else 0))
  | JStr s => parse_float s
  | JNull | JList _ | JObj _ => Raise TypeError
  end.
End Number.

Definition f_absolute (x : float) : float :=
  match x with S754_zero _ => S754_zero false | S754_infinity _ => S754_infinity false
             | S754_finite _ m k => S754_finite false m k | S754_nan => S754_nan end.


(** ** Text as code points *)

Definition codes (s : string) : list Z := code <$> Stdlib.Strings.String.list_ascii_of_string s.
Definition text_of (l : list Z) : string :=
  Stdlib.Strings.String.string_of_list_ascii ((fun c => Ascii.ascii_of_N (Z.to_N c)) <$> l).

Lemma codes_text l : Forall (fun c => 0 <= c < 256) l -> codes (text_of l) = l.
Proof.
  unfold codes, text_of. rewrite Stdlib.Strings.String.list_ascii_of_string_of_list_ascii.
  induction 1 as [|c l Hc _ IH]; [done|]. cbn [fmap list_fmap]. rewrite IH. f_equal. unfold code.
  rewrite Ascii.N_ascii_embedding by lia. lia.
Qed.

(** ** Decimal text is read back *)

Definition digit_char (a : Ascii.ascii) : Prop := is_digit a = true.

Definition next_digit (acc : Z) (a : Ascii.ascii) : Z := 10 * acc + (code a - 48).

Lemma digits_value_all l fresh acc :
  Forall digit_char l -> l <> [] \/ fresh = false -> digits_value l fresh acc = Some (foldl next_digit acc l).
Proof.
  intros Hl. revert fresh acc. induction Hl as [|a l Ha _ IH]; intros fresh acc Hn; cbn.
  { by destruct Hn as [?| ->]. }
  unfold digit_char in Ha. rewrite Ha. apply IH. by right.
Qed.

Lemma pretty_digit x : (x < 10)%N -> digit_char (pretty_N_char x) /\ code (pretty_N_char x) - 48 = Z.of_N x.
Proof.
  intros Hx. assert (x = 0 \/ x = 1 \/ x = 2 \/ x = 3 \/ x = 4 \/ x = 5 \/ x = 6 \/ x = 7 \/ x = 8 \/ x = 9)%N as H by lia.
  repeat destruct H as [->|H]; [vm_compute; done..|]. subst. vm_compute. done.
Qed.

(** The digits of a number, most significant first *)
Lemma pretty_N_go_digits x s : exists ds,
  Stdlib.Strings.String.list_ascii_of_string (pretty_N_go x s) = ds ++ Stdlib.Strings.String.list_ascii_of_string s /\
  Forall digit_char ds /\ foldl next_digit 0 ds = Z.of_N x /\ (x = 0%N -> ds = []) /\
  ((0 < x)%N -> ds <> [] /\ 10 ^ (Z.of_nat (length ds) - 1) <= Z.of_N x).
Proof.
  revert s. induction (N.lt_wf_0 x) as [x _ IH]; intros s. destruct (decide (x = 0)%N) as [->|Hx].
  { exists []. rewrite pretty_N_go_0. done. }
  rewrite pretty_N_go_step by lia.
  destruct (IH (x `div` 10)%N ltac:(apply N.div_lt; lia) (String (pretty_N_char (x `mod` 10)) s)) as (ds & -> & Hds & Hv & Hz & Hb).
  pose proof (N.mod_lt x 10 ltac:(lia)) as Hm. destruct (pretty_digit _ Hm) as [Hd Hc].
  pose proof (N.div_mod x 10 ltac:(lia)) as Hdm.
  exists (ds ++ [pretty_N_char (x `mod` 10)]). split; [by rewrite <- app_assoc|].
  split; [by apply Forall_app_2; [|by constructor]|]. split; [rewrite foldl_app, Hv; cbn; unfold next_digit; rewrite Hc; lia|].
  split; [lia|]. intros _. split; [by destruct ds|]. rewrite length_app. cbn [length].
  destruct (decide (x `div` 10 = 0)%N) as [E|E]; [rewrite (Hz E); cbn; lia|].
  destruct Hb as [Hn Hb]; [lia|]. destruct ds as [|d ds]; [done|]. cbn [length] in *.
  replace (Z.of_nat (S (length ds) + 1) - 1) with (Z.succ (Z.of_nat (S (length ds)) - 1)) by lia.
  rewrite Z.pow_succ_r by lia. etransitivity; [apply Z.mul_le_mono_nonneg_l; [lia|exact Hb]|]. rewrite Hdm at 2. generalize (x `div` 10)%N (x `mod` 10)%N. clear. lia.
Qed.

Lemma strip_left_id l : Forall (fun a => is_space a = false) l -> strip_left l = l.
Proof. destruct 1 as [|a l Ha _]; [done|]. cbn. by rewrite Ha. Qed.

Lemma digit_not_space a : digit_char a -> is_space a = false.
Proof. unfold digit_char, is_digit, is_space. intros [H1%Z.leb_le H2%Z.leb_le]%andb_true_iff. zbool. Qed.

(** [int(str(z))] *)
Lemma int_of_pretty z : 0 <= z < 10 ^ 4300 -> int_of_text (pretty z) = Ok z.
Proof.
  intros [Hz Hlt]. assert (exists ds, Stdlib.Strings.String.list_ascii_of_string (pretty z) = ds /\ Forall digit_char ds /\
    foldl next_digit 0 ds = z /\ ds <> [] /\ Z.of_nat (length ds) <= 4300) as (ds & Hl & Hds & Hv & Hn & Hlen).
  { destruct z as [|p|p]; [exists [Ascii.ascii_of_N 48]; vm_compute; split_all; [done|by constructor|done..]| |clear Hlt; lia].
    change (pretty (Z.pos p)) with (pretty (N.pos p)). unfold pretty, pretty_N. rewrite decide_False by done.
    destruct (pretty_N_go_digits (N.pos p) "") as (ds & -> & Hds & Hv & _ & Hb). destruct Hb as [Hn Hb]; [clear; lia|].
    exists ds. rewrite app_nil_r. split_all; [done..|]. destruct (Z.le_gt_cases (Z.of_nat (length ds)) 4300) as [|Hgt]; [done|].
    exfalso. assert (10 ^ 4300 <= 10 ^ (Z.of_nat (length ds) - 1)) as Hle by (clear Hlt Hb; apply Z.pow_le_mono_r; lia).
    apply (Z.lt_irrefl (10 ^ 4300)). by eapply Z.le_lt_trans; [exact Hle|]; eapply Z.le_lt_trans; [exact Hb|]. }
  clear Hlt. unfold int_of_text. rewrite Hl. clear Hl. unfold strip.
  assert (Forall (fun a => is_space a = false) ds) as Hsp by (eapply Forall_impl; [done|apply digit_not_space]).
  rewrite (strip_left_id ds), (strip_left_id (reverse ds)), reverse_involutive by (rewrite ?Forall_reverse; done).
  rewrite filter_all by by apply Forall_forall. rewrite bool_decide_eq_false_2 by lia. cbn [raise_if mbind res_bind].
  pose proof (digits_value_all ds true 0 Hds ltac:(by left)) as Hd. rewrite Hv in Hd. rewrite Hd.
  destruct Hds as [|a l Ha _]; [done|]. unfold digit_char, is_digit in Ha.
  apply andb_true_iff in Ha as [Ha%Z.leb_le _]. destruct (Z.eqb_spec (code a) 45); [lia|]. destruct (Z.eqb_spec (code a) 43); [lia|done].
Qed.
