(* ===== verification/Catalog.v ===== *)
(** * The reviewed action catalog

    [src/src/sglab/research/catalog.py]: the fixed vocabulary of actions,
    algorithms, graph families, diagnostics, events and parameters that
    decisions are checked against. A Python set of strings is a list; only
    membership and its sorted order are used. *)

From S2P Require Import Prelude Floats Json.

#[global] Open Scope Z_scope.
#[local] Open Scope string_scope.

Definition REVIEWED_PROPOSAL_RANKING_CATALOG_ID : string := "mutation_forge_stage4r_v1".

Definition PROPOSAL_RANKING_MUTATION_ALGORITHMS : list string :=
  ["simulated_annealing"; "iterated_local_search"; "iterated_local_search_tabu"].

Definition normalize_proposal_ranking_catalog_id (value : json) : res (option string) :=
  match value with
  | JNull => Ok None
  | _ =>
      if is_text value REVIEWED_PROPOSAL_RANKING_CATALOG_ID
      then Ok (Some REVIEWED_PROPOSAL_RANKING_CATALOG_ID)
      else Raise (ValueError ("proposal-ranking must use the reviewed catalog ID " ++ REVIEWED_PROPOSAL_RANKING_CATALOG_ID))
  end.

Definition EXPERIMENT_ALGORITHMS : list string :=
  ["random_restart"; "simulated_annealing"; "iterated_local_search_tabu"].
Definition ALGORITHMS : list string := EXPERIMENT_ALGORITHMS ++ ["iterated_local_search"].

Definition GRAPH_FAMILIES : list (string * string) :=
  [("connected_cubic", "cubic_first");
   ("predominantly_cubic", "minimal_structure_mixed_degree");
   ("unrestricted_min_degree_3", "unrestricted_min_degree_3")].

Definition ACTION_TYPES : list string :=
  ["start_lane"; "patch_lane"; "fork_lane"; "restart_lane"; "stop_lane"; "reallocate_resources";
   "promote_candidate"; "request_diagnostic"; "schedule_verification"; "set_review_trigger"].

Definition DIAGNOSTICS : list string :=
  ["cycle_length_profile"; "graph_invariants"; "mutation_ancestry"; "archive_cluster_comparison";
   "operator_yield"; "seed_generation_efficiency"; "candidate_structural_diff"; "canonical_duplicate_analysis"].

Definition REVIEW_EVENTS : list string :=
  ["new_global_best"; "meaningful_improvement"; "regression"; "stagnation"; "diversity_collapse";
   "operator_yield_shift"; "verification_result"; "verifier_disagreement"; "lane_failure";
   "resource_pressure"; "action_lease_expired"].

(** A bound of a domain or of a check, an [int] or a [float] *)
Inductive bound := IntBound (z : Z) | FloatBound (x : float).
Definition bound_value (b : bound) : float := match b with IntBound z => f_lit z | FloatBound x => x end.
Definition bound_text (b : bound) : string := match b with IntBound z => pretty z | FloatBound x => float_repr x end.

Inductive Domain :=
  | IntegerDomain (minimum maximum : Z)
  | NumberDomain (minimum maximum : float)
  | StringDomain (enum : list string).

Definition PARAMETER_DOMAINS : list (string * Domain) :=
  [("order", IntegerDomain 4 128);
   ("batch_candidates", IntegerDomain 100 1000000);
   ("witness_cap", IntegerDomain 1 10000);
   ("temperature", NumberDomain (f_ratio 1 1000) (f_lit 100));
   ("cooling", NumberDomain (f_ratio 9 10) (f_lit 1));
   ("restart_threshold", IntegerDomain 100 10000000);
   ("tabu_tenure", IntegerDomain 1 4096);
   ("perturbation_interval", IntegerDomain 1 1000000);
   ("proposal_ranking", StringDomain [REVIEWED_PROPOSAL_RANKING_CATALOG_ID])].

Definition MUTATION_OPERATORS : list string := ["uniform_two_edge_switch"; "forbidden_cycle_break_switch"].
Definition MUTATION_WEIGHTS_PARAMETER : string := "mutation_weights".

Definition ALGORITHM_PARAMETERS : list (string * list string) :=
  [("random_restart", ["order"; "batch_candidates"; "witness_cap"]);
   ("simulated_annealing",
     ["order"; "batch_candidates"; "witness_cap"; "temperature"; "cooling"; "restart_threshold";
      MUTATION_WEIGHTS_PARAMETER; "proposal_ranking"]);
   ("iterated_local_search",
     ["order"; "batch_candidates"; "witness_cap"; "tabu_tenure"; "perturbation_interval";
      MUTATION_WEIGHTS_PARAMETER; "proposal_ranking"]);
   ("iterated_local_search_tabu",
     ["order"; "batch_candidates"; "witness_cap"; "tabu_tenure"; "perturbation_interval";
      MUTATION_WEIGHTS_PARAMETER; "proposal_ranking"])].

Definition PATCHABLE_PARAMETERS : list (string * list string) :=
  (fun ap => (ap.1, filter (fun name => name ∉ ["order"; "proposal_ranking"]) ap.2)) <$> ALGORITHM_PARAMETERS.

Definition RANDOM_RESTART_UNRANKED_INSTRUCTION : string :=
  "For algorithm=random_restart, omit proposal_ranking entirely. The " ++
  "parameters object must contain only order, batch_candidates, and " ++
  "witness_cap; do not send the key with a null value.".

(** [action_catalog()["parameter_effects"]] *)
Definition parameter_effects : list (string * string) :=
  [("order", "Graph order used for seed generation.");
   ("batch_candidates", "Maximum candidate evaluations in one lane batch.");
   ("witness_cap", "Per-forbidden-length witness-count cap; capped counts are not exact.");
   ("temperature", "Initial simulated-annealing acceptance temperature.");
   ("cooling", "Multiplicative simulated-annealing cooling factor.");
   ("restart_threshold", "Simulated annealing reseeds after this many evaluations.");
   ("tabu_tenure", "Maximum recent candidate hashes retained by tabu search.");
   ("perturbation_interval", "ILS-tabu permits a perturbation acceptance at this cadence.");
   (MUTATION_WEIGHTS_PARAMETER, "Normalized selection probabilities over reviewed safe mutations.");
   ("proposal_ranking",
     "Explicit reviewed proposal-ranking catalog ID for mutation lanes; " ++
     "omitted means disabled. " ++ RANDOM_RESTART_UNRANKED_INSTRUCTION)].

Definition CAMPAIGN_METADATA_FIELDS : list (string * json) :=
  [("promotion_penalty", JStr "Campaign-ranking metadata only; it is never passed to a search lane.")].

Definition texts (l : list string) : json := JList (JStr <$> l).

Definition domain_json (d : Domain) : json :=
  match d with
  | IntegerDomain lo hi => JObj [("type", JStr "integer"); ("minimum", JInt lo); ("maximum", JInt hi)]
  | NumberDomain lo hi => JObj [("type", JStr "number"); ("minimum", JFloat lo); ("maximum", JFloat hi)]
  | StringDomain enum => JObj [("type", JStr "string"); ("enum", texts enum)]
  end.

Definition action_catalog : json :=
  JObj
   [("catalog_version", JStr "1.3");
    ("algorithms", texts ALGORITHMS);
    ("graph_families", JList ((fun fm => JObj [("id", JStr fm.1); ("engine_mode", JStr fm.2)]) <$> GRAPH_FAMILIES));
    ("actions", texts ACTION_TYPES);
    ("diagnostics", texts DIAGNOSTICS);
    ("review_events", texts REVIEW_EVENTS);
    ("parameter_domains", JObj (prod_map id domain_json <$> PARAMETER_DOMAINS));
    ("mutation_operators", texts MUTATION_OPERATORS);
    ("mutation_weights_contract",
      JObj [("known_operators_only", JBool true); ("minimum_weight", JFloat (f_lit 0));
            ("positive_sum_required", JBool true); ("normalized_before_execution", JBool true)]);
    ("parameter_effects", JObj (prod_map id JStr <$> parameter_effects));
    ("campaign_metadata_fields", JObj CAMPAIGN_METADATA_FIELDS);
    ("algorithm_parameters", JObj (prod_map id (texts ∘ sorted_strings) <$> ALGORITHM_PARAMETERS));
    ("patchable_parameters", JObj (prod_map id (texts ∘ sorted_strings) <$> PATCHABLE_PARAMETERS));
    ("forbidden_model_fields",
      texts ["shell"; "command"; "python"; "sql"; "path"; "executable"; "url"; "network";
             "verifier_definition"; "target_definition"])].
