(* ===== verification/Validation.v ===== *)
(** * Decision validation

    [src/src/sglab/research/validation.py], with the records of
    [research/protocol.py]: the boundary between a model's proposed decision
    and the campaign. The validator collects issues and never stops at the
    first; the code may also raise. Both are effects of the monad [V]: a
    function takes the issues found so far and returns its value with the
    extended list, or raises. *)

From S2P Require Import Prelude Floats Json Catalog.

#[global] Open Scope Z_scope.

(** ** The issue monad *)

Record ValidationIssue := mkIssue { issue_path : string; issue_message : string }.

Definition V (A : Type) : Type := list ValidationIssue -> res (A * list ValidationIssue).

#[export] Instance V_ret : MRet V := fun A a issues => Ok (a, issues).
#[export] Instance V_bind : MBind V := fun A B f m issues =>
  match m issues with Ok (a, issues') => f a issues' | Raise e => Raise e end.

Definition vlift {A} (m : res A) : V A := fun issues =>
  match m with Ok a => Ok (a, issues) | Raise e => Raise e end.

Definition when (c : bool) (m : V unit) : V unit := if c then m else mret tt.

Fixpoint vfold {A S} (body : S -> A -> V S) (s : S) (l : list A) : V S :=
  match l with
  | [] => mret s
  | x :: l' => s' ← body s x; vfold body s' l'
  end.
Definition vfor {A} (body : A -> V unit) (l : list A) : V unit := vfold (fun _ x => body x) tt l.

(** ** [_Issues] *)

Definition add (path message : string) : V unit := fun issues => Ok (tt, issues ++ [mkIssue path message]).

(** [path + "." + name] and [path + "[" + index + "]"] *)
Definition dot (path name : string) : string := (path ++ "." ++ name)%string.
Definition at_index (path : string) (index : Z) : string := (path ++ "[" ++ pretty index ++ "]")%string.

Definition exact_keys_within (value : json) (path : string) (required allowed : list string) : V bool :=
  match value with
  | JObj d =>
      let missing := filter (fun key => key ∉ keys d) required in
      let extra := filter (fun key => key ∉ allowed) (keys d) in
      vfor (fun key => add (dot path key) "is required") (sorted_strings missing) ;;;
      vfor (fun key => add (dot path key) "is not allowed") (sorted_strings extra) ;;;
      mret (bool_decide (missing = []) && bool_decide (extra = []))
  | _ => add path "must be an object" ;;; mret false
  end.

Definition exact_keys (value : json) (path : string) (required : list string) : V bool :=
  exact_keys_within value path required required.

(** [value[name]] *)
Definition item (value : json) (name : string) : V json :=
  match value with JObj d => vlift (subscript d name) | _ => vlift (Raise TypeError) end.

(** ** [DecisionContext] *)

Record DecisionContext := mkContext {
  ctx_snapshot_id : string;
  ctx_evidence_ids : list string;
  ctx_lane_versions : list (string * Z);
  ctx_lane_algorithms : list (string * string);
  ctx_checkpoint_ids : list string;
  ctx_candidate_ids : list string;
  ctx_hypothesis_ids : list string;
  ctx_max_active_lanes : Z;
  ctx_advisory_target_ids : list string;
  ctx_executable_target_ids : list string;
  ctx_diagnostic_subject_ids : list string;
  ctx_applicable_action_types : list string;
  ctx_reserved_action_ids : list string;
  ctx_proposal_ranking_catalog_id : option string
}.

(** [__post_init__]: the defaults of the role sets, and the ranking id *)
Definition post_init_context (snapshot_id : string) (evidence_ids : list string)
  (lane_versions : list (string * Z)) (lane_algorithms : list (string * string))
  (checkpoint_ids candidate_ids hypothesis_ids : list string) (max_active_lanes : Z)
  (advisory executable diagnostic : option (list string))
  (applicable reserved : list string) (proposal_ranking_catalog_id : json) : res DecisionContext :=
  normalized ← normalize_proposal_ranking_catalog_id proposal_ranking_catalog_id;
  Ok (mkContext snapshot_id evidence_ids lane_versions lane_algorithms checkpoint_ids candidate_ids
        hypothesis_ids max_active_lanes
        (default evidence_ids advisory)
        (default (lane_versions.*1 ++ checkpoint_ids ++ candidate_ids) executable)
        (default (lane_versions.*1 ++ candidate_ids) diagnostic)
        applicable reserved normalized).

(** ** Field checks *)

Definition is_identifier_char (a : Ascii.ascii) : bool :=
  is_alpha a || is_digit a || existsb (Z.eqb (code a)) [95; 46; 58; 45].

(** [IDENTIFIER.fullmatch] *)
Definition IDENTIFIER_fullmatch (s : string) : bool :=
  match s with
  | EmptyString => false
  | String a s' => (is_alpha a || is_digit a) && (len s' <=? 127) && all_chars is_identifier_char s'
  end.

(** [MODEL_ALIAS.fullmatch]: one of [SCLKHEOA], then a number without leading zero *)
Definition MODEL_ALIAS_fullmatch (s : string) : bool :=
  match s with
  | String a (String b s') =>
      existsb (Z.eqb (code a)) [83; 67; 76; 75; 72; 69; 79; 65] &&
      (49 <=? code b) && (code b <=? 57) && all_chars is_digit s'
  | _ => false
  end.

Definition _identifier (value : json) (path : string) (minimum : Z) : V string :=
  match value with
  | JStr s =>
      if (minimum <=? len s) && (len s <=? 128) && IDENTIFIER_fullmatch s then mret s
      else add path "must be a bounded identifier" ;;; mret EmptyString
  | _ => add path "must be a bounded identifier" ;;; mret EmptyString
  end.

Definition _bounded_text (value : json) (path : string) (minimum maximum : Z) : V unit :=
  when (match value with JStr s => negb ((minimum <=? len s) && (len s <=? maximum)) | _ => true end)
    (add path ("must be text of length " ++ pretty minimum ++ ".." ++ pretty maximum)%string).

Definition _integer (value : json) (path : string) (minimum maximum : Z) : V (option Z) :=
  match value with
  | JInt z =>
      when (negb ((minimum <=? z) && (z <=? maximum)))
        (add path ("must be between " ++ pretty minimum ++ " and " ++ pretty maximum)%string) ;;;
      mret (Some z)
  | _ => add path "must be an integer" ;;; mret None
  end.

Definition _number (value : json) (path : string) (minimum maximum : bound) (exclusive_min : bool)
  : V (option float) :=
  match (match value with JInt z => Some (f_of_Z z) | JFloat x => Some (Ok x) | _ => None end) with
  | None => add path "must be a number" ;;; mret None
  | Some converted =>
      number ← vlift converted;
      (if negb (is_finite number) then add path "must be finite"
       else
         let too_low := if exclusive_min then f_le number (bound_value minimum) else f_lt number (bound_value minimum) in
         let qualifier := if exclusive_min then "greater than"%string else "at least"%string in
         when (too_low || f_lt (bound_value maximum) number)
           (add path ("must be " ++ qualifier ++ " " ++ bound_text minimum ++ " and at most " ++ bound_text maximum)%string)) ;;;
      mret (Some number)
  end.

(** [len(set(map(str, values))) != len(values)] *)
Definition has_duplicates (values : list json) : V bool :=
  texts ← vlift (foldM (fun ts v => t ← py_str v; Ok (ts ++ [t])) [] values);
  mret (negb (length (remove_dups texts) =? length values)%nat).

(** [isinstance(value, list) and minimum <= len(value) <= maximum] *)
Definition list_within (value : json) (minimum maximum : Z) : option (list json) :=
  match value with
  | JList l => if (minimum <=? Z.of_nat (length l)) && (Z.of_nat (length l) <=? maximum) then Some l else None
  | _ => None
  end.

Definition _id_list (value : json) (path : string) (minimum maximum : Z) (allowlist : list string) : V unit :=
  match list_within value minimum maximum with
  | None => add path ("must contain between " ++ pretty minimum ++ " and " ++ pretty maximum ++ " identifiers")%string
  | Some l =>
      dup ← has_duplicates l;
      when dup (add path "must be unique") ;;;
      vfor (fun iv =>
        checked ← _identifier iv.2 (at_index path iv.1) 1;
        when (negb (bool_decide (checked = EmptyString)) && negb (bool_decide (checked ∈ allowlist)))
          (add (at_index path iv.1) ("unknown reference " ++ str_repr checked ++ " is not admissible in this snapshot")%string))
        (enumerate l)
  end.

Definition _evaluation_window (value : json) (path : string) : V unit :=
  ok ← exact_keys value path ["max_wall_seconds"; "max_candidate_delta"]%string;
  if negb ok then mret tt
  else
    wall ← item value "max_wall_seconds"; _ ← _integer wall (dot path "max_wall_seconds") 10 7200;
    delta ← item value "max_candidate_delta";
    _ ← _integer delta (dot path "max_candidate_delta") 1 100000000;
    mret tt.

Definition _review (value : json) (path : string) : V unit :=
  ok ← exact_keys value path ["min_wall_seconds"; "max_wall_seconds"; "candidate_delta"; "events"]%string;
  if negb ok then mret tt
  else
    low ← item value "min_wall_seconds"; minimum ← _integer low (dot path "min_wall_seconds") 10 3600;
    high ← item value "max_wall_seconds"; maximum ← _integer high (dot path "max_wall_seconds") 30 7200;
    when (match minimum, maximum with Some a, Some b => b <? a | _, _ => false end)
      (add path "minimum review time exceeds maximum") ;;;
    delta ← item value "candidate_delta"; _ ← _integer delta (dot path "candidate_delta") 1 100000000;
    events ← item value "events";
    match list_within events 0 16 with
    | None => add (dot path "events") "must be an array of at most 16 events"
    | Some l =>
        dup ← has_duplicates l;
        when dup (add (dot path "events") "must be unique") ;;;
        vfor (fun ie => when (negb (in_tuple ie.2 REVIEW_EVENTS))
               (add (at_index (dot path "events") ie.1) "is not a reviewed event")) (enumerate l)
    end.

Definition _candidate (value : json) (path : string) (ctx : DecisionContext) : V unit :=
  identifier ← _identifier value path 1;
  if negb (bool_decide (identifier ∈ ctx_candidate_ids ctx))
  then add path "is not an admissible retained candidate"
  else when (negb (bool_decide (identifier ∈ ctx_executable_target_ids ctx)))
         (add path "is not in executable_target_ids for this turn").

Definition _candidate_list (value : json) (path : string) (ctx : DecisionContext) : V unit :=
  match list_within value 1 32 with
  | None => add path "must contain between 1 and 32 candidates"
  | Some l =>
      dup ← has_duplicates l;
      when dup (add path "must be unique") ;;;
      vfor (fun ic => _candidate ic.2 (at_index path ic.1) ctx) (enumerate l)
  end.

(** ** Hypotheses *)

Definition HYPOTHESIS_CREATE_OPERATION : string := "create".
Definition HYPOTHESIS_EXISTING_OPERATIONS : list string := ["confirm"; "weaken"; "reject"; "retain"; "revise"]%string.
Definition HYPOTHESIS_OPERATIONS : list string := HYPOTHESIS_CREATE_OPERATION :: HYPOTHESIS_EXISTING_OPERATIONS.
Definition HYPOTHESIS_FIELDS : list string :=
  ["hypothesis_id"; "operation"; "statement"; "confidence"; "evidence_for"; "evidence_against"]%string.

Definition hypothesis_one (ctx : DecisionContext) (created : list string) (ii : Z * json) : V (list string) :=
  let '(index, update) := ii in
  let path := at_index "$.hypothesis_updates" index in
  ok ← exact_keys update path HYPOTHESIS_FIELDS;
  if negb ok then mret created
  else
    id ← item update "hypothesis_id";
    identifier ← _identifier id (dot path "hypothesis_id") 1;
    operation ← item update "operation";
    when (negb (in_tuple operation HYPOTHESIS_OPERATIONS)) (add (dot path "operation") "is not supported") ;;;
    created ←
      (if is_text operation HYPOTHESIS_CREATE_OPERATION then
        when (bool_decide (identifier ∈ ctx_hypothesis_ids ctx) || bool_decide (identifier ∈ created))
          (add (dot path "hypothesis_id") "already exists") ;;;
        mret (created ++ [identifier])
      else
        when (in_tuple operation HYPOTHESIS_EXISTING_OPERATIONS && negb (bool_decide (identifier ∈ ctx_hypothesis_ids ctx)))
          (add (dot path "hypothesis_id") "must reference an existing hypothesis") ;;;
        mret created);
    statement ← item update "statement"; _bounded_text statement (dot path "statement") 1 4000 ;;;
    confidence ← item update "confidence";
    _ ← _number confidence (dot path "confidence") (IntBound 0) (IntBound 1) false;
    vfor (fun name =>
      value ← item update name; _id_list value (dot path name) 0 32 (ctx_evidence_ids ctx))
      ["evidence_for"; "evidence_against"]%string ;;;
    mret created.

Definition _validate_hypotheses (value : json) (ctx : DecisionContext) : V (list string) :=
  match list_within value 0 32 with
  | None => add "$.hypothesis_updates" "must be an array of at most 32 items" ;;; mret []
  | Some l => vfold (hypothesis_one ctx) [] (enumerate l)
  end.

(** ** Parameters *)

Definition infinity : float := S754_infinity false.

Definition _mutation_weights (value : json) (path : string) : V unit :=
  match value with
  | JObj d =>
      vfor (fun name => add (dot path name) "is not a reviewed mutation operator")
        (sorted_strings (filter (fun name => name ∉ MUTATION_OPERATORS) (keys d))) ;;;
      match d with
      | [] => add path "must contain at least one operator weight"
      | _ =>
          total ← vfold (fun total nw =>
            if negb (bool_decide (nw.1 ∈ MUTATION_OPERATORS)) then mret total
            else
              parsed ← _number nw.2 (dot path nw.1) (IntBound 0) (FloatBound infinity) false;
              mret (match parsed with Some p => f_add total p | None => total end)) (f_lit 0) d;
          when (f_le total (f_lit 0)) (add path "weight sum must be positive")
      end
  | _ => add path "must be an object"
  end.

(** [domains.get(algorithm, set(PARAMETER_DOMAINS))] *)
Definition allowed_parameters (partial : bool) (algorithm : option string) : list string :=
  default (PARAMETER_DOMAINS.*1)
    (a ← algorithm; dict_get (if partial then PATCHABLE_PARAMETERS else ALGORITHM_PARAMETERS) a).

Definition ranks (algorithm : option string) : bool :=
  match algorithm with Some a => bool_decide (a ∈ PROPOSAL_RANKING_MUTATION_ALGORITHMS) | None => false end.

(** The check of the entry [proposal_ranking] *)
Definition proposal_ranking_entry (value : json) (path : string) (algorithm : option string)
  (catalog_id : option string) : V unit :=
  if negb (is_text value REVIEWED_PROPOSAL_RANKING_CATALOG_ID)
  then add path "must name the reviewed proposal-ranking catalog entry"
  else match catalog_id with
  | None => add path "is unavailable because proposal ranking is disabled in the campaign plan"
  | Some _ =>
      if bool_decide (algorithm = Some "random_restart"%string) then add path "random_restart lanes must remain unranked"
      else when (negb (ranks algorithm)) (add path "is only supported for reviewed mutation lanes")
  end.

(** One turn of the loop over the entries *)
Definition parameter_entry (path : string) (algorithm : option string) (partial : bool)
  (catalog_id : option string) (nv : string * json) : V unit :=
  let '(name, value) := nv in
  let here := dot path name in
  if bool_decide (name = "proposal_ranking"%string) && bool_decide (algorithm = Some "random_restart"%string) then
    add here ("random_restart lanes must omit proposal_ranking entirely; " ++
              "ranking is supported only by reviewed mutation lanes")%string
  else if negb (bool_decide (name ∈ allowed_parameters partial algorithm)) then
    add here "is not valid for this algorithm"
  else if bool_decide (name = MUTATION_WEIGHTS_PARAMETER) then _mutation_weights value here
  else
    match dict_get PARAMETER_DOMAINS name with
    | None => vlift (Raise KeyError)
    | Some domain =>
        if bool_decide (name = "proposal_ranking"%string) then proposal_ranking_entry value here algorithm catalog_id
        else match domain with
        | IntegerDomain lo hi => _ ← _integer value here lo hi; mret tt
        | NumberDomain lo hi => _ ← _number value here (FloatBound lo) (FloatBound hi) false; mret tt
        | StringDomain _ => vlift (Raise KeyError)
        end
    end.

Definition _parameters (value : json) (path : string) (algorithm : option string) (partial : bool)
  (catalog_id : option string) : V unit :=
  match value with
  | JObj d =>
      when (partial && bool_decide (d = [])) (add path "must not be empty") ;;;
      vfor (parameter_entry path algorithm partial catalog_id) d ;;;
      when (negb partial)
        (vfor (fun required => when (negb (bool_decide (required ∈ keys d))) (add (dot path required) "is required"))
           ["order"; "batch_candidates"; "witness_cap"]%string ;;;
         match catalog_id with
         | Some id => when (ranks algorithm && negb (is_text (get d "proposal_ranking") id))
             (add (dot path "proposal_ranking") "must equal the campaign's reviewed proposal-ranking catalog ID")
         | None => mret tt
         end)
  | _ => add path "must be an object"
  end.

(** ** Lane actions *)

(** [isinstance(v, int) and v % 2]: a bool is an int *)
Definition is_odd_int (v : json) : bool :=
  match v with JInt z => negb (z mod 2 =? 0) | JBool b => b | _ => false end.

Definition _start_lane (spec : json) (path : string) (ctx : DecisionContext) : V unit :=
  ok ← exact_keys spec path ["algorithm"; "graph_family"; "seed"; "parameters"; "resource_share"]%string;
  if negb ok then mret tt
  else
    value ← item spec "algorithm";
    algorithm ← (match value with
      | JStr a => if bool_decide (a ∈ ALGORITHMS) then mret (Some a)
                  else add (dot path "algorithm") "is not supported" ;;; mret None
      | _ => add (dot path "algorithm") "is not supported" ;;; mret None
      end);
    family ← item spec "graph_family";
    known ← vlift (in_set family (GRAPH_FAMILIES.*1));
    when (negb known) (add (dot path "graph_family") "is not supported") ;;;
    seed ← item spec "seed"; _ ← _integer seed (dot path "seed") 0 (2 ^ 63 - 1);
    share ← item spec "resource_share";
    _ ← _number share (dot path "resource_share") (IntBound 0) (IntBound 1) true;
    parameters ← item spec "parameters";
    _parameters parameters (dot path "parameters") algorithm false (ctx_proposal_ranking_catalog_id ctx) ;;;
    when (match parameters with JObj d => is_text family "connected_cubic" && is_odd_int (get d "order") | _ => false end)
      (add (dot (dot path "parameters") "order") "must be even for connected_cubic").

Definition _lane_target (action : json) (path : string) (ctx : DecisionContext) : V (option string) :=
  lane ← item action "lane_id"; lane_id ← _identifier lane (dot path "lane_id") 1;
  expected ← item action "expected_lane_version";
  version ← _integer expected (dot path "expected_lane_version") 0 (2 ^ 63 - 1);
  match dict_get (ctx_lane_versions ctx) lane_id with
  | None => add (dot path "lane_id") "does not reference an active lane" ;;; mret None
  | Some current =>
      if negb (bool_decide (lane_id ∈ ctx_executable_target_ids ctx)) then
        add (dot path "lane_id") "is not in executable_target_ids for this turn" ;;; mret None
      else
        when (negb (bool_decide (version = Some current)))
          (add (dot path "expected_lane_version") "is stale for the committed snapshot") ;;;
        mret (dict_get (ctx_lane_algorithms ctx) lane_id)
  end.

Definition _fork (action : json) (path : string) (ctx : DecisionContext) (algorithm : option string)
  (catalog_id : option string) : V unit :=
  id ← item action "checkpoint_id"; checkpoint ← _identifier id (dot path "checkpoint_id") 1;
  (if negb (bool_decide (checkpoint ∈ ctx_checkpoint_ids ctx)) then
     add (dot path "checkpoint_id") "is not an admissible checkpoint"
   else when (negb (bool_decide (checkpoint ∈ ctx_executable_target_ids ctx)))
     (add (dot path "checkpoint_id") "is not in executable_target_ids for this turn")) ;;;
  variants ← item action "variants";
  match list_within variants 1 4 with
  | None => add (dot path "variants") "must contain between 1 and 4 variants"
  | Some l =>
      vfor (fun iv =>
        let here := at_index (dot path "variants") iv.1 in
        ok ← exact_keys iv.2 here ["name"; "patch"; "resource_share"]%string;
        if negb ok then mret tt
        else
          name ← item iv.2 "name"; _bounded_text name (dot here "name") 1 128 ;;;
          patch ← item iv.2 "patch"; _parameters patch (dot here "patch") algorithm true catalog_id ;;;
          share ← item iv.2 "resource_share";
          _ ← _number share (dot here "resource_share") (IntBound 0) (IntBound 1) true; mret tt)
        (enumerate l)
  end.

(** The check of a restart's source object *)
Definition admissible (d : list (string * json)) (path name : string) (ids : list string) (ctx : DecisionContext) : V unit :=
  let value := get d name in
  known ← vlift (in_set value ids);
  if negb known then add (dot path name) "is not admissible"
  else
    executable ← vlift (in_set value (ctx_executable_target_ids ctx));
    when (negb executable) (add (dot path name) "is not in executable_target_ids for this turn").

Definition _restart (spec : json) (path : string) (ctx : DecisionContext) : V unit :=
  ok ← exact_keys_within spec path ["source"; "seed"]%string ["source"; "seed"; "checkpoint_id"; "candidate_id"]%string;
  match spec with
  | JObj d =>
      if negb ok then mret tt
      else
        source ← item spec "source";
        known ← vlift (in_set source ["new_seed"; "checkpoint"; "archive_elite"]%string);
        when (negb known) (add (dot path "source") "is not supported") ;;;
        seed ← item spec "seed"; _ ← _integer seed (dot path "seed") 0 (2 ^ 63 - 1);
        (if is_text source "checkpoint" then admissible d path "checkpoint_id" (ctx_checkpoint_ids ctx) ctx else mret tt) ;;;
        (if is_text source "archive_elite" then admissible d path "candidate_id" (ctx_candidate_ids ctx) ctx else mret tt)
  | _ => mret tt
  end.

Definition allocation_one (ctx : DecisionContext) (path : string) (s : list string * float) (ia : Z * json)
  : V (list string * float) :=
  let '(index, allocation) := ia in
  let '(seen, total) := s in
  let here := at_index path index in
  ok ← exact_keys allocation here ["lane_id"; "expected_lane_version"; "resource_share"]%string;
  if negb ok then mret (seen, total)
  else
    _ ← _lane_target allocation here ctx;
    lane ← item allocation "lane_id"; lane_id ← vlift (py_str lane);
    when (bool_decide (lane_id ∈ seen)) (add (dot here "lane_id") "is duplicated") ;;;
    value ← item allocation "resource_share";
    share ← _number value (dot here "resource_share") (IntBound 0) (IntBound 1) false;
    mret (seen ++ [lane_id], match share with Some x => f_add total x | None => total end).

(** [1.0 + 1e-9] *)
Definition share_limit : float := f_add (f_lit 1) (f_ratio 1 1000000000).

Definition _allocations (value : json) (path : string) (ctx : DecisionContext) : V unit :=
  match list_within value 1 32 with
  | None => add path "must contain between 1 and 32 allocations"
  | Some l =>
      s ← vfold (allocation_one ctx path) ([], f_lit 0) (enumerate l);
      when (f_lt share_limit s.2) (add path "resource shares exceed 1.0")
  end.

(** ** Actions *)

Definition COMMON_ACTION_FIELDS : list string :=
  ["action_id"; "type"; "priority"; "hypothesis_ids"; "evidence_ids"; "rationale"; "expected_effect";
   "evaluation_window"; "idempotency_key"; "lease_seconds"; "fallback"]%string.

Definition ACTION_FIELDS : list (string * list string) :=
  [("start_lane", ["spec"]);
   ("patch_lane", ["lane_id"; "expected_lane_version"; "patch"]);
   ("fork_lane", ["lane_id"; "expected_lane_version"; "checkpoint_id"; "variants"]);
   ("restart_lane", ["lane_id"; "expected_lane_version"; "restart_spec"]);
   ("stop_lane", ["lane_id"; "expected_lane_version"]);
   ("reallocate_resources", ["allocations"]);
   ("promote_candidate", ["candidate_id"]);
   ("request_diagnostic", ["diagnostic_type"; "subject_ids"]);
   ("schedule_verification", ["candidate_ids"; "verification_priority"]);
   ("set_review_trigger", ["review_trigger"])]%string.

(** The locals of the loop over the actions *)
Record Batch := mkBatch { action_ids : list string; idempotency_keys : list string; projected_starts : Z }.

(** The checks that depend on the action's type; the result is the number of
    lanes the action starts. *)
Definition action_body (ctx : DecisionContext) (path action_type : string) (action : json) : V Z :=
  if bool_decide (action_type = "start_lane"%string) then
    spec ← item action "spec"; _start_lane spec (dot path "spec") ctx ;;; mret 1
  else if bool_decide (action_type ∈ ["patch_lane"; "fork_lane"; "restart_lane"; "stop_lane"]%string) then
    algorithm ← _lane_target action path ctx;
    if bool_decide (action_type = "patch_lane"%string) then
      patch ← item action "patch";
      _parameters patch (dot path "patch") algorithm true (ctx_proposal_ranking_catalog_id ctx) ;;; mret 0
    else if bool_decide (action_type = "fork_lane"%string) then
      _fork action path ctx algorithm (ctx_proposal_ranking_catalog_id ctx) ;;;
      variants ← item action "variants";
      mret (match variants with JList l => Z.of_nat (length l) | _ => 0 end)
    else if bool_decide (action_type = "restart_lane"%string) then
      spec ← item action "restart_spec"; _restart spec (dot path "restart_spec") ctx ;;; mret 0
    else mret 0
  else if bool_decide (action_type = "reallocate_resources"%string) then
    allocations ← item action "allocations"; _allocations allocations (dot path "allocations") ctx ;;; mret 0
  else if bool_decide (action_type = "promote_candidate"%string) then
    id ← item action "candidate_id"; _candidate id (dot path "candidate_id") ctx ;;; mret 0
  else if bool_decide (action_type = "request_diagnostic"%string) then
    kind ← item action "diagnostic_type";
    when (negb (in_tuple kind DIAGNOSTICS)) (add (dot path "diagnostic_type") "is not a reviewed diagnostic") ;;;
    subjects ← item action "subject_ids";
    _id_list subjects (dot path "subject_ids") 1 32 (ctx_diagnostic_subject_ids ctx) ;;; mret 0
  else if bool_decide (action_type = "schedule_verification"%string) then
    ids ← item action "candidate_ids"; _candidate_list ids (dot path "candidate_ids") ctx ;;;
    priority ← item action "verification_priority";
    _ ← _integer priority (dot path "verification_priority") 0 100; mret 0
  else if bool_decide (action_type = "set_review_trigger"%string) then
    trigger ← item action "review_trigger"; _review trigger (dot path "review_trigger") ;;; mret 0
  else mret 0.

(** The checks common to all actions, up to the fallback *)
Definition action_common (ctx : DecisionContext) (new_hypotheses : list string) (path : string) (action : json)
  (action_ids idempotency_keys : list string) : V (string * string) :=
  id ← item action "action_id"; action_id ← _identifier id (dot path "action_id") 1;
  when (bool_decide (action_id ∈ action_ids)) (add (dot path "action_id") "is duplicated in this batch") ;;;
  when (bool_decide (action_id ∈ ctx_reserved_action_ids ctx))
    (add (dot path "action_id") "already exists in the durable workspace; choose a new ID") ;;;
  k ← item action "idempotency_key"; key ← _identifier k (dot path "idempotency_key") 8;
  when (bool_decide (key ∈ idempotency_keys)) (add (dot path "idempotency_key") "is duplicated in this batch") ;;;
  priority ← item action "priority"; _ ← _integer priority (dot path "priority") 0 100;
  lease ← item action "lease_seconds"; _ ← _integer lease (dot path "lease_seconds") 30 7200;
  rationale ← item action "rationale"; _bounded_text rationale (dot path "rationale") 1 4000 ;;;
  effect ← item action "expected_effect"; _bounded_text effect (dot path "expected_effect") 1 2000 ;;;
  evidence ← item action "evidence_ids"; _id_list evidence (dot path "evidence_ids") 0 32 (ctx_evidence_ids ctx) ;;;
  hypotheses ← item action "hypothesis_ids";
  _id_list hypotheses (dot path "hypothesis_ids") 0 16 (ctx_hypothesis_ids ctx ++ new_hypotheses) ;;;
  window ← item action "evaluation_window"; _evaluation_window window (dot path "evaluation_window") ;;;
  fallback ← item action "fallback";
  ok ← exact_keys fallback (dot path "fallback") ["on_precondition_failure"]%string;
  (if negb ok then mret tt
   else
     choice ← item fallback "on_precondition_failure";
     known ← vlift (in_set choice ["reject"; "replan"]%string);
     when (negb known) (add (dot (dot path "fallback") "on_precondition_failure") "must be reject or replan")) ;;;
  mret (action_id, key).

(** [action.get("type") if isinstance(action, dict) else None] *)
Definition type_of (action : json) : json := match action with JObj d => get d "type" | _ => JNull end.

Definition validate_action (ctx : DecisionContext) (new_hypotheses : list string) (b : Batch) (ia : Z * json) : V Batch :=
  let '(index, action) := ia in
  let path := at_index "$.actions" index in
  match type_of action with
  | JStr action_type =>
      if negb (bool_decide (action_type ∈ ACTION_TYPES)) then
        add (dot path "type") "is not in the reviewed action catalog" ;;; mret b
      else if negb (bool_decide (action_type ∈ ctx_applicable_action_types ctx)) then
        add (dot path "type") "is not applicable in the submitted action space" ;;; mret b
      else
        match dict_get ACTION_FIELDS action_type with
        | None => vlift (Raise KeyError)
        | Some fields =>
            ok ← exact_keys action path (COMMON_ACTION_FIELDS ++ fields);
            if negb ok then mret b
            else
              ids ← action_common ctx new_hypotheses path action (action_ids b) (idempotency_keys b);
              started ← action_body ctx path action_type action;
              mret (mkBatch (action_ids b ++ [ids.1]) (idempotency_keys b ++ [ids.2]) (projected_starts b + started))
        end
  | _ => add (dot path "type") "is not in the reviewed action catalog" ;;; mret b
  end.

(** ** Nulls of the transport *)

Definition is_null (v : json) : bool := match v with JNull => true | _ => false end.

Definition _drop_null_values (value : json) : json :=
  match value with
  | JObj d =>
      JObj (filter (fun nv =>
        is_null nv.2 && bool_decide (nv.1 ∈ MUTATION_WEIGHTS_PARAMETER :: PARAMETER_DOMAINS.*1) = false) d)
  | _ => value
  end.

(** Replace the value under a key that is there *)
Definition update (d : list (string * json)) (name : string) (f : json -> json) : list (string * json) :=
  match dict_get d name with Some v => dict_set d name (f v) | None => d end.
Definition update_in (v : json) (name : string) (f : json -> json) : json :=
  match v with JObj d => JObj (update d name f) | _ => v end.

(** [if spec.get(name) is None: spec.pop(name, None)] *)
Definition pop_null (d : list (string * json)) (name : string) : list (string * json) :=
  match get d name with JNull => dict_pop d name | _ => d end.

Definition normalize_action (action : json) : json :=
  let t := type_of action in
  if is_text t "start_lane" then
    update_in action "spec" (fun spec => update_in spec "parameters" _drop_null_values)
  else if is_text t "patch_lane" then update_in action "patch" _drop_null_values
  else if is_text t "fork_lane" then
    update_in action "variants" (fun variants =>
      match variants with
      | JList l => JList ((fun v => update_in v "patch" _drop_null_values) <$> l)
      | _ => variants
      end)
  else if is_text t "restart_lane" then
    update_in action "restart_spec" (fun spec =>
      match spec with
      | JObj d => JObj (foldl pop_null d ["checkpoint_id"; "candidate_id"]%string)
      | _ => spec
      end)
  else action.

Definition _normalize_transport_nulls (value : json) : json :=
  match value with
  | JObj d =>
      match get d "actions" with
      | JList actions => JObj (dict_set d "actions" (JList (normalize_action <$> actions)))
      | _ => value
      end
  | _ => value
  end.

(** ** The annotations of an accepted decision *)

(** [sum(...)] over floats: compensated from Python 3.12 on *)
Definition f_abs (x : float) : float :=
  match x with S754_zero _ => S754_zero false | S754_infinity _ => S754_infinity false
             | S754_finite _ m e => S754_finite false m e | S754_nan => S754_nan end.
Definition f_sum (l : list float) : float :=
  match l with
  | [] => f_lit 0
  | x :: l' =>
      let '(hi, lo) := foldl (fun s x =>
        let '(hi, lo) := s in
        let t := f_add hi x in
        (t, f_add lo (if f_le (f_abs x) (f_abs hi) then f_add (f_sub hi t) x else f_add (f_sub x t) hi)))
        (f_add (f_lit 0) x, f_lit 0) l' in
      if negb (f_eq lo (f_lit 0)) && is_finite lo then f_add hi lo else hi
  end.

(** [float(value)] *)
Definition to_float (v : json) : res float :=
  match v with
  | JInt z => f_of_Z z
  | JFloat x => Ok x
  | JBool b => Ok (f_lit (if b then 1 else 0))
  | _ => Raise TypeError
  end.

Definition f_true_div (x y : float) : res float :=
  if f_eq y (f_lit 0) then Raise ZeroDivisionError else Ok (f_div x y).

(** The new [mutation_weights] *)
Definition normalize_weights (weights : json) : res json :=
  match weights with
  | JObj d =>
      floats ← foldM (fun fs nw => x ← to_float nw.2; Ok (fs ++ [x])) [] d;
      let total := f_sum floats in
      pairs ← foldM (fun ps name =>
        x ← to_float (default (JFloat (f_lit 0)) (dict_get d name));
        y ← f_true_div x total; Ok (ps ++ [(name, JFloat y)])) [] MUTATION_OPERATORS;
      Ok (JObj pairs)
  | _ => Raise TypeError
  end.

Definition set_field (v : json) (name : string) (x : json) : json :=
  match v with JObj d => JObj (dict_set d name x) | _ => v end.

(** [value[name]] *)
Definition sub (v : json) (name : string) : res json :=
  match v with JObj d => subscript d name | _ => Raise TypeError end.

(** [name in parameters] and [parameters[name] = ...] for the dict of the
    action, which the action holds: the change shows in the action. *)
Definition store_parameters (action_type : string) (action parameters : json) : res json :=
  if bool_decide (action_type = "start_lane"%string) then
    spec ← sub action "spec"; Ok (set_field action "spec" (set_field spec "parameters" parameters))
  else Ok (set_field action "patch" parameters).

Definition annotate_action (ctx : DecisionContext) (action : json) : res json :=
  t ← sub action "type";
  let lane_algorithm :=
    lane ← sub action "lane_id"; id ← py_str lane; Ok (dict_get (ctx_lane_algorithms ctx) id) in
  ap ← (if is_text t "start_lane" then
          spec ← sub action "spec"; a ← sub spec "algorithm"; a ← py_str a; p ← sub spec "parameters"; Ok (Some a, p)
        else if is_text t "patch_lane" then a ← lane_algorithm; p ← sub action "patch"; Ok (a, p)
        else if is_text t "fork_lane" then a ← lane_algorithm; Ok (a, JObj [])
        else Ok (None, JObj []));
  let '(algorithm, parameters) := ap in
  ap ← match parameters with
       | JObj d =>
           match dict_get d MUTATION_WEIGHTS_PARAMETER with
           | Some weights =>
               w ← normalize_weights weights;
               let p := JObj (dict_set d MUTATION_WEIGHTS_PARAMETER w) in
               ty ← py_str t; a ← store_parameters ty action p; Ok (a, p)
           | None => Ok (action, parameters)
           end
       | _ => Raise TypeError
       end;
  let '(action, effective) := ap in
  let names := match effective with JObj d => keys d | _ => [] end in
  let effects := omap (fun name => text ← dict_get parameter_effects name; Some (name, JStr text)) names in
  let action :=
    set_field (set_field (set_field (set_field action "effective_parameters" effective)
      "ignored_parameters" (JObj [])) "rejected_parameters" (JObj [])) "parameter_effects" (JObj effects) in
  match algorithm with
  | Some a =>
      match dict_get ALGORITHM_PARAMETERS a with
      | Some names => Ok (set_field action "implemented_controls" (texts (sorted_strings names)))
      | None => Raise KeyError
      end
  | None => Ok action
  end.

Definition _annotate_parameter_effects (value : json) (ctx : DecisionContext) : res json :=
  actions ← sub value "actions";
  match actions with
  | JList l =>
      l' ← foldM (fun done a => a' ← annotate_action ctx a; Ok (done ++ [a'])) [] l;
      Ok (set_field value "actions" (JList l'))
  | _ => Raise TypeError
  end.

(** ** [validate_decision] *)

Record DecisionValidation := mkDecision {
  accepted : bool; decision_issues : list ValidationIssue; normalized : option json
}.

Definition MAX_DECISION_BYTES : Z := 128 * 1024.
Definition TOP_FIELDS : list string :=
  ["schema_version"; "snapshot_id"; "campaign_assessment"; "hypothesis_updates"; "actions"; "next_review"]%string.

(** The checks after the top-level fields are known to be there *)
Definition decision_body (value : json) (ctx : DecisionContext) : V unit :=
  version ← item value "schema_version";
  when (negb (is_text version "1.0")) (add "$.schema_version" "must equal 1.0") ;;;
  snapshot ← item value "snapshot_id";
  when (negb (is_text snapshot (ctx_snapshot_id ctx))) (add "$.snapshot_id" "does not match the committed snapshot") ;;;
  assessment ← item value "campaign_assessment"; _bounded_text assessment "$.campaign_assessment" 1 6000 ;;;
  updates ← item value "hypothesis_updates"; new_hypotheses ← _validate_hypotheses updates ctx;
  given ← item value "actions";
  actions ← (match list_within given 1 12 with
             | Some l => mret l
             | None => add "$.actions" "must contain between 1 and 12 actions" ;;; mret []
             end);
  b ← vfold (validate_action ctx new_hypotheses) (mkBatch [] [] 0) (enumerate actions);
  when (ctx_max_active_lanes ctx <? Z.of_nat (length (ctx_lane_versions ctx)) + projected_starts b)
    (add "$.actions" ("would exceed max_active_lanes=" ++ pretty (ctx_max_active_lanes ctx))%string) ;;;
  review ← item value "next_review"; _review review "$.next_review".

Definition validate_decision (value : json) (ctx : DecisionContext) : res DecisionValidation :=
  match canonical_json value MAX_DECISION_BYTES with
  | Raise (ValueError msg) => Ok (mkDecision false [mkIssue "$" msg] None)
  | Raise e => Raise e
  | Ok _ =>
      let value := _normalize_transport_nulls value in
      match exact_keys value "$" TOP_FIELDS [] with
      | Raise e => Raise e
      | Ok (false, issues) => Ok (mkDecision false issues None)
      | Ok (true, issues) =>
          match decision_body value ctx issues with
          | Raise e => Raise e
          | Ok (_, []) => n ← _annotate_parameter_effects value ctx; Ok (mkDecision true [] (Some n))
          | Ok (_, issues) => Ok (mkDecision false issues None)
          end
      end
  end.
