(* ===== verification/Accepted.v ===== *)
(** * What an accepted decision guarantees

    The declarative reading of [validate_decision]: a decision the validator
    accepts has exactly the reviewed fields, names only ids of the snapshot and
    keeps every number in its domain. The specification is stated on the
    decision itself; the proofs follow the validator with the fact that a run
    without issues is a run whose every step is without issues. *)

From stdpp Require Import sorting.
From S2P Require Import Prelude Floats Json Catalog Validation.

#[global] Open Scope Z_scope.

(** ** The specification *)

(** The value is an object with exactly these keys. *)
Definition exactly (names : list string) (v : json) : Prop :=
  exists d, v = JObj d /\ forall k, k ∈ keys d <-> k ∈ names.

(** The object holds a value under the key that has the property. *)
Definition holds (name : string) (P : json -> Prop) (v : json) : Prop :=
  exists d w, v = JObj d /\ dict_get d name = Some w /\ P w.

Definition int_between (lo hi : Z) (v : json) : Prop := exists z, v = JInt z /\ lo <= z <= hi.

Definition number_of (v : json) (x : float) : Prop := v = JFloat x \/ exists z, v = JInt z /\ f_of_Z z = Ok x.

Definition num_between (lo hi : bound) (exclusive : bool) (v : json) : Prop :=
  exists x, number_of v x /\ is_finite x = true /\
    (if exclusive then f_le x (bound_value lo) else f_lt x (bound_value lo)) = false /\
    f_lt (bound_value hi) x = false.

Definition text_between (lo hi : Z) (v : json) : Prop := exists s, v = JStr s /\ lo <= len s <= hi.

Definition identifier (minimum : Z) (s : string) : Prop := minimum <= len s <= 128 /\ IDENTIFIER_fullmatch s = true.
Definition names_one (ids : list string) (v : json) : Prop := exists s, v = JStr s /\ identifier 1 s /\ s ∈ ids.
Definition one_of (words : list string) (v : json) : Prop := exists s, v = JStr s /\ s ∈ words.

(** A list of distinct ids of the snapshot *)
Definition ids_within (lo hi : Z) (ids : list string) (v : json) : Prop :=
  exists l, v = JList l /\ lo <= Z.of_nat (length l) <= hi /\ NoDup l /\ Forall (names_one ids) l.

Definition window_ok (v : json) : Prop :=
  exactly ["max_wall_seconds"; "max_candidate_delta"]%string v /\
  holds "max_wall_seconds" (int_between 10 7200) v /\ holds "max_candidate_delta" (int_between 1 100000000) v.

Definition review_ok (v : json) : Prop :=
  exactly ["min_wall_seconds"; "max_wall_seconds"; "candidate_delta"; "events"]%string v /\
  holds "candidate_delta" (int_between 1 100000000) v /\
  (exists a b, holds "min_wall_seconds" (eq (JInt a)) v /\ holds "max_wall_seconds" (eq (JInt b)) v /\
     10 <= a <= 3600 /\ 30 <= b <= 7200 /\ a <= b) /\
  holds "events" (fun e => exists l, e = JList l /\ (length l <= 16)%nat /\ NoDup l /\ Forall (one_of REVIEW_EVENTS) l) v.

Definition weights_ok (v : json) : Prop :=
  exists d, v = JObj d /\ d <> [] /\
    Forall (fun nw => nw.1 ∈ MUTATION_OPERATORS /\ num_between (IntBound 0) (FloatBound infinity) false nw.2) d.

Definition in_domain (d : Domain) (v : json) : Prop :=
  match d with
  | IntegerDomain lo hi => int_between lo hi v
  | NumberDomain lo hi => num_between (FloatBound lo) (FloatBound hi) false v
  | StringDomain enum => one_of enum v
  end.

(** Every parameter belongs to the algorithm and lies in its domain; the
    reviewed ranker appears only where the campaign enables it. *)
Definition parameter_ok (partial : bool) (algorithm catalog_id : option string) (nv : string * json) : Prop :=
  nv.1 ∈ allowed_parameters partial algorithm /\
  (nv.1 = MUTATION_WEIGHTS_PARAMETER -> weights_ok nv.2) /\
  (forall dom, nv.1 <> MUTATION_WEIGHTS_PARAMETER -> dict_get PARAMETER_DOMAINS nv.1 = Some dom -> in_domain dom nv.2) /\
  (nv.1 = "proposal_ranking"%string -> is_Some catalog_id /\ ranks algorithm = true).

Definition parameters_ok (partial : bool) (algorithm catalog_id : option string) (v : json) : Prop :=
  exists d, v = JObj d /\ Forall (parameter_ok partial algorithm catalog_id) d /\
    (if partial then d <> []
     else (forall name, name ∈ ["order"; "batch_candidates"; "witness_cap"]%string -> name ∈ keys d) /\
       (ranks algorithm = true -> forall id, catalog_id = Some id -> get d "proposal_ranking" = JStr id)).

Section Context_.
Context (ctx : DecisionContext).

Definition share (exclusive : bool) : json -> Prop := num_between (IntBound 0) (IntBound 1) exclusive.

Definition lane_ok (algorithm : option string) (v : json) : Prop :=
  exists lane version, holds "lane_id" (eq (JStr lane)) v /\ holds "expected_lane_version" (eq (JInt version)) v /\
    dict_get (ctx_lane_versions ctx) lane = Some version /\ lane ∈ ctx_executable_target_ids ctx /\
    algorithm = dict_get (ctx_lane_algorithms ctx) lane.

Definition spec_ok (v : json) : Prop :=
  exactly ["algorithm"; "graph_family"; "seed"; "parameters"; "resource_share"]%string v /\
  exists algorithm, algorithm ∈ ALGORITHMS /\ holds "algorithm" (eq (JStr algorithm)) v /\
    holds "graph_family" (one_of (GRAPH_FAMILIES.*1)) v /\
    holds "seed" (int_between 0 (2 ^ 63 - 1)) v /\ holds "resource_share" (share true) v /\
    holds "parameters" (parameters_ok false (Some algorithm) (ctx_proposal_ranking_catalog_id ctx)) v /\
    (holds "graph_family" (eq (JStr "connected_cubic")) v ->
     holds "parameters" (holds "order" (fun o => exists n, o = JInt n /\ Z.even n = true)) v).

Definition variant_ok (algorithm : option string) (v : json) : Prop :=
  exactly ["name"; "patch"; "resource_share"]%string v /\ holds "name" (text_between 1 128) v /\
  holds "patch" (parameters_ok true algorithm (ctx_proposal_ranking_catalog_id ctx)) v /\
  holds "resource_share" (share true) v.

Definition both (ids : list string) (v : json) : Prop :=
  exists s, v = JStr s /\ s ∈ ids /\ s ∈ ctx_executable_target_ids ctx.

Definition restart_ok (v : json) : Prop :=
  holds "source" (one_of ["new_seed"; "checkpoint"; "archive_elite"]%string) v /\
  holds "seed" (int_between 0 (2 ^ 63 - 1)) v /\
  (holds "source" (eq (JStr "checkpoint")) v -> holds "checkpoint_id" (both (ctx_checkpoint_ids ctx)) v) /\
  (holds "source" (eq (JStr "archive_elite")) v -> holds "candidate_id" (both (ctx_candidate_ids ctx)) v).

Definition allocation_ok (v : json) : Prop :=
  exactly ["lane_id"; "expected_lane_version"; "resource_share"]%string v /\
  (exists algorithm, lane_ok algorithm v) /\ holds "resource_share" (share false) v.

Definition list_of (lo hi : Z) (P : json -> Prop) (v : json) : Prop :=
  exists l, v = JList l /\ lo <= Z.of_nat (length l) <= hi /\ Forall P l.

(** What an action of each type may ask for, and the lanes it starts *)
Definition body_ok (action_type : string) (action : json) (starts : Z) : Prop :=
  (action_type = "start_lane" -> holds "spec" spec_ok action /\ starts = 1)%string /\
  (action_type = "patch_lane" -> exists algorithm, lane_ok algorithm action /\
     holds "patch" (parameters_ok true algorithm (ctx_proposal_ranking_catalog_id ctx)) action /\ starts = 0)%string /\
  (action_type = "fork_lane" -> exists algorithm, lane_ok algorithm action /\
     holds "checkpoint_id" (both (ctx_checkpoint_ids ctx)) action /\
     holds "variants" (fun v => list_of 1 4 (variant_ok algorithm) v /\ exists l, v = JList l /\ starts = Z.of_nat (length l)) action)%string /\
  (action_type = "restart_lane" -> (exists algorithm, lane_ok algorithm action) /\
     holds "restart_spec" restart_ok action /\ starts = 0)%string /\
  (action_type = "stop_lane" -> (exists algorithm, lane_ok algorithm action) /\ starts = 0)%string /\
  (action_type = "reallocate_resources" -> holds "allocations" (list_of 1 32 allocation_ok) action /\ starts = 0)%string /\
  (action_type = "promote_candidate" -> holds "candidate_id" (both (ctx_candidate_ids ctx)) action /\ starts = 0)%string /\
  (action_type = "request_diagnostic" -> holds "diagnostic_type" (one_of DIAGNOSTICS) action /\
     holds "subject_ids" (ids_within 1 32 (ctx_diagnostic_subject_ids ctx)) action /\ starts = 0)%string /\
  (action_type = "schedule_verification" ->
     holds "candidate_ids" (list_of 1 32 (both (ctx_candidate_ids ctx))) action /\
     holds "verification_priority" (int_between 0 100) action /\ starts = 0)%string /\
  (action_type = "set_review_trigger" -> holds "review_trigger" review_ok action /\ starts = 0)%string.

Definition action_ok (new_hypotheses : list string) (action : json) (id key : string) (starts : Z) : Prop :=
  exists action_type,
    holds "type" (eq (JStr action_type)) action /\
    action_type ∈ ACTION_TYPES /\ action_type ∈ ctx_applicable_action_types ctx /\
    (exists fields, dict_get ACTION_FIELDS action_type = Some fields /\ exactly (COMMON_ACTION_FIELDS ++ fields) action) /\
    holds "action_id" (eq (JStr id)) action /\ identifier 1 id /\ id ∉ ctx_reserved_action_ids ctx /\
    holds "idempotency_key" (eq (JStr key)) action /\ identifier 8 key /\
    holds "priority" (int_between 0 100) action /\ holds "lease_seconds" (int_between 30 7200) action /\
    holds "rationale" (text_between 1 4000) action /\ holds "expected_effect" (text_between 1 2000) action /\
    holds "evidence_ids" (ids_within 0 32 (ctx_evidence_ids ctx)) action /\
    holds "hypothesis_ids" (ids_within 0 16 (ctx_hypothesis_ids ctx ++ new_hypotheses)) action /\
    holds "evaluation_window" window_ok action /\
    holds "fallback" (fun f => exactly ["on_precondition_failure"]%string f /\
      holds "on_precondition_failure" (one_of ["reject"; "replan"]%string) f) action /\
    body_ok action_type action starts.

Definition hypothesis_ok (v : json) : Prop :=
  exactly HYPOTHESIS_FIELDS v /\
  holds "statement" (text_between 1 4000) v /\ holds "confidence" (share false) v /\
  holds "evidence_for" (ids_within 0 32 (ctx_evidence_ids ctx)) v /\
  holds "evidence_against" (ids_within 0 32 (ctx_evidence_ids ctx)) v /\
  exists id, identifier 1 id /\ holds "hypothesis_id" (eq (JStr id)) v /\
    ((holds "operation" (eq (JStr HYPOTHESIS_CREATE_OPERATION)) v /\ id ∉ ctx_hypothesis_ids ctx) \/
     (holds "operation" (one_of HYPOTHESIS_EXISTING_OPERATIONS) v /\ id ∈ ctx_hypothesis_ids ctx)).

(** The ids of the hypotheses a list of updates creates *)
Definition creates (v : json) (id : string) : Prop :=
  holds "operation" (eq (JStr HYPOTHESIS_CREATE_OPERATION)) v /\ holds "hypothesis_id" (eq (JStr id)) v.

Definition decision_ok (v : json) : Prop :=
  exactly TOP_FIELDS v /\
  holds "schema_version" (eq (JStr "1.0")) v /\
  holds "snapshot_id" (eq (JStr (ctx_snapshot_id ctx))) v /\
  holds "campaign_assessment" (text_between 1 6000) v /\
  holds "next_review" review_ok v /\
  exists updates actions new_hypotheses ids idem starts,
    holds "hypothesis_updates" (eq (JList updates)) v /\ (length updates <= 32)%nat /\
    Forall hypothesis_ok updates /\
    (forall h, h ∈ new_hypotheses -> exists u, u ∈ updates /\ creates u h) /\
    holds "actions" (eq (JList actions)) v /\ 1 <= Z.of_nat (length actions) <= 12 /\
    (forall i a, actions !! i = Some a -> exists id key s,
       ids !! i = Some id /\ idem !! i = Some key /\ starts !! i = Some s /\ action_ok new_hypotheses a id key s) /\
    length ids = length actions /\ length idem = length actions /\ length starts = length actions /\
    NoDup ids /\ NoDup idem /\
    Z.of_nat (length (ctx_lane_versions ctx)) + foldr Z.add 0 starts <= ctx_max_active_lanes ctx.
End Context_.

(** ** Runs without issues *)

(** Every operation extends the list of issues. *)
Class Grows {A} (m : V A) : Prop :=
  grows : forall issues a issues', m issues = Ok (a, issues') -> exists extra, issues' = issues ++ extra.

(** The run that starts and ends without issues *)
Definition clean {A} (m : V A) (a : A) : Prop := m [] = Ok (a, []).

#[export] Instance ret_grows {A} (a : A) : Grows (mret a : V A).
Proof. intros issues a' issues' [= <- <-]. exists []. by rewrite app_nil_r. Qed.

#[export] Instance bind_grows {A B} (m : V A) (k : A -> V B) : Grows m -> (forall a, Grows (k a)) -> Grows (m ≫= k).
Proof.
  intros Hm Hk issues b issues'. unfold mbind, V_bind. destruct (m issues) as [[a is1]|] eqn:E; [|done].
  intros H. apply Hm in E as [e1 ->]. apply Hk in H as [e2 ->]. exists (e1 ++ e2). by rewrite app_assoc.
Qed.

#[export] Instance vlift_grows {A} (m : res A) : Grows (vlift m).
Proof. intros issues a issues'. unfold vlift. destruct m; [|done]. intros [= _ <-]. exists []. by rewrite app_nil_r. Qed.

#[export] Instance add_grows path message : Grows (add path message).
Proof. intros issues a issues' [= _ <-]. by eexists. Qed.

#[export] Instance vfold_grows {A S} (body : S -> A -> V S) s l : (forall s x, Grows (body s x)) -> Grows (vfold body s l).
Proof. intros Hb. revert s. induction l as [|x l IH]; intros s; cbn [vfold]; apply _. Qed.

Lemma clean_bind {A B} (m : V A) (k : A -> V B) b :
  (forall a, Grows (k a)) -> clean (m ≫= k) b -> exists a, clean m a /\ clean (k a) b.
Proof.
  intros Hk. unfold clean, mbind, V_bind. destruct (m []) as [[a is1]|] eqn:E; [|done].
  intros H. exists a. apply Hk in H as He. destruct He as [e He].
  symmetry in He. apply app_eq_nil in He as [-> _]. done.
Qed.

Lemma clean_ret {A} (a a' : A) : clean (mret a) a' -> a' = a.
Proof. by intros [= ->]. Qed.

Lemma clean_vlift {A} (m : res A) a : clean (vlift m) a -> m = Ok a.
Proof. unfold clean, vlift. by destruct m; intros [= ->]. Qed.

#[export] Instance when_grows c m : Grows m -> Grows (when c m).
Proof. intros. unfold when. destruct c; apply _. Qed.
#[export] Instance vfor_grows {A} (body : A -> V unit) l : (forall x, Grows (body x)) -> Grows (vfor body l).
Proof. intros. unfold vfor. apply _. Qed.

Lemma clean_when_add c path message u : clean (when c (add path message)) u -> c = false.
Proof. by destruct c. Qed.

Lemma clean_add path message u : ~ clean (add path message) u.
Proof. done. Qed.

Lemma clean_vfor {A} (body : A -> V unit) l u :
  (forall x, Grows (body x)) -> clean (vfor body l) u -> Forall (fun x => clean (body x) tt) l.
Proof.
  intros Hg. unfold vfor. generalize tt at 1. revert u. induction l as [|x l IH]; intros u s H; [constructor|].
  cbn [vfold] in H. apply clean_bind in H as (s' & Hx & Hl); [|apply _..].
  destruct s'. constructor; [done|]. by eapply IH.
Qed.

Lemma item_grows v name : Grows (item v name).
Proof. unfold item. destruct v; apply _. Qed.
#[export] Existing Instance item_grows.

Lemma clean_item v name w : clean (item v name) w -> exists d, v = JObj d /\ dict_get d name = Some w.
Proof.
  unfold item. destruct v; intros H%clean_vlift; try done. exists d. split; [done|].
  unfold subscript in H. by destruct (dict_get d name); [injection H as ->|].
Qed.

Lemma item_holds v name w (P : json -> Prop) : clean (item v name) w -> P w -> holds name P v.
Proof. intros (d & -> & Hd)%clean_item HP. by exists d, w. Qed.

(** Prove that an operation only adds issues: follow its definition *)
Ltac growing :=
  repeat first
    [ progress intros
    | apply _
    | apply bind_grows
    | apply vfold_grows
    | apply vfor_grows
    | apply when_grows
    | match goal with
      | |- Grows (match ?x with _ => _ end) => destruct x
      | |- Grows (let '_ := ?x in _) => destruct x
      end ].

(** Take a run without issues apart *)
Ltac clean_steps :=
  repeat match goal with
  | H : clean (mbind _ _) _ |- _ =>
      let x := fresh "x" in let Hx := fresh "Hc" in
      apply clean_bind in H as (x & Hx & H); [|by growing..]
  | H : clean (when _ (add _ _)) ?u |- _ => apply clean_when_add in H; clear u || idtac
  | H : clean (mret _) _ |- _ => apply clean_ret in H; subst
  | H : clean (vlift _) _ |- _ => apply clean_vlift in H
  | H : clean (add _ _) _ |- _ => destruct (clean_add _ _ _ H)
  | H : Ok _ = Ok _ |- _ => injection H as H; subst
  | u : () |- _ => destruct u
  end.

(** ** The field checks *)

#[export] Instance exact_keys_grows v path required allowed : Grows (exact_keys_within v path required allowed).
Proof. unfold exact_keys_within. growing. Qed.

Lemma clean_exact_keys_within v path required allowed :
  clean (exact_keys_within v path required allowed) true ->
  exists d, v = JObj d /\ (forall k, k ∈ required -> k ∈ keys d) /\ (forall k, k ∈ keys d -> k ∈ allowed).
Proof.
  unfold exact_keys_within. destruct v; intros H; clean_steps; try done.
  exists d. match goal with H : true = _ |- _ => symmetry in H; apply andb_true_iff in H as [H1%bool_decide_eq_true H2%bool_decide_eq_true] end.
  split_all; [done|..]; intros k Hk.
  - destruct (decide (k ∈ keys d)) as [|Hn]; [done|]. exfalso.
    assert (k ∈ filter (fun key => key ∉ keys d) required) as Hf by by apply list_elem_of_filter.
    rewrite H1 in Hf. by apply elem_of_nil in Hf.
  - destruct (decide (k ∈ allowed)) as [|Hn]; [done|]. exfalso.
    assert (k ∈ filter (fun key => key ∉ allowed) (keys d)) as Hf by by apply list_elem_of_filter.
    rewrite H2 in Hf. by apply elem_of_nil in Hf.
Qed.


Lemma clean_reports {A} (path : A -> string) message l u : clean (vfor (fun k => add (path k) message) l) u -> l = [].
Proof. intros H%clean_vfor; [|growing]. destruct H as [|k l Hk _]; [done|]. by apply clean_add in Hk. Qed.

(** A check of keys that failed has left an issue. *)
Lemma exact_keys_false v path required allowed : ~ clean (exact_keys_within v path required allowed) false.
Proof.
  unfold exact_keys_within. intros H. destruct v; clean_steps.
  repeat match goal with H : clean (vfor _ _) _ |- _ => apply clean_reports in H end.
  repeat match goal with H : sorted_strings _ = [] |- _ => apply sorted_strings_nil in H; rewrite H in * end. done.
Qed.

Lemma clean_fields {A} v path required allowed (skip body : V A) a :
  Grows skip -> Grows body ->
  clean (ok ← exact_keys_within v path required allowed; if negb ok then skip else body) a ->
  (exists d, v = JObj d /\ (forall k, k ∈ required -> k ∈ keys d) /\ (forall k, k ∈ keys d -> k ∈ allowed)) /\ clean body a.
Proof.
  intros Hs Hb H. apply clean_bind in H as ([] & Hk & H); [|by apply exact_keys_false in Hk|by intros []].
  split; [|done]. by apply clean_exact_keys_within in Hk.
Qed.

(** The check of exactly these keys *)
Lemma clean_exactly {A} v path names (skip body : V A) a :
  Grows skip -> Grows body ->
  clean (ok ← exact_keys v path names; if negb ok then skip else body) a -> exactly names v /\ clean body a.
Proof.
  intros Hs Hb H. apply clean_fields in H as [(d & -> & H1 & H2) H]; [|done..].
  split; [|done]. exists d. split; [done|]. intros k. split; [apply H2|apply H1].
Qed.

#[export] Instance identifier_grows v path minimum : Grows (_identifier v path minimum).
Proof. unfold _identifier. growing. Qed.

Lemma clean_identifier v path minimum s : clean (_identifier v path minimum) s -> v = JStr s /\ identifier minimum s.
Proof.
  unfold _identifier. destruct v as [| | | |t| |]; try (intros; clean_steps; fail).
  destruct (_ && _ && _) eqn:E; intros H; clean_steps. apply andb_true_iff in E as [E ?].
  apply andb_true_iff in E as [? ?]. unfold identifier. split; [done|]. split; [lia|done].
Qed.

#[export] Instance bounded_text_grows v path lo hi : Grows (_bounded_text v path lo hi).
Proof. unfold _bounded_text. growing. Qed.

Lemma clean_bounded_text v path lo hi u : clean (_bounded_text v path lo hi) u -> text_between lo hi v.
Proof.
  unfold _bounded_text. intros H%clean_when_add. destruct v as [| | | |t| |]; try done.
  apply negb_false_iff, andb_true_iff in H as [? ?]. exists t. split; [done|lia].
Qed.

#[export] Instance integer_grows v path lo hi : Grows (_integer v path lo hi).
Proof. unfold _integer. growing. Qed.

Lemma clean_integer v path lo hi r : clean (_integer v path lo hi) r -> exists z, v = JInt z /\ r = Some z /\ lo <= z <= hi.
Proof.
  unfold _integer. destruct v; intros H; clean_steps.
  match goal with H : negb _ = false |- _ => apply negb_false_iff, andb_true_iff in H as [? ?] end. exists z. split_all; [done|done|lia|lia].
Qed.

Lemma integer_between v path lo hi r : clean (_integer v path lo hi) r -> int_between lo hi v.
Proof. intros (z & -> & _ & ?)%clean_integer. by exists z. Qed.

#[export] Instance number_grows v path lo hi excl : Grows (_number v path lo hi excl).
Proof. unfold _number. growing. Qed.

Lemma clean_number v path lo hi excl r :
  clean (_number v path lo hi excl) r -> num_between lo hi excl v /\ is_Some r.
Proof.
  unfold _number. intros H.
  assert (exists x, number_of v x /\ clean
    (if negb (is_finite x) then add path "must be finite"
     else when ((if excl then f_le x (bound_value lo) else f_lt x (bound_value lo)) || f_lt (bound_value hi) x)
       (add path ("must be " ++ (if excl then "greater than" else "at least") ++ " " ++ bound_text lo ++ " and at most " ++ bound_text hi)%string)) tt
    /\ r = Some x) as (x & Hx & Hc & ->).
  { destruct v; clean_steps; (eexists; split; [|split; [eassumption|done]]); unfold number_of; [right|left]; eauto. }
  split; [|by eexists]. destruct (is_finite x) eqn:Hf; cbn [negb] in Hc; [|by apply clean_add in Hc].
  apply clean_when_add, orb_false_iff in Hc as [Hlo Hhi]. by exists x.
Qed.

Lemma Forall_enumerate {A} (P : A -> Prop) (l : list A) : Forall (fun ix => P ix.2) (enumerate l) -> Forall P l.
Proof.
  unfold enumerate. generalize 0. induction l as [|x l IH]; intros i H; [constructor|].
  cbn in H. apply Forall_cons in H as [Hx Hl]. constructor; [done|]. by eapply IH.
Qed.

(** A loop over the indexed items of a list, without issues *)
Lemma clean_each {A} (body : Z * A -> V unit) (P : A -> Prop) (l : list A) u :
  (forall ix, Grows (body ix)) -> (forall ix, clean (body ix) tt -> P ix.2) ->
  clean (vfor body (enumerate l)) u -> Forall P l.
Proof.
  intros Hg HP H%clean_vfor; [|done]. apply Forall_enumerate. eapply Forall_impl; [exact H|]. cbn. auto.
Qed.

#[export] Instance has_duplicates_grows l : Grows (has_duplicates l).
Proof. unfold has_duplicates. growing. Qed.

Lemma texts_fold l acc ts :
  foldM (fun ts v => t ← py_str v; Ok (ts ++ [t])) acc l = Ok ts ->
  exists us, ts = acc ++ us /\ Forall2 (fun v t => py_str v = Ok t) l us.
Proof.
  revert acc. induction l as [|v l IH]; intros acc H; cbn in H.
  { injection H as <-. exists []. rewrite app_nil_r. by split. }
  destruct (py_str v) as [t|] eqn:Ht; [|done]. cbn in H. apply IH in H as (us & -> & Hus).
  exists (t :: us). rewrite <- app_assoc. split; [done|by constructor].
Qed.

(** Distinct texts come from distinct values. *)
Lemma clean_no_duplicates l : clean (has_duplicates l) false -> NoDup l.
Proof.
  unfold has_duplicates. intros H. clean_steps. apply texts_fold in Hc as (us & -> & Hus). cbn in H.
  symmetry in H. apply negb_false_iff, Nat.eqb_eq in H.
  assert (NoDup us) as Hnd.
  { apply full_NoDup. rewrite H. by eapply Forall2_length. }
  clear H. induction Hus as [|v t l us Hv Hl IH]; [constructor|].
  apply NoDup_cons in Hnd as [Ht Hnd]. constructor; [|by apply IH].
  intros Hin. apply Ht. destruct (proj1 (list_elem_of_lookup _ _) Hin) as [i Hi].
  destruct (Forall2_lookup_l _ _ _ _ _ Hl Hi) as (u & Hu & Hpu). rewrite Hv in Hpu. injection Hpu as ->.
  by eapply list_elem_of_lookup_2.
Qed.

Lemma list_within_Some v lo hi l : list_within v lo hi = Some l -> v = JList l /\ lo <= Z.of_nat (length l) <= hi.
Proof.
  unfold list_within. destruct v; try done. destruct (_ && _) eqn:E; [|done]. intros [= ->].
  apply andb_true_iff in E as [? ?]. split; [done|lia].
Qed.

#[export] Instance id_list_grows v path lo hi ids : Grows (_id_list v path lo hi ids).
Proof. unfold _id_list. growing. Qed.

Lemma identifier_nonempty minimum s : identifier minimum s -> s <> EmptyString.
Proof. by intros [_ H] ->. Qed.

Lemma negb_decide_false (P : Prop) `{Decision P} : negb (bool_decide P) = false -> P.
Proof. intros H'%negb_false_iff. by apply bool_decide_eq_true in H'. Qed.

Lemma clean_id_list v path lo hi ids u : clean (_id_list v path lo hi ids) u -> ids_within lo hi ids v.
Proof.
  unfold _id_list. destruct (list_within v lo hi) as [l|] eqn:E; intros H; clean_steps.
  apply list_within_Some in E as [-> Hl]. exists l. split; [done|]. split; [done|].
  destruct x; [done|clear Hc0]. split; [by apply clean_no_duplicates|].
  eapply clean_each; [..|exact H]; [growing|]. intros [i w] Hw. cbn [fst snd] in *. clean_steps.
  apply clean_identifier in Hc0 as [-> Hid]. exists x. split_all; [done..|].
  apply andb_false_iff in Hw as [Hw|Hw]; [|by apply negb_decide_false in Hw].
  apply negb_false_iff, bool_decide_eq_true in Hw. by apply identifier_nonempty in Hid.
Qed.

#[export] Instance evaluation_window_grows v path : Grows (_evaluation_window v path).
Proof. unfold _evaluation_window, exact_keys. growing. Qed.

(** Find the run that read the field of the goal *)
Ltac by_field :=
  match goal with
  | |- holds ?n _ ?v => match goal with H : clean (item v n) _ |- _ => eapply item_holds; [exact H|] end
  end.

Lemma clean_evaluation_window v path u : clean (_evaluation_window v path) u -> window_ok v.
Proof.
  unfold _evaluation_window. intros [Hk H]%clean_exactly; [|growing..]. clean_steps. split; [done|].
  split; by_field; by eapply integer_between.
Qed.

#[export] Instance review_grows v path : Grows (_review v path).
Proof. unfold _review, exact_keys. growing. Qed.

Lemma clean_review v path u : clean (_review v path) u -> review_ok v.
Proof.
  unfold _review. intros [Hk H]%clean_exactly; [|growing..]. split; [done|]. clean_steps.
  repeat match goal with H : clean (_integer _ _ _ _) ?r |- _ => apply clean_integer in H as (? & -> & -> & ?) end.
  split; [by_field; eexists; by split|]. split.
  { eexists _, _. split; [by by_field|]. split; [by by_field|].
    match goal with H : (_ <? _) = false |- _ => apply Z.ltb_ge in H end. by split_all; try lia. }
  by_field. destruct (list_within _ 0 16) as [l|] eqn:E; clean_steps.
  apply list_within_Some in E as [-> Hl]. exists l. split; [done|]. split; [lia|].
  match goal with d : bool |- _ => destruct d; [done|] end. split; [by apply clean_no_duplicates|].
  eapply clean_each; [..|exact H]; [growing|]. intros [i w] Hw%clean_when_add. cbn in Hw.
  apply negb_false_iff in Hw. unfold in_tuple in Hw. destruct w; try done. apply bool_decide_eq_true in Hw. by eexists.
Qed.

#[export] Instance candidate_grows v path ctx : Grows (_candidate v path ctx).
Proof. unfold _candidate. growing. Qed.

Lemma clean_candidate v path ctx u : clean (_candidate v path ctx) u -> both ctx (ctx_candidate_ids ctx) v.
Proof.
  unfold _candidate. intros H. clean_steps. apply clean_identifier in Hc as [-> _]. exists x. split; [done|].
  destruct (negb _) eqn:E in H; clean_steps. apply negb_decide_false in E, H. done.
Qed.

#[export] Instance candidate_list_grows v path ctx : Grows (_candidate_list v path ctx).
Proof. unfold _candidate_list. growing. Qed.

Lemma clean_candidate_list v path ctx u :
  clean (_candidate_list v path ctx) u -> list_of 1 32 (both ctx (ctx_candidate_ids ctx)) v.
Proof.
  unfold _candidate_list. destruct (list_within v 1 32) as [l|] eqn:E; intros H; clean_steps.
  apply list_within_Some in E as [-> Hl]. exists l. split; [done|]. split; [done|].
  eapply clean_each; [..|exact H]; [growing|]. intros [i w]. apply clean_candidate.
Qed.

(** ** Parameters *)

#[export] Instance mutation_weights_grows v path : Grows (_mutation_weights v path).
Proof. unfold _mutation_weights. growing. Qed.

Lemma clean_weight_fold path d total total' :
  clean (vfold (fun total nw =>
            if negb (bool_decide (nw.1 ∈ MUTATION_OPERATORS)) then mret total
            else
              parsed ← _number nw.2 (dot path nw.1) (IntBound 0) (FloatBound infinity) false;
              mret (match parsed with Some p => f_add total p | None => total end)) total d) total' ->
  Forall (fun nw => nw.1 ∈ MUTATION_OPERATORS -> num_between (IntBound 0) (FloatBound infinity) false nw.2) d.
Proof.
  revert total. induction d as [|[name w] d IH]; intros total H; [constructor|]. cbn [vfold] in H. clean_steps.
  constructor; [|by eapply IH]. intros Hin. cbn [fst snd] in *. rewrite bool_decide_eq_true_2 in Hc by done.
  cbn [negb] in Hc. clean_steps. by eapply clean_number.
Qed.

Lemma filter_nil_all {A} (P : A -> Prop) `{forall x, Decision (P x)} (l : list A) :
  filter (fun x => ~ P x) l = [] -> forall x, x ∈ l -> P x.
Proof.
  intros Hf x Hx. destruct (decide (P x)) as [|Hn]; [done|]. exfalso.
  apply (not_elem_of_nil x). rewrite <- Hf. by apply list_elem_of_filter.
Qed.


Lemma clean_mutation_weights v path u : clean (_mutation_weights v path) u -> weights_ok v.
Proof.
  unfold _mutation_weights. destruct v as [| | | | | |d]; intros H; clean_steps.
  apply clean_reports, sorted_strings_nil in Hc. exists d. split; [done|].
  destruct d as [|nw d]; [by apply clean_add in H|]. split; [done|]. clean_steps.
  apply clean_weight_fold in Hc0. rewrite Forall_forall in Hc0 |- *. intros [name w] Hin.
  assert (name ∈ MUTATION_OPERATORS) as Hop.
  { eapply (filter_nil_all (fun name => name ∈ MUTATION_OPERATORS)); [exact Hc|].
    apply (list_elem_of_fmap_2 fst _ _ Hin). }
  split; [done|]. by apply (Hc0 (name, w)).
Qed.

#[export] Instance ranking_entry_grows v path a c : Grows (proposal_ranking_entry v path a c).
Proof. unfold proposal_ranking_entry. growing. Qed.

Lemma clean_ranking_entry v path algorithm catalog_id u :
  clean (proposal_ranking_entry v path algorithm catalog_id) u ->
  one_of [REVIEWED_PROPOSAL_RANKING_CATALOG_ID] v /\ is_Some catalog_id /\ ranks algorithm = true.
Proof.
  unfold proposal_ranking_entry. destruct (negb (is_text v _)) eqn:Hv; intros H; clean_steps.
  apply negb_false_iff in Hv. unfold is_text in Hv. destruct v; try done. apply bool_decide_eq_true in Hv as ->.
  destruct catalog_id; clean_steps. destruct (bool_decide _); clean_steps. apply negb_false_iff in H.
  split; [|done]. exists REVIEWED_PROPOSAL_RANKING_CATALOG_ID. split; [done|by left].
Qed.

#[export] Instance parameter_entry_grows path a p c nv : Grows (parameter_entry path a p c nv).
Proof. unfold parameter_entry. growing. Qed.

Lemma weights_no_domain : dict_get PARAMETER_DOMAINS MUTATION_WEIGHTS_PARAMETER = None.
Proof. by vm_compute. Qed.

Lemma clean_parameter_entry path algorithm partial catalog_id nv u :
  clean (parameter_entry path algorithm partial catalog_id nv) u -> parameter_ok partial algorithm catalog_id nv.
Proof.
  unfold parameter_entry. destruct nv as [name v]. intros H. destruct (_ && _); clean_steps.
  destruct (negb _) eqn:Hin in H; clean_steps. apply negb_decide_false in Hin. split; [done|].
  cbn [fst snd]. case_bool_decide as Hw.
  { apply clean_mutation_weights in H. split_all; [done|done|]. by intros ->. }
  split; [done|]. destruct (dict_get PARAMETER_DOMAINS name) as [domain|] eqn:Hd; [|by apply clean_vlift in H].
  case_bool_decide as Hr.
  - apply clean_ranking_entry in H as (Hv & Hc & Ha). split; [|done]. intros dom _ [= <-]. subst name.
    vm_compute in Hd. by injection Hd as <-.
  - split; [|done]. intros dom _ [= <-]. destruct domain as [lo hi|lo hi|]; clean_steps.
    + by eapply integer_between.
    + by eapply clean_number.
    + done.
Qed.

#[export] Instance parameters_grows v path a p c : Grows (_parameters v path a p c).
Proof. unfold _parameters. growing. Qed.

Lemma clean_when {A} (c : bool) (m : V A) (k : V A) u : clean (if c then m else k) u -> c = true -> clean m u.
Proof. by intros H ->. Qed.

Lemma clean_parameters v path algorithm partial catalog_id u :
  clean (_parameters v path algorithm partial catalog_id) u -> parameters_ok partial algorithm catalog_id v.
Proof.
  unfold _parameters. destruct v as [| | | | | |d]; intros H; clean_steps. exists d. split; [done|]. split.
  { apply clean_vfor in Hc0; [|growing]. eapply Forall_impl; [exact Hc0|]. intros nv. apply clean_parameter_entry. }
  destruct partial; cbn [negb when andb] in *; [by apply bool_decide_eq_false in Hc|]. clean_steps. split.
  - apply clean_vfor in Hc1; [|growing]. rewrite Forall_forall in Hc1. intros name Hname.
    apply Hc1, clean_when_add, negb_decide_false in Hname. done.
  - intros Hr id ->. rewrite Hr in H. cbn [andb] in H. clean_steps. apply negb_false_iff in H.
    unfold is_text in H. destruct (get d _); try done. apply bool_decide_eq_true in H. by subst.
Qed.

(** ** Lane actions *)

#[export] Instance start_lane_grows v path ctx : Grows (_start_lane v path ctx).
Proof. unfold _start_lane, exact_keys. growing. Qed.

Lemma in_set_Ok v words b : in_set v words = Ok b -> b = in_tuple v words.
Proof. unfold in_set. destruct v; congruence. Qed.

Lemma in_tuple_one_of v words : in_tuple v words = true -> one_of words v.
Proof. unfold in_tuple. destruct v; try done. intros H%bool_decide_eq_true. by eexists. Qed.

Lemma keys_get (d : list (string * json)) k : k ∈ keys d -> is_Some (dict_get d k).
Proof.
  intros ([k' w] & Hk & Hin)%list_elem_of_fmap. cbn in Hk. subst k'.
  destruct (dict_get d k) as [v|] eqn:E; [by eexists|]. by destruct (proj1 (dict_get_None d k) E w).
Qed.

(** Reading the same field twice *)
Lemma clean_item_eq v name w P : clean (item v name) w -> holds name P v -> P w.
Proof. intros (d & -> & Hd)%clean_item (d' & w' & [= <-] & Hd' & HP). by simplify_eq. Qed.

Ltac same_field Hs :=
  match type of Hs with
  | holds ?n _ ?v => match goal with H : clean (item v n) _ |- _ => eapply clean_item_eq in Hs; [|exact H] end
  end.

Lemma clean_start_lane v path ctx u : clean (_start_lane v path ctx) u -> spec_ok ctx v.
Proof.
  unfold _start_lane. intros [Hk H]%clean_exactly; [|growing..]. clean_steps. split; [done|].
  destruct x as [| | | |a| |]; clean_steps. case_bool_decide as Ha; clean_steps.
  match goal with H : in_set _ _ = Ok _ |- _ => apply in_set_Ok in H; subst end.
  repeat match goal with H : negb _ = false |- _ => apply negb_false_iff in H end.
  match goal with H : clean (_parameters _ _ _ _ _) _ |- _ => apply clean_parameters in H as Hp end.
  exists a. split; [done|]. split; [by by_field|]. split; [by_field; by apply in_tuple_one_of|].
  split; [by_field; by eapply integer_between|]. split; [by_field; by eapply clean_number|].
  split; [by by_field|]. intros Hcubic. by_field.
  destruct Hp as (d & -> & Hd & Hreq & _).
  assert ("order"%string ∈ keys d) as Ho by (apply Hreq; by left).
  apply keys_get in Ho as [o Ed].
  exists d, o. split; [done|]. split; [done|]. apply dict_get_elem_of in Ed as Hin. rewrite Forall_forall in Hd.
  destruct (Hd _ Hin) as (_ & _ & Hdom & _). cbn [fst snd] in Hdom.
  destruct (Hdom _ ltac:(done) ltac:(done)) as (z & -> & Hz). exists z. split; [done|].
  same_field Hcubic. subst.
  cbn [is_text] in H. rewrite bool_decide_eq_true_2 in H by done. unfold get in H. rewrite Ed in H. cbn in H.
  apply negb_false_iff, Z.eqb_eq in H. apply Zeven_bool_iff, Zeven_ex_iff. exists (z / 2).
  pose proof (Z.div_mod z 2 ltac:(lia)). lia.
Qed.

#[export] Instance lane_target_grows v path ctx : Grows (_lane_target v path ctx).
Proof. unfold _lane_target. growing. Qed.

Lemma clean_lane_target v path ctx algorithm : clean (_lane_target v path ctx) algorithm -> lane_ok ctx algorithm v.
Proof.
  unfold _lane_target. intros H. clean_steps. apply clean_identifier in Hc0 as [-> _].
  apply clean_integer in Hc2 as (z & -> & -> & _).
  destruct (dict_get (ctx_lane_versions ctx) _) as [current|] eqn:E; clean_steps.
  destruct (negb _) eqn:Hex in H; clean_steps. apply negb_decide_false in Hex.
  match goal with H : negb _ = false |- _ => apply negb_decide_false in H as [= ->] end.
  eexists _, _. split; [by by_field|]. split; [by by_field|]. done.
Qed.

#[export] Instance fork_grows v path ctx a c : Grows (_fork v path ctx a c).
Proof. unfold _fork, exact_keys. growing. Qed.

Lemma clean_fork v path ctx algorithm u :
  clean (_fork v path ctx algorithm (ctx_proposal_ranking_catalog_id ctx)) u ->
  holds "checkpoint_id" (both ctx (ctx_checkpoint_ids ctx)) v /\ holds "variants" (list_of 1 4 (variant_ok ctx algorithm)) v.
Proof.
  unfold _fork. intros H. clean_steps. apply clean_identifier in Hc0 as [-> _]. split.
  - by_field. destruct (negb _) eqn:E in Hc1; clean_steps. apply negb_decide_false in E, Hc1. by eexists.
  - by_field. destruct (list_within _ 1 4) as [l|] eqn:E; clean_steps.
    apply list_within_Some in E as [-> Hl]. exists l. split; [done|]. split; [done|].
    eapply clean_each; [..|exact H]; [unfold exact_keys; growing|]. intros [i w] Hw. cbn [fst snd] in *.
    apply clean_exactly in Hw as [Hk Hw]; [|growing..]. clean_steps. split; [done|].
    split; [by_field; by eapply clean_bounded_text|]. split; [by_field; by eapply clean_parameters|].
    by_field; by eapply clean_number.
Qed.

#[export] Instance admissible_grows d path name ids ctx : Grows (admissible d path name ids ctx).
Proof. unfold admissible. growing. Qed.

Lemma clean_admissible d path name ids ctx u :
  clean (admissible d path name ids ctx) u -> holds name (both ctx ids) (JObj d).
Proof.
  unfold admissible. intros H. clean_steps. apply in_set_Ok in Hc. subst x.
  destruct (negb _) eqn:E in H; clean_steps. apply in_set_Ok in Hc. subst x. apply negb_false_iff in E, H.
  apply in_tuple_one_of in E as (s & Hs & Hin), H as (s' & Hs' & Hin'). rewrite Hs in Hs'. injection Hs' as <-.
  unfold get in Hs. destruct (dict_get d name) as [w|] eqn:Ed; [|done]. cbn in Hs. subst w.
  exists d, (JStr s). split; [done|]. split; [done|]. by exists s.
Qed.

#[export] Instance restart_grows v path ctx : Grows (_restart v path ctx).
Proof. unfold _restart. growing. Qed.

Lemma clean_restart v path ctx u : clean (_restart v path ctx) u -> restart_ok ctx v.
Proof.
  unfold _restart. intros H. destruct v as [| | | | | |d].
  1-6: unfold exact_keys_within in H; clean_steps.
  apply clean_fields in H as [_ H]; [|growing..]. clean_steps.
  match goal with H : in_set _ _ = Ok _ |- _ => apply in_set_Ok in H; subst end.
  match goal with H : negb _ = false |- _ => apply negb_false_iff in H end.
  split; [by_field; by apply in_tuple_one_of|]. split; [by_field; by eapply integer_between|]. split.
  - intros Hs. same_field Hs. subst. cbn [is_text] in *.
    rewrite bool_decide_eq_true_2 in * by done. by eapply clean_admissible.
  - intros Hs. same_field Hs. subst. cbn [is_text] in *.
    rewrite bool_decide_eq_true_2 in * by done. by eapply clean_admissible.
Qed.

#[export] Instance allocation_one_grows ctx path s ia : Grows (allocation_one ctx path s ia).
Proof. unfold allocation_one, exact_keys. growing. Qed.
#[export] Instance allocations_grows v path ctx : Grows (_allocations v path ctx).
Proof. unfold _allocations. growing. Qed.

Lemma clean_allocation_one ctx path s ia s' : clean (allocation_one ctx path s ia) s' -> allocation_ok ctx ia.2.
Proof.
  unfold allocation_one. destruct ia as [i v], s as [seen total]. cbn [snd]. intros H.
  apply clean_exactly in H as [Hk H]; [|growing..]. clean_steps. split; [done|].
  split; [eexists; by eapply clean_lane_target|]. by_field; by eapply clean_number.
Qed.

(** A fold over the indexed items, without issues: a fact about each item *)
Lemma clean_fold_each {A S} (body : S -> Z * A -> V S) (P : A -> Prop) (l : list A) s s' :
  (forall s ix, Grows (body s ix)) -> (forall s ix s', clean (body s ix) s' -> P ix.2) ->
  clean (vfold body s (enumerate l)) s' -> Forall P l.
Proof.
  intros Hg HP. unfold enumerate. generalize 0. revert s. induction l as [|x l IH]; intros s i H; [constructor|].
  cbn [enumerate_from vfold] in H. clean_steps. constructor; [by apply HP in Hc|by eapply IH].
Qed.

Lemma clean_allocations v path ctx u : clean (_allocations v path ctx) u -> list_of 1 32 (allocation_ok ctx) v.
Proof.
  unfold _allocations. destruct (list_within v 1 32) as [l|] eqn:E; intros H; clean_steps.
  apply list_within_Some in E as [-> Hl]. exists l. split; [done|]. split; [done|].
  eapply clean_fold_each; [..|exact Hc]; [growing|]. intros s ia s'. apply clean_allocation_one.
Qed.

(** ** Actions *)

#[export] Instance action_body_grows ctx path t v : Grows (action_body ctx path t v).
Proof. unfold action_body. growing. Qed.
#[export] Instance action_common_grows ctx hs path v ids ks : Grows (action_common ctx hs path v ids ks).
Proof. unfold action_common, exact_keys. growing. Qed.
#[export] Instance validate_action_grows ctx hs b ia : Grows (validate_action ctx hs b ia).
Proof. unfold validate_action, exact_keys. growing. Qed.

(** Evaluate the decisions on literals *)
Ltac decide_literals H :=
  repeat match type of H with
  | context [bool_decide ?P] =>
      let b := eval vm_compute in (bool_decide P) in
      first [constr_eq b true | constr_eq b false]; change (bool_decide P) with b in H
  end; cbn iota in H.

Lemma clean_action_body ctx path t v starts : clean (action_body ctx path t v) starts -> body_ok ctx t v starts.
Proof.
  unfold action_body, body_ok. intros H. split_all; intros ->; decide_literals H; clean_steps.
  - split; [|done]. by_field. by eapply clean_start_lane.
  - eexists. split; [by eapply clean_lane_target|]. split; [by_field; by eapply clean_parameters|done].
  - apply clean_fork in Hc0 as [Hcheck Hv]. eexists. split; [by eapply clean_lane_target|]. split; [done|].
    same_field Hv. by_field. split; [done|]. destruct Hv as (l & -> & _). by exists l.
  - split; [eexists; by eapply clean_lane_target|]. split; [by_field; by eapply clean_restart|done].
  - split; [eexists; by eapply clean_lane_target|done].
  - split; [|done]. by_field. by eapply clean_allocations.
  - split; [|done]. by_field. by eapply clean_candidate.
  - match goal with H : negb _ = false |- _ => apply negb_false_iff, in_tuple_one_of in H end.
    split; [by by_field|]. split; [|done]. by_field. by eapply clean_id_list.
  - split; [by_field; by eapply clean_candidate_list|]. split; [|done]. by_field. by eapply integer_between.
  - split; [|done]. by_field. by eapply clean_review.
Qed.

(** What the checks common to all actions guarantee *)
Lemma clean_action_common ctx hs path v ids ks r :
  clean (action_common ctx hs path v ids ks) r ->
  let '(id, key) := r in
  (id ∉ ids /\ key ∉ ks) /\
  holds "action_id" (eq (JStr id)) v /\ identifier 1 id /\ id ∉ ctx_reserved_action_ids ctx /\
  holds "idempotency_key" (eq (JStr key)) v /\ identifier 8 key /\
  holds "priority" (int_between 0 100) v /\ holds "lease_seconds" (int_between 30 7200) v /\
  holds "rationale" (text_between 1 4000) v /\ holds "expected_effect" (text_between 1 2000) v /\
  holds "evidence_ids" (ids_within 0 32 (ctx_evidence_ids ctx)) v /\
  holds "hypothesis_ids" (ids_within 0 16 (ctx_hypothesis_ids ctx ++ hs)) v /\
  holds "evaluation_window" window_ok v /\
  holds "fallback" (fun f => exactly ["on_precondition_failure"]%string f /\
    holds "on_precondition_failure" (one_of ["reject"; "replan"]%string) f) v.
Proof.
  unfold action_common. intros H. clean_steps.
  repeat match goal with
  | H : bool_decide _ = false |- _ => apply bool_decide_eq_false in H
  | H : clean (_identifier _ _ _) _ |- _ => apply clean_identifier in H as [-> ?]
  end.
  split; [done|]. split; [by by_field|]. split; [done|]. split; [done|]. split; [by by_field|]. split; [done|].
  split; [by_field; by eapply integer_between|]. split; [by_field; by eapply integer_between|].
  split; [by_field; by eapply clean_bounded_text|]. split; [by_field; by eapply clean_bounded_text|].
  split; [by_field; by eapply clean_id_list|]. split; [by_field; by eapply clean_id_list|].
  split; [by_field; by eapply clean_evaluation_window|]. by_field.
  match goal with H : clean (exact_keys _ _ _) ?b, H' : clean (if negb ?b then _ else _) _ |- _ =>
    destruct b; [apply clean_exact_keys_within in H as Hk|by apply exact_keys_false in H] end.
  cbn [negb] in *. clean_steps. match goal with H : in_set _ _ = Ok _ |- _ => apply in_set_Ok in H; subst end.
  split; [|by_field; apply in_tuple_one_of; by apply negb_false_iff].
  destruct Hk as (d & -> & H1 & H2). exists d. split; [done|]. intros k. split; [apply H2|apply H1].
Qed.

Lemma clean_validate_action ctx hs b ia b' :
  clean (validate_action ctx hs b ia) b' ->
  exists id key starts, action_ok ctx hs ia.2 id key starts /\
    b' = mkBatch (action_ids b ++ [id]) (idempotency_keys b ++ [key]) (projected_starts b + starts) /\
    id ∉ action_ids b /\ key ∉ idempotency_keys b.
Proof.
  unfold validate_action. destruct ia as [i v]. cbn [snd]. intros H.
  destruct (type_of v) as [| | | |t| |] eqn:Ht; clean_steps.
  destruct (negb _) eqn:Hin in H; clean_steps. apply negb_decide_false in Hin.
  destruct (negb _) eqn:Happ in H; clean_steps. apply negb_decide_false in Happ.
  destruct (dict_get ACTION_FIELDS t) as [fields|] eqn:Hf; [|by apply clean_vlift in H].
  apply clean_exactly in H as [Hk H]; [|growing..]. clean_steps.
  apply clean_action_common in Hc. destruct x as [id key]. destruct Hc as ([Hni Hnk] & Hcommon).
  apply clean_action_body in Hc0. exists id, key, x0. split; [|done].
  exists t. split.
  { unfold type_of in Ht. destruct v as [| | | | | |d]; try done. unfold get in Ht.
    destruct (dict_get d "type") as [w|] eqn:Ew; [|done]. cbn in Ht. subst w. by exists d, (JStr t). }
  split; [done|]. split; [done|]. split; [by exists fields|].
  destruct Hcommon as (? & ? & ? & ? & ? & ? & ? & ? & ? & ? & ? & ? & ?). split_all; done.
Qed.

Lemma clean_actions ctx hs l i b b' :
  clean (vfold (validate_action ctx hs) b (enumerate_from i l)) b' ->
  NoDup (action_ids b) -> NoDup (idempotency_keys b) ->
  exists ids idem starts,
    action_ids b' = action_ids b ++ ids /\ idempotency_keys b' = idempotency_keys b ++ idem /\
    projected_starts b' = projected_starts b + foldr Z.add 0 starts /\
    NoDup (action_ids b') /\ NoDup (idempotency_keys b') /\
    length ids = length l /\ length idem = length l /\ length starts = length l /\
    forall j a, l !! j = Some a -> exists id key s,
      ids !! j = Some id /\ idem !! j = Some key /\ starts !! j = Some s /\ action_ok ctx hs a id key s.
Proof.
  revert i b. induction l as [|a l IH]; intros i b H Hi Hk.
  { cbn [enumerate_from vfold] in H. clean_steps. exists [], [], []. cbn. rewrite !app_nil_r, Z.add_0_r. by split_all. }
  cbn [enumerate_from vfold] in H. clean_steps. apply clean_validate_action in Hc as (id & key & s & Hok & -> & Hni & Hnk).
  apply IH in H; cbn [action_ids idempotency_keys projected_starts] in *.
  2, 3: apply NoDup_app; split_all; [done| |apply NoDup_singleton]; intros x Hx ->%list_elem_of_singleton; done.
  destruct H as (ids & idem & starts & -> & -> & -> & ? & ? & ? & ? & ? & Hall).
  exists (id :: ids), (key :: idem), (s :: starts). rewrite <- !app_assoc in *. cbn [length foldr].
  split_all; try done; try lia. intros [|j] a' Ha; cbn in Ha |- *; [|by apply Hall].
  injection Ha as <-. by exists id, key, s.
Qed.

(** ** Hypotheses *)

#[export] Instance hypothesis_one_grows ctx created iu : Grows (hypothesis_one ctx created iu).
Proof. unfold hypothesis_one, exact_keys. growing. Qed.
#[export] Instance validate_hypotheses_grows v ctx : Grows (_validate_hypotheses v ctx).
Proof. unfold _validate_hypotheses. growing. Qed.

Lemma is_text_eq v s : is_text v s = true -> v = JStr s.
Proof. unfold is_text. destruct v; try done. by intros ->%bool_decide_eq_true. Qed.

Lemma clean_hypothesis_one ctx created iu created' :
  clean (hypothesis_one ctx created iu) created' ->
  hypothesis_ok ctx iu.2 /\ forall h, h ∈ created' -> h ∈ created \/ creates iu.2 h.
Proof.
  unfold hypothesis_one. destruct iu as [i v]. cbn [snd]. intros H.
  apply clean_exactly in H as [Hk H]; [|growing..]. clean_steps.
  apply clean_identifier in Hc0 as [-> Hid].
  match goal with H : clean (vfor _ _) _ |- _ => apply clean_vfor in H as Hev; [|growing] end.
  apply Forall_cons in Hev as [Hfor Hev]. apply Forall_cons in Hev as [Hagainst _]. clean_steps.
  repeat match goal with H : negb _ = false |- _ => apply negb_false_iff in H end.
  assert ((holds "operation" (eq (JStr HYPOTHESIS_CREATE_OPERATION)) v /\ x0 ∉ ctx_hypothesis_ids ctx /\ x3 = created ++ [x0]) \/
          (holds "operation" (one_of HYPOTHESIS_EXISTING_OPERATIONS) v /\ x0 ∈ ctx_hypothesis_ids ctx /\ x3 = created)) as Hop.
  { clear Hc8 Hc9 Hc0 Hfor Hagainst. destruct (is_text x1 HYPOTHESIS_CREATE_OPERATION) eqn:Hcreate; clean_steps.
    - apply is_text_eq in Hcreate as ->. left. split; [by by_field|].
      match goal with H : _ || _ = false |- _ => apply orb_false_iff in H as [Hn _]; apply bool_decide_eq_false in Hn end. done.
    - right. apply in_tuple_one_of in Hc2 as (op & -> & Hop). apply elem_of_cons in Hop as [-> | Hop].
      { cbn in Hcreate. by apply bool_decide_eq_false in Hcreate. }
      split; [by_field; by exists op|]. split; [|done].
      match goal with H : _ && _ = false |- _ => apply andb_false_iff in H as [Hn|Hn]; [|by apply negb_decide_false in Hn] end.
      cbn in Hn. by apply bool_decide_eq_false in Hn. }
  split.
  - split; [done|]. split; [by_field; by eapply clean_bounded_text|]. split; [by_field; by eapply clean_number|].
    split; [by_field; by eapply clean_id_list|]. split; [by_field; by eapply clean_id_list|].
    exists x0. split; [done|]. split; [by by_field|].
    destruct Hop as [(? & ? & _)|(? & ? & _)]; [by left|by right].
  - intros h Hh. destruct Hop as [(Ho & _ & ->)|(_ & _ & ->)]; [|by left].
    apply elem_of_app in Hh as [? | ->%list_elem_of_singleton]; [by left|]. right. split; [done|]. by by_field.
Qed.

Lemma clean_hypotheses ctx l i created created' :
  clean (vfold (hypothesis_one ctx) created (enumerate_from i l)) created' ->
  Forall (hypothesis_ok ctx) l /\
  forall h, h ∈ created' -> h ∈ created \/ exists u, u ∈ l /\ creates u h.
Proof.
  revert i created. induction l as [|u l IH]; intros i created H; cbn [enumerate_from vfold] in H; clean_steps.
  { split; [constructor|]. by left. }
  apply clean_hypothesis_one in Hc as [Hu Hnew]. apply IH in H as [Hl Hrest]. cbn [snd] in *.
  split; [by constructor|]. intros h [Hh|(u' & Hu' & Hc)]%Hrest; [|right; exists u'; split; [by right|done]].
  apply Hnew in Hh as [?|?]; [by left|]. right. exists u. split; [by left|done].
Qed.

(** ** Decisions *)

#[export] Instance decision_body_grows v ctx : Grows (decision_body v ctx).
Proof. unfold decision_body. growing. Qed.

Lemma clean_decision_body v ctx u :
  exactly TOP_FIELDS v -> clean (decision_body v ctx) u -> decision_ok ctx v.
Proof.
  unfold decision_body. intros Hk H. clean_steps.
  repeat match goal with H : negb (is_text _ _) = false |- _ => apply negb_false_iff, is_text_eq in H; subst end.
  split; [done|]. split; [by by_field|]. split; [by by_field|]. split; [by_field; by eapply clean_bounded_text|].
  split; [by_field; by eapply clean_review|].
  match goal with H : clean (_validate_hypotheses _ _) ?hs |- _ => rename H into Hh, hs into new_hypotheses end.
  unfold _validate_hypotheses in Hh.
  destruct (list_within _ 0 32) as [updates|] eqn:Eu; clean_steps. apply list_within_Some in Eu as [-> Hlu].
  apply clean_hypotheses in Hh as [Hupd Hnew].
  match goal with H : clean (match list_within ?g 1 12 with _ => _ end) _ |- _ => rename H into Ha; rename g into given end.
  destruct (list_within given 1 12) as [actions|] eqn:Ea; clean_steps. apply list_within_Some in Ea as [-> Hla].
  match goal with H : clean (vfold (validate_action _ _) _ _) _ |- _ => apply clean_actions in H; [|apply NoDup_nil_2..] end.
  match goal with H : exists ids idem starts, _ |- _ =>
    destruct H as (ids & idem & starts & Hids & Hidem & Hst & Hn1 & Hn2 & Hl1 & Hl2 & Hl3 & Hall) end.
  cbn [action_ids idempotency_keys projected_starts app] in Hids, Hidem, Hst. rewrite Hids in Hn1. rewrite Hidem in Hn2.
  exists updates, actions, new_hypotheses, ids, idem, starts.
  split; [by by_field|]. split; [lia|]. split; [done|].
  split; [intros h [Hin|?]%Hnew; [by apply elem_of_nil in Hin|done]|].
  split; [by by_field|]. split; [done|]. split; [done|].
  split_all; try done. match goal with H : (_ <? _) = false |- _ => apply Z.ltb_ge in H; rewrite Hst in H; lia end.
Qed.


(** ** A decision that is accepted *)

Definition sample_context : DecisionContext :=
  mkContext "snapshot-1" ["evidence-1"]%string [("lane-1", 3)]%string [("lane-1", "simulated_annealing")]%string
    [] ["candidate-1"]%string [] 8 ["evidence-1"]%string ["lane-1"; "candidate-1"]%string ["lane-1"; "candidate-1"]%string
    ACTION_TYPES [] None.

Definition sample_action (id : string) (type_fields : list (string * json)) : json :=
  JObj (app (A:=string * json) [("action_id", JStr id); ("priority", JInt 50); ("hypothesis_ids", JList []);
    ("evidence_ids", texts ["evidence-1"]); ("rationale", JStr "because"); ("expected_effect", JStr "fewer cycles");
    ("evaluation_window", JObj [("max_wall_seconds", JInt 600); ("max_candidate_delta", JInt 1000)]);
    ("idempotency_key", JStr (id ++ "-idempotent")%string); ("lease_seconds", JInt 600);
    ("fallback", JObj [("on_precondition_failure", JStr "reject")])]%string type_fields).

Definition sample_decision (graph_family : json) : json :=
  JObj [("schema_version", JStr "1.0"); ("snapshot_id", JStr "snapshot-1");
    ("campaign_assessment", JStr "steady"); ("hypothesis_updates", JList []);
    ("actions", JList [
      sample_action "start-1" [("type", JStr "start_lane");
        ("spec", JObj [("algorithm", JStr "random_restart"); ("graph_family", graph_family); ("seed", JInt 7);
          ("parameters", JObj [("order", JInt 20); ("batch_candidates", JInt 1000); ("witness_cap", JInt 100);
                               ("proposal_ranking", JNull)]);
          ("resource_share", JFloat (f_ratio 1 4))])];
      sample_action "patch-1" [("type", JStr "patch_lane"); ("lane_id", JStr "lane-1");
        ("expected_lane_version", JInt 3);
        ("patch", JObj [("cooling", JFloat (f_ratio 95 100));
                        ("mutation_weights", JObj [("uniform_two_edge_switch", JInt 1); ("forbidden_cycle_break_switch", JInt 3)])])]]);
    ("next_review", JObj [("min_wall_seconds", JInt 60); ("max_wall_seconds", JInt 600);
      ("candidate_delta", JInt 1000); ("events", texts ["stagnation"])])]%string.


(** A graph family that is a list has no hash: the validator raises and does
    not report an issue. *)
Example unhashable_family_decision :
  validate_decision (sample_decision (JList [])) sample_context = Raise TypeError.
Proof. vm_compute. reflexivity. Qed.

(** So does a share too large for a float. *)
Example huge_share_raises :
  _number (JInt (10 ^ 400)) "$.share" (IntBound 0) (IntBound 1) true [] = Raise OverflowError.
Proof. vm_compute. reflexivity. Qed.

(** With the right keys the check passes and leaves the issues alone. *)
Lemma exact_keys_pass names v path issues : exactly names v -> exact_keys v path names issues = Ok (true, issues).
Proof.
  intros (d & -> & Hd). unfold exact_keys, exact_keys_within.
  rewrite (filter_none (fun key => key ∉ keys d) names) by (intros k Hk Hn; by apply Hn, Hd).
  rewrite (filter_none (fun key => key ∉ names) (keys d)) by (intros k Hk Hn; by apply Hn, Hd). done.
Qed.

(** A start action with exactly the right keys
    whose graph family is a list or an object does not get an issue: the
    membership test hashes the value, and the validator leaves with a
    [TypeError], whatever the other fields hold. *)
Theorem unhashable_family_raises spec path ctx issues :
  exactly ["algorithm"; "graph_family"; "seed"; "parameters"; "resource_share"]%string spec ->
  holds "graph_family" (fun f => in_set f (GRAPH_FAMILIES.*1) = Raise TypeError) spec ->
  _start_lane spec path ctx issues = Raise TypeError.
Proof.
  intros Hk (d & w & -> & Hw & Hraise). unfold _start_lane. unfold mbind at 1, V_bind at 1.
  rewrite exact_keys_pass by done. cbn [negb].
  assert (is_Some (dict_get d "algorithm")) as [a Ha].
  { destruct Hk as (d' & [= <-] & Hd). apply keys_get, Hd. by left. }
  unfold item, subscript. rewrite Ha, Hw.
  unfold mbind, V_bind, vlift, mret, V_ret.
  destruct a as [| | | |s| |]; try (destruct (bool_decide (s ∈ ALGORITHMS))); cbn -[in_set GRAPH_FAMILIES]; by rewrite Hraise.
Qed.

Lemma unhashable_family_raises_witness :
  _start_lane (JObj [("algorithm", JStr "random_restart"); ("graph_family", JList []); ("seed", JInt 7);
    ("parameters", JObj []); ("resource_share", JInt 1)])%string "$.spec" sample_context [] = Raise TypeError.
Proof.
  apply unhashable_family_raises.
  - eexists. split; [done|]. intros k. cbn. tauto.
  - eexists _, _. split; [done|]. split; [done|]. done.
Defined.
