(* ===== verification/Aliases.v ===== *)
(** * Model-facing aliases

    [src/src/sglab/research/validation.py], [resolve_decision_aliases]: the
    decision a model returns names lanes, candidates and evidence by per-turn
    aliases; this pass replaces them by durable ids and reports every alias
    that is unknown, has the wrong role, or is a durable id sent raw. The code
    edits a deep copy in place; here each edit is an update of the value. *)

From S2P Require Import Prelude Floats Json Catalog Validation Accepted.

#[global] Open Scope Z_scope.

Definition Lookup : Type := list (string * (string * string)).

(** The dict built from the registry's entries: alias to durable id and role *)
Definition add_entry (lookup : Lookup) (entry : json) : Lookup :=
  match entry with
  | JObj d =>
      match get d "alias", get d "durable_id", get d "kind" with
      | JStr alias, JStr durable_id, JStr kind => dict_set lookup alias (durable_id, kind)
      | _, _, _ => lookup
      end
  | _ => lookup
  end.
Definition build_lookup (alias_registry : list (string * json)) : Lookup :=
  match default (JList []) (dict_get alias_registry "aliases") with
  | JList entries => foldl add_entry [] entries
  | _ => []
  end.

Definition durable_prefixes : list string :=
  ["candidate-"; "checkpoint-"; "lane-"; "hyp-"; "snapshot-"; "campaign-"; "execution-attempt-";
   "thread-"; "app-turn-"; "decision-batch-"]%string.

Definition is_hex_char (a : Ascii.ascii) : bool := is_digit a || ((97 <=? code a) && (code a <=? 102)).

Definition raw_durable (s : string) : bool :=
  existsb (startswith s) durable_prefixes || ((len s =? 64) && all_chars is_hex_char s).

Definition resolve (lookup : Lookup) (raw : json) (path : string) (expected_kinds : list string) : V json :=
  match raw with
  | JStr s =>
      match dict_get lookup s with
      | Some (durable_id, kind) =>
          if negb (bool_decide (kind ∈ expected_kinds)) then
            add path ("alias " ++ s ++ " has role " ++ kind ++ ", expected " ++ join "," (sorted_strings expected_kinds))%string ;;;
            mret raw
          else mret (JStr durable_id)
      | None =>
          (if MODEL_ALIAS_fullmatch s then add path ("unknown or stale alias " ++ s)%string
           else when (raw_durable s) (add path "raw durable ID is not accepted; use a per-turn alias")) ;;;
          mret raw
      end
  | _ => mret raw
  end.

(** A comprehension whose items are resolved in order *)
Fixpoint vmap {A B} (f : A -> V B) (l : list A) : V (list B) :=
  match l with
  | [] => mret []
  | x :: l' => y ← f x; ys ← vmap f l'; mret (y :: ys)
  end.

Definition resolve_items (lookup : Lookup) (values : list json) (path : string) (kinds : list string) : V (list json) :=
  vmap (fun iv => resolve lookup iv.2 (at_index path iv.1) kinds) (enumerate values).

Definition Fields : Type := list (string * json).

(** [d[name] = resolve(d.get(name), path.name, kinds)] *)
Definition resolve_field (lookup : Lookup) (path : string) (kinds : list string) (d : Fields) (name : string) : V Fields :=
  v ← resolve lookup (get d name) (dot path name) kinds; mret (dict_set d name v).

(** [if isinstance(d.get(name), list): d[name] = [...]] *)
Definition resolve_list_field (lookup : Lookup) (path : string) (kinds : list string) (d : Fields) (name : string) : V Fields :=
  match get d name with
  | JList values => vs ← resolve_items lookup values (dot path name) kinds; mret (dict_set d name (JList vs))
  | _ => mret d
  end.

Definition resolve_update (lookup : Lookup) (iu : Z * json) : V json :=
  let '(index, u) := iu in
  match u with
  | JObj d =>
      let path := at_index "$.hypothesis_updates" index in
      d ← (if is_text (get d "operation") HYPOTHESIS_CREATE_OPERATION then
             when (match get d "hypothesis_id" with JStr s => MODEL_ALIAS_fullmatch s | _ => false end)
               (add (dot path "hypothesis_id") "aliases cannot be used to create a hypothesis") ;;;
             mret d
           else resolve_field lookup path ["hypothesis"]%string d "hypothesis_id");
      d ← vfold (resolve_list_field lookup path ["evidence"]%string) d ["evidence_for"; "evidence_against"]%string;
      mret (JObj d)
  | _ => mret u
  end.

Definition resolve_allocation (lookup : Lookup) (path : string) (ia : Z * json) : V json :=
  match ia.2 with
  | JObj d => d ← resolve_field lookup (at_index (dot path "allocations") ia.1) ["lane"]%string d "lane_id"; mret (JObj d)
  | v => mret v
  end.

(** The restart source: absent or null ids stay null. *)
Definition resolve_restart (lookup : Lookup) (path : string) (d : Fields) : V Fields :=
  match get d "restart_spec" with
  | JObj spec =>
      let here := dot path "restart_spec" in
      spec ← resolve_field lookup here ["checkpoint"]%string spec "checkpoint_id";
      spec ← resolve_field lookup here ["candidate"]%string spec "candidate_id";
      mret (dict_set d "restart_spec" (JObj spec))
  | _ => mret d
  end.

Definition resolve_action (lookup : Lookup) (ia : Z * json) : V json :=
  let '(index, action) := ia in
  match action with
  | JObj d =>
      let path := at_index "$.actions" index in
      d ← resolve_list_field lookup path ["hypothesis"]%string d "hypothesis_ids";
      d ← resolve_list_field lookup path ["evidence"]%string d "evidence_ids";
      let t := get d "type" in
      lane_action ← vlift (in_set t ["patch_lane"; "fork_lane"; "restart_lane"; "stop_lane"]%string);
      d ← (if lane_action : bool then resolve_field lookup path ["lane"]%string d "lane_id"
           else if is_text t "reallocate_resources" then
             match get d "allocations" with
             | JList l => l' ← vmap (resolve_allocation lookup path) (enumerate l); mret (dict_set d "allocations" (JList l'))
             | _ => mret d
             end
           else mret d);
      d ← (if is_text t "fork_lane" then resolve_field lookup path ["checkpoint"]%string d "checkpoint_id"
           else if is_text t "restart_lane" then resolve_restart lookup path d
           else if is_text t "promote_candidate" then resolve_field lookup path ["candidate"]%string d "candidate_id"
           else if is_text t "schedule_verification" then resolve_list_field lookup path ["candidate"]%string d "candidate_ids"
           else if is_text t "request_diagnostic" then resolve_list_field lookup path ["lane"; "candidate"]%string d "subject_ids"
           else mret d);
      mret (JObj d)
  | _ => mret action
  end.

(** [if isinstance(d.get(name), list)]: resolve the items in place *)
Definition resolve_entries (body : Z * json -> V json) (name : string) (d : Fields) : V Fields :=
  match get d name with
  | JList l => l' ← vmap body (enumerate l); mret (dict_set d name (JList l'))
  | _ => mret d
  end.

Definition resolve_decision_aliases (value : json) (alias_registry : list (string * json))
  : res (json * list ValidationIssue) :=
  match value with
  | JObj d =>
      let lookup := build_lookup alias_registry in
      (d ← resolve_field lookup "$" ["snapshot"]%string d "snapshot_id";
       d ← resolve_entries (resolve_update lookup) "hypothesis_updates" d;
       d ← resolve_entries (resolve_action lookup) "actions" d;
       mret (JObj d)) []
  | _ => Ok (value, [mkIssue "$" "must be an object"])
  end.

(** ** What a resolved decision refers to *)

(** A reference that is resolved: a durable id with an expected role, or a
    string that is neither an alias nor a durable id sent raw. Values that are
    not strings are left to the validator. *)
Definition resolved (lookup : Lookup) (kinds : list string) (v : json) : Prop :=
  match v with
  | JStr s =>
      (exists alias kind, dict_get lookup alias = Some (s, kind) /\ kind ∈ kinds) \/
      (dict_get lookup s = None /\ MODEL_ALIAS_fullmatch s = false /\ raw_durable s = false)
  | _ => True
  end.

(** The field, if the object has it, has the property. *)
Definition field_all (name : string) (P : json -> Prop) (v : json) : Prop :=
  match v with JObj d => P (get d name) | _ => True end.
Definition items_all (P : json -> Prop) (v : json) : Prop :=
  match v with JList l => Forall P l | _ => True end.

Definition update_resolved (lookup : Lookup) (u : json) : Prop :=
  (field_all "operation" (fun o => is_text o HYPOTHESIS_CREATE_OPERATION = false) u ->
   field_all "hypothesis_id" (resolved lookup ["hypothesis"]) u)%string /\
  field_all "evidence_for" (items_all (resolved lookup ["evidence"])) u /\
  field_all "evidence_against" (items_all (resolved lookup ["evidence"])) u.

Definition has_type (words : list string) (v : json) : Prop := in_tuple (type_of v) words = true.

(** Every position of an action that names something *)
Definition action_resolved (lookup : Lookup) (a : json) : Prop :=
  field_all "hypothesis_ids" (items_all (resolved lookup ["hypothesis"])) a /\
  field_all "evidence_ids" (items_all (resolved lookup ["evidence"])) a /\
  (has_type ["patch_lane"; "fork_lane"; "restart_lane"; "stop_lane"] a ->
     field_all "lane_id" (resolved lookup ["lane"]) a) /\
  (has_type ["reallocate_resources"] a ->
     field_all "allocations" (items_all (field_all "lane_id" (resolved lookup ["lane"]))) a) /\
  (has_type ["fork_lane"] a -> field_all "checkpoint_id" (resolved lookup ["checkpoint"]) a) /\
  (has_type ["restart_lane"] a ->
     field_all "restart_spec" (field_all "checkpoint_id" (resolved lookup ["checkpoint"])) a /\
     field_all "restart_spec" (field_all "candidate_id" (resolved lookup ["candidate"])) a) /\
  (has_type ["promote_candidate"] a -> field_all "candidate_id" (resolved lookup ["candidate"]) a) /\
  (has_type ["schedule_verification"] a -> field_all "candidate_ids" (items_all (resolved lookup ["candidate"])) a) /\
  (has_type ["request_diagnostic"] a -> field_all "subject_ids" (items_all (resolved lookup ["lane"; "candidate"])) a).

Definition decision_resolved (lookup : Lookup) (v : json) : Prop :=
  field_all "snapshot_id" (resolved lookup ["snapshot"]%string) v /\
  field_all "hypothesis_updates" (items_all (update_resolved lookup)) v /\
  field_all "actions" (items_all (action_resolved lookup)) v.

(** ** Lemmas *)

Lemma get_set d name v name' : get (dict_set d name v) name' = if decide (name' = name) then v else get d name'.
Proof. unfold get. rewrite dict_get_set. by case_decide. Qed.

Lemma get_set_eq d name v : get (dict_set d name v) name = v.
Proof. rewrite get_set. by case_decide. Qed.

(** Only the field may have changed. *)
Definition only (name : string) (d d' : Fields) : Prop := forall n, n <> name -> get d' n = get d n.

Lemma only_set name d v : only name d (dict_set d name v).
Proof. intros n Hn. rewrite get_set. by case_decide. Qed.
Lemma only_refl name d : only name d d.
Proof. by intros n _. Qed.

#[export] Instance resolve_grows lookup raw path kinds : Grows (resolve lookup raw path kinds).
Proof. unfold resolve. growing. Qed.

Lemma clean_resolve lookup raw path kinds v : clean (resolve lookup raw path kinds) v -> resolved lookup kinds v.
Proof.
  unfold resolve. intros H. destruct raw as [| | | |s| |]; clean_steps; try done.
  destruct (dict_get lookup s) as [[durable kind]|] eqn:E.
  - destruct (negb _) eqn:Hk in H; clean_steps. apply negb_decide_false in Hk. left. by exists s, kind.
  - clean_steps. right. destruct (MODEL_ALIAS_fullmatch s) eqn:Ha; clean_steps. done.
Qed.

#[export] Instance vmap_grows {A B} (f : A -> V B) l : (forall x, Grows (f x)) -> Grows (vmap f l).
Proof. intros Hf. induction l as [|x l IH]; cbn [vmap]; growing. Qed.

Lemma clean_vmap {A B} (f : A -> V B) (P : B -> Prop) l ys :
  (forall x, Grows (f x)) -> (forall x y, clean (f x) y -> P y) -> clean (vmap f l) ys -> Forall P ys.
Proof.
  intros Hf HP. revert ys. induction l as [|x l IH]; intros ys H; cbn [vmap] in H; clean_steps; [constructor|].
  constructor; [by eapply HP|by apply IH].
Qed.

#[export] Instance resolve_items_grows lookup l path kinds : Grows (resolve_items lookup l path kinds).
Proof. unfold resolve_items. growing. Qed.
#[export] Instance resolve_field_grows lookup path kinds d name : Grows (resolve_field lookup path kinds d name).
Proof. unfold resolve_field. growing. Qed.
#[export] Instance resolve_list_field_grows lookup path kinds d name : Grows (resolve_list_field lookup path kinds d name).
Proof. unfold resolve_list_field. growing. Qed.

Lemma clean_resolve_field lookup path kinds d name d' :
  clean (resolve_field lookup path kinds d name) d' -> resolved lookup kinds (get d' name) /\ only name d d'.
Proof.
  unfold resolve_field. intros H. clean_steps. rewrite get_set_eq. split; [by eapply clean_resolve|apply only_set].
Qed.

Lemma clean_resolve_list_field lookup path kinds d name d' :
  clean (resolve_list_field lookup path kinds d name) d' ->
  items_all (resolved lookup kinds) (get d' name) /\ only name d d'.
Proof.
  unfold resolve_list_field, resolve_items. intros H. destruct (get d name) as [| | | | |l|] eqn:E; clean_steps;
    [split; [by rewrite E|apply only_refl]..| |split; [by rewrite E|apply only_refl]].
  rewrite get_set_eq. split; [|apply only_set]. eapply clean_vmap; [..|exact Hc]; [growing|].
  intros iv y. apply clean_resolve.
Qed.

#[export] Instance resolve_entries_grows body name d : (forall x, Grows (body x)) -> Grows (resolve_entries body name d).
Proof. intros. unfold resolve_entries. growing. Qed.

Lemma clean_resolve_entries body (P : json -> Prop) name d d' :
  (forall x, Grows (body x)) -> (forall x y, clean (body x) y -> P y) ->
  clean (resolve_entries body name d) d' -> items_all P (get d' name) /\ only name d d'.
Proof.
  unfold resolve_entries. intros Hg HP H. destruct (get d name) as [| | | | |l|] eqn:E; clean_steps;
    [split; [by rewrite E|apply only_refl]..| |split; [by rewrite E|apply only_refl]].
  rewrite get_set_eq. split; [|apply only_set]. by eapply clean_vmap.
Qed.

#[export] Instance resolve_update_grows lookup iu : Grows (resolve_update lookup iu).
Proof. unfold resolve_update. growing. Qed.

Lemma clean_resolve_update lookup iu v : clean (resolve_update lookup iu) v -> update_resolved lookup v.
Proof.
  unfold resolve_update. destruct iu as [i u]. intros H. destruct u as [| | | | | |d]; clean_steps; [by split_all..|].
  cbn [vfold] in Hc0. clean_steps. apply clean_resolve_list_field in Hc1 as [Hfor Hof], Hc2 as [Hag Hoa].
  cbn [field_all]. split; [|split; [|done]].
  - cbn. intros Hop. rewrite Hoa, Hof in Hop |- * by done.
    destruct (is_text (get d "operation") HYPOTHESIS_CREATE_OPERATION) eqn:E; clean_steps; [congruence|].
    by apply clean_resolve_field in Hc as [? _].
  - cbn; by rewrite Hoa.
Qed.

#[export] Instance resolve_allocation_grows lookup path ia : Grows (resolve_allocation lookup path ia).
Proof. unfold resolve_allocation. growing. Qed.

Lemma clean_resolve_allocation lookup path ia v :
  clean (resolve_allocation lookup path ia) v -> field_all "lane_id" (resolved lookup ["lane"]%string) v.
Proof.
  unfold resolve_allocation. intros H. destruct (ia.2); clean_steps; try done. cbn. by apply clean_resolve_field in Hc as [? _].
Qed.

#[export] Instance resolve_restart_grows lookup path d : Grows (resolve_restart lookup path d).
Proof. unfold resolve_restart. growing. Qed.

Lemma clean_resolve_restart lookup path d d' :
  clean (resolve_restart lookup path d) d' ->
  (field_all "checkpoint_id" (resolved lookup ["checkpoint"]%string) (get d' "restart_spec") /\
   field_all "candidate_id" (resolved lookup ["candidate"]%string) (get d' "restart_spec")) /\
  only "restart_spec" d d'.
Proof.
  unfold resolve_restart. intros H. destruct (get d "restart_spec") as [| | | | | |spec] eqn:E; clean_steps;
    [split; [by rewrite E|apply only_refl]..|].
  apply clean_resolve_field in Hc as [Hch _], Hc0 as [Hca Ho]. rewrite get_set_eq. split; [|apply only_set].
  cbn. split; [by rewrite Ho|done].
Qed.

#[export] Instance resolve_action_grows lookup ia : Grows (resolve_action lookup ia).
Proof. unfold resolve_action. growing. Qed.

Lemma only_get (names : list string) d d' name : only name d d' -> name ∉ names -> forall n, n ∈ names -> get d' n = get d n.
Proof. intros Ho Hn n Hin. apply Ho. by intros ->. Qed.

(** The positions that depend on the type, after the lane step and after the
    last step *)
Lemma clean_lane_step lookup path d d' t lane_action :
  lane_action = in_tuple t ["patch_lane"; "fork_lane"; "restart_lane"; "stop_lane"]%string ->
  clean (if lane_action : bool then resolve_field lookup path ["lane"]%string d "lane_id"
         else if is_text t "reallocate_resources" then
           match get d "allocations" with
           | JList l => l' ← vmap (resolve_allocation lookup path) (enumerate l); mret (dict_set d "allocations" (JList l'))
           | _ => mret d
           end
         else mret d) d' ->
  (lane_action = true -> resolved lookup ["lane"]%string (get d' "lane_id")) /\
  (is_text t "reallocate_resources" = true ->
     items_all (field_all "lane_id" (resolved lookup ["lane"]%string)) (get d' "allocations")) /\
  forall n, n <> "lane_id"%string -> n <> "allocations"%string -> get d' n = get d n.
Proof.
  intros -> H. destruct (in_tuple t _) eqn:El.
  - apply clean_resolve_field in H as [H Ho]. split_all; [done| |auto].
    intros Ht. apply is_text_eq in Ht as ->. by vm_compute in El.
  - split; [done|]. destruct (is_text t "reallocate_resources") eqn:Er; clean_steps; [|done].
    assert (clean (resolve_entries (resolve_allocation lookup path) "allocations" d) d') as He by exact H.
    apply (clean_resolve_entries _ (field_all "lane_id" (resolved lookup ["lane"]%string))) in He as [Hi Ho];
      [split; [done|auto]|growing|apply clean_resolve_allocation].
Qed.

Lemma clean_last_step lookup path d d' t :
  clean (if is_text t "fork_lane" then resolve_field lookup path ["checkpoint"]%string d "checkpoint_id"
         else if is_text t "restart_lane" then resolve_restart lookup path d
         else if is_text t "promote_candidate" then resolve_field lookup path ["candidate"]%string d "candidate_id"
         else if is_text t "schedule_verification" then resolve_list_field lookup path ["candidate"]%string d "candidate_ids"
         else if is_text t "request_diagnostic" then resolve_list_field lookup path ["lane"; "candidate"]%string d "subject_ids"
         else mret d) d' ->
  (t = JStr "fork_lane" -> resolved lookup ["checkpoint"] (get d' "checkpoint_id"))%string /\
  (t = JStr "restart_lane" -> field_all "checkpoint_id" (resolved lookup ["checkpoint"]) (get d' "restart_spec") /\
     field_all "candidate_id" (resolved lookup ["candidate"]) (get d' "restart_spec"))%string /\
  (t = JStr "promote_candidate" -> resolved lookup ["candidate"] (get d' "candidate_id"))%string /\
  (t = JStr "schedule_verification" -> items_all (resolved lookup ["candidate"]) (get d' "candidate_ids"))%string /\
  (t = JStr "request_diagnostic" -> items_all (resolved lookup ["lane"; "candidate"]) (get d' "subject_ids"))%string /\
  forall n, n ∈ ["type"; "hypothesis_ids"; "evidence_ids"; "lane_id"; "allocations"]%string -> get d' n = get d n.
Proof.
  intros H.
  assert (forall name, only name d d' -> name ∉ ["type"; "hypothesis_ids"; "evidence_ids"; "lane_id"; "allocations"]%string ->
    forall n, n ∈ ["type"; "hypothesis_ids"; "evidence_ids"; "lane_id"; "allocations"]%string -> get d' n = get d n) as Honly
    by (intros name Ho Hn; by eapply only_get).
  assert (forall name, bool_decide (name ∉ ["type"; "hypothesis_ids"; "evidence_ids"; "lane_id"; "allocations"]%string) = true ->
    only name d d' -> forall n, n ∈ ["type"; "hypothesis_ids"; "evidence_ids"; "lane_id"; "allocations"]%string -> get d' n = get d n) as Hkeep
    by (intros name Hn%bool_decide_eq_true Ho; by eapply Honly).
  repeat match type of H with
  | clean (if is_text t ?w then _ else _) _ =>
      let E := fresh "E" in destruct (is_text t w) eqn:E;
      [apply is_text_eq in E as ->;
       first [apply clean_resolve_field in H as [H Ho] | apply clean_resolve_list_field in H as [H Ho]
             | apply clean_resolve_restart in H as [H Ho]];
       split_all; try done; by eapply Hkeep; [vm_compute|exact Ho]|]
  end.
  clean_steps. split_all; try done; intros ->; by vm_compute in *.
Qed.

Lemma has_type_text w d : has_type [w] (JObj d) -> get d "type" = JStr w.
Proof.
  unfold has_type, in_tuple. cbn [type_of]. destruct (get d "type"); try done.
  intros ->%bool_decide_eq_true%list_elem_of_singleton. done.
Qed.

Lemma clean_resolve_action lookup ia v : clean (resolve_action lookup ia) v -> action_resolved lookup v.
Proof.
  unfold resolve_action. destruct ia as [i a]. intros H. destruct a as [| | | | | |d]; clean_steps; [by split_all..|].
  apply clean_resolve_list_field in Hc as [Hhyp Hoh], Hc0 as [Hev Hoe]. apply in_set_Ok in Hc1.
  apply clean_lane_step in Hc2 as (Hlane & Halloc & Hkeep); [|done].
  apply clean_last_step in Hc3 as (Hfork & Hrestart & Hpromote & Hverify & Hdiag & Hsame).
  match type of Hsame with forall n, _ -> get ?d4 n = get ?d3 n => rename d4 into last, d3 into mid end.
  assert (get last "type" = get mid "type") as Ht by (apply Hsame; by left).
  assert (get mid "type" = get x0 "type") as Ht' by (by apply Hkeep).
  assert (forall w, has_type [w] (JObj last) -> get x0 "type" = JStr w) as Htype.
  { intros w Hw%has_type_text. by rewrite <- Ht', <- Ht. }
  split; [cbn; rewrite Hsame by set_solver; by rewrite Hkeep, Hoe|].
  split; [cbn; rewrite Hsame by set_solver; by rewrite Hkeep|].
  split; [intros Hw; cbn; rewrite Hsame by set_solver; apply Hlane; unfold has_type in Hw; cbn [type_of] in Hw;
          rewrite Ht, Ht' in Hw; by rewrite Hc1|].
  split; [intros Hw%Htype; cbn; rewrite Hsame by set_solver; apply Halloc; rewrite Hw; by vm_compute|].
  split; [intros Hw%Htype; by apply Hfork|]. split; [intros Hw%Htype; by apply Hrestart|].
  split; [intros Hw%Htype; by apply Hpromote|]. split; [intros Hw%Htype; by apply Hverify|].
  intros Hw%Htype. by apply Hdiag.
Qed.


(** A registry of a lane, a checkpoint and a piece of evidence *)
Definition sample_registry : list (string * json) :=
  [("aliases", JList [
     JObj [("alias", JStr "S1"); ("durable_id", JStr "snapshot-1"); ("kind", JStr "snapshot")];
     JObj [("alias", JStr "L1"); ("durable_id", JStr "lane-1"); ("kind", JStr "lane")];
     JObj [("alias", JStr "E1"); ("durable_id", JStr "evidence-1"); ("kind", JStr "evidence")];
     JObj [("alias", JNull)]])]%string.

Definition aliased_decision (lane : string) : json :=
  JObj [("snapshot_id", JStr "S1");
        ("actions", JList [JObj [("type", JStr "stop_lane"); ("lane_id", JStr lane); ("evidence_ids", texts ["E1"])]])]%string.


(** A stale alias, an alias of the wrong role and a raw durable id are all
    reported. *)
Example alias_issues :
  (fun lane => match resolve_decision_aliases (aliased_decision lane) sample_registry with
               | Ok (_, issues) => length issues
               | Raise _ => 0%nat
               end) <$> ["L1"; "L2"; "E1"; "lane-1"]%string = [0; 1; 1; 1]%nat.
Proof. vm_compute. reflexivity. Qed.
