(* ===== verification/Triggers.v ===== *)
(** * Review triggers

    [src/src/sglab/research/triggers.py]: the engine that decides when the
    model is asked for a new decision. Events are coalesced into a pending set;
    critical events bypass the debounce and the minimum interval. The clocks
    [monotonic] and [utc_now] are arguments; a Python set of reasons is a list
    without duplicates, only its members and its sorted order are used. An
    operation that raises keeps the changes it made before, so the operations
    run in a state monad whose state survives an exception. *)

From Stdlib Require Import Sorting.Sorted.
From S2P Require Import Prelude Floats Json Convert Catalog.

#[global] Open Scope Z_scope.

Definition INTERNAL_REASONS : list string :=
  ["bootstrap"; "candidate_delta_reached"; "maximum_review_interval"; "recovery"; "stale_action_replan"]%string.
Definition CRITICAL_REASONS : list string :=
  ["verification_result"; "verifier_disagreement"; "lane_failure"; "resource_pressure"]%string.
Definition IMMEDIATE_REASONS : list string :=
  CRITICAL_REASONS ++ ["bootstrap"; "maximum_review_interval"; "recovery"]%string.
Definition MANDATORY_EVENTS : list string := CRITICAL_REASONS ++ ["action_lease_expired"]%string.

Record TriggerBatch := mkTriggerBatch { reasons : list string; first_event_at : string }.

(** [_lane_summaries]: best scalar and operator yield of a lane *)
Record Summary := mkSummary { best_scalar : float; operator_yield : float }.

Record TriggerEngine := mkEngine {
  debounce_seconds : float;
  min_review_seconds : float;
  max_review_seconds : float;
  candidate_delta : Z;
  enabled_events : list string;
  pending : list string;
  first_at : option string;
  first_monotonic : option float;
  last_review_monotonic : float;
  last_review_candidates : Z;
  lane_summaries : list (string * Summary)
}.

(** The constructor, at the clock reading [now] *)
Definition new_engine (debounce min_review max_review : float) (delta : Z) (now : float) : res TriggerEngine :=
  raise_if (f_lt debounce (f_lit 0)) (ValueError "debounce_seconds cannot be negative") ;;;
  raise_if (negb (f_le (f_lit 0) min_review && f_le min_review max_review)) (ValueError "invalid review interval") ;;;
  raise_if (delta <? 1) (ValueError "candidate_delta must be positive") ;;;
  Ok (mkEngine debounce min_review max_review delta REVIEW_EVENTS [] None None now 0 []).

Definition with_pending (e : TriggerEngine) (p : list string) (at_ : option string) (first : option float) : TriggerEngine :=
  mkEngine (debounce_seconds e) (min_review_seconds e) (max_review_seconds e) (candidate_delta e)
    (enabled_events e) p at_ first (last_review_monotonic e) (last_review_candidates e) (lane_summaries e).
Definition with_summary (e : TriggerEngine) (lane : string) (s : Summary) : TriggerEngine :=
  mkEngine (debounce_seconds e) (min_review_seconds e) (max_review_seconds e) (candidate_delta e)
    (enabled_events e) (pending e) (first_at e) (first_monotonic e) (last_review_monotonic e) (last_review_candidates e)
    (dict_set (lane_summaries e) lane s).

Definition set_insert (s : list string) (x : string) : list string := if bool_decide (x ∈ s) then s else s ++ [x].

(** [at or utc_now()] *)
Definition or_now (at_ : option string) (utc : string) : string :=
  match at_ with Some EmptyString | None => utc | Some s => s end.

(** ** Operations on an engine: the state is kept when an exception is raised *)

Definition T (A : Type) : Type := TriggerEngine -> res A * TriggerEngine.

#[export] Instance T_ret : MRet T := fun A a e => (Ok a, e).
#[export] Instance T_bind : MBind T := fun A B f m e =>
  match m e with (Ok a, e') => f a e' | (Raise x, e') => (Raise x, e') end.

Definition from_res {A} (r : res A) : T A := fun e => (r, e).
Definition self : T TriggerEngine := fun e => (Ok e, e).
Definition put (e : TriggerEngine) : T unit := fun _ => (Ok tt, e).
Definition set_summary (lane : string) (s : Summary) : T unit := fun e => (Ok tt, with_summary e lane s).

(** [offer]; [current] is [now] or the clock *)
Definition offer (reason : string) (at_ : option string) (utc : string) (current : float) : T bool :=
  from_res (raise_if (negb (bool_decide (reason ∈ REVIEW_EVENTS)) && negb (bool_decide (reason ∈ INTERNAL_REASONS)))
    (ValueError ("unsupported Director trigger: " ++ reason)%string)) ;;;
  e ← self;
  if bool_decide (reason ∈ REVIEW_EVENTS) && negb (bool_decide (reason ∈ enabled_events e)) then mret false
  else
    let '(at_', first) := match pending e with
                          | [] => (Some (or_now at_ utc), Some current)
                          | _ => (first_at e, first_monotonic e)
                          end in
    put (with_pending e (set_insert (pending e) reason) at_' first) ;;;
    mret true.

(** What [utc_now] and [monotonic] return at one moment *)
Record Reading := mkReading { utc_now : string; monotonic : float }.

(** [offer], when the condition holds *)
Definition offer_when (c : bool) (reason : string) (at_ : res (option string)) (utc : string) (current : float) : T unit :=
  if c then t ← from_res at_; _ ← offer reason t utc current; mret tt else mret tt.

(** ** [observe_lane_event]

    [float] also reads text; the reading is a parameter. *)

Section Events.
Variable parse_float : string -> res float.

(** [metrics.get], for a value that may not be a dict *)
Definition as_dict (v : json) : res (list (string * json)) :=
  match v with JObj d => Ok d | _ => Raise AttributeError end.

(** [str(event.get("at") or utc_now())] *)
Definition event_at (event : list (string * json)) (utc : string) : res (option string) :=
  let v := get event "at" in if truthy v then Some <$> py_str v else Ok (Some utc).

Definition f_hundredth : float := f_ratio 1 100.
Definition f_eight_tenths : float := f_ratio 8 10.
(** An event offers a reason at most once; [clock] is the reading at that offer. *)
Definition offer_event (c : bool) (reason : string) (event : list (string * json)) (clock : string -> Reading) : T unit :=
  offer_when c reason (event_at event (utc_now (clock reason))) (utc_now (clock reason)) (monotonic (clock reason)).

Definition observe_telemetry (event recent_metrics : list (string * json)) (clock : string -> Reading) : T unit :=
  let offer_when c reason := offer_event c reason event clock in
  lane_id ← from_res (py_str (get event "lane_id"));
  e ← self;
  let previous := dict_get (lane_summaries e) lane_id in
  metrics ← from_res (as_dict (get_or event "metrics" (JObj [])));
  best ← from_res (to_float parse_float (get_or metrics "best_scalar" (JInt 0)));
  yield ← from_res (to_float parse_float (get_or metrics "operator_yield" (JInt 0)));
  match previous with
  | Some p =>
      offer_when (f_lt best (best_scalar p)) "meaningful_improvement"%string ;;;
      offer_when (f_le f_hundredth (f_absolute (f_sub yield (operator_yield p)))) "operator_yield_shift"%string
  | None => mret tt
  end ;;;
  set_summary lane_id (mkSummary best yield) ;;;
  duplicate_rate ← from_res (to_float parse_float (get_or metrics "duplicate_rate" (JInt 0)));
  offer_when (f_le f_eight_tenths duplicate_rate) "diversity_collapse"%string ;;;
  windows ← from_res (to_int (get_or recent_metrics "windows" (JInt 0)));
  if 6 <=? windows then
    recent ← from_res (to_float parse_float (get_or recent_metrics "operator_yield" (JInt 0)));
    offer_when (f_eq recent (f_lit 0)) "stagnation"%string
  else mret tt.

Definition observe_lane_event (event recent_metrics : list (string * json)) (clock : string -> Reading) : T unit :=
  let kind := get event "kind" in
  if is_text kind "improvement" then offer_event true "new_global_best" event clock
  else if is_text kind "exit" && is_text (get event "reason") "failure"
  then offer_event true "lane_failure" event clock
  else if is_text kind "telemetry" then observe_telemetry event recent_metrics clock
  else mret tt.

(** ** [configure] *)

(** The items of [set(value)]; an item that is not text is [None], and a list or
    dict as an item is not hashable. *)
Definition items (v : json) : res (list (option string)) :=
  match v with
  | JList l => foldM (fun names v => match v with
      | JStr s => Ok (names ++ [Some s])
      | JList _ | JObj _ => Raise TypeError
      | JNull | JBool _ | JInt _ | JFloat _ => Ok (names ++ [None])
      end) [] l
  | JStr s => Ok ((fun a => Some (String a EmptyString)) <$> Stdlib.Strings.String.list_ascii_of_string s)
  | JObj d => Ok ((fun p => Some p.1) <$> d)
  | JNull | JBool _ | JInt _ | JFloat _ => Raise TypeError
  end.

Definition reviewed_event (v : option string) : bool :=
  match v with Some s => bool_decide (s ∈ REVIEW_EVENTS) | None => false end.

Definition configure (review : list (string * json)) : T unit :=
  lo ← from_res (subscript review "min_wall_seconds"); minimum ← from_res (to_float parse_float lo);
  hi ← from_res (subscript review "max_wall_seconds"); maximum ← from_res (to_float parse_float hi);
  from_res (raise_if (negb (f_le (f_lit 10) minimum && f_le minimum maximum && f_le maximum (f_lit 7200)))
    (ValueError "review interval is outside the reviewed domain")) ;;;
  d ← from_res (subscript review "candidate_delta"); delta ← from_res (to_int d);
  from_res (raise_if (negb ((1 <=? delta) && (delta <=? 100000000)))
    (ValueError "candidate delta is outside the reviewed domain")) ;;;
  listed ← from_res (subscript review "events");
  events ← from_res (items listed);
  from_res (raise_if (negb (forallb reviewed_event events)) (ValueError "review event is outside the reviewed catalog")) ;;;
  e ← self;
  put (mkEngine (debounce_seconds e) minimum maximum delta (omap id events ++ MANDATORY_EVENTS)
        (pending e) (first_at e) (first_monotonic e) (last_review_monotonic e) (last_review_candidates e) (lane_summaries e)).
End Events.

(** ** [due] and [consume] *)

(** What [due] answers once it has made its own offers *)
Definition due_pending (since_review current : float) : T bool :=
  e ← self;
  match pending e with
  | [] => mret false
  | _ =>
      if existsb (fun r => bool_decide (r ∈ IMMEDIATE_REASONS)) (pending e) then mret true
      else if f_lt since_review (min_review_seconds e) then mret false
      else
        match first_monotonic e with
        | None => from_res (Raise AssertionError)
        | Some first => mret (f_le (debounce_seconds e) (f_sub current first))
        end
  end.

Definition due (total_candidates : Z) (utc : string) (current : float) : T bool :=
  e ← self;
  let since_review := f_sub current (last_review_monotonic e) in
  offer_when (f_le (max_review_seconds e) since_review) "maximum_review_interval" (Ok None) utc current ;;;
  offer_when (candidate_delta e <=? total_candidates - last_review_candidates e) "candidate_delta_reached" (Ok None) utc current ;;;
  due_pending since_review current.

Definition consume (total_candidates : Z) (utc : string) (current : float) : T TriggerBatch :=
  is_due ← due total_candidates utc current;
  from_res (raise_if (negb is_due) (RuntimeError "Director trigger is not due")) ;;;
  e ← self;
  put (mkEngine (debounce_seconds e) (min_review_seconds e) (max_review_seconds e) (candidate_delta e)
        (enabled_events e) [] None None current total_candidates (lane_summaries e)) ;;;
  mret (mkTriggerBatch (sorted_strings (pending e)) (or_now (first_at e) utc)).

Definition pending_reasons (e : TriggerEngine) : list string := sorted_strings (pending e).

(** ** Runs of the engine *)

Section Runs.
Variable parse_float : string -> res float.

Inductive Op :=
  | Offer (reason : string) (at_ : option string) (clock : Reading)
  | Observe (event recent_metrics : list (string * json)) (clock : string -> Reading)
  | Configure (review : list (string * json))
  | Due (total_candidates : Z) (clock : Reading)
  | Consume (total_candidates : Z) (clock : Reading).

(** The batch an operation hands out, if any, and the engine after it, whether it
    returned or raised *)
Definition run_op (o : Op) (e : TriggerEngine) : list TriggerBatch * TriggerEngine :=
  match o with
  | Offer reason at_ c => ([], (offer reason at_ (utc_now c) (monotonic c) e).2)
  | Observe event recent clock => ([], (observe_lane_event parse_float event recent clock e).2)
  | Configure review => ([], (configure parse_float review e).2)
  | Due n c => ([], (due n (utc_now c) (monotonic c) e).2)
  | Consume n c =>
      match consume n (utc_now c) (monotonic c) e with
      | (Ok batch, e') => ([batch], e')
      | (Raise _, e') => ([], e')
      end
  end.

Fixpoint run (ops : list Op) (e : TriggerEngine) : list TriggerBatch * TriggerEngine :=
  match ops with
  | [] => ([], e)
  | o :: ops' => let '(b, e1) := run_op o e in let '(bs, e2) := run ops' e1 in (b ++ bs, e2)
  end.

End Runs.

(** ** The invariant *)

Record engine_ok (e : TriggerEngine) : Prop := {
  ok_known : forall r, r ∈ pending e -> r ∈ REVIEW_EVENTS \/ r ∈ INTERNAL_REASONS;
  ok_pending : NoDup (pending e);
  ok_enabled : forall r, r ∈ enabled_events e -> r ∈ REVIEW_EVENTS;
  ok_mandatory : forall r, r ∈ MANDATORY_EVENTS -> r ∈ enabled_events e;
  ok_first : pending e = [] <-> first_monotonic e = None;
  ok_at : pending e = [] <-> first_at e = None;
  ok_delta : 1 <= candidate_delta e;
  ok_interval : f_le (min_review_seconds e) (max_review_seconds e) = true
}.

(** What every operation but [consume] does to an engine *)
Record evolves (e e' : TriggerEngine) : Prop := {
  ev_ok : engine_ok e -> engine_ok e';
  ev_pending : forall r, r ∈ pending e -> r ∈ pending e';
  ev_review : last_review_monotonic e' = last_review_monotonic e /\ last_review_candidates e' = last_review_candidates e
}.

#[export] Instance evolves_preorder : PreOrder evolves.
Proof.
  split; [by split|]. intros e1 e2 e3 [A1 B1 [C1 D1]] [A2 B2 [C2 D2]].
  split; [by auto|by auto|]. split; congruence.
Qed.

Definition evolving {A} (m : T A) : Prop := forall e, evolves e (m e).2.

Lemma evolving_ret {A} (a : A) : evolving (mret a).
Proof. intros e. reflexivity. Qed.
Lemma evolving_res {A} (r : res A) : evolving (from_res r).
Proof. intros e. reflexivity. Qed.
Lemma evolving_self : evolving self.
Proof. intros e. reflexivity. Qed.

Lemma run_bind {A B} (m : T A) (f : A -> T B) e :
  mbind (M := T) f m e = match m e with (Ok a, e') => f a e' | (Raise x, e') => (Raise x, e') end.
Proof. done. Qed.

Lemma evolving_bind {A B} (m : T A) (f : A -> T B) : evolving m -> (forall a, evolving (f a)) -> evolving (m ≫= f).
Proof.
  intros Hm Hf e. unfold mbind, T_bind. specialize (Hm e). destruct (m e) as [[a|x] e']; cbn in *; [|done].
  transitivity e'; [done|apply Hf].
Qed.

Lemma evolving_if {A} (c : bool) (m1 m2 : T A) : evolving m1 -> evolving m2 -> evolving (if c then m1 else m2).
Proof. by destruct c. Qed.

Lemma elem_of_set_insert s x y : x ∈ set_insert s y <-> x ∈ s \/ x = y.
Proof. unfold set_insert. case_bool_decide; set_solver. Qed.

Lemma NoDup_set_insert s x : NoDup s -> NoDup (set_insert s x).
Proof. unfold set_insert. case_bool_decide; [done|]. intros. apply NoDup_app. split_and!; [done|set_solver|apply NoDup_singleton]. Qed.

Definition known (r : string) : Prop := r ∈ REVIEW_EVENTS \/ r ∈ INTERNAL_REASONS.

(** The engine after an offer that is accepted *)
Definition offered (e : TriggerEngine) (reason : string) (at_ : option string) (utc : string) (current : float) : TriggerEngine :=
  with_pending e (set_insert (pending e) reason)
    (match pending e with [] => Some (or_now at_ utc) | _ => first_at e end)
    (match pending e with [] => Some current | _ => first_monotonic e end).

Lemma offer_spec reason at_ utc current e :
  offer reason at_ utc current e =
    if decide (known reason) then
      if decide (reason ∈ REVIEW_EVENTS /\ reason ∉ enabled_events e) then (Ok false, e)
      else (Ok true, offered e reason at_ utc current)
    else (Raise (ValueError ("unsupported Director trigger: " ++ reason)), e).
Proof.
  unfold offer, known, offered, mbind, T_bind, from_res, self, put, mret, T_ret.
  repeat (case_bool_decide || case_decide); cbn; try tauto; destruct (pending e); done.
Qed.

Lemma evolves_offered e reason at_ utc current : known reason -> evolves e (offered e reason at_ utc current).
Proof.
  intros Hk. unfold offered, with_pending. split; cbn; [|intros r; rewrite elem_of_set_insert; tauto|done].
  intros [Hp Hn He Hm Hf Ha Hd Hi]. split; cbn; [| |done|done| | |done|done].
  - intros r [?| ->]%elem_of_set_insert; [by apply Hp|done].
  - by apply NoDup_set_insert.
  - destruct (pending e); [done|]. rewrite <- Hf. unfold set_insert. by case_bool_decide.
  - destruct (pending e); [done|]. rewrite <- Ha. unfold set_insert. by case_bool_decide.
Qed.

Lemma evolving_offer reason at_ utc current : evolving (offer reason at_ utc current).
Proof.
  intros e. rewrite offer_spec. repeat case_decide; cbn; try reflexivity. by apply evolves_offered.
Qed.

Lemma evolving_summary lane s : evolving (set_summary lane s).
Proof. intros e. cbn. split; [intros []; by split|done|done]. Qed.

Lemma evolving_guard {B} (c : bool) x (k : T B) : (c = false -> evolving k) -> evolving (from_res (raise_if c x) ;;; k).
Proof. destruct c; intros H e; [reflexivity|]. by apply H. Qed.

Ltac evolving :=
  repeat first
    [ apply evolving_ret | apply evolving_res | apply evolving_self | apply evolving_offer | apply evolving_summary
    | apply evolving_if | apply evolving_bind; [|intros ?] | case_match ].

Lemma evolving_offer_when c reason at_ utc current : evolving (offer_when c reason at_ utc current).
Proof. unfold offer_when. evolving. Qed.

Lemma evolving_observe parse_float event recent clock : evolving (observe_lane_event parse_float event recent clock).
Proof.
  unfold observe_lane_event, observe_telemetry, offer_event.
  repeat first [apply evolving_offer_when | progress evolving].
Qed.

Lemma evolving_configure parse_float review : evolving (configure parse_float review).
Proof.
  unfold configure. do 4 (apply evolving_bind; [apply evolving_res|intros ?]).
  apply evolving_guard. intros [[_ Hi]%andb_true_iff _]%negb_false_iff%andb_true_iff.
  do 2 (apply evolving_bind; [apply evolving_res|intros ?]).
  apply evolving_guard. intros [Hd _]%negb_false_iff%andb_true_iff.
  do 2 (apply evolving_bind; [apply evolving_res|intros ?]).
  apply evolving_guard. intros Hr%negb_false_iff%Is_true_true%forallb_True. rewrite Forall_forall in Hr.
  intros e. unfold mbind, T_bind, self, put. cbn -[MANDATORY_EVENTS]. split; [|done|done]. intros [Hp Hn Hen Hm Hf Ha Hdel _]. split; cbn -[MANDATORY_EVENTS]; [done|done| | |done|done|lia|done].
  - intros r [Hin|Hin]%elem_of_app; [|by apply Hen, Hm].
    apply list_elem_of_omap in Hin as ([s|] & Hin & [= ->]). specialize (Hr _ Hin). by apply bool_decide_unpack in Hr.
  - intros r Hin. apply elem_of_app. by right.
Qed.

(** ** [due] and [consume] *)

(** The engine after the two offers [due] makes *)
Definition interval_over (e : TriggerEngine) (current : float) : bool :=
  f_le (max_review_seconds e) (f_sub current (last_review_monotonic e)).
Definition enough_candidates (e : TriggerEngine) (n : Z) : bool := candidate_delta e <=? n - last_review_candidates e.
Definition reviewed (e : TriggerEngine) (n : Z) (utc : string) (current : float) : TriggerEngine :=
  let e1 := if interval_over e current then offered e "maximum_review_interval" None utc current else e in
  if enough_candidates e n then offered e1 "candidate_delta_reached" None utc current else e1.

(** A review is due: something immediate is pending, or something is pending, the
    minimum interval has passed and so has the debounce. *)
Definition is_due (e : TriggerEngine) (current : float) : Prop :=
  (exists r, r ∈ pending e /\ r ∈ IMMEDIATE_REASONS) \/
  (exists first, first_monotonic e = Some first /\
     f_lt (f_sub current (last_review_monotonic e)) (min_review_seconds e) = false /\
     f_le (debounce_seconds e) (f_sub current first) = true).

Definition consumed (e : TriggerEngine) (n : Z) (current : float) : TriggerEngine :=
  mkEngine (debounce_seconds e) (min_review_seconds e) (max_review_seconds e) (candidate_delta e)
    (enabled_events e) [] None None current n (lane_summaries e).

Lemma internal_known r : r ∈ INTERNAL_REASONS -> known r.
Proof. by right. Qed.

Lemma offer_internal r at_ utc current e :
  r ∈ ["candidate_delta_reached"; "maximum_review_interval"]%string ->
  offer r at_ utc current e = (Ok true, offered e r at_ utc current).
Proof.
  intros Hr. rewrite offer_spec. rewrite decide_True by (right; unfold INTERNAL_REASONS; set_solver).
  rewrite decide_False; [done|]. intros [H _].
  assert (Forall (fun r => r ∉ REVIEW_EVENTS) ["candidate_delta_reached"; "maximum_review_interval"]%string) as Hn
    by (apply (bool_decide_unpack _); vm_compute; done).
  rewrite Forall_forall in Hn. by apply (Hn r).
Qed.

Lemma evolves_reviewed e n utc current : evolves e (reviewed e n utc current).
Proof.
  unfold reviewed. transitivity (if interval_over e current then offered e "maximum_review_interval" None utc current else e).
  - destruct (interval_over e current); [|reflexivity]. apply evolves_offered, internal_known.
    by apply (bool_decide_unpack _).
  - destruct (enough_candidates e n); [|reflexivity]. apply evolves_offered, internal_known. by apply (bool_decide_unpack _).
Qed.

Lemma due_pending_spec e since current : engine_ok e -> since = f_sub current (last_review_monotonic e) ->
  exists b, due_pending since current e = (Ok b, e) /\ (b = true <-> is_due e current).
Proof.
  intros Hok ->. unfold due_pending, is_due, mbind, T_bind, self, mret, T_ret.
  pose proof (ok_first _ Hok) as Hf. destruct (pending e) as [|r0 p] eqn:Hp.
  { exists false. split; [done|]. split; [done|]. intros [(r & Hr & _)|(f & Hf' & _)]; [by apply elem_of_nil in Hr|].
    destruct Hf as [Hf _]. rewrite Hf in Hf'; done. }
  destruct (existsb _ (r0 :: p)) eqn:He.
  { exists true. split; [done|]. split; [|done]. intros _. left.
    apply existsb_exists in He as (r & Hin & Hr). exists r. apply bool_decide_eq_true in Hr.
    by rewrite list_elem_of_In. }
  assert (~ (exists r, r ∈ r0 :: p /\ r ∈ IMMEDIATE_REASONS)) as Hnone.
  { intros (r & Hin & Hr). apply not_true_iff_false in He. apply He, existsb_exists.
    exists r. by rewrite <- list_elem_of_In, bool_decide_eq_true. }
  destruct (first_monotonic e) as [first|]; [|by discriminate (proj2 Hf eq_refl)].
  destruct (f_lt _ _) eqn:Hlt.
  { exists false. split; [done|]. split; [done|]. intros [?|(f & _ & ? & _)]; [tauto|congruence]. }
  eexists. split; [done|]. split; [by eauto 6|]. intros [?|(f & [= <-] & _ & ?)]; [tauto|done].
Qed.

Lemma due_spec e n utc current : engine_ok e ->
  exists b, due n utc current e = (Ok b, reviewed e n utc current) /\ (b = true <-> is_due (reviewed e n utc current) current).
Proof.
  intros Hok. pose proof (evolves_reviewed e n utc current) as Hev.
  destruct (due_pending_spec (reviewed e n utc current) (f_sub current (last_review_monotonic e)) current) as (b & Hb & Hd).
  { by apply (ev_ok _ _ Hev). } { by destruct (ev_review _ _ Hev) as [-> _]. }
  exists b. split; [|done]. rewrite <- Hb. unfold due, reviewed, interval_over, enough_candidates.
  unfold mbind at 1, T_bind at 1, self. unfold mbind, T_bind, offer_when.
  destruct (f_le (max_review_seconds e) _); cbn [from_res];
    [unfold mbind, T_bind, from_res; rewrite offer_internal by set_solver|]; cbn;
    (destruct (candidate_delta e <=? _); [unfold mbind, T_bind, from_res; rewrite offer_internal by set_solver|]; done).
Qed.

Lemma elem_of_offered e reason at_ utc current r : r ∈ pending (offered e reason at_ utc current) <-> r ∈ pending e \/ r = reason.
Proof. apply elem_of_set_insert. Qed.

Lemma elem_of_reviewed e n utc current r :
  r ∈ pending (reviewed e n utc current) <->
  r ∈ pending e \/ (interval_over e current = true /\ r = "maximum_review_interval"%string) \/
  (enough_candidates e n = true /\ r = "candidate_delta_reached"%string).
Proof.
  unfold reviewed. destruct (interval_over e current), (enough_candidates e n); rewrite ?elem_of_offered; naive_solver.
Qed.

Lemma first_at_offered e reason utc current :
  or_now (first_at (offered e reason None utc current)) utc = if decide (pending e = []) then utc else or_now (first_at e) utc.
Proof. unfold offered. cbn. destruct (pending e); cbn; [by destruct utc|done]. Qed.

Lemma first_at_reviewed e n utc current : engine_ok e ->
  or_now (first_at (reviewed e n utc current)) utc = or_now (first_at e) utc.
Proof.
  intros Hok. assert (pending e = [] -> or_now (first_at e) utc = utc) as Hnil.
  { intros Hp. apply (ok_at _ Hok) in Hp. by rewrite Hp. }
  unfold reviewed. destruct (interval_over e current), (enough_candidates e n); rewrite ?first_at_offered;
    repeat case_decide; try done; symmetry; [|by auto..].
  exfalso. eapply (not_elem_of_nil "maximum_review_interval"%string). erewrite <- H. apply elem_of_offered. by right.
Qed.

Lemma consume_spec e n utc current : engine_ok e ->
  (is_due (reviewed e n utc current) current /\
     consume n utc current e =
       (Ok (mkTriggerBatch (sorted_strings (pending (reviewed e n utc current))) (or_now (first_at e) utc)),
        consumed (reviewed e n utc current) n current)) \/
  (~ is_due (reviewed e n utc current) current /\
     consume n utc current e = (Raise (RuntimeError "Director trigger is not due"), reviewed e n utc current)).
Proof.
  intros Hok. destruct (due_spec e n utc current Hok) as (b & Hb & Hd). unfold consume.
  rewrite run_bind, Hb. destruct b; [left|right].
  - split; [by apply Hd|]. by rewrite <- (first_at_reviewed e n utc current Hok).
  - split; [|reflexivity]. intros Hn%Hd. done.
Qed.

Lemma consumed_ok e n current : engine_ok e -> engine_ok (consumed e n current).
Proof. intros [Hp Hn He Hm Hf Ha Hd Hi]. split; cbn; try done; [set_solver|apply NoDup_nil_2]. Qed.

(** ** Runs of an engine *)

Section RunLemmas.
Variable parse_float : string -> res float.
Abbreviation run_op := (run_op parse_float).
Abbreviation run := (run parse_float).

Lemma run_op_ok o e : engine_ok e -> engine_ok (run_op o e).2.
Proof.
  intros Hok. destruct o as [r a c|ev rc cl|rv|n c|n c]; cbn.
  - by apply evolving_offer.
  - by apply evolving_observe.
  - by apply evolving_configure.
  - destruct (due_spec e n (utc_now c) (monotonic c) Hok) as (b & -> & _). by apply (ev_ok _ _ (evolves_reviewed _ _ _ _)).
  - pose proof (ev_ok _ _ (evolves_reviewed e n (utc_now c) (monotonic c)) Hok).
    destruct (consume_spec e n (utc_now c) (monotonic c) Hok) as [[_ ->]|[_ ->]]; [by apply consumed_ok|done].
Qed.

Lemma run_ok ops e : engine_ok e -> engine_ok (run ops e).2.
Proof.
  revert e. induction ops as [|o ops IH]; intros e Hok; [done|]. cbn.
  pose proof (run_op_ok o e Hok). destruct (run_op o e) as [b e1]. specialize (IH e1). destruct (run ops e1). by apply IH.
Qed.

Lemma new_engine_ok d lo hi delta now e : new_engine d lo hi delta now = Ok e -> engine_ok e.
Proof.
  unfold new_engine. rewrite !raise_seq_Ok. intros (_ & Hi & Hd & [= <-]).
  apply negb_false_iff, andb_true_iff in Hi as [_ Hi]. split; cbn; try done; [set_solver|apply NoDup_nil_2| |lia].
  intros r Hr. assert (Forall (fun r => r ∈ REVIEW_EVENTS) MANDATORY_EVENTS) as Hall
    by (apply (bool_decide_unpack _); vm_compute; done).
  rewrite Forall_forall in Hall. by apply Hall.
Qed.

(** ** An immediate reason is never lost *)

Lemma immediate_accepted e r at_ utc current : engine_ok e -> r ∈ IMMEDIATE_REASONS ->
  offer r at_ utc current e = (Ok true, offered e r at_ utc current).
Proof.
  intros Hok Hr. assert (Forall (fun r => known r /\ (r ∈ REVIEW_EVENTS -> r ∈ MANDATORY_EVENTS)) IMMEDIATE_REASONS) as Hall.
  { unfold known. apply (bool_decide_unpack _). vm_compute. done. }
  rewrite Forall_forall in Hall. destruct (Hall r Hr) as [Hk Hm]. rewrite offer_spec, decide_True by done.
  rewrite decide_False; [done|]. intros [Hin Hn]. by apply Hn, (ok_mandatory _ Hok), Hm.
Qed.

Lemma holding_due e r n utc current : r ∈ IMMEDIATE_REASONS -> r ∈ pending e -> is_due (reviewed e n utc current) current.
Proof. intros Hr Hp. left. exists r. split; [by apply (ev_pending _ _ (evolves_reviewed e n utc current))|done]. Qed.

Lemma consume_holding e r n utc current : engine_ok e -> r ∈ IMMEDIATE_REASONS -> r ∈ pending e ->
  exists batch e', consume n utc current e = (Ok batch, e') /\ r ∈ reasons batch.
Proof.
  intros Hok Hr Hp. destruct (consume_spec e n utc current Hok) as [[_ ->]|[[] _]]; [|by eapply holding_due].
  do 2 eexists. split; [done|]. cbn. apply elem_of_sorted_strings, elem_of_reviewed. by left.
Qed.

Lemma run_holding ops e r n c : engine_ok e -> r ∈ IMMEDIATE_REASONS -> r ∈ pending e ->
  exists batch rest, (run (ops ++ [Consume n c]) e).1 = batch :: rest /\ r ∈ reasons batch.
Proof.
  intros Hok Hr. revert e Hok. induction ops as [|o ops IH]; intros e Hok Hp; cbn.
  { destruct (consume_holding e r n (utc_now c) (monotonic c) Hok Hr Hp) as (b & e' & -> & Hb). by exists b, []. }
  pose proof (run_op_ok o e Hok) as Hok1.
  assert (((run_op o e).1 = [] /\ r ∈ pending (run_op o e).2) \/ exists b, (run_op o e).1 = [b] /\ r ∈ reasons b) as H.
  { destruct o as [r' a c'|ev rc cl|rv|n' c'|n' c']; cbn; [left; split; [done|]..|right].
    - by apply evolving_offer.
    - by apply evolving_observe.
    - by apply evolving_configure.
    - destruct (due_spec e n' (utc_now c') (monotonic c') Hok) as (b & -> & _). by apply (ev_pending _ _ (evolves_reviewed _ _ _ _)).
    - destruct (consume_holding e r n' (utc_now c') (monotonic c') Hok Hr Hp) as (b & e' & -> & Hb). by exists b. }
  destruct (run_op o e) as [bs e1]. cbn in *. specialize (IH e1 Hok1).
  destruct (run (ops ++ [Consume n c]) e1) as [bs' e2]. cbn in *.
  destruct H as [[-> Hp1]|(b & -> & Hb)]; [by apply IH|by eexists _, _].
Qed.

(** ** Properties *)

(** C31: Whatever events are offered or observed, whatever
    reviews are configured and batches consumed, also when an operation raises,
    an engine holds only known reasons, once each; the events it may not miss
    stay enabled; a first event is recorded exactly when something is pending, so
    the assertion of [due] never fails and [due] always answers. *)
Theorem trigger_invariant debounce lo hi delta now e0 ops n c :
  new_engine debounce lo hi delta now = Ok e0 ->
  let e := (run ops e0).2 in
  engine_ok e /\ exists b, (due n (utc_now c) (monotonic c) e).1 = Ok b.
Proof.
  intros He%new_engine_ok e. assert (engine_ok e) as Hok by by apply run_ok. split; [done|].
  destruct (due_spec e n (utc_now c) (monotonic c) Hok) as (b & -> & _). by exists b.
Qed.

(** C24: An immediate reason (a verification result, a verifier
    disagreement, a lane failure, resource pressure, bootstrap, recovery) that is
    offered at any time is accepted, and the next batch consumed contains it,
    whatever happens in between; consuming cannot be refused until then. *)
Theorem immediate_not_lost debounce lo hi delta now e0 before reason at_ c between n c' :
  new_engine debounce lo hi delta now = Ok e0 -> reason ∈ IMMEDIATE_REASONS ->
  let e := (run before e0).2 in
  (offer reason at_ (utc_now c) (monotonic c) e).1 = Ok true /\
  exists batch rest,
    (run (Offer reason at_ c :: between ++ [Consume n c']) e).1 = batch :: rest /\ reason ∈ reasons batch.
Proof.
  intros He%new_engine_ok Hr e. assert (engine_ok e) as Hok by by apply run_ok. cbn.
  pose proof (evolving_offer reason at_ (utc_now c) (monotonic c) e) as Hev.
  rewrite immediate_accepted in * by done. split; [done|]. cbn in *.
  destruct (run_holding between (offered e reason at_ (utc_now c) (monotonic c)) reason n c') as (b & rest & Hb & Hin);
    [by apply Hev|done|apply elem_of_offered; by right|]. exists b, rest.
  by destruct (run (between ++ [Consume n c']) _).
Qed.

End RunLemmas.

(** [consume] hands out a batch exactly when a review is due;
    the batch lists, sorted and once each, what was pending and the limits
    reached just now, with the time of its first event, and the engine starts
    over. Otherwise it raises and loses nothing. *)
Theorem consume_correct e n utc current :
  engine_ok e ->
  let e' := reviewed e n utc current in
  (is_due e' current /\
   exists batch, consume n utc current e = (Ok batch, consumed e' n current) /\
     StronglySorted string_leP (reasons batch) /\ NoDup (reasons batch) /\
     first_event_at batch = or_now (first_at e) utc /\
     forall r, r ∈ reasons batch <->
       r ∈ pending e \/ (interval_over e current = true /\ r = "maximum_review_interval"%string) \/
       (enough_candidates e n = true /\ r = "candidate_delta_reached"%string)) \/
  (~ is_due e' current /\
   consume n utc current e = (Raise (RuntimeError "Director trigger is not due"), e') /\
   forall r, r ∈ pending e -> r ∈ pending e').
Proof.
  intros Hok. cbn. destruct (consume_spec e n utc current Hok) as [[Hd ->]|[Hd ->]]; [left|right].
  - split; [done|]. eexists. split; [done|]. cbn. split_and!; [apply sorted_strings_sorted|apply NoDup_sorted_strings|done|].
    intros r. by rewrite elem_of_sorted_strings, elem_of_reviewed.
  - split_and!; [done..|]. intros r. rewrite elem_of_reviewed. tauto.
Qed.

(** ** Witnesses *)

Module TriggerWitness.
(** An engine that reads no text as a number *)
Definition no_float (s : string) : res float := Raise (ValueError s).
Definition at_second (z : Z) : Reading := mkReading "2026-01-01T00:00:00Z" (f_lit z).
Definition e0 : TriggerEngine := mkEngine (f_lit 1) (f_lit 0) (f_lit 300) 100000 REVIEW_EVENTS [] None None (f_lit 0) 0 [].
Definition narrow : list (string * json) :=
  [("min_wall_seconds", JInt 60); ("max_wall_seconds", JInt 900); ("candidate_delta", JInt 5000);
   ("events", JList [JStr "stagnation"])]%string.
Definition telemetry (best : Z) : list (string * json) :=
  [("kind", JStr "telemetry"); ("lane_id", JStr "lane-1");
   ("metrics", JObj [("best_scalar", JInt best); ("duplicate_rate", JInt 1)])]%string.
Definition quiet : list (string * json) := [("windows", JInt 6); ("operator_yield", JInt 0)]%string.
Definition ops : list Op :=
  [Configure narrow; Observe (telemetry 5) quiet (fun _ => at_second 2); Observe (telemetry 4) quiet (fun _ => at_second 3);
   Offer "unknown" None (at_second 4); Consume 10 (at_second 5)].

(** Only the enabled event stays pending, the batch waits for the minimum interval. *)
Example quiet_lane :
  (run no_float ops e0).1 = [] /\ pending (run no_float ops e0).2 = ["stagnation"%string] /\
  (run no_float (ops ++ [Consume 10 (at_second 61)]) e0).1 =
    [mkTriggerBatch ["stagnation"%string] "2026-01-01T00:00:00Z"].
Proof. vm_compute. done. Qed.

Lemma trigger_invariant_witness :
  new_engine (f_lit 1) (f_lit 0) (f_lit 300) 100000 (f_lit 0) = Ok e0 /\
  engine_ok (run no_float ops e0).2.
Proof.
  split; [vm_compute; reflexivity|].
  apply (trigger_invariant no_float (f_lit 1) (f_lit 0) (f_lit 300) 100000 (f_lit 0) e0 ops 0 (at_second 6)).
  vm_compute; reflexivity.
Defined.

Lemma immediate_not_lost_witness :
  exists batch rest,
    (run no_float (Offer "lane_failure" None (at_second 6) :: ops ++ [Consume 20 (at_second 7)])
       (run no_float ops e0).2).1 = batch :: rest /\ ("lane_failure"%string ∈ reasons batch).
Proof.
  apply (immediate_not_lost no_float (f_lit 1) (f_lit 0) (f_lit 300) 100000 (f_lit 0) e0 ops "lane_failure" None
           (at_second 6) ops 20 (at_second 7)); [vm_compute; reflexivity|].
  apply (bool_decide_unpack _). vm_compute. exact I.
Defined.

Lemma e0_ok : engine_ok e0.
Proof. apply (new_engine_ok (f_lit 1) (f_lit 0) (f_lit 300) 100000 (f_lit 0)). vm_compute. done. Qed.

Lemma consume_correct_witness :
  ~ is_due (reviewed e0 7 "now" (f_lit 5)) (f_lit 5) /\
  consume 7 "now" (f_lit 5) e0 = (Raise (RuntimeError "Director trigger is not due"), reviewed e0 7 "now" (f_lit 5)).
Proof.
  destruct (consume_correct e0 7 "now" (f_lit 5) e0_ok) as [[Hd _]|(Hd & Hc & _)]; [exfalso|split; [exact Hd|exact Hc]].
  destruct Hd as [(r & Hr & _)|(f & Hf & _)]; [by apply elem_of_nil in Hr|vm_compute in Hf; discriminate Hf].
Defined.
End TriggerWitness.
