(* ===== verification/Dpll.v ===== *)
(** * The deterministic DPLL solver

    [src/src/sglab/sat.py]: [solve_dpll] and [_simplify]. A clause is a list of
    non-zero literals, an assignment a dict from variables to truth values. *)

From S2P Require Import Prelude.

Abbreviation clause := (list Z).
Abbreviation cnf := (list (list Z)).
Abbreviation assignment := (list (Z * bool)).

(** ** [_simplify] *)

Definition _simplify (clauses : cnf) (variable : Z) (value : bool) : cnf :=
  let true_literal := if value then variable else - variable in
  let false_literal := - true_literal in
  filter (fun l => l <> false_literal) <$> filter (fun c : clause => true_literal ∉ c) clauses.

(** ** [solve_dpll] *)

(** [next((clause[0] for clause in current if len(clause) == 1), None)] *)
Definition unit_literal (current : cnf) : option Z :=
  first_some (fun c : clause => match c with [l] => Some l | _ => None end) current.

(** [min(current, key=len)]: the first clause of least length *)
Fixpoint shortest (c : clause) (cs : cnf) : clause :=
  match cs with
  | [] => c
  | c' :: cs' => shortest (if (length c' <? length c)%nat then c' else c) cs'
  end.

(** The answer of [recurse], or the fuel ran out *)
Inductive answer := Sat (a : assignment) | Unsat | OutOfFuel.

(** One turn of the [while True] loop of [recurse] is one call here, which goes
    on with the next turn; a turn without a unit clause leaves the loop and
    branches. *)
Fixpoint recurse (fuel : nat) (current : cnf) (asg : assignment) : answer :=
  match fuel with
  | O => OutOfFuel
  | S f =>
      if existsb (fun c : clause => match c with [] => true | _ => false end) current then Unsat
      else
        match unit_literal current with
        | Some l =>
            let variable := Z.abs l in
            let value := 0 <? l in
            if match dict_get asg variable with Some b => negb (eqb b value) | None => false end
            then Unsat
            else recurse f (_simplify current variable value) (dict_set asg variable value)
        | None =>
            match current with
            | [] => Sat asg
            | c :: cs =>
                let variable := Z.abs (hd 0 (shortest c cs)) in
                match recurse f (_simplify current variable true) (dict_set asg variable true) with
                | Unsat => recurse f (_simplify current variable false) (dict_set asg variable false)
                | r => r
                end
            end
        end
  end.

(** Literals and clauses left: every simplification makes it smaller
    ([simplify_smaller]), so it is enough fuel ([recurse_returns]). *)
Definition weight (clauses : cnf) : nat := sum_list_with (fun c : clause => S (length c)) clauses.

(** [solved.get(variable, False)] *)
Definition chosen (asg : assignment) (variable : Z) : bool := default false (dict_get asg variable).

Definition solve_dpll (clauses : cnf) (variable_count : Z) : option (option (list Z)) :=
  match recurse (S (weight clauses)) clauses [] with
  | Sat asg => Some (Some ((fun v => if chosen asg v then v else - v) <$> range 1 (variable_count + 1)))
  | Unsat => Some None
  | OutOfFuel => None
  end.

(** ** Satisfaction *)

Definition lit_true (a : Z -> bool) (l : Z) : bool := if 0 <? l then a l else negb (a (- l)).
Definition clause_true (a : Z -> bool) (c : clause) : Prop := exists l, l ∈ c /\ lit_true a l = true.
Definition satisfies (a : Z -> bool) (cs : cnf) : Prop := forall c, c ∈ cs -> clause_true a c.

(** Every literal is non-zero. *)
Definition proper (cs : cnf) : Prop := forall c l, c ∈ cs -> l ∈ c -> l <> 0.

(** The assignment decides these variables, and agrees with the dict. *)
Definition extends (a : Z -> bool) (asg : assignment) : Prop :=
  forall v b, dict_get asg v = Some b -> a v = b.

(** The literal that is true when [variable] has [value] *)
Definition true_lit (variable : Z) (value : bool) : Z := if value then variable else - variable.

(** ** Simplification *)

Lemma elem_of_simplify cs v b c :
  c ∈ _simplify cs v b <->
  exists d, d ∈ cs /\ true_lit v b ∉ d /\ c = filter (fun l => l <> - true_lit v b) d.
Proof.
  unfold _simplify. rewrite list_elem_of_fmap. setoid_rewrite list_elem_of_filter.
  unfold true_lit. split; intros (d & H); exists d; tauto.
Qed.

Lemma simplify_proper cs v b : proper cs -> proper (_simplify cs v b).
Proof.
  intros Hp c l (d & Hd & _ & ->)%elem_of_simplify [_ Hl]%list_elem_of_filter. by apply (Hp d).
Qed.

(** Neither literal of the variable is left. *)
Lemma simplify_fresh cs v b c l : c ∈ _simplify cs v b -> l ∈ c -> Z.abs l <> Z.abs v.
Proof.
  intros (d & Hd & Hn & ->)%elem_of_simplify [Hne Hl]%list_elem_of_filter Habs.
  unfold true_lit in *. destruct b; (assert (l = v \/ l = - v) as [->| ->] by lia; [|]);
    first [contradiction|rewrite Z.opp_involutive in Hne; contradiction].
Qed.

Lemma simplify_incl cs v b c l : c ∈ _simplify cs v b -> l ∈ c -> exists d, d ∈ cs /\ l ∈ d.
Proof.
  intros (d & Hd & _ & ->)%elem_of_simplify [_ Hl]%list_elem_of_filter. by exists d.
Qed.

Lemma lit_true_opp a l : l <> 0 -> lit_true a (- l) = negb (lit_true a l).
Proof.
  intros Hl. unfold lit_true. destruct (Z.ltb_spec 0 (- l)), (Z.ltb_spec 0 l); try lia.
  - by rewrite negb_involutive.
  - by rewrite Z.opp_involutive.
Qed.

Lemma lit_true_lit a v b : 0 < v -> lit_true a (true_lit v b) = true <-> a v = b.
Proof.
  intros Hv. unfold lit_true, true_lit. destruct b.
  - by replace (0 <? v) with true by lia.
  - replace (0 <? - v) with false by lia. rewrite Z.opp_involutive. by destruct (a v).
Qed.

(** Under an assignment that gives the variable this value, the simplified
    clauses say the same. *)
Lemma simplify_satisfies a cs v b :
  0 < v -> a v = b -> satisfies a (_simplify cs v b) <-> satisfies a cs.
Proof.
  intros Hv Ha. apply lit_true_lit in Ha as Ht; [|done].
  assert (true_lit v b <> 0) as Hnz by (unfold true_lit; destruct b; lia). split.
  - intros Hs d Hd. destruct (decide (true_lit v b ∈ d)) as [Hin|Hnin]; [by exists (true_lit v b)|].
    destruct (Hs (filter (fun l => l <> - true_lit v b) d)) as (l & [_ Hl]%list_elem_of_filter & Hlt).
    + apply elem_of_simplify. by exists d.
    + by exists l.
  - intros Hs c (d & Hd & Hn & ->)%elem_of_simplify. destruct (Hs d Hd) as (l & Hl & Hlt).
    exists l. split; [|done]. apply list_elem_of_filter. split; [|done]. intros ->.
    rewrite lit_true_opp, Ht in Hlt; done.
Qed.

Lemma weight_cons c cs : weight (c :: cs) = (S (length c) + weight cs)%nat.
Proof. done. Qed.

Lemma simplify_cons c cs v b :
  _simplify (c :: cs) v b =
  (if decide (true_lit v b ∉ c) then [filter (fun l => l <> - true_lit v b) c] else []) ++ _simplify cs v b.
Proof. unfold _simplify. rewrite filter_cons. fold (true_lit v b). by case_decide. Qed.

Lemma simplify_weight_le cs v b : (weight (_simplify cs v b) <= weight cs)%nat.
Proof.
  induction cs as [|c cs IH]; [done|]. rewrite simplify_cons, weight_cons. case_decide; cbn [app].
  - rewrite weight_cons. pose proof (length_filter (fun l => l <> - true_lit v b) c). lia.
  - lia.
Qed.

Lemma simplify_smaller cs v b c l :
  c ∈ cs -> l ∈ c -> Z.abs l = v -> (weight (_simplify cs v b) < weight cs)%nat.
Proof.
  intros Hc Hl Hv. induction cs as [|d cs IH]; [set_solver|].
  rewrite simplify_cons, weight_cons.
  pose proof (simplify_weight_le cs v b) as Hle.
  pose proof (length_filter (fun l => l <> - true_lit v b) d) as Hfl.
  apply elem_of_cons in Hc as [->|Hc].
  - case_decide as Hd; cbn [app]; [rewrite weight_cons|lia].
    assert (length (filter (fun l => l <> - true_lit v b) d) < length d)%nat; [|lia].
    apply (length_filter_lt _ _ l); [done|]. intros Hne.
    assert (l = true_lit v b \/ l = - true_lit v b) as [->|?] by (unfold true_lit; destruct b; lia);
      contradiction.
  - specialize (IH Hc). case_decide; cbn [app]; [rewrite weight_cons|]; lia.
Qed.

(** ** The choice of a literal *)

Lemma shortest_in c cs : shortest c cs ∈ c :: cs.
Proof.
  revert c. induction cs as [|d cs IH]; intros c; [by apply list_elem_of_singleton|].
  cbn [shortest]. specialize (IH (if (length d <? length c)%nat then d else c)).
  destruct (length d <? length c)%nat; rewrite !elem_of_cons in *; tauto.
Qed.

Lemma unit_literal_Some cs l : unit_literal cs = Some l -> [l] ∈ cs.
Proof.
  intros (c & Hc & He)%first_some_Some. destruct c as [|x [|y c]]; cbn in He; by simplify_eq.
Qed.

Lemma existsb_empty cs :
  existsb (fun c : clause => match c with [] => true | _ => false end) cs = true <-> [] ∈ cs.
Proof.
  rewrite existsb_exists. setoid_rewrite <- list_elem_of_In. split.
  - intros ([|] & ? & ?); done.
  - intros ?. by exists [].
Qed.

(** ** Correctness of [recurse] *)

(** No variable of the clauses is assigned. *)
Definition fresh (cs : cnf) (asg : assignment) : Prop :=
  forall c l, c ∈ cs -> l ∈ c -> dict_get asg (Z.abs l) = None.

Definition keeps (asg asg' : assignment) : Prop :=
  forall v b, dict_get asg v = Some b -> dict_get asg' v = Some b.

Lemma simplify_keeps_fresh cs asg v b :
  fresh cs asg -> 0 < v -> fresh (_simplify cs v b) (dict_set asg v b).
Proof.
  intros Hf Hv c l Hc Hl. rewrite dict_get_set. case_decide as He.
  - pose proof (simplify_fresh cs v b c l Hc Hl). lia.
  - destruct (simplify_incl cs v b c l Hc Hl) as (d & Hd & Hld). by apply (Hf d).
Qed.

Lemma keeps_set asg asg' v b :
  dict_get asg v = None -> keeps (dict_set asg v b) asg' ->
  keeps asg asg' /\ dict_get asg' v = Some b.
Proof.
  intros Hn Hk. split.
  - intros w c Hw. apply Hk. rewrite dict_get_set. case_decide; congruence.
  - apply Hk. rewrite dict_get_set. by case_decide.
Qed.

(** What an answer for a formula means *)
Definition answers (cs : cnf) (asg : assignment) (r : answer) : Prop :=
  match r with
  | Sat asg' => keeps asg asg' /\ forall a, extends a asg' -> satisfies a cs
  | Unsat => forall a, ~ satisfies a cs
  | OutOfFuel => False
  end.

(** Giving a variable a value: a model found below is a model here. *)
Lemma answers_set cs asg v b asg' :
  fresh cs asg -> dict_get asg v = None -> 0 < v ->
  answers (_simplify cs v b) (dict_set asg v b) (Sat asg') -> answers cs asg (Sat asg').
Proof.
  intros Hf Hn Hv [Hk Hs]. destruct (keeps_set _ _ _ _ Hn Hk) as [Hk' Hg]. split; [done|].
  intros a Ha. apply (simplify_satisfies a cs v b); [done|by apply Ha|by apply Hs].
Qed.

Lemma recurse_answers fuel cs asg :
  proper cs -> fresh cs asg -> (weight cs < fuel)%nat -> answers cs asg (recurse fuel cs asg).
Proof.
  revert cs asg. induction fuel as [|f IH]; intros cs asg Hp Hf Hw; [lia|]. cbn [recurse].
  destruct (existsb _ cs) eqn:Ee.
  { apply existsb_empty in Ee. intros a Ha. destruct (Ha [] Ee) as (l & Hl & _). set_solver. }
  assert (forall c l b, c ∈ cs -> l ∈ c ->
    answers (_simplify cs (Z.abs l) b) (dict_set asg (Z.abs l) b)
      (recurse f (_simplify cs (Z.abs l) b) (dict_set asg (Z.abs l) b))) as Hrec.
  { intros c l b Hc Hl. pose proof (Hp c l Hc Hl). apply IH.
    - by apply simplify_proper.
    - apply simplify_keeps_fresh; [done|lia].
    - pose proof (simplify_smaller cs (Z.abs l) b c l Hc Hl eq_refl). lia. }
  destruct (unit_literal cs) as [l|] eqn:Eu.
  - apply unit_literal_Some in Eu. assert (l ∈ [l]) as Hl by set_solver.
    pose proof (Hp _ _ Eu Hl) as Hnz. rewrite (Hf _ _ Eu Hl).
    specialize (Hrec [l] l (0 <? l) Eu Hl). destruct (recurse f _ _) as [asg'| |].
    + apply (answers_set _ _ (Z.abs l) (0 <? l)); [done|by apply (Hf [l])|lia|done].
    + intros a Ha. apply (Hrec a). apply simplify_satisfies; [lia| |done].
      destruct (Ha [l] Eu) as (l' & ->%list_elem_of_singleton & Ht). unfold lit_true in Ht.
      destruct (Z.ltb_spec 0 l); [by rewrite Z.abs_eq by lia|].
      rewrite Z.abs_neq by lia. by destruct (a (- l)).
    + done.
  - destruct cs as [|c0 cs']; [split; [by intros ? ?|]; intros a _ c; set_solver|].
    set (cs := c0 :: cs') in *. set (c := shortest c0 cs').
    assert (c ∈ cs) as Hc by apply shortest_in.
    destruct c as [|l c'] eqn:Ec.
    { exfalso. assert (existsb (fun c : clause => match c with [] => true | _ => false end) cs = true);
        [by apply existsb_empty|congruence]. }
    assert (l ∈ l :: c') as Hl by set_solver. cbn [hd]. pose proof (Hp _ _ Hc Hl) as Hnz.
    pose proof (Hrec _ l true Hc Hl) as Ht. pose proof (Hrec _ l false Hc Hl) as Hfl.
    pose proof (Hf _ _ Hc Hl) as Hn.
    destruct (recurse f (_simplify cs (Z.abs l) true) _) as [asg'| |]; [|clear Hrec|done].
    { by apply (answers_set _ _ (Z.abs l) true); [..|lia|]. }
    destruct (recurse f (_simplify cs (Z.abs l) false) _) as [asg'| |]; [| |done].
    { by apply (answers_set _ _ (Z.abs l) false); [..|lia|]. }
    intros a Ha. destruct (a (Z.abs l)) eqn:Eal.
    + apply (Ht a). apply simplify_satisfies; [lia|done|done].
    + apply (Hfl a). apply simplify_satisfies; [lia|done|done].
Qed.

(** The assignment that a returned model stands for *)
Definition model_value (model : list Z) (v : Z) : bool := bool_decide (v ∈ model).

Lemma model_value_chosen asg n v :
  0 < v <= n ->
  model_value ((fun v => if chosen asg v then v else - v) <$> range 1 (n + 1)) v = chosen asg v.
Proof.
  intros Hv. unfold model_value. destruct (chosen asg v) eqn:E.
  - apply bool_decide_eq_true. apply list_elem_of_fmap. exists v. rewrite E.
    split; [done|]. apply elem_of_range. lia.
  - apply bool_decide_eq_false. intros (w & Hw & Hr%elem_of_range)%list_elem_of_fmap.
    destruct (chosen asg w) eqn:Ew; [congruence|lia].
Qed.

Lemma lit_true_ext a b l : a (Z.abs l) = b (Z.abs l) -> lit_true a l = lit_true b l.
Proof.
  unfold lit_true. destruct (Z.ltb_spec 0 l).
  - by rewrite Z.abs_eq by lia.
  - rewrite Z.abs_neq by lia. by intros ->.
Qed.

Lemma satisfies_ext a b cs :
  (forall c l, c ∈ cs -> l ∈ c -> a (Z.abs l) = b (Z.abs l)) -> satisfies a cs -> satisfies b cs.
Proof.
  intros He Hs c Hc. destruct (Hs c Hc) as (l & Hl & Ht). exists l. split; [done|].
  rewrite <- Ht. apply lit_true_ext. symmetry. by apply (He c).
Qed.

(** Literals over the variables [1..n] *)
Definition literals_within (n : Z) (cs : cnf) : Prop :=
  forall c l, c ∈ cs -> l ∈ c -> 1 <= Z.abs l <= n.

Lemma solve_dpll_answer cs n :
  literals_within n cs ->
  (exists model, solve_dpll cs n = Some (Some model) /\ satisfies (model_value model) cs /\
     length model = Z.to_nat n /\ forall v, 1 <= v <= n -> v ∈ model \/ - v ∈ model) \/
  (solve_dpll cs n = Some None /\ forall a, ~ satisfies a cs).
Proof.
  intros Hl. unfold solve_dpll.
  pose proof (recurse_answers (S (weight cs)) cs []) as Ha.
  destruct (recurse _ cs []) as [asg| |].
  - left. eexists. split; [done|].
    destruct Ha as [_ Hs]; [intros c l Hc Hin; specialize (Hl c l Hc Hin); lia|done|lia|].
    split_all.
    + apply (satisfies_ext (chosen asg)).
      * intros c l Hc Hin. specialize (Hl c l Hc Hin). by rewrite model_value_chosen by lia.
      * apply Hs. intros v b. unfold chosen. by intros ->.
    + rewrite length_fmap, length_range. f_equal. lia.
    + intros v Hv. destruct (chosen asg v) eqn:E; [left|right]; apply list_elem_of_fmap;
        exists v; rewrite E; (split; [done|apply elem_of_range; lia]).
  - right. split; [done|]. apply Ha; [|done|lia]. intros c l Hc Hin. specialize (Hl c l Hc Hin). lia.
  - destruct Ha; [|done|lia]. intros c l Hc Hin. specialize (Hl c l Hc Hin). lia.
Qed.

(** ** Properties *)

(** the solver always returns. A model it returns decides every
    variable from 1 to the count and satisfies every clause; [None] is returned
    only for formulas that no assignment satisfies. *)
Theorem solve_dpll_correct cs n :
  literals_within n cs ->
  match solve_dpll cs n with
  | Some (Some model) =>
      satisfies (model_value model) cs /\ length model = Z.to_nat n /\
      forall v, 1 <= v <= n -> v ∈ model \/ - v ∈ model
  | Some None => forall a, ~ satisfies a cs
  | None => False
  end.
Proof. intros Hl. by destruct (solve_dpll_answer cs n Hl) as [(model & -> & ?)|[-> ?]]. Qed.

Lemma solve_dpll_correct_witness :
  solve_dpll [[1; 2]; [-1; 2]; [1; -2]] 2 = Some (Some [1; 2]) /\
  forall a, ~ satisfies a [[1; 2]; [-1; 2]; [1; -2]; [-1; -2]].
Proof.
  split; [vm_compute; reflexivity|].
  refine (solve_dpll_correct [[1; 2]; [-1; 2]; [1; -2]; [-1; -2]] 2 _).
  intros c l Hc Hl. apply list_elem_of_In in Hc, Hl. cbn in Hc.
  destruct Hc as [<-|[<-|[<-|[<-|[]]]]]; cbn in Hl; lia.
Defined.
