(* ===== verification/Sat.v ===== *)
(** * The SAT encoding of the search for a counterexample

    [src/src/sglab/sat.py] without its solver (file Dpll) and without the
    PySAT process: the edge variables, the base formula, the
    clauses learned from cycles and from components, and [tiny_cegar], the
    counterexample-guided loop whose UNSAT answer is ground truth. *)

From stdpp Require Import gmap sorting.
From S2P Require Import Prelude Bits Model Cycles Graph6 Verification Dpll.

#[global] Open Scope Z_scope.

(** ** [EdgeVariables], the dataclass whose only field is the order [n] *)

Definition variable (n u v : Z) : res Z :=
  raise_if (u =? v) (ValueError "loops have no SAT variable") ;;;
  let '(u, v) := if v <? u then (v, u) else (u, v) in
  Ok (1 + u * (2 * n - u - 1) / 2 + (v - u - 1)).

Definition count (n : Z) : Z := n * (n - 1) / 2.

Definition is_ok_value (r : res Z) (x : Z) : bool := match r with Ok y => y =? x | Raise _ => false end.

Definition edge (n x : Z) : res (Z * Z) :=
  match first_some (fun uv : Z * Z => if is_ok_value (variable n uv.1 uv.2) x then Some uv else None) (pairs n) with
  | Some uv => Ok uv
  | None => Raise (ValueError "variable is outside edge range")
  end.

(** ** [base_cnf] *)

(** A list comprehension whose element expression may raise *)
Fixpoint comprehend {A B} (f : A -> res B) (l : list A) : res (list B) :=
  match l with
  | [] => Ok []
  | x :: l' => y ← f x; ys ← comprehend f l'; Ok (y :: ys)
  end.

(** [itertools.combinations(l, k)] *)
Fixpoint combinations {A} (l : list A) (k : nat) : list (list A) :=
  match k, l with
  | O, _ => [[]]
  | S _, [] => []
  | S k', x :: l' => (cons x <$> combinations l' k') ++ combinations l' k
  end.

(** [[variables.variable(vertex, other) for other in range(n) if other != vertex]] *)
Definition incident (n vertex : Z) : res (list Z) :=
  comprehend (variable n vertex) (filter (fun other => other <> vertex) (range 0 n)).

Definition base_step (n : Z) (clauses : cnf) (vertex : Z) : res cnf :=
  inc ← incident n vertex;
  Ok (clauses ++ combinations inc (length inc - 2)).

Definition base_cnf (n : Z) : res cnf :=
  raise_if (n <? 4) (ValueError "minimum degree 3 requires order at least 4") ;;;
  raise_if (40 <? n) (ValueError "the v1 SAT path is limited to order 40") ;;;
  clauses ← foldM (base_step n) [] (range 0 n);
  x ← variable n 0 1;
  Ok (clauses ++ [[x]]).

(** ** Learned clauses *)

Definition cycle_clause (n : Z) (cycle : list Z) : res clause :=
  raise_if ((length cycle <? 3)%nat || negb (base.size (list_to_set cycle : gset Z) =? length cycle)%nat)
    (ValueError "cycle witness must contain distinct vertices") ;;;
  comprehend (fun index =>
    u ← py_index cycle index;
    v ← py_index cycle ((index + 1) mod Z.of_nat (length cycle));
    x ← variable n u v; Ok (- x))
    (range 0 (Z.of_nat (length cycle))).

(** [sorted] and [min] of a set *)
Definition sorted (s : gset Z) : list Z := merge_sort Z.le (elements s).
Definition set_min (s : gset Z) : option Z := head (sorted s).

(** The state of the inner loop of [_components] *)
Record Walk := mkWalk { remaining : gset Z; component : gset Z; frontier : list Z }.

Definition walk_step (w : Walk) (v : Z) : Walk :=
  if decide (v ∈ remaining w)
  then mkWalk (remaining w ∖ {[v]}) (component w ∪ {[v]}) (frontier w ++ [v])
  else w.

(** [while frontier: u = frontier.pop()], which takes the last vertex *)
Fixpoint walk (fuel : nat) (g : BitGraph) (w : Walk) : option Walk :=
  match frontier w with
  | [] => Some w
  | _ =>
      match fuel, list.last (frontier w) with
      | S f, Some u =>
          walk f g (foldl walk_step (mkWalk (remaining w) (component w) (removelast (frontier w)))
                      (neighbors g u))
      | _, _ => None
      end
  end.

(** [while remaining]; every turn takes a vertex out, as does every turn of the
    inner loop, so [n] turns of each are enough ([components_spec]). *)
Fixpoint components_from (fuel : nat) (g : BitGraph) (rest : gset Z) : option (list (gset Z)) :=
  match set_min rest with
  | None => Some []
  | Some start =>
      match fuel with
      | O => None
      | S f =>
          match walk (Z.to_nat (gn g)) g (mkWalk (rest ∖ {[start]}) {[start]} [start]) with
          | Some w => cs ← components_from f g (remaining w); Some (component w :: cs)
          | None => None
          end
      end
  end.

Definition vertex_set (n : Z) : gset Z := list_to_set (range 0 n).

Definition _components (g : BitGraph) : option (list (gset Z)) :=
  components_from (Z.to_nat (gn g)) g (vertex_set (gn g)).

Definition connectedness_clause (n : Z) (comp : gset Z) : res clause :=
  let outside := vertex_set n ∖ comp in
  comprehend (fun uv : Z * Z => variable n uv.1 uv.2)
    (u ← sorted comp; v ← sorted outside; [(u, v)]).

Definition decode_model (n : Z) (model : list Z) : res BitGraph :=
  let positive := filter (fun l => 0 < l) model in
  es ← foldM (fun es (uv : Z * Z) =>
         x ← variable n uv.1 uv.2;
         Ok (if bool_decide (x ∈ positive) then es ++ [uv] else es)) [] (pairs n);
  from_edges n es.

(** ** [tiny_cegar] *)

Inductive Learned :=
  | LearnedConnectedness (cl : clause)
  | LearnedCycle (cycle : list Z) (cl : clause).

(** The dict that the loop returns, by its [outcome] *)
Inductive Outcome :=
  | UNSAT_GROUND_TRUTH (iterations : Z) (learned : list Learned)
  | SAT_CANDIDATE (iterations : Z) (graph6 : list Z) (learned : list Learned).

(** The body of the loop: the answer, or the clause to add with its record *)
Definition cegar_step (n : Z) (clauses : cnf) : res (option (BitGraph + (clause * Learned) + unit)) :=
  match solve_dpll clauses (count n) with
  | None => Ok None
  | Some None => Ok (Some (inr tt))
  | Some (Some model) =>
      g ← decode_model n model;
      match _components g with
      | None => Ok None
      | Some comps =>
          if (1 <? length comps)%nat then
            cl ← connectedness_clause n (hd ∅ comps);
            Ok (Some (inl (inr (cl, LearnedConnectedness cl))))
          else
            let result := verify_reference 0 g in
            if bool_decide (status result = VERIFIED) then Ok (Some (inl (inl g)))
            else
              witness ← py_index (witnesses result) 0;
              cl ← cycle_clause n (vertices witness);
              Ok (Some (inl (inr (cl, LearnedCycle (vertices witness) cl))))
      end
  end.

(** [while True]; [Ok None] is running out of fuel. *)
Fixpoint cegar_loop (fuel : nat) (n : Z) (clauses : cnf) (learned : list Learned) (iterations : Z)
  : res (option Outcome) :=
  match fuel with
  | O => Ok None
  | S f =>
      r ← cegar_step n clauses;
      match r with
      | None => Ok None
      | Some (inr _) => Ok (Some (UNSAT_GROUND_TRUTH iterations learned))
      | Some (inl (inl g)) =>
          g6 ← to_graph6 g; Ok (Some (SAT_CANDIDATE (iterations + 1) g6 learned))
      | Some (inl (inr (cl, record))) =>
          cegar_loop f n (clauses ++ [cl]) (learned ++ [record]) (iterations + 1)
      end
  end.

(** Every turn excludes the assignment it was given, so one turn per assignment
    and one more are enough ([cegar_loop_returns]). *)
Definition cegar_fuel (n : Z) : nat := S (2 ^ Z.to_nat (count n)).

Definition tiny_cegar (n : Z) : res (option Outcome) :=
  raise_if (6 <? n) (ValueError "the built-in DPLL solver is limited to order 6") ;;;
  clauses ← base_cnf n;
  cegar_loop (cegar_fuel n) n clauses [] 0.

(** ** The edge variables *)

Definition vnum (n u v : Z) : Z := 1 + u * (2 * n - u - 1) / 2 + (v - u - 1).

(** The variable of a pair in either order *)
Definition var (n u v : Z) : Z := if v <? u then vnum n v u else vnum n u v.

Lemma variable_ok n u v : u <> v -> variable n u v = Ok (var n u v).
Proof.
  intros Hne. unfold variable, var. replace (u =? v) with false by lia. cbn. by destruct (v <? u).
Qed.

Lemma var_comm n u v : var n u v = var n v u.
Proof.
  unfold var. destruct (Z.ltb_spec v u), (Z.ltb_spec u v); try done; [lia|].
  by replace u with v by lia.
Qed.

(** The number of the first variable of row [u], less one *)
Lemma row_start n u : 0 <= u -> (u + 1) * (2 * n - (u + 1) - 1) / 2 = u * (2 * n - u - 1) / 2 + (n - u - 1).
Proof.
  intros Hu. replace ((u + 1) * (2 * n - (u + 1) - 1)) with (u * (2 * n - u - 1) + (n - u - 1) * 2) by ring.
  by rewrite Z.div_add by lia.
Qed.

Lemma fmap_range_shift (f : Z -> Z) k a b :
  (forall x, f x = x + k) -> f <$> range a b = range (a + k) (b + k).
Proof.
  intros Hf. unfold range. replace (b + k - (a + k)) with (b - a) by lia.
  apply list_eq. intros i. rewrite list_lookup_fmap.
  destruct (decide (i < Z.to_nat (b - a))%nat) as [Hi|Hi].
  - rewrite !lookup_seqZ_lt by lia. cbn. f_equal. rewrite Hf. lia.
  - rewrite !lookup_seqZ_ge by lia. done.
Qed.

(** The variables of the pairs, in the order of the loops, are 1, 2, 3, ... *)
Lemma vnum_pairs n :
  0 <= n -> (fun uv : Z * Z => vnum n uv.1 uv.2) <$> pairs n = range 1 (count n + 1).
Proof.
  intros Hn. assert (forall k, 0 <= k -> k <= n ->
    (fun uv : Z * Z => vnum n uv.1 uv.2) <$> (u ← range 0 k; (fun v => (u, v)) <$> range (u + 1) n) =
    range 1 (1 + k * (2 * n - k - 1) / 2)) as H.
  { refine (natlike_ind _ _ _); [done|]. intros k Hk IH Hkn. rewrite <- Z.add_1_r, range_snoc by lia.
    rewrite bind_app, fmap_app, IH by lia. cbn [mbind list_bind]. rewrite app_nil_r, <- list_fmap_compose.
    assert (0 <= k * (2 * n - k - 1) / 2) as Hs by (apply Z.div_pos; [nia|lia]).
    rewrite row_start by lia. unfold vnum, compose. cbn [fst snd].
    set (s := k * (2 * n - k - 1) / 2) in *.
    rewrite (fmap_range_shift _ (s - k)) by (intros; lia).
    rewrite (range_app 1 (1 + s) (1 + (s + (n - k - 1)))) by lia. do 2 f_equal; lia. }
  unfold pairs. rewrite (H n Hn) by lia. unfold count.
  replace (2 * n - n - 1) with (n - 1) by lia. f_equal. lia.
Qed.

Lemma NoDup_fmap_inj_on {A B} (f : A -> B) l x y :
  NoDup (f <$> l) -> x ∈ l -> y ∈ l -> f x = f y -> x = y.
Proof.
  intros Hnd (i & Hi)%list_elem_of_lookup (j & Hj)%list_elem_of_lookup He.
  assert (i = j) as ->; [|congruence].
  apply (NoDup_lookup (f <$> l) i j (f x)); [done|..]; rewrite list_lookup_fmap.
  - by rewrite Hi.
  - by rewrite Hj, He.
Qed.

(** A pair of distinct vertices of a graph on [n] vertices *)
Definition valid_pair (n u v : Z) : Prop := 0 <= u < n /\ 0 <= v < n /\ u <> v.

Lemma vnum_bounds n u v : (u, v) ∈ pairs n -> 1 <= vnum n u v <= count n.
Proof.
  intros Hin. assert (0 <= n) as Hn by (apply elem_of_pairs in Hin; lia).
  assert (vnum n u v ∈ range 1 (count n + 1)) as H%elem_of_range; [|lia].
  rewrite <- vnum_pairs by done. apply list_elem_of_fmap. by exists (u, v).
Qed.

Lemma vnum_inj n e f :
  e ∈ pairs n -> f ∈ pairs n -> vnum n e.1 e.2 = vnum n f.1 f.2 -> e = f.
Proof.
  intros He Hf. assert (0 <= n) as Hn by (destruct e; apply elem_of_pairs in He; lia).
  apply (NoDup_fmap_inj_on (fun uv : Z * Z => vnum n uv.1 uv.2) (pairs n)); [|done|done].
  rewrite vnum_pairs by done. apply NoDup_range.
Qed.

(** The pair of a variable, smaller vertex first *)
Definition ordered (u v : Z) : Z * Z := if v <? u then (v, u) else (u, v).

Lemma var_ordered n u v : var n u v = vnum n (ordered u v).1 (ordered u v).2.
Proof. unfold var, ordered. by destruct (v <? u). Qed.

Lemma ordered_pair n u v : valid_pair n u v -> ordered u v ∈ pairs n.
Proof.
  intros (? & ? & ?). unfold ordered. destruct (Z.ltb_spec v u); apply elem_of_pairs; lia.
Qed.

Lemma var_bounds n u v : valid_pair n u v -> 1 <= var n u v <= count n.
Proof.
  intros Hp. rewrite var_ordered. apply vnum_bounds. rewrite <- surjective_pairing.
  by apply ordered_pair.
Qed.

Lemma var_inj n u v a b :
  valid_pair n u v -> valid_pair n a b -> var n u v = var n a b ->
  (u = a /\ v = b) \/ (u = b /\ v = a).
Proof.
  intros H1 H2. rewrite !var_ordered. intros He.
  apply vnum_inj in He; [|by apply ordered_pair..]. unfold ordered in He.
  destruct (v <? u), (b <? a); injection He as -> ->; auto.
Qed.

(** [edge] inverts [variable]. *)
Lemma edge_spec n x :
  0 <= n ->
  (forall e, edge n x = Ok e <-> e ∈ pairs n /\ vnum n e.1 e.2 = x) /\
  ((exists e, edge n x = Ok e) <-> 1 <= x <= count n).
Proof.
  intros Hn. assert (forall e, e ∈ pairs n -> is_ok_value (variable n e.1 e.2) x = (vnum n e.1 e.2 =? x)) as Hv.
  { intros [u v] [? ?]%elem_of_pairs. cbn. rewrite variable_ok by lia. cbn. unfold var.
    by replace (v <? u) with false by lia. }
  assert (forall e, edge n x = Ok e <-> e ∈ pairs n /\ vnum n e.1 e.2 = x) as Hiff.
  { intros e. unfold edge. destruct (first_some _ (pairs n)) as [f|] eqn:E.
    - apply first_some_Some in E as (f' & Hin & Hf). rewrite Hv in Hf by done.
      destruct (Z.eqb_spec (vnum n f'.1 f'.2) x) as [Hx|]; [|done]. injection Hf as ->. split.
      + intros [= <-]. done.
      + intros [He Hx']. f_equal. apply (vnum_inj n); [done..|congruence].
    - rewrite first_some_None in E. split; [done|]. intros [He Hx]. specialize (E e He).
      rewrite Hv in E by done. by replace (vnum n e.1 e.2 =? x) with true in E by lia. }
  split; [done|]. setoid_rewrite Hiff. split.
  - intros ([u v] & He & <-). by apply vnum_bounds.
  - intros Hx. assert (x ∈ (fun uv : Z * Z => vnum n uv.1 uv.2) <$> pairs n) as Hin.
    { rewrite vnum_pairs by done. apply elem_of_range. lia. }
    apply list_elem_of_fmap in Hin as (e & -> & ?). by exists e.
Qed.

(** ** Assignments and graphs *)

(** The assignment describes the graph. *)
Definition describes (a : Z -> bool) (g : BitGraph) : Prop :=
  forall u v, valid_pair (gn g) u v -> a (var (gn g) u v) = adj g u v.

(** The assignment a graph has *)
Definition graph_value (g : BitGraph) (x : Z) : bool :=
  match edge (gn g) x with Ok e => adj g e.1 e.2 | Raise _ => false end.

Lemma graph_value_describes g : wf g -> describes (graph_value g) g.
Proof.
  intros Hg u v Hp. unfold graph_value. rewrite var_ordered.
  assert (edge (gn g) (vnum (gn g) (ordered u v).1 (ordered u v).2) = Ok (ordered u v)) as ->.
  { apply edge_spec; [apply (wf_n g Hg)|]. split; [by apply ordered_pair|done]. }
  unfold ordered. destruct (v <? u); cbn; [apply (wf_sym g Hg)|done].
Qed.

Lemma adj_valid_pair g u v : wf g -> adj g u v = true -> valid_pair (gn g) u v.
Proof.
  intros Hg Ha. pose proof (wf_range g Hg u v Ha) as [Hu Hv]. unfold valid_pair, vertex in *.
  split_all; [apply Hu|apply Hu|apply Hv|apply Hv|]. intros ->. by rewrite (wf_irrefl g Hg) in Ha.
Qed.

(** The graph with a given symmetric edge predicate *)
Lemma graph_of_predicate n (f : Z -> Z -> bool) :
  0 <= n ->
  exists g, from_edges n (filter (fun e => f e.1 e.2 = true) (pairs n)) = Ok g /\ wf g /\ gn g = n /\
    ((forall u v, valid_pair n u v -> f u v = f v u) -> forall u v, valid_pair n u v -> adj g u v = f u v).
Proof.
  intros Hn. set (es := filter _ _).
  destruct (from_edges_total n es Hn) as (g & Hok & Hg & Hgn & Ha).
  { apply simple_edges_ordered; [apply NoDup_filter, NoDup_pairs|].
    intros u v [_ ?]%list_elem_of_filter. by apply elem_of_pairs. }
  exists g. split_all; [done..|]. intros Hf u v Hp. rewrite Ha. apply eq_true_iff_eq.
  rewrite edge_in_true. unfold es. rewrite !list_elem_of_filter, !elem_of_pairs. cbn.
  rewrite (Hf v u) by (destruct Hp as (? & ? & ?); unfold valid_pair; auto).
  destruct Hp as (? & ? & ?). split; [tauto|]. intros ?.
  destruct (Z.lt_ge_cases u v); [left|right]; (split; [done|lia]).
Qed.

Lemma decode_model_spec n model :
  0 <= n ->
  exists h, decode_model n model = Ok h /\ wf h /\ gn h = n /\ describes (model_value model) h.
Proof.
  intros Hn. unfold decode_model.
  assert (forall l es, (forall e, e ∈ l -> e ∈ pairs n) ->
    foldM (fun es (uv : Z * Z) => x ← variable n uv.1 uv.2;
      Ok (if bool_decide (x ∈ filter (fun l => 0 < l) model) then es ++ [uv] else es)) es l =
    Ok (es ++ filter (fun e => model_value model (var n e.1 e.2) = true) l)) as Hfold.
  { induction l as [|[u v] l IH]; intros es Hl; [by rewrite app_nil_r|]. cbn [foldM fst snd].
    assert ((u, v) ∈ pairs n) as Hin by (apply Hl; set_solver).
    apply elem_of_pairs in Hin as Huv. rewrite variable_ok by lia. cbn [mbind res_bind].
    rewrite filter_cons. cbn [fst snd].
    assert (bool_decide (var n u v ∈ filter (fun l => 0 < l) model) = model_value model (var n u v)) as ->.
    { unfold model_value. apply bool_decide_ext. rewrite list_elem_of_filter.
      pose proof (var_bounds n u v). unfold valid_pair in *. split; [tauto|]. split; [lia|done]. }
    rewrite IH by (intros; apply Hl; set_solver).
    destruct (model_value model (var n u v)); case_decide; try done; try congruence.
    by rewrite <- app_assoc. }
  rewrite Hfold by done. cbn [mbind res_bind app].
  destruct (graph_of_predicate n (fun u v => model_value model (var n u v)) Hn) as (h & Hok & Hh & Hhn & Ha).
  exists h. split_all; [done..|]. intros u v Hp. rewrite Hhn in *. rewrite Ha; [done| |done].
  intros a b _. by rewrite var_comm.
Qed.

(** ** Components *)

Lemma elem_of_sorted s x : x ∈ sorted s <-> x ∈ s.
Proof. unfold sorted. by rewrite merge_sort_Permutation, elem_of_elements. Qed.

Lemma set_min_Some s x : set_min s = Some x -> x ∈ s.
Proof.
  unfold set_min. intros H. apply elem_of_sorted. destruct (sorted s); [done|].
  injection H as ->. set_solver.
Qed.

Lemma set_min_None s : set_min s = None -> s = ∅.
Proof.
  unfold set_min. intros H. apply elem_of_equiv_empty_L. intros x. rewrite <- elem_of_sorted.
  destruct (sorted s); [set_solver|done].
Qed.

Lemma elem_of_vertex_set n v : v ∈ vertex_set n <-> 0 <= v < n.
Proof. unfold vertex_set. by rewrite elem_of_list_to_set, elem_of_range. Qed.

Lemma size_vertex_set n : base.size (vertex_set n) = Z.to_nat n.
Proof.
  unfold vertex_set. rewrite size_list_to_set by apply NoDup_range. rewrite length_range. f_equal. lia.
Qed.

Definition closed (g : BitGraph) (s : gset Z) : Prop :=
  forall u v, u ∈ s -> adj g u v = true -> v ∈ s.

Lemma size_remove (s : gset Z) x : x ∈ s -> base.size s = S (base.size (s ∖ {[x]})).
Proof.
  intros Hx. rewrite (union_difference_singleton_L x s Hx) at 1.
  rewrite size_union, size_singleton; [done|]. set_solver.
Qed.

Section Walk.
Context (g : BitGraph) (Hg : wf g) (region : gset Z) (start : Z).
Hypothesis Hregion : forall x, x ∈ region -> vertex g x.

Record walk_inv (w : Walk) : Prop := {
  wi_split : forall x, x ∈ region <-> x ∈ component w \/ x ∈ remaining w;
  wi_disjoint : forall x, x ∈ component w -> x ∉ remaining w;
  wi_frontier : forall x, x ∈ frontier w -> x ∈ component w;
  wi_reach : forall x, x ∈ component w -> rtc (edge_rel g) start x;
  wi_closed : forall u v, u ∈ component w -> u ∉ frontier w -> adj g u v = true ->
    v ∈ region -> v ∈ component w;
  wi_start : start ∈ component w
}.

Definition todo (w : Walk) : nat := length (frontier w) + base.size (remaining w).

(** Membership facts that differ in one vertex *)
Ltac member H :=
  let x := fresh in
  intros x; rewrite H, ?elem_of_app, ?elem_of_union, ?elem_of_difference, ?elem_of_singleton,
    ?list_elem_of_singleton, ?elem_of_cons;
  match goal with v : Z |- _ => destruct (decide (x = v)) as [->|]; tauto end.

(** What the scan of a neighbour list does *)
Lemma scan_spec l w :
  let w' := foldl walk_step w l in
  (forall x, x ∈ component w' <-> x ∈ component w \/ (x ∈ remaining w /\ x ∈ l)) /\
  (forall x, x ∈ remaining w' <-> x ∈ remaining w /\ x ∉ l) /\
  (forall x, x ∈ frontier w' <-> x ∈ frontier w \/ (x ∈ remaining w /\ x ∈ l)) /\
  todo w' = todo w.
Proof.
  revert w. induction l as [|v l IH]; intros w w'; [unfold w'; cbn [foldl]; split_all; [intros x; rewrite elem_of_nil; tauto..|done]|].
  unfold w'. cbn [foldl]. destruct (IH (walk_step w v)) as (Hc & Hr & Hf & Ht).
  unfold walk_step in *. destruct (decide (v ∈ remaining w)) as [Hin|Hnin].
  - cbn [remaining component frontier] in *. split_all; [member Hc|member Hr|member Hf|].
    rewrite Ht. unfold todo. cbn [remaining frontier]. rewrite length_app.
    pose proof (size_remove (remaining w) v Hin). cbn. lia.
  - split_all; [member Hc|member Hr|member Hf|done].
Qed.

Lemma walk_turn w u :
  walk_inv w -> list.last (frontier w) = Some u ->
  walk_inv (foldl walk_step (mkWalk (remaining w) (component w) (removelast (frontier w))) (neighbors g u)) /\
  S (todo (foldl walk_step (mkWalk (remaining w) (component w) (removelast (frontier w))) (neighbors g u))) =
    todo w.
Proof.
  intros Hi Hl. pose proof (removelast_last _ _ Hl) as Hfr.
  set (w0 := mkWalk _ _ _). destruct (scan_spec (neighbors g u) w0) as (Hc & Hr & Hf & Ht).
  assert (u ∈ component w) as Hu by (apply (wi_frontier _ Hi); rewrite Hfr; set_solver).
  assert (forall x, x ∈ neighbors g u <-> adj g u x = true) as Hnb.
  { intros x. apply elem_of_neighbors; [done|]. apply Hregion, (wi_split _ Hi). by left. }
  set (w' := foldl _ _ _) in *. cbn [remaining component frontier w0] in *. split.
  - split.
    + intros x. rewrite Hc, Hr, (wi_split _ Hi). destruct (decide (x ∈ neighbors g u)); tauto.
    + intros x. rewrite Hc, Hr. intros [?|[? ?]]; [|tauto]. pose proof (wi_disjoint _ Hi x). tauto.
    + intros x. rewrite Hf, Hc. intros [Hx|?]; [|tauto]. left. apply (wi_frontier _ Hi).
      rewrite Hfr. set_solver.
    + intros x. rewrite Hc. intros [?|[_ Hx]]; [by apply (wi_reach _ Hi)|].
      apply rtc_r with u; [by apply (wi_reach _ Hi)|]. by apply Hnb.
    + intros a b. rewrite !Hc, Hf. intros Ha Hna Hab Hb.
      apply (wi_split _ Hi) in Hb as [Hb|Hb]; [by left|].
      destruct Ha as [Ha|[Ha Hn]]; [|tauto].
      destruct (decide (a = u)) as [->|Hne]; [right; split; [done|by apply Hnb]|].
      left. apply (wi_closed _ Hi a b); [done| |done|apply (wi_split _ Hi); tauto].
      rewrite Hfr. set_solver.
    + rewrite Hc. left. apply (wi_start _ Hi).
  - rewrite Ht. unfold todo. cbn [w0 remaining frontier]. rewrite Hfr at 2.
    rewrite length_app. cbn. lia.
Qed.

Lemma walk_returns fuel w :
  walk_inv w -> (todo w <= fuel)%nat ->
  exists w', walk fuel g w = Some w' /\ walk_inv w' /\ frontier w' = [].
Proof.
  revert w. induction fuel as [|f IH]; intros w Hi Hf; cbn [walk].
  - unfold todo in Hf. destruct (frontier w) eqn:E; [by exists w|cbn in Hf; lia].
  - destruct (frontier w) as [|x l] eqn:E; [by exists w|].
    destruct (list.last (x :: l)) as [u|] eqn:El; [|by apply last_None in El].
    rewrite <- E in El. destruct (walk_turn w u Hi El) as [Hi' Ht].
    rewrite <- E. apply IH; [done|]. rewrite E in *. lia.
Qed.
End Walk.

(** A connected component, within a region *)
Definition is_component (g : BitGraph) (c : gset Z) : Prop :=
  (exists x, x ∈ c) /\ closed g c /\ forall x y, x ∈ c -> y ∈ c -> rtc (edge_rel g) x y.

Lemma walk_component g region start :
  wf g -> closed g region -> (forall x, x ∈ region -> vertex g x) -> start ∈ region ->
  exists w, walk (Z.to_nat (gn g)) g (mkWalk (region ∖ {[start]}) {[start]} [start]) = Some w /\
    is_component g (component w) /\ closed g (remaining w) /\ start ∈ component w /\
    (forall x, x ∈ region <-> x ∈ component w \/ x ∈ remaining w) /\
    (forall x, x ∈ component w -> x ∉ remaining w).
Proof.
  intros Hg Hcl Hreg Hs. set (w0 := mkWalk _ _ _).
  assert (walk_inv g region start w0) as Hi0.
  { split; cbn; [intros x; destruct (decide (x = start)); set_solver|set_solver..| |set_solver|set_solver].
    intros x ->%elem_of_singleton. apply rtc_refl. }
  destruct (walk_returns g Hg region start Hreg (Z.to_nat (gn g)) w0 Hi0) as (w & Hw & Hi & Hfr).
  { assert (base.size region <= base.size (vertex_set (gn g)))%nat as Hle.
    { apply subseteq_size. intros x Hx. apply elem_of_vertex_set. by apply Hreg. }
    rewrite size_vertex_set, (size_remove region start Hs) in Hle. unfold todo, w0. cbn. lia. }
  exists w. split; [done|].
  assert (closed g (component w)) as Hc.
  { intros u v Hu Ha. apply (wi_closed _ _ _ _ Hi u v Hu); [rewrite Hfr; set_solver|done|].
    apply (Hcl u v); [|done]. apply (wi_split _ _ _ _ Hi). by left. }
  split_all.
  - split; [exists start; by apply (wi_start _ _ _ _ Hi)|]. split; [done|]. intros x y Hx Hy.
    transitivity start; [apply rtc_edge_sym; [done|]|]; by apply (wi_reach _ _ _ _ Hi).
  - intros u v Hu Ha. assert (v ∈ region) as Hv.
    { apply (Hcl u v); [|done]. apply (wi_split _ _ _ _ Hi). by right. }
    apply (wi_split _ _ _ _ Hi) in Hv as [Hv|]; [|done].
    exfalso. apply (wi_disjoint _ _ _ _ Hi u); [|done]. apply (Hc v u Hv).
    by rewrite (wf_sym g Hg).
  - apply (wi_start _ _ _ _ Hi).
  - apply (wi_split _ _ _ _ Hi).
  - apply (wi_disjoint _ _ _ _ Hi).
Qed.

(** The components of a region: they cover it and are disjoint. *)
Definition partitions (g : BitGraph) (region : gset Z) (cs : list (gset Z)) : Prop :=
  Forall (is_component g) cs /\
  (forall x, x ∈ region <-> exists c, c ∈ cs /\ x ∈ c) /\
  forall pre c post x, cs = pre ++ c :: post -> x ∈ c -> forall d, d ∈ pre ++ post -> x ∉ d.

Lemma partitions_empty g : partitions g ∅ [].
Proof.
  split; [by constructor|]. split; [set_solver|]. intros pre c post x Heq. by destruct pre.
Qed.

Lemma components_from_spec fuel g region :
  wf g -> closed g region -> (forall x, x ∈ region -> vertex g x) ->
  (base.size region <= fuel)%nat ->
  exists cs, components_from fuel g region = Some cs /\ partitions g region cs.
Proof.
  intros Hg. revert region. induction fuel as [|f IH]; intros region Hcl Hreg Hf; cbn [components_from];
    (destruct (set_min region) as [start|] eqn:Em;
      [apply set_min_Some in Em; pose proof (size_remove region start Em)
      |apply set_min_None in Em as ->; exists []; split; [done|apply partitions_empty]]); [lia|].
  destruct (walk_component g region start Hg Hcl Hreg Em) as (w & -> & Hc & Hr & Hs & Hsp & Hd).
  destruct (IH (remaining w)) as (cs & -> & Hall & Hcov & Hdis); [done| | |].
  { intros x Hx. apply Hreg, Hsp. by right. }
  { assert (base.size (remaining w) <= base.size (region ∖ {[start]}))%nat; [|lia].
    apply subseteq_size. intros x Hx. apply elem_of_difference. split; [apply Hsp; by right|].
    intros ->%elem_of_singleton. by apply (Hd start). }
  exists (component w :: cs). split; [done|]. split; [by constructor|]. split.
  - intros x. rewrite Hsp, Hcov. set_solver.
  - intros pre c post x Heq Hx d Hdin Hxd. destruct pre as [|p pre]; cbn in Heq, Hdin; injection Heq as Hp Hcs.
    + subst c post. apply (Hd x Hx). apply Hcov. by exists d.
    + subst p. apply elem_of_cons in Hdin as [->|Hdin].
      * apply (Hd x Hxd). apply Hcov. exists c. rewrite Hcs. set_solver.
      * by apply (Hdis pre c post x Hcs Hx d).
Qed.

Lemma components_spec g :
  wf g -> exists cs, _components g = Some cs /\ partitions g (vertex_set (gn g)) cs.
Proof.
  intros Hg. unfold _components. apply components_from_spec; [done|..].
  - intros u v _ Ha. apply (wf_range g Hg) in Ha as [_ ?]. by apply elem_of_vertex_set.
  - intros x. apply elem_of_vertex_set.
  - by rewrite size_vertex_set.
Qed.

(** ** The base formula *)

Lemma comprehend_ok {A B} (f : A -> res B) (h : A -> B) l :
  (forall x, x ∈ l -> f x = Ok (h x)) -> comprehend f l = Ok (h <$> l).
Proof.
  induction l as [|x l IH]; intros Hf; [done|]. cbn [comprehend].
  rewrite Hf by set_solver. cbn [mbind res_bind]. rewrite IH by (intros; apply Hf; set_solver). done.
Qed.

Definition others (n u : Z) : list Z := filter (fun v => v <> u) (range 0 n).

Lemma incident_ok n u : incident n u = Ok (var n u <$> others n u).
Proof.
  apply comprehend_ok. intros v [Hne _]%list_elem_of_filter. by apply variable_ok.
Qed.

Lemma elem_of_combinations {A} (l c : list A) k :
  c ∈ combinations l k <-> c `sublist_of` l /\ length c = k.
Proof.
  revert c k. induction l as [|x l IH]; intros c [|k]; cbn [combinations].
  - rewrite list_elem_of_singleton. split; [by intros ->|]. intros [_ ?]. by destruct c.
  - split; [set_solver|]. intros [->%sublist_nil_r ?]. done.
  - rewrite list_elem_of_singleton. split; [intros ->; split; [apply sublist_nil_l|done]|].
    intros [_ ?]. by destruct c.
  - rewrite elem_of_app, list_elem_of_fmap. setoid_rewrite IH. split.
    + intros [(d & -> & Hs & Hl)|[Hs Hl]]; cbn; split; auto; [by constructor|by constructor].
    + intros [Hs Hl]. inversion Hs; subst; [left|right].
      * eexists. split; [done|]. cbn in Hl. auto.
      * auto.
Qed.

Lemma filter_sublist_mono {A} (P : A -> Prop) `{forall x, Decision (P x)} (c l : list A) :
  c `sublist_of` l -> filter P c `sublist_of` filter P l.
Proof.
  induction 1; [done|..]; rewrite ?filter_cons; repeat case_decide; first [done|by constructor].
Qed.

Lemma length_filter_bool {A} (f : A -> bool) (l : list A) :
  length l = (length (filter (fun x => f x = true) l) + length (filter (fun x => f x = false) l))%nat.
Proof.
  induction l as [|x l IH]; [done|]. rewrite !filter_cons. destruct (f x); repeat case_decide; cbn; try done; lia.
Qed.

(** Every [d - 2] of [d] variables contain a true one exactly when three of the
    [d] are true. *)
Lemma at_least_three a l :
  (forall x, x ∈ l -> 0 < x) -> (3 <= length l)%nat ->
  satisfies a (combinations l (length l - 2)) <-> (3 <= length (filter (fun x => a x = true) l))%nat.
Proof.
  intros Hpos Hl. pose proof (length_filter_bool a l) as Hcount. split.
  - intros Hs. apply Nat.nlt_ge. intros Hlt.
    destruct (Hs (take (length l - 2) (filter (fun x => a x = false) l))) as (x & Hx & Ht).
    + apply elem_of_combinations. split; [|rewrite length_take; lia].
      transitivity (filter (fun x => a x = false) l); [apply sublist_take|apply sublist_filter].
    + apply elem_of_take in Hx as (i & Hi & _). apply list_elem_of_lookup_2 in Hi.
      apply list_elem_of_filter in Hi as [Hf Hin]. unfold lit_true in Ht.
      specialize (Hpos x Hin). replace (0 <? x) with true in Ht by lia. congruence.
  - intros H3 c [Hs Hc]%elem_of_combinations.
    destruct (decide (Exists (fun x => a x = true) c)) as [He|He].
    + apply Exists_exists in He as (x & Hx & Ha). exists x. split; [done|]. unfold lit_true.
      assert (x ∈ l) as Hin by (by apply (elem_of_sublist _ _ _ Hx Hs)).
      specialize (Hpos x Hin). by replace (0 <? x) with true by lia.
    + exfalso. pose proof (filter_sublist_mono (fun x => a x = false) _ _ Hs) as Hsub.
      rewrite (filter_all _ c) in Hsub.
      * apply sublist_length in Hsub. lia.
      * intros x Hx. destruct (a x) eqn:E; [|done]. destruct He. apply Exists_exists. eauto.
Qed.

Lemma base_step_ok n cs u :
  base_step n cs u = Ok (cs ++ combinations (var n u <$> others n u) (length (others n u) - 2)).
Proof. unfold base_step. rewrite incident_ok. cbn [mbind res_bind]. by rewrite length_fmap. Qed.

Lemma base_fold n l cs :
  foldM (base_step n) cs l =
  Ok (cs ++ (u ← l; combinations (var n u <$> others n u) (length (others n u) - 2))).
Proof.
  revert cs. induction l as [|u l IH]; intros cs; cbn [foldM]; [by rewrite app_nil_r|].
  rewrite base_step_ok. cbn [mbind res_bind]. rewrite IH, <- app_assoc. done.
Qed.

Lemma length_others n u : 0 <= u < n -> length (others n u) = Z.to_nat (n - 1).
Proof.
  intros Hu. unfold others. rewrite (range_app 0 u n), (range_cons u n), filter_app by lia.
  rewrite filter_cons_False by tauto.
  rewrite !filter_all by (intros x Hx%elem_of_range; lia).
  rewrite length_app, !length_range. lia.
Qed.

Lemma elem_of_others n u v : v ∈ others n u <-> 0 <= v < n /\ v <> u.
Proof. unfold others. rewrite list_elem_of_filter, elem_of_range. tauto. Qed.

Lemma degree_others a g u :
  wf g -> describes a g -> vertex g u ->
  degree g u = Z.of_nat (length (filter (fun x => a x = true) (var (gn g) u <$> others (gn g) u))).
Proof.
  intros Hg Ha Hu. rewrite degree_neighbors by done. f_equal.
  rewrite filter_fmap, length_fmap. apply Permutation_length, NoDup_Permutation.
  - apply NoDup_bits_of, (wf_nonneg g Hg).
  - apply NoDup_filter. unfold others. apply NoDup_filter, NoDup_range.
  - intros v. rewrite elem_of_neighbors, list_elem_of_filter, elem_of_others by done. split.
    + intros Hadj. pose proof (adj_valid_pair g u v Hg Hadj) as Hp. rewrite (Ha u v Hp).
      destruct Hp as (? & ? & ?). auto.
    + intros (Hx & ? & ?). rewrite <- (Ha u v); [done|]. unfold valid_pair, vertex in *. auto.
Qed.

Lemma base_cnf_spec n :
  4 <= n <= 40 ->
  exists cs, base_cnf n = Ok cs /\ literals_within (count n) cs /\
    forall a g, wf g -> gn g = n -> describes a g ->
      satisfies a cs <-> (forall u, vertex g u -> 3 <= degree g u) /\ adj g 0 1 = true.
Proof.
  intros Hn. unfold base_cnf. replace (n <? 4) with false by lia. replace (40 <? n) with false by lia.
  cbn [raise_if mbind res_bind]. rewrite base_fold, variable_ok by lia. cbn [mbind res_bind app].
  eexists. split; [done|]. split.
  - intros c l [Hc|Hc]%elem_of_app Hl.
    + apply list_elem_of_bind in Hc as (u & [Hs _]%elem_of_combinations & Hu%elem_of_range).
      apply (elem_of_sublist _ _ _ Hl) in Hs. apply list_elem_of_fmap in Hs as (v & -> & [Hv Hne]%elem_of_others).
      pose proof (var_bounds n u v). unfold valid_pair in *. lia.
    + apply list_elem_of_singleton in Hc as ->. apply list_elem_of_singleton in Hl as ->.
      pose proof (var_bounds n 0 1). unfold valid_pair in *. lia.
  - intros a g Hg <- Ha. pose proof (var_bounds (gn g) 0 1) as H01. unfold valid_pair in H01.
    assert (forall u, vertex g u ->
      satisfies a (combinations (var (gn g) u <$> others (gn g) u) (length (others (gn g) u) - 2)) <->
      3 <= degree g u) as Hdeg.
    { intros u Hu. rewrite (degree_others a g u) by done.
      replace (length (others (gn g) u)) with (length (var (gn g) u <$> others (gn g) u))
        by by rewrite length_fmap.
      rewrite at_least_three; [lia| |].
      - intros x (v & -> & [Hv Hne]%elem_of_others)%list_elem_of_fmap.
        pose proof (var_bounds (gn g) u v). unfold valid_pair, vertex in *. lia.
      - rewrite length_fmap, length_others by done. lia. }
    split.
    + intros Hs. split.
      * intros u Hu. apply Hdeg; [done|]. intros c Hc. apply Hs. apply elem_of_app. left.
        apply list_elem_of_bind. exists u. split; [done|by apply elem_of_range].
      * destruct (Hs [var (gn g) 0 1]) as (l & ->%list_elem_of_singleton & Ht); [set_solver|].
        rewrite <- (Ha 0 1) by (unfold valid_pair; lia). unfold lit_true in Ht.
        by replace (0 <? var (gn g) 0 1) with true in Ht by lia.
    + intros [Hd Hadj] c [Hc|Hc]%elem_of_app.
      * apply list_elem_of_bind in Hc as (u & Hc & Hu%elem_of_range). by apply (Hdeg u Hu); [apply Hd|].
      * apply list_elem_of_singleton in Hc as ->. exists (var (gn g) 0 1). split; [set_solver|].
        unfold lit_true. replace (0 <? var (gn g) 0 1) with true by lia.
        rewrite (Ha 0 1); [done|]. unfold valid_pair. lia.
Qed.

(** ** The learned clauses *)

Lemma lit_true_neg a x : 0 < x -> lit_true a (- x) = negb (a x).
Proof. intros. unfold lit_true. replace (0 <? - x) with false by lia. by rewrite Z.opp_involutive. Qed.

Lemma lit_true_pos a x : 0 < x -> lit_true a x = a x.
Proof. intros. unfold lit_true. by replace (0 <? x) with true by lia. Qed.

Lemma cell_elem c i : 0 <= i < Z.of_nat (length c) -> cell c i ∈ c.
Proof.
  intros Hi. destruct (lookup_lt_is_Some_2 c (Z.to_nat i)) as [x Hx]; [lia|].
  unfold cell. rewrite Hx. by apply list_elem_of_lookup_2 in Hx.
Qed.

Lemma next_index_range c i : c <> [] -> 0 <= next_index c i < Z.of_nat (length c).
Proof. intros Hc. apply Z.mod_pos_bound. destruct c; [done|cbn; lia]. Qed.

Lemma cycle_arc_pair g len c i :
  wf g -> is_cycle g len c -> 0 <= i < Z.of_nat (length c) ->
  valid_pair (gn g) (cell c i) (cell c (next_index c i)).
Proof.
  intros Hg (_ & _ & _ & Hc) Hi. apply adj_valid_pair; [done|].
  rewrite closed_chain in Hc. by apply Hc.
Qed.

Lemma cycle_clause_ok g len c :
  wf g -> is_cycle g len c ->
  cycle_clause (gn g) c =
    Ok ((fun i => - var (gn g) (cell c i) (cell c (next_index c i))) <$> range 0 (Z.of_nat (length c))).
Proof.
  intros Hg Hc. pose proof Hc as (H3 & Hl & Hnd & _). unfold cycle_clause.
  rewrite size_list_to_set by done. destruct (Nat.ltb_spec (length c) 3); [lia|].
  rewrite Nat.eqb_refl. cbn [orb negb raise_if mbind res_bind]. apply comprehend_ok.
  intros i Hi%elem_of_range. destruct (py_index_in_range c i Hi) as (x & Hx & ->). cbn [mbind res_bind].
  assert (c <> []) as Hne by (intros ->; cbn in Hl; lia).
  fold (next_index c i). destruct (py_index_in_range c _ (next_index_range c i Hne)) as (y & Hy & ->).
  cbn [mbind res_bind]. rewrite <- (cell_lookup _ _ _ Hx), <- (cell_lookup _ _ _ Hy).
  rewrite variable_ok; [done|]. by destruct (cycle_arc_pair g len c i Hg Hc Hi) as (_ & _ & ?).
Qed.

(** The clause of a cycle holds exactly in the graphs that lack it. *)
Lemma cycle_clause_spec g len c :
  wf g -> is_cycle g len c ->
  exists cl, cycle_clause (gn g) c = Ok cl /\ literals_within (count (gn g)) [cl] /\
    forall a h, gn h = gn g -> describes a h -> clause_true a cl <-> ~ is_cycle h len c.
Proof.
  intros Hg Hc. eexists. split; [by apply (cycle_clause_ok g len)|].
  assert (forall i, 0 <= i < Z.of_nat (length c) ->
    1 <= var (gn g) (cell c i) (cell c (next_index c i)) <= count (gn g)) as Hb.
  { intros i Hi. by apply var_bounds, (cycle_arc_pair g len). }
  split.
  - intros d l ->%list_elem_of_singleton (i & -> & Hi%elem_of_range)%list_elem_of_fmap.
    specialize (Hb i Hi). lia.
  - intros a h Hn Ha. assert (forall i, 0 <= i < Z.of_nat (length c) ->
      lit_true a (- var (gn g) (cell c i) (cell c (next_index c i))) =
      negb (adj h (cell c i) (cell c (next_index c i)))) as Hlit.
    { intros i Hi. specialize (Hb i Hi). rewrite lit_true_neg by lia. f_equal. rewrite <- Hn. apply Ha.
      rewrite Hn. by apply (cycle_arc_pair g len). }
    split.
    + intros (l & (i & -> & Hi%elem_of_range)%list_elem_of_fmap & Ht) (_ & _ & _ & Hch).
      rewrite closed_chain in Hch. specialize (Hch i Hi). unfold edge_rel in Hch.
      rewrite Hlit, Hch in Ht by done. done.
    + intros Hno. destruct (decide (Exists (fun l => lit_true a l = true)
        ((fun i => - var (gn g) (cell c i) (cell c (next_index c i))) <$> range 0 (Z.of_nat (length c)))))
        as [He|He].
      { apply Exists_exists in He as (l & ? & ?). by exists l. }
      exfalso. apply Hno. destruct Hc as (H3 & Hl & Hnd & _). unfold is_cycle. split_all; [done..|].
      apply closed_chain. intros i Hi. unfold edge_rel. destruct (adj h _ _) eqn:E; [done|].
      destruct He. apply Exists_exists. eexists. split.
      * apply list_elem_of_fmap. exists i. split; [done|by apply elem_of_range].
      * by rewrite Hlit, E.
Qed.

(** The clause of a vertex set holds exactly in the graphs that leave it. *)
Lemma connectedness_clause_spec n s :
  (forall x, x ∈ s -> 0 <= x < n) ->
  exists cl, connectedness_clause n s = Ok cl /\ literals_within (count n) [cl] /\
    forall a g, gn g = n -> describes a g ->
      clause_true a cl <-> exists u v, u ∈ s /\ v ∉ s /\ vertex g v /\ adj g u v = true.
Proof.
  intros Hs. unfold connectedness_clause. set (ps := _ ≫= _).
  assert (forall u v, (u, v) ∈ ps <-> u ∈ s /\ 0 <= v < n /\ v ∉ s) as Hps.
  { intros u v. unfold ps. rewrite list_elem_of_bind. split.
    - intros (a & (b & [= -> ->]%list_elem_of_singleton & Hb)%list_elem_of_bind & Ha).
      apply elem_of_sorted in Ha, Hb. rewrite elem_of_difference, elem_of_vertex_set in Hb. tauto.
    - intros (Hu & Hv & Hn). exists u. rewrite elem_of_sorted. split; [|done].
      apply list_elem_of_bind. exists v. rewrite list_elem_of_singleton, elem_of_sorted,
        elem_of_difference, elem_of_vertex_set. done. }
  assert (forall u v, (u, v) ∈ ps -> valid_pair n u v) as Hvp.
  { intros u v (Hu & Hv & Hn)%Hps. specialize (Hs u Hu). unfold valid_pair. split_all; [lia..|].
    by intros ->. }
  exists ((fun uv : Z * Z => var n uv.1 uv.2) <$> ps). split_all.
  - apply comprehend_ok. intros [u v] Hin. destruct (Hvp u v Hin) as (_ & _ & ?).
    by apply variable_ok.
  - intros c l ->%list_elem_of_singleton ([u v] & -> & Hin)%list_elem_of_fmap. cbn.
    pose proof (var_bounds n u v (Hvp u v Hin)). lia.
  - intros a g Hg Ha. split.
    + intros (l & ([u v] & -> & Hin)%list_elem_of_fmap & Ht). cbn in Ht.
      pose proof (var_bounds n u v (Hvp u v Hin)). rewrite lit_true_pos in Ht by lia.
      exists u, v. rewrite <- (Ha u v), Hg by (rewrite Hg; by apply Hvp).
      apply Hps in Hin. unfold vertex. rewrite Hg. tauto.
    + intros (u & v & Hu & Hv & Hvv & Hadj). unfold vertex in Hvv. rewrite Hg in Hvv.
      assert ((u, v) ∈ ps) as Hin by by apply Hps.
      pose proof (var_bounds n u v (Hvp u v Hin)). exists (var n u v). split.
      * apply list_elem_of_fmap. by exists (u, v).
      * rewrite lit_true_pos by lia. rewrite <- Hadj, <- Hg. apply Ha. rewrite Hg. by apply Hvp.
Qed.

(** ** Relabelling: the symmetry break {0, 1} loses no counterexample *)

Definition swap (x y z : Z) : Z := if z =? x then y else if z =? y then x else z.

Lemma swap_involutive x y z : swap x y (swap x y z) = z.
Proof. unfold swap. repeat case_match; lia. Qed.

Section Relabel.
(** [s] sends new names to old ones, [t] back. *)
Context (g h : BitGraph) (s t : Z -> Z) (Hg : wf g) (Hh : wf h) (Hn : gn h = gn g).
Hypothesis Hst : forall x, s (t x) = x.
Hypothesis Hts : forall x, t (s x) = x.
Hypothesis Hs : forall x, vertex g x <-> vertex g (s x).
Hypothesis Hadj : forall u v, adj h u v = adj g (s u) (s v).

Lemma relabel_degree u : vertex h u -> degree h u = degree g (s u).
Proof.
  intros Hu. assert (vertex g (s u)) as Hsu by (apply (proj1 (Hs u)); unfold vertex in *; by rewrite <- Hn).
  rewrite !degree_neighbors by done. f_equal.
  rewrite <- (length_fmap s (neighbors h u)). apply Permutation_length, NoDup_Permutation.
  - apply NoDup_fmap_2; [intros x y Hxy; rewrite <- (Hts x), <- (Hts y); congruence|].
    apply NoDup_bits_of, (wf_nonneg h Hh).
  - apply NoDup_bits_of, (wf_nonneg g Hg).
  - intros v. rewrite list_elem_of_fmap, elem_of_neighbors by done. split.
    + intros (w & -> & Hw%elem_of_neighbors); [|done..]. by rewrite <- Hadj.
    + intros Ha. exists (t v). rewrite Hst. split; [done|]. apply elem_of_neighbors; [done..|].
      by rewrite Hadj, Hst.
Qed.

Lemma relabel_rtc u v : rtc (edge_rel g) u v -> rtc (edge_rel h) (t u) (t v).
Proof.
  induction 1 as [|a b c Hab _ IH]; [done|]. apply rtc_l with (t b); [|done].
  unfold edge_rel in *. by rewrite Hadj, !Hst.
Qed.

Lemma relabel_cycle len c : is_cycle h len c -> is_cycle g len (s <$> c).
Proof.
  intros (H3 & Hl & Hnd & Hc). unfold is_cycle. rewrite length_fmap. split_all; [done..| |].
  - apply NoDup_fmap_2; [|done]. intros x y Hxy. rewrite <- (Hts x), <- (Hts y). congruence.
  - rewrite <- fmap_take, <- fmap_app. revert Hc. generalize (c ++ take 1 c). intros l.
    rewrite !chain_lookup. intros Hc i x y. rewrite !list_lookup_fmap.
    destruct (l !! i) as [a|] eqn:Ea, (l !! S i) as [b|] eqn:Eb; cbn; try done.
    intros [= <-] [= <-]. unfold edge_rel. rewrite <- Hadj. by apply (Hc i).
Qed.

Lemma relabel_counterexample : counterexample g -> counterexample h.
Proof.
  intros ((Hne & Hc & Hd) & Hno). split; [split; [congruence|split]|].
  - intros u v Hu Hv. rewrite <- (Hts u), <- (Hts v). apply relabel_rtc.
    unfold vertex in Hu, Hv. rewrite Hn in Hu, Hv. apply Hc; by apply (proj1 (Hs _)).
  - intros u Hu. rewrite relabel_degree by done. apply Hd, (proj1 (Hs u)). unfold vertex in *. by rewrite <- Hn.
  - intros len Hp (c & Hcy). apply (Hno len Hp). exists (s <$> c). by apply relabel_cycle.
Qed.
End Relabel.

Lemma swap_vertex n x y z : 0 <= x < n -> 0 <= y < n -> 0 <= z < n <-> 0 <= swap x y z < n.
Proof. intros. unfold swap. repeat case_match; lia. Qed.

(** Every counterexample has a copy with the edge {0, 1}. *)
Lemma relabel_edge g :
  wf g -> counterexample g ->
  exists h, wf h /\ gn h = gn g /\ counterexample h /\ adj h 0 1 = true.
Proof.
  intros Hg Hce. pose proof Hce as ((Hne & _ & Hd) & _). pose proof (wf_n g Hg).
  assert (vertex g 0) as H0 by (unfold vertex; lia). specialize (Hd 0 H0).
  rewrite degree_neighbors in Hd by done. destruct (neighbors g 0) as [|v l] eqn:El; [cbn in Hd; lia|].
  assert (adj g 0 v = true) as Ha.
  { apply elem_of_neighbors; [done..|]. rewrite El. set_solver. }
  destruct (adj_valid_pair g 0 v Hg Ha) as (_ & Hv & Hnv).
  set (s := swap 1 v). assert (s 0 = 0) as Hs0 by (unfold s, swap; repeat case_match; lia).
  assert (s 1 = v) as Hs1 by (unfold s, swap; repeat case_match; lia).
  destruct (graph_of_predicate (gn g) (fun a b => adj g (s a) (s b))) as (h & _ & Hh & Hn & Hadj); [done|].
  assert (forall a, vertex g a <-> vertex g (s a)) as Hvs.
  { intros a. apply swap_vertex; lia. }
  assert (forall a b, adj h a b = adj g (s a) (s b)) as Hadj'.
  { intros a b. destruct (adj h a b) eqn:E.
    - apply adj_valid_pair in E as Hp; [|done]. rewrite Hn in Hp. rewrite <- Hadj; [done| |done].
      intros x y _. apply (wf_sym g Hg).
    - destruct (adj g (s a) (s b)) eqn:E2; [|done].
      destruct (adj_valid_pair _ _ _ Hg E2) as (H1 & H2 & H3).
      rewrite <- E, Hadj; [done|intros x y _; apply (wf_sym g Hg)|].
      apply Hvs in H1, H2. unfold valid_pair. split_all; [apply H1|apply H1|apply H2|apply H2|congruence]. }
  exists h. split_all; [done|done| |].
  - apply (relabel_counterexample g h s s); try done; intros x; apply swap_involutive.
  - by rewrite Hadj', Hs0, Hs1.
Qed.

(** ** The refinement loop *)

Lemma rtc_leaves {A} (R : A -> A -> Prop) (P : A -> Prop) `{forall x, Decision (P x)} x y :
  rtc R x y -> P x -> ~ P y -> exists a b, R a b /\ P a /\ ~ P b.
Proof.
  induction 1 as [x|x z y Hxz _ IH]; intros Hx Hy; [done|].
  destruct (decide (P z)); [by apply IH|]. by exists x, z.
Qed.

(** A clause that every counterexample satisfies, and some model of the formula
    does not *)
Definition refines (n : Z) (cs : cnf) (cl : clause) : Prop :=
  literals_within (count n) [cl] /\
  (exists a, satisfies a cs /\ ~ clause_true a cl) /\
  forall a g, wf g -> gn g = n -> describes a g -> counterexample g -> clause_true a cl.

Lemma component_clause g cs c a :
  wf g -> describes a g -> satisfies a cs -> is_component g c ->
  (forall x, x ∈ c -> vertex g x) -> (exists v, vertex g v /\ v ∉ c) ->
  exists cl, connectedness_clause (gn g) c = Ok cl /\ refines (gn g) cs cl.
Proof.
  intros Hg Ha Hs ((x & Hx) & Hcl & _) Hin (y & Hy & Hny).
  destruct (connectedness_clause_spec (gn g) c Hin) as (cl & Hok & Hw & Hiff).
  exists cl. split; [done|]. split; [done|]. split.
  - exists a. split; [done|]. rewrite (Hiff a g) by done. intros (u & v & Hu & Hv & _ & Hadj).
    apply Hv. by apply (Hcl u).
  - intros b h Hh Hn Hb ((_ & Hconn & _) & _). rewrite (Hiff b h) by done.
    unfold vertex in *. destruct (rtc_leaves (edge_rel h) (fun x => x ∈ c) x y) as (u & v & Huv & Hu & Hv);
      [apply Hconn; unfold vertex; rewrite Hn; auto|done|done|].
    exists u, v. apply (wf_range h Hh) in Huv as Hr. destruct Hr as [_ Hvv]. auto.
Qed.

Lemma forbidden_cycle_clause g cs len c a :
  wf g -> describes a g -> satisfies a cs -> power_of_two_length len -> is_cycle g len c ->
  exists cl, cycle_clause (gn g) c = Ok cl /\ refines (gn g) cs cl.
Proof.
  intros Hg Ha Hs Hp Hc. destruct (cycle_clause_spec g len c Hg Hc) as (cl & Hok & Hw & Hiff).
  exists cl. split; [done|]. split; [done|]. split.
  - exists a. split; [done|]. rewrite (Hiff a g) by done. tauto.
  - intros b h _ Hn Hb [_ Hno]. rewrite (Hiff b h) by done. intros Hch. apply (Hno len Hp). by exists c.
Qed.

(** What one turn of the loop may do *)
Definition step_ok (n : Z) (cs : cnf) (r : res (option (BitGraph + (clause * Learned) + unit))) : Prop :=
  match r with
  | Ok (Some (inr _)) => forall a, ~ satisfies a cs
  | Ok (Some (inl (inl g))) => wf g /\ gn g = n /\ counterexample g
  | Ok (Some (inl (inr (cl, _)))) => refines n cs cl
  | _ => False
  end.

Lemma component_vertices g cs c x :
  partitions g (vertex_set (gn g)) cs -> c ∈ cs -> x ∈ c -> vertex g x.
Proof. intros (_ & Hcov & _) Hc Hx. apply elem_of_vertex_set, Hcov. by exists c. Qed.

Lemma one_component g cs :
  wf g -> 0 < gn g -> partitions g (vertex_set (gn g)) cs -> (length cs <= 1)%nat -> connected g.
Proof.
  intros Hg Hn (Hall & Hcov & _) Hl u v Hu Hv. unfold vertex in *.
  apply elem_of_vertex_set, Hcov in Hu as (c & Hc & Huc), Hv as (d & Hd & Hvd).
  destruct cs as [|e [|]]; [set_solver| |cbn in Hl; lia].
  apply list_elem_of_singleton in Hc as ->. apply list_elem_of_singleton in Hd as ->.
  apply Forall_singleton in Hall as (_ & _ & Hr). by apply Hr.
Qed.

Lemma many_components g cs :
  partitions g (vertex_set (gn g)) cs -> (1 < length cs)%nat ->
  hd ∅ cs ∈ cs /\ exists v, vertex g v /\ v ∉ hd ∅ cs.
Proof.
  intros Hp Hl. pose proof Hp as (Hall & _ & Hdis). destruct cs as [|c [|d cs]]; [cbn in Hl; lia..|].
  cbn [hd]. split; [set_solver|].
  assert (is_component g d) as ((v & Hv) & _) by (rewrite Forall_forall in Hall; apply Hall; set_solver).
  exists v. split; [apply (component_vertices g _ d v Hp); [set_solver|done]|].
  apply (Hdis [c] d cs v); [done|done|set_solver].
Qed.

Lemma cegar_step_ok n base cs :
  4 <= n <= 40 -> base_cnf n = Ok base -> base ⊆ cs -> literals_within (count n) cs ->
  step_ok n cs (cegar_step n cs).
Proof.
  intros Hn Hbase Hsub Hw. unfold cegar_step.
  destruct (solve_dpll_answer cs (count n) Hw) as [(model & -> & Hs & _)|[-> Hun]]; [|exact Hun].
  destruct (decode_model_spec n model) as (g & -> & Hg & <- & Ha); [lia|]. cbn [mbind res_bind].
  destruct (base_cnf_spec (gn g) Hn) as (base' & Hb' & _ & Hbs). rewrite Hbase in Hb'.
  injection Hb' as <-. destruct (Hbs _ g Hg eq_refl Ha) as [Hdeg _].
  destruct Hdeg as [Hdeg _]; [intros c Hc; by apply Hs, Hsub|].
  destruct (components_spec g Hg) as (comps & -> & Hp).
  destruct (Nat.ltb_spec 1 (length comps)) as [Hl|Hl].
  - destruct (many_components g comps Hp Hl) as (Hin & Hout).
    destruct (component_clause g cs (hd ∅ comps) (model_value model)) as (cl & -> & Href);
      [done|done|done| | |done|exact Href].
    + destruct Hp as (Hall & _). rewrite Forall_forall in Hall. by apply Hall.
    + intros x. by apply (component_vertices g comps).
  - assert (minimal_candidate g) as Hmin.
    { split; [lia|]. split; [|done]. by apply (one_component g comps); [done|lia|..]. }
    destruct (verify_reference_verdict 0 g Hg) as [Hv _]. unfold verdict in Hv.
    destruct (status (verify_reference 0 g)).
    + by destruct Hv as [Hv _].
    + destruct Hv as (_ & len & c & Hpow & Hc & Hwit & _).
      rewrite bool_decide_eq_false_2, Hwit by done.
      change (py_index [mkWitness (cycle_kind len) c] 0) with (Ok (mkWitness (cycle_kind len) c)).
      cbn [mbind res_bind vertices].
      destruct (forbidden_cycle_clause g cs len c (model_value model)) as (cl & -> & Href); done.
    + done.
    + by destruct Hv.
Qed.

(** ** Termination: every turn rules out one more assignment *)

Fixpoint bool_vectors (m : nat) : list (list bool) :=
  match m with
  | O => [[]]
  | S k => (cons true <$> bool_vectors k) ++ (cons false <$> bool_vectors k)
  end.

Lemma length_bool_vectors m : length (bool_vectors m) = (2 ^ m)%nat.
Proof. induction m as [|m IH]; [done|]. cbn. rewrite length_app, !length_fmap, IH. lia. Qed.

Lemma elem_of_bool_vectors v : v ∈ bool_vectors (length v).
Proof.
  induction v as [|b v IH]; cbn; [set_solver|]. apply elem_of_app. destruct b; [left|right];
    apply list_elem_of_fmap; by exists v.
Qed.

Lemma few_vectors (seen : list (list bool)) m :
  NoDup seen -> (forall v, v ∈ seen -> length v = m) -> (length seen <= 2 ^ m)%nat.
Proof.
  intros Hnd Hl. rewrite <- length_bool_vectors. apply submseteq_length, NoDup_submseteq; [done|].
  intros v Hv. rewrite <- (Hl v Hv). apply elem_of_bool_vectors.
Qed.

(** The part of an assignment that the formula sees *)
Definition vector (k : Z) (a : Z -> bool) : list bool := a <$> range 1 (k + 1).

Lemma vector_satisfies k a b cs :
  literals_within k cs -> vector k a = vector k b -> satisfies a cs -> satisfies b cs.
Proof.
  intros Hw Hv. apply satisfies_ext. intros c l Hc Hl. specialize (Hw c l Hc Hl).
  assert (forall f : Z -> bool, vector k f !! Z.to_nat (Z.abs l - 1) = Some (f (Z.abs l))) as Hf.
  { intros f. unfold vector, range. rewrite list_lookup_fmap, lookup_seqZ_lt by lia. cbn. do 2 f_equal. lia. }
  pose proof (Hf a) as H1. rewrite Hv, (Hf b) in H1. by injection H1.
Qed.

Lemma length_vector k a : 0 <= k -> length (vector k a) = Z.to_nat k.
Proof. intros. unfold vector. rewrite length_fmap, length_range. f_equal. lia. Qed.

(** What the loop returns *)
Definition outcome_ok (n : Z) (o : Outcome) : Prop :=
  match o with
  | UNSAT_GROUND_TRUTH it learned =>
      it = Z.of_nat (length learned) /\ forall g, wf g -> gn g = n -> ~ counterexample g
  | SAT_CANDIDATE it g6 learned =>
      it = Z.of_nat (length learned) + 1 /\
      exists g, wf g /\ gn g = n /\ counterexample g /\ from_graph6 (Bytes g6) = Ok g
  end.

(** The clauses of the loop: the base formula, and clauses that every
    counterexample satisfies *)
Record loop_inv (n : Z) (base cs : cnf) : Prop := {
  li_base : base ⊆ cs;
  li_within : literals_within (count n) cs;
  li_necessary : forall a g, wf g -> gn g = n -> describes a g -> counterexample g ->
    adj g 0 1 = true -> satisfies a cs
}.

Lemma literals_within_snoc k cs cl :
  literals_within k cs -> literals_within k [cl] -> literals_within k (cs ++ [cl]).
Proof. intros H1 H2 c l [Hc|Hc]%elem_of_app Hl; [by apply (H1 c)|by apply (H2 c)]. Qed.

Lemma loop_inv_snoc n base cs cl : loop_inv n base cs -> refines n cs cl -> loop_inv n base (cs ++ [cl]).
Proof.
  intros [Hb Hw Hn] (Hwc & _ & Hnc). split.
  - intros c Hc. apply elem_of_app. left. by apply Hb.
  - by apply literals_within_snoc.
  - intros a g Hg Hgn Ha Hce Hadj c [Hc|Hc]%elem_of_app; [by apply (Hn a g)|].
    apply list_elem_of_singleton in Hc as ->. by apply (Hnc a g).
Qed.

Lemma unsat_no_counterexample n base cs :
  loop_inv n base cs -> (forall a, ~ satisfies a cs) ->
  forall g, wf g -> gn g = n -> ~ counterexample g.
Proof.
  intros Hi Hun g Hg Hn Hce. destruct (relabel_edge g Hg Hce) as (h & Hh & Hhn & Hceh & Hadj).
  apply (Hun (graph_value h)). apply (li_necessary _ _ _ Hi _ h); [done|congruence| |done|done].
  by apply graph_value_describes.
Qed.

Lemma cegar_loop_returns fuel n base cs learned it seen :
  4 <= n <= 40 -> base_cnf n = Ok base -> loop_inv n base cs ->
  NoDup seen -> (forall v, v ∈ seen -> length v = Z.to_nat (count n)) ->
  (forall a, satisfies a cs -> vector (count n) a ∉ seen) ->
  (2 ^ Z.to_nat (count n) < fuel + length seen)%nat -> it = Z.of_nat (length learned) ->
  exists o, cegar_loop fuel n cs learned it = Ok (Some o) /\ outcome_ok n o.
Proof.
  intros Hn Hb. revert cs learned it seen.
  induction fuel as [|f IH]; intros cs learned it seen Hi Hnd Hlen Hseen Hf Hit.
  { pose proof (few_vectors seen _ Hnd Hlen). cbn in Hf. lia. }
  cbn [cegar_loop].
  pose proof (cegar_step_ok n base cs Hn Hb (li_base _ _ _ Hi) (li_within _ _ _ Hi)) as Hstep.
  destruct (cegar_step n cs) as [[[[g|[cl record]]|]|]|]; cbn in Hstep; try done.
  - destruct Hstep as (Hg & Hgn & Hce). cbn [mbind res_bind].
    destruct (encode_returns g) as [g6 Hg6]; [lia|]. unfold to_graph6. rewrite Hg6. cbn [mbind res_bind].
    eexists. split; [done|]. cbn. split; [lia|]. exists g. split_all; [done..|]. by apply decode_encoded.
  - pose proof Hstep as (Hwc & (a & Ha & Hna) & _). cbn [mbind res_bind].
    assert (0 <= count n) as Hc by (unfold count; apply Z.div_pos; nia).
    apply (IH _ _ _ (vector (count n) a :: seen)).
    + by apply loop_inv_snoc.
    + constructor; [by apply Hseen|done].
    + intros v [->|Hv]%elem_of_cons; [by apply length_vector|by apply Hlen].
    + intros b Hbs [He|Hin]%elem_of_cons.
      * apply Hna. apply (vector_satisfies (count n) b a [cl] Hwc He); [|set_solver].
        intros c Hc'. apply Hbs. set_solver.
      * apply (Hseen b); [|done]. intros c Hc'. apply Hbs. set_solver.
    + cbn. lia.
    + rewrite length_app. cbn. lia.
  - cbn [mbind res_bind]. eexists. split; [done|]. cbn. split; [done|].
    by apply (unsat_no_counterexample n base cs).
Qed.

Lemma tiny_cegar_returns n :
  4 <= n <= 6 -> exists o, tiny_cegar n = Ok (Some o) /\ outcome_ok n o.
Proof.
  intros Hn. unfold tiny_cegar. replace (6 <? n) with false by lia. cbn [raise_if mbind res_bind].
  destruct (base_cnf_spec n) as (base & Hb & Hw & Hsat); [lia|]. rewrite Hb. cbn [mbind res_bind].
  apply (cegar_loop_returns _ n base base [] 0 []); [lia|done| |by constructor|set_solver|set_solver| |done].
  - split; [done|done|]. intros a g Hg Hgn Ha ((_ & _ & Hd) & _) Hadj. by apply (Hsat a g).
  - unfold cegar_fuel. lia.
Qed.

(** ** Properties *)

(** The edge variables are a bijection between the pairs
    of distinct vertices and the numbers 1..n(n-1)/2, in the order in which the
    code's double loop visits the pairs; [edge] is its inverse and raises
    exactly on the numbers outside that range. *)
Theorem edge_variables_bijection n :
  0 <= n ->
  (forall u v, u <> v -> variable n u v = variable n v u) /\
  (fun uv : Z * Z => variable n uv.1 uv.2) <$> pairs n = Ok <$> range 1 (count n + 1) /\
  forall x, (forall e, edge n x = Ok e <-> e ∈ pairs n /\ variable n e.1 e.2 = Ok x) /\
            ((exists e, edge n x = Ok e) <-> 1 <= x <= count n).
Proof.
  intros Hn. assert (forall e, e ∈ pairs n -> variable n e.1 e.2 = Ok (vnum n e.1 e.2)) as Hv.
  { intros [u v] [? ?]%elem_of_pairs. rewrite variable_ok by (cbn; lia). cbn. unfold var.
    by replace (v <? u) with false by lia. }
  split_all.
  - intros u v Hne. rewrite !variable_ok by done. by rewrite var_comm.
  - rewrite <- vnum_pairs, <- list_fmap_compose by done. apply list_fmap_ext.
    intros i e Hi. apply Hv. by apply list_elem_of_lookup_2 in Hi.
  - intros x. destruct (edge_spec n x Hn) as [He Hx]. split; [|done]. intros e. rewrite He.
    split; intros [Hin Heq]; (split; [done|]); rewrite Hv in * by done; congruence.
Qed.

Lemma edge_variables_bijection_witness :
  variable 5 3 1 = Ok 6 /\ edge 5 6 = Ok (1, 3).
Proof.
  destruct (edge_variables_bijection 5) as (Hc & _ & He); [lia|].
  split; [rewrite Hc by lia; vm_compute; reflexivity|].
  apply (proj1 (He 6)). split; [|vm_compute; reflexivity]. apply elem_of_pairs. lia.
Defined.

(** For the orders it accepts (4 to 40) the base formula speaks of
    the edge variables only, and an assignment satisfies it exactly when the
    graph it describes has minimum degree three and the edge {0, 1}; other
    orders raise [ValueError]. *)
Theorem base_cnf_correct n :
  (4 <= n <= 40 ->
   exists cs, base_cnf n = Ok cs /\ literals_within (count n) cs /\
     forall a g, wf g -> gn g = n -> describes a g ->
       satisfies a cs <-> (forall u, vertex g u -> 3 <= degree g u) /\ adj g 0 1 = true) /\
  (~ 4 <= n <= 40 -> exists msg, base_cnf n = Raise (ValueError msg)).
Proof.
  split; [apply base_cnf_spec|]. intros Hn. unfold base_cnf.
  destruct (Z.ltb_spec n 4); [by eexists|]. destruct (Z.ltb_spec 40 n); [by eexists|lia].
Qed.

Lemma base_cnf_correct_witness :
  exists cs, base_cnf 4 = Ok cs /\ satisfies (graph_value K4) cs.
Proof.
  destruct (base_cnf_correct 4) as [H _]. destruct (H ltac:(lia)) as (cs & Hok & _ & Hs).
  exists cs. split; [exact Hok|]. apply (Hs (graph_value K4) K4 K4_wf eq_refl).
  - apply graph_value_describes, K4_wf.
  - split; [|vm_compute; reflexivity]. intros u [Hu0 Hu4]. change (gn K4) with 4 in Hu4.
    assert (u = 0 \/ u = 1 \/ u = 2 \/ u = 3) as [-> | [-> | [-> | ->]]] by lia; vm_compute; discriminate.
Defined.

(** The search for components terminates and returns disjoint,
    non-empty vertex sets that cover the graph, each closed under adjacency and
    each connected; so there is exactly one when a non-empty graph is connected. *)
Theorem components_correct g :
  wf g ->
  exists cs, _components g = Some cs /\ partitions g (vertex_set (gn g)) cs /\
    (0 < gn g -> connected g <-> length cs = 1%nat).
Proof.
  intros Hg. destruct (components_spec g Hg) as (cs & Hcs & Hp). exists cs. split_all; [done..|].
  intros Hn. pose proof Hp as (Hall & Hcov & _). rewrite Forall_forall in Hall. split.
  - intros Hc. destruct (Nat.lt_trichotomy (length cs) 1) as [Hl|[?|Hl]]; [|done|].
    + destruct cs; [|cbn in Hl; lia]. assert (0 ∈ vertex_set (gn g)) as H0 by (apply elem_of_vertex_set; lia).
      apply Hcov in H0 as (? & ? & _). set_solver.
    + destruct (many_components g cs Hp Hl) as (Hin & v & Hv & Hnv).
      destruct (Hall _ Hin) as ((x & Hx) & Hcl & _).
      destruct (rtc_leaves (edge_rel g) (fun y => y ∈ hd ∅ cs) x v) as (a & b & Hab & Ha & Hb);
        [apply Hc; [by apply (component_vertices g cs (hd ∅ cs))|done]|done..|].
      destruct Hb. by apply (Hcl a).
  - intros Hl. apply (one_component g cs Hg Hn Hp). lia.
Qed.

Lemma components_correct_witness :
  connected petersen.
Proof.
  destruct (components_correct petersen petersen_wf) as (cs & Hcs & _ & H).
  apply H; [vm_compute; reflexivity|]. vm_compute in Hcs. injection Hcs as <-. vm_compute. reflexivity.
Defined.

(** The two kinds of learned clause are exact. The clause of a
    cycle holds in the graphs that lack that cycle, the clause of a vertex set in
    the graphs with an edge leaving it; so both hold in every counterexample, and
    neither holds in the graph it was learned from. *)
Theorem learned_clauses_sound g len c comp :
  wf g -> is_cycle g len c -> (forall x, x ∈ comp -> vertex g x) ->
  (exists cl, cycle_clause (gn g) c = Ok cl /\
     forall a h, gn h = gn g -> describes a h -> clause_true a cl <-> ~ is_cycle h len c) /\
  (exists cl, connectedness_clause (gn g) comp = Ok cl /\
     forall a h, gn h = gn g -> describes a h ->
       clause_true a cl <-> exists u v, u ∈ comp /\ v ∉ comp /\ vertex h v /\ adj h u v = true).
Proof.
  intros Hg Hc Hin. split.
  - destruct (cycle_clause_spec g len c Hg Hc) as (cl & ? & _ & ?). by exists cl.
  - destruct (connectedness_clause_spec (gn g) comp Hin) as (cl & ? & _ & ?). by exists cl.
Qed.

Lemma learned_clauses_sound_witness :
  cycle_clause 4 [0; 1; 2; 3] = Ok [-1; -4; -6; -3] /\ ~ clause_true (graph_value K4) [-1; -4; -6; -3].
Proof.
  assert (is_cycle K4 4 [0; 1; 2; 3]) as Hc.
  { unfold is_cycle. split_all; [lia|reflexivity|by apply (bool_decide_unpack _)|by vm_compute]. }
  destruct (learned_clauses_sound K4 4 [0; 1; 2; 3] ∅ K4_wf Hc) as [(cl & Hok & Hiff) _]; [set_solver|].
  pose proof Hok as H. vm_compute in H. injection H as <-. split; [exact Hok|].
  rewrite (Hiff (graph_value K4) K4 eq_refl (graph_value_describes K4 K4_wf)). tauto.
Defined.

(** C11: for the orders 4 to 6 the refinement loop terminates with an
    answer that is right: UNSAT_GROUND_TRUTH is returned only when no graph of
    that order is a counterexample, in spite of the symmetry break, and the
    graph6 string of SAT_CANDIDATE decodes to a counterexample; [iterations] is
    the number of graphs examined. Other orders raise [ValueError]. *)
Theorem tiny_cegar_correct n :
  (4 <= n <= 6 ->
   exists o, tiny_cegar n = Ok (Some o) /\
     match o with
     | UNSAT_GROUND_TRUTH it learned =>
         it = Z.of_nat (length learned) /\ forall g, wf g -> gn g = n -> ~ counterexample g
     | SAT_CANDIDATE it g6 learned =>
         it = Z.of_nat (length learned) + 1 /\
         exists g, wf g /\ gn g = n /\ counterexample g /\ from_graph6 (Bytes g6) = Ok g
     end) /\
  (~ 4 <= n <= 6 -> exists msg, tiny_cegar n = Raise (ValueError msg)).
Proof.
  split; [apply tiny_cegar_returns|]. intros Hn. unfold tiny_cegar.
  destruct (Z.ltb_spec 6 n); [by eexists|]. unfold base_cnf.
  replace (n <? 4) with true by lia. by eexists.
Qed.

Lemma tiny_cegar_correct_witness :
  (exists o, tiny_cegar 6 = Ok o) /\ ~ (exists g, wf g /\ gn g = 6 /\ counterexample g).
Proof.
  destruct (tiny_cegar_correct 6) as [H _]. destruct (H ltac:(lia)) as (o & Ho & Hok). split; [by exists (Some o)|].
  vm_compute in Ho. injection Ho as <-. destruct Hok as [_ Hok]. intros (g & Hwf & Hn & Hc). exact (Hok g Hwf Hn Hc).
Defined.
