(* ===== verification/Rng.v ===== *)
(** * The random source the search draws from

    The code passes a [random.Random] to seed generation and mutation. The
    class [Rng] holds the operations the code uses, [RngLaws] the part of their
    documentation it relies on; the clients are proved against the laws. [Lcg]
    is a concrete generator that has them. *)

From S2P Require Import Prelude.

Class Rng (R : Type) := {
  (** the index of [choice(seq)], given [len(seq)] *)
  choice : R -> nat -> nat * R;
  randrange : R -> Z -> Z * R;
  (** [random() < 0.55] *)
  random_below_055 : R -> bool * R;
  (** the indices of [sample(seq, 2)], given [len(seq)] *)
  sample2 : R -> nat -> (nat * nat) * R;
  shuffle : forall {A : Type}, R -> list A -> list A * R
}.

Class RngLaws (R : Type) `{Rng R} := {
  choice_lt : forall r n, (0 < n)%nat -> ((choice r n).1 < n)%nat;
  randrange_lt : forall r n, 0 < n -> 0 <= (randrange r n).1 < n;
  sample2_lt : forall r n, (2 <= n)%nat ->
    ((sample2 r n).1.1 < n)%nat /\ ((sample2 r n).1.2 < n)%nat /\ (sample2 r n).1.1 <> (sample2 r n).1.2;
  shuffle_perm : forall A r (l : list A), (shuffle r l).1 ≡ₚ l
}.

(** ** A linear congruential generator *)

Record Lcg := mkLcg { lcg_state : Z }.

Definition lcg_next (r : Lcg) : Lcg := mkLcg ((lcg_state r * 1103515245 + 12345) mod 2147483648).
Definition lcg_mod (r : Lcg) (n : nat) : nat := Z.to_nat ((lcg_state r / 65536) mod Z.of_nat n).

Definition rotate {A} (k : nat) (l : list A) : list A := drop k l ++ take k l.

#[export] Instance Lcg_rng : Rng Lcg := {
  choice r n := (lcg_mod r n, lcg_next r);
  randrange r n := ((lcg_state r / 65536) mod n, lcg_next r);
  random_below_055 r := ((lcg_state r / 65536) mod 100 <? 55, lcg_next r);
  sample2 r n := let i := lcg_mod r n in ((i, (i + 1 + lcg_mod (lcg_next r) (n - 1)) mod n)%nat, lcg_next (lcg_next r));
  shuffle A r l := (rotate (lcg_mod r (length l)) l, lcg_next r)
}.

Lemma lcg_mod_lt r n : (0 < n)%nat -> (lcg_mod r n < n)%nat.
Proof.
  intros Hn. unfold lcg_mod. pose proof (Z.mod_pos_bound (lcg_state r / 65536) (Z.of_nat n)). lia.
Qed.

#[export] Instance Lcg_laws : RngLaws Lcg.
Proof.
  split.
  - intros r n. apply lcg_mod_lt.
  - intros r n Hn. cbn. by apply Z.mod_pos_bound.
  - intros r n Hn. cbn. pose proof (lcg_mod_lt r n ltac:(lia)) as Hi.
    pose proof (lcg_mod_lt (lcg_next r) (n - 1) ltac:(lia)) as Hj.
    revert Hi Hj. generalize (lcg_mod r n) (lcg_mod (lcg_next r) (n - 1)). intros i j Hi Hj.
    split; [done|]. split; [apply Nat.mod_upper_bound; lia|].
    destruct (decide (i + 1 + j < n)%nat) as [Hlt|Hge].
    + rewrite Nat.mod_small; lia.
    + replace (i + 1 + j)%nat with ((i + 1 + j - n) + 1 * n)%nat by lia.
      rewrite Nat.Div0.mod_add, Nat.mod_small; lia.
  - intros A r l. cbn. unfold rotate. rewrite Permutation_app_comm. by rewrite take_drop.
Qed.
