(* ===== verification/Order.v ===== *)
(** * Python's order on tuples, [sorted] and [min]

    Tuples are compared item by item. [Ordered] is the class of the types with a
    Python order; its instances are the integers, pairs, variable-length tuples
    and strings. [py_sorted] and [sorted_by] are [sorted] without and with a key,
    [min_by] and [max_by] the first best item under a key. *)

From Stdlib Require Ascii Strings.String.
From stdpp Require Import sorting.
From S2P Require Import Prelude.

#[global] Open Scope Z_scope.

Class Ordered (A : Type) := {
  cmp : A -> A -> comparison;
  cmp_eq : forall x y, cmp x y = Eq <-> x = y;
  cmp_sym : forall x y, cmp y x = CompOpp (cmp x y);
  cmp_trans : forall x y z, cmp x y = Lt -> cmp y z = Lt -> cmp x z = Lt
}.

Lemma cmp_refl `{Ordered A} x : cmp x x = Eq.
Proof. by apply cmp_eq. Qed.

(** ** Instances *)

#[export] Instance Z_ordered : Ordered Z.
Proof.
  refine {| cmp := Z.compare |}.
  - intros. apply Z.compare_eq_iff.
  - intros. apply Z.compare_antisym.
  - intros x y z. rewrite !Z.compare_lt_iff. lia.
Defined.

#[export] Instance bool_ordered : Ordered bool.
Proof. by refine {| cmp := Bool.compare |}; intros [] *; try destruct y; try destruct z; cbn. Defined.

(** The first items decide, then the second ones. *)
Definition compare_pair {A B} (f : A -> A -> comparison) (g : B -> B -> comparison) (x y : A * B) : comparison :=
  match f x.1 y.1 with Eq => g x.2 y.2 | c => c end.

#[export] Instance pair_ordered `{Ordered A, Ordered B} : Ordered (A * B).
Proof.
  refine {| cmp := compare_pair cmp cmp |}; unfold compare_pair.
  - intros [a b] [a' b']. cbn. destruct (cmp a a') eqn:E.
    + apply cmp_eq in E as ->. rewrite cmp_eq. naive_solver.
    + split; [done|]. intros [= <- <-]. by rewrite cmp_refl in E.
    + split; [done|]. intros [= <- <-]. by rewrite cmp_refl in E.
  - intros [a b] [a' b']. cbn. rewrite (cmp_sym a a'). destruct (cmp a a'); [apply cmp_sym|done..].
  - intros [a1 b1] [a2 b2] [a3 b3]. cbn. intros H1 H2.
    destruct (cmp a1 a2) eqn:E1; [|..|done].
    + apply cmp_eq in E1 as ->. destruct (cmp a2 a3); [by eapply cmp_trans|done..].
    + destruct (cmp a2 a3) eqn:E2; [|..|done].
      * apply cmp_eq in E2 as <-. by rewrite E1.
      * by rewrite (cmp_trans _ _ _ E1 E2).
Defined.

Fixpoint compare_list {A} (f : A -> A -> comparison) (l k : list A) : comparison :=
  match l, k with
  | [], [] => Eq
  | [], _ :: _ => Lt
  | _ :: _, [] => Gt
  | x :: l', y :: k' => match f x y with Eq => compare_list f l' k' | c => c end
  end.

#[export] Instance list_ordered `{Ordered A} : Ordered (list A).
Proof.
  refine {| cmp := compare_list cmp |}.
  - intros l. induction l as [|x l IH]; intros [|y k]; cbn; try done. destruct (cmp x y) eqn:E.
    + apply cmp_eq in E as ->. rewrite IH. naive_solver.
    + split; [done|]. intros [= <- <-]. by rewrite cmp_refl in E.
    + split; [done|]. intros [= <- <-]. by rewrite cmp_refl in E.
  - intros l. induction l as [|x l IH]; intros [|y k]; cbn; try done. rewrite (cmp_sym x y).
    destruct (cmp x y); [apply IH|done..].
  - intros l. induction l as [|x l IH]; intros [|y k] [|z m]; cbn; try done. intros H1 H2.
    destruct (cmp x y) eqn:E1; [|..|done].
    + apply cmp_eq in E1 as ->. destruct (cmp y z); [by eapply IH|done..].
    + destruct (cmp y z) eqn:E2; [|..|done].
      * apply cmp_eq in E2 as <-. by rewrite E1.
      * by rewrite (cmp_trans _ _ _ E1 E2).
Defined.

(** Strings by code point *)
Definition codepoints (s : string) : list Z :=
  (fun a => Z.of_N (Ascii.N_of_ascii a)) <$> Stdlib.Strings.String.list_ascii_of_string s.

Lemma codepoints_inj s t : codepoints s = codepoints t -> s = t.
Proof.
  unfold codepoints. intros H. rewrite <- (Stdlib.Strings.String.string_of_list_ascii_of_string s),
    <- (Stdlib.Strings.String.string_of_list_ascii_of_string t). f_equal.
  revert H. apply list_fmap_eq_inj. intros a b H. apply (inj Z.of_N) in H.
  rewrite <- (Ascii.ascii_N_embedding a), <- (Ascii.ascii_N_embedding b). by f_equal.
Qed.

#[export] Instance string_ordered : Ordered string.
Proof.
  refine {| cmp s t := cmp (codepoints s) (codepoints t) |}.
  - intros s t. rewrite cmp_eq. split; [apply codepoints_inj|by intros ->].
  - intros. apply cmp_sym.
  - intros s t u. apply cmp_trans.
Defined.

(** ** [sorted], [min] and [max] *)

Section Sort.
Context {A : Type}.

(** [key(x) <= key(y)] *)
Definition py_le `{Ordered K} (key : A -> K) (x y : A) : Prop := cmp (key x) (key y) <> Gt.

#[export] Instance py_le_dec `{Ordered K} (key : A -> K) : RelDecision (py_le key).
Proof. intros x y. unfold py_le. destruct (cmp (key x) (key y)); [left|left|right]; naive_solver. Defined.

(** [sorted(l, key=key)] *)
Definition sorted_by `{Ordered K} (key : A -> K) (l : list A) : list A := merge_sort (py_le key) l.

(** [min(l, key=key)] and [max(l, key=key)]: the first best item, if there is one *)
Definition min_by `{Ordered K} (key : A -> K) (l : list A) : option A :=
  match l with
  | [] => None
  | x :: l' => Some (foldl (fun m y => match cmp (key y) (key m) with Lt => y | _ => m end) x l')
  end.
Definition max_by `{Ordered K} (key : A -> K) (l : list A) : option A :=
  match l with
  | [] => None
  | x :: l' => Some (foldl (fun m y => match cmp (key y) (key m) with Gt => y | _ => m end) x l')
  end.
End Sort.

Definition py_sorted `{Ordered A} (l : list A) : list A := sorted_by id l.
Definition py_min `{Ordered A} (l : list A) : option A := min_by id l.

Section SortLemmas.
Context {A : Type} `{Ordered K} (key : A -> K).

#[export] Instance py_le_total : Total (py_le key).
Proof. intros x y. unfold py_le. rewrite (cmp_sym (key x)). destruct (cmp (key x) (key y)); cbn; naive_solver. Qed.

Lemma py_le_cases x y : py_le key x y <-> cmp (key x) (key y) = Lt \/ key x = key y.
Proof. unfold py_le. rewrite <- cmp_eq. destruct (cmp (key x) (key y)); naive_solver. Qed.

#[export] Instance py_le_trans : Transitive (py_le key).
Proof.
  intros x y z. rewrite !py_le_cases. intros [H1|H1] [H2|H2].
  - left. by eapply cmp_trans.
  - left. by rewrite <- H2.
  - left. by rewrite H1.
  - right. congruence.
Qed.

#[export] Instance py_le_antisymm : Inj (=) (=) key -> AntiSymm (=) (py_le key).
Proof.
  intros Hk x y. rewrite !py_le_cases. intros [H1|H1] [H2|H2]; try (by apply Hk).
  rewrite cmp_sym, H1 in H2. done.
Qed.

Lemma sorted_by_perm l : sorted_by key l ≡ₚ l.
Proof. apply merge_sort_Permutation. Qed.

Lemma sorted_by_sorted l : StronglySorted (py_le key) (sorted_by key l).
Proof. apply (StronglySorted_merge_sort (py_le key)). Qed.

Lemma elem_of_sorted_by l x : x ∈ sorted_by key l <-> x ∈ l.
Proof. by rewrite sorted_by_perm. Qed.

Lemma length_sorted_by l : length (sorted_by key l) = length l.
Proof. by rewrite sorted_by_perm. Qed.

Lemma sorted_by_id l : Inj (=) (=) key -> StronglySorted (py_le key) l -> sorted_by key l = l.
Proof.
  intros Hk Hl. pose proof (py_le_antisymm Hk). apply (StronglySorted_unique (py_le key)); [apply sorted_by_sorted|done|].
  apply sorted_by_perm.
Qed.
End SortLemmas.

Lemma py_le_Z (x y : Z) : py_le id x y <-> x <= y.
Proof. done. Qed.

Lemma py_sorted_perm `{Ordered A} (l : list A) : py_sorted l ≡ₚ l.
Proof. apply sorted_by_perm. Qed.

Lemma py_sorted_sorted `{Ordered A} (l : list A) : StronglySorted (py_le id) (py_sorted l).
Proof. apply sorted_by_sorted. Qed.

Lemma py_sorted_id `{Ordered A} (l : list A) : StronglySorted (py_le id) l -> py_sorted l = l.
Proof. apply sorted_by_id. by intros ??. Qed.

Lemma py_sorted_unique `{Ordered A} (l k : list A) : l ≡ₚ k -> py_sorted l = py_sorted k.
Proof.
  intros Hp. pose proof (py_le_antisymm (A := A) id (fun _ _ E => E)) as Ha.
  apply (StronglySorted_unique (py_le id)); [apply py_sorted_sorted..|]. by rewrite !py_sorted_perm.
Qed.

(** The best item is in the list and no item is better. *)
Lemma fold_min_spec {A} `{Ordered K} (key : A -> K) l x :
  let m := foldl (fun m y => match cmp (key y) (key m) with Lt => y | _ => m end) x l in
  m ∈ x :: l /\ forall y, y ∈ x :: l -> py_le key m y.
Proof.
  revert x. induction l as [|z l IH]; intros x m.
  { split; [by left|]. intros y ->%list_elem_of_singleton. unfold py_le. by rewrite cmp_refl. }
  cbn in m. destruct (IH (match cmp (key z) (key x) with Lt => z | _ => x end)) as [Hin Hle]. fold m in Hin, Hle.
  destruct (cmp (key z) (key x)) eqn:E.
  - split; [set_solver|]. intros y [->|[->|Hy]%elem_of_cons]%elem_of_cons; [apply Hle; by left| |apply Hle; by right].
    transitivity x; [apply Hle; by left|]. unfold py_le. by rewrite cmp_sym, E.
  - split; [set_solver|]. intros y [->|[->|Hy]%elem_of_cons]%elem_of_cons; [|apply Hle; by left|apply Hle; by right].
    transitivity z; [apply Hle; by left|]. unfold py_le. by rewrite E.
  - split; [set_solver|]. intros y [->|[->|Hy]%elem_of_cons]%elem_of_cons; [apply Hle; by left| |apply Hle; by right].
    transitivity x; [apply Hle; by left|]. unfold py_le. by rewrite cmp_sym, E.
Qed.

Lemma min_by_spec {A} `{Ordered K} (key : A -> K) l m :
  min_by key l = Some m -> m ∈ l /\ forall y, y ∈ l -> py_le key m y.
Proof. destruct l as [|x l]; [done|]. intros [= <-]. apply fold_min_spec. Qed.

Lemma fold_max_in {A} `{Ordered K} (key : A -> K) l x :
  foldl (fun m y => match cmp (key y) (key m) with Gt => y | _ => m end) x l ∈ x :: l.
Proof.
  revert x. induction l as [|z l IH]; intros x; [by left|]. cbn.
  specialize (IH (match cmp (key z) (key x) with Gt => z | _ => x end)).
  destruct (cmp (key z) (key x)); set_solver.
Qed.

Lemma max_by_in {A} `{Ordered K} (key : A -> K) l m : max_by key l = Some m -> m ∈ l.
Proof. destruct l as [|x l]; [done|]. intros [= <-]. apply fold_max_in. Qed.

#[export] Hint Resolve py_sorted_sorted : heg.
