(* ===== verification/Rewiring.v ===== *)
(** * What the edge updates of the mutation operators do to a graph

    Lemmas on [BitGraph.with_edges] (file Model) for the three updates the
    mutation operators make: adding a missing edge, removing an edge and the
    two-edge switch. *)

From S2P Require Import Prelude Bits Model Verification.

(** [tuple(sorted((u, v)))] *)
Definition sort_pair (u v : Z) : Z * Z := if v <? u then (v, u) else (u, v).
Definition sort_ends (e : Z * Z) : Z * Z := sort_pair e.1 e.2.

(** No edge is listed twice, in whatever direction. *)
Definition distinct_edges (es : list (Z * Z)) : Prop := NoDup (sort_ends <$> es).

Lemma distinct_edges_nil : distinct_edges [].
Proof. apply NoDup_nil_2. Qed.

Lemma distinct_edges_one e : distinct_edges [e].
Proof. apply NoDup_singleton. Qed.

Section Degrees.
Context (g h : BitGraph) (Hg : wf g) (Hh : wf h) (Hn : gn h = gn g).

Lemma vertex_same u : vertex h u <-> vertex g u.
Proof. unfold vertex. by rewrite Hn. Qed.

Lemma degree_mono u :
  vertex g u -> (forall v, adj g u v = true -> adj h u v = true) -> degree g u <= degree h u.
Proof.
  intros Hu Hm. rewrite !degree_neighbors by done. apply inj_le, submseteq_length, NoDup_submseteq.
  - apply NoDup_bits_of, (wf_nonneg g Hg).
  - intros v Hv. apply elem_of_neighbors; [done|by apply vertex_same|].
    apply Hm. by apply elem_of_neighbors in Hv.
Qed.

Lemma degree_ext u : vertex g u -> (forall v, adj h u v = adj g u v) -> degree h u = degree g u.
Proof.
  intros Hu He. rewrite !degree_neighbors by done. f_equal. apply Permutation_length, NoDup_Permutation.
  - apply NoDup_bits_of, (wf_nonneg h Hh).
  - apply NoDup_bits_of, (wf_nonneg g Hg).
  - intros v. rewrite !elem_of_neighbors by (done || by apply vertex_same). by rewrite He.
Qed.

(** One neighbour [p] exchanged for another, [q] *)
Lemma degree_exchange u p q :
  vertex g u -> adj g u p = true -> adj g u q = false ->
  (forall v, adj h u v = true <-> (adj g u v = true /\ v <> p) \/ v = q) ->
  degree h u = degree g u.
Proof.
  intros Hu Hp Hq He. rewrite !degree_neighbors by done.
  assert (p :: neighbors h u ≡ₚ q :: neighbors g u) as Hperm.
  { apply NoDup_Permutation.
    - constructor; [|apply NoDup_bits_of, (wf_nonneg h Hh)].
      rewrite elem_of_neighbors, He by (done || by apply vertex_same). intros [[_ ?]| ->]; congruence.
    - constructor; [|apply NoDup_bits_of, (wf_nonneg g Hg)].
      rewrite elem_of_neighbors by done. congruence.
    - intros v. rewrite !elem_of_cons, !elem_of_neighbors, He by (done || by apply vertex_same).
      destruct (decide (v = p)) as [->|]; tauto. }
  apply Permutation_length in Hperm. cbn in Hperm. lia.
Qed.

Lemma degree_remove u p :
  vertex g u -> adj g u p = true -> (forall v, adj h u v = true <-> adj g u v = true /\ v <> p) ->
  degree h u = degree g u - 1.
Proof.
  intros Hu Hp He. rewrite !degree_neighbors by done.
  assert (p :: neighbors h u ≡ₚ neighbors g u) as Hperm.
  { apply NoDup_Permutation.
    - constructor; [|apply NoDup_bits_of, (wf_nonneg h Hh)].
      rewrite elem_of_neighbors, He by (done || by apply vertex_same). tauto.
    - apply NoDup_bits_of, (wf_nonneg g Hg).
    - intros v. rewrite !elem_of_cons, !elem_of_neighbors, He by (done || by apply vertex_same).
      destruct (decide (v = p)) as [->|]; tauto. }
  apply Permutation_length in Hperm. cbn in Hperm. lia.
Qed.

Lemma connected_mono : (forall u v, adj g u v = true -> adj h u v = true) -> connected g -> connected h.
Proof.
  intros Hm Hc u v Hu Hv. apply (rtc_subrel (edge_rel g)); [intros a b; apply Hm|].
  apply Hc; by apply vertex_same.
Qed.
End Degrees.

Definition same_degrees (g h : BitGraph) : Prop := forall u, vertex g u -> degree h u = degree g u.

Lemma minimal_candidate_keep g h :
  gn h = gn g -> connected h -> (forall u, vertex g u -> 3 <= degree h u) ->
  minimal_candidate g -> minimal_candidate h.
Proof.
  intros Hn Hc Hd (Hne & _ & _). split; [congruence|]. split; [done|]. intros u Hu. apply Hd.
  unfold vertex in *. by rewrite <- Hn.
Qed.

(** ** Adding a missing edge *)

Lemma add_edge_spec g u v :
  wf g -> vertex g u -> vertex g v -> u <> v -> adj g u v = false ->
  exists h, with_edges g [(u, v)] [] = Ok h /\ wf h /\ gn h = gn g /\
    (forall a b, adj h a b = adj g a b || same_edge u v a b) /\
    (connected g -> connected h) /\ (minimal_candidate g -> minimal_candidate h).
Proof.
  intros Hg Hu Hv Hne Ha. destruct (with_edges_total g [(u, v)] []) as (h & Hok & Hh & Hn & Hadj).
  { done. }
  { split; [set_solver|]. intros pre a b post Heq. destruct pre as [|? [|]]; [|done|done].
    injection Heq as <- <- <-. unfold rewired, removed. cbn. by rewrite Ha. }
  assert (forall a b, adj h a b = adj g a b || same_edge u v a b) as Hadj'.
  { intros a b. rewrite Hadj. unfold rewired, removed. cbn. by rewrite andb_true_r, orb_false_r. }
  assert (forall a b, adj g a b = true -> adj h a b = true) as Hm by (intros a b H; by rewrite Hadj', H).
  exists h. split_all; [done..| |].
  - by apply connected_mono.
  - intros Hmin. pose proof Hmin as (_ & Hc & Hd). apply (minimal_candidate_keep g); [done| | |done].
    + by apply (connected_mono g).
    + intros w Hw. specialize (Hd w Hw). pose proof (degree_mono g h Hg Hh Hn w Hw (Hm w)). lia.
Qed.

(** ** Removing an edge *)

Lemma remove_edge_spec g u v :
  wf g -> adj g u v = true ->
  exists h, with_edges g [] [(u, v)] = Ok h /\ wf h /\ gn h = gn g /\
    (forall a b, adj h a b = adj g a b && negb (same_edge u v a b)) /\
    (connected h -> 3 < degree g u -> 3 < degree g v -> minimal_candidate g -> minimal_candidate h).
Proof.
  intros Hg Ha. destruct (with_edges_total g [] [(u, v)]) as (h & Hok & Hh & Hn & Hadj).
  { done. }
  { split; [|by intros []]. intros a b Hin. apply list_elem_of_singleton in Hin as [= -> ->]. done. }
  assert (forall a b, adj h a b = adj g a b && negb (same_edge u v a b)) as Hadj'.
  { intros a b. rewrite Hadj. unfold rewired, removed. cbn. by rewrite !orb_false_r. }
  exists h. split_all; [done..|]. intros Hc Hdu Hdv Hmin.
  apply (minimal_candidate_keep g); [done|done| |done]. intros w Hw. pose proof Hmin as (_ & _ & Hd).
  specialize (Hd w Hw). assert (u <> v) as Hne by (intros ->; by rewrite (wf_irrefl g Hg) in Ha).
  destruct (decide (w = u)) as [->|Hwu]; [|destruct (decide (w = v)) as [->|Hwv]].
  - rewrite (degree_remove g h Hg Hh Hn u v); [lia|done|done|]. intros x.
    rewrite Hadj', andb_true_iff, negb_true_iff, <- not_true_iff_false, same_edge_spec.
    intuition congruence.
  - rewrite (degree_remove g h Hg Hh Hn v u); [lia|done|by rewrite (wf_sym g Hg)|]. intros x.
    rewrite Hadj', andb_true_iff, negb_true_iff, <- not_true_iff_false, same_edge_spec.
    intuition congruence.
  - rewrite (degree_ext g h Hg Hh Hn w); [lia|done|]. intros x. rewrite Hadj'.
    destruct (same_edge u v w x) eqn:E; [|by rewrite andb_true_r].
    apply same_edge_spec in E. intuition congruence.
Qed.

(** ** The two-edge switch *)

Section Switch.
Context (g : BitGraph) (Hg : wf g) (a b x y : Z) (removed added : list (Z * Z)).
Hypothesis Hdist : NoDup [a; b; x; y].
Hypothesis Hab : adj g a b = true.
Hypothesis Hxy : adj g x y = true.
Hypothesis Hax : adj g a x = false.
Hypothesis Hby : adj g b y = false.
Hypothesis Hremoved : forall u v, edge_in removed u v = same_edge a b u v || same_edge x y u v.
Hypothesis Hadded : forall u v, edge_in added u v = same_edge a x u v || same_edge b y u v.
Hypothesis Hre : rewirable g added removed.

Lemma switch_distinct : a <> b /\ a <> x /\ a <> y /\ b <> x /\ b <> y /\ x <> y.
Proof.
  clear -Hdist.
  apply NoDup_cons in Hdist as [H1 H2]. apply NoDup_cons in H2 as [H2 H3].
  apply NoDup_cons in H3 as [H3 _]. set_solver.
Qed.

Lemma switch_adj h u v :
  (forall u v, adj h u v = rewired g added removed u v) ->
  adj h u v = true <->
  (adj g u v = true /\ ~ ((u, v) = (a, b) \/ (u, v) = (b, a) \/ (u, v) = (x, y) \/ (u, v) = (y, x))) \/
  ((u, v) = (a, x) \/ (u, v) = (x, a) \/ (u, v) = (b, y) \/ (u, v) = (y, b)).
Proof.
  intros Hh. rewrite Hh. unfold rewired, Model.removed. rewrite Hremoved, Hadded.
  rewrite orb_true_iff, andb_true_iff, negb_true_iff, orb_true_iff, <- not_true_iff_false, orb_true_iff.
  rewrite !same_edge_spec. intuition congruence.
Qed.

Lemma switch_spec :
  exists h, with_edges g added removed = Ok h /\ wf h /\ gn h = gn g /\ same_degrees g h.
Proof.
  destruct (with_edges_total g added removed Hg Hre) as (h & Hok & Hh & Hn & Hadj).
  exists h. split_all; [done..|]. intros u Hu.
  pose proof (fun u v => switch_adj h u v Hadj) as Hiff.
  pose proof switch_distinct as (? & ? & ? & ? & ? & ?).
  assert (adj g b a = true /\ adj g y x = true /\ adj g x a = false /\ adj g y b = false) as (? & ? & ? & ?)
    by (rewrite (wf_sym g Hg b a), (wf_sym g Hg y x), (wf_sym g Hg x a), (wf_sym g Hg y b); done).
  destruct (decide (u = a)) as [->|]; [|destruct (decide (u = b)) as [->|];
    [|destruct (decide (u = x)) as [->|]; [|destruct (decide (u = y)) as [->|]]]].
  - apply (degree_exchange g h Hg Hh Hn a b x); [done..|]. intros v. rewrite Hiff. intuition congruence.
  - apply (degree_exchange g h Hg Hh Hn b a y); [done..|]. intros v. rewrite Hiff. intuition congruence.
  - apply (degree_exchange g h Hg Hh Hn x y a); [done..|]. intros v. rewrite Hiff. intuition congruence.
  - apply (degree_exchange g h Hg Hh Hn y x b); [done..|]. intros v. rewrite Hiff. intuition congruence.
  - apply (degree_ext g h Hg Hh Hn u Hu). intros v. apply eq_true_iff_eq. rewrite Hiff.
    intuition congruence.
Qed.
End Switch.
