(* ===== verification/Mutation.v ===== *)
(** * Mutation operators of the Erdos-Gyarfas target

    [src/src/sglab/targets/erdos_gyarfas.py]: the mutation counters, the cache
    of forbidden-witness edges, the two-edge switch and [mutate_with_delta].
    The functions draw from a random source, read a clock and update a profile
    and a cache that the caller owns, so they run in a state monad over
    [World]. *)

From S2P Require Import Prelude Bits Model Cycles Verification Rng Rewiring.

#[global] Open Scope Z_scope.

(** ** Counters *)

Definition PROFILED_FORBIDDEN_LENGTHS : list Z := [4; 8; 16; 32; 64; 128].

Record MutationProfileAccumulator := mkMutationProfile {
  uniform_evaluations : Z; uniform_ns : Z;
  targeted_evaluations : Z; targeted_ns : Z;
  random_restart_evaluations : Z; random_restart_ns : Z;
  witness_cache_lookups : Z; witness_cache_hits : Z; witness_cache_misses : Z;
  witness_searches : Z; witness_search_ns : Z;
  witness_search_length_ns : list Z;
  witness_search_length_nodes : list Z;
  witness_search_length_calls : list Z;
  witness_edge_materialization_ns : Z;
  switch_attempts : Z;
  partner_edge_sampling_ns : Z; candidate_construction_ns : Z;
  connectivity_validation_ns : Z; graph_family_validation_ns : Z
}.

(** The dataclass's defaults; [reset] stores them back. *)
Definition new_mutation_profile : MutationProfileAccumulator :=
  mkMutationProfile 0 0 0 0 0 0 0 0 0 0 0 (replicate 6 0) (replicate 6 0) (replicate 6 0) 0 0 0 0 0 0.

(** [for index in range(len(...)): l[index] = 0] *)
Definition zero_cells (k : nat) (l : list Z) : res (list Z) :=
  foldM (fun l index => py_store l index 0) l (range 0 (Z.of_nat k)).

Definition reset (p : MutationProfileAccumulator) : res MutationProfileAccumulator :=
  ns ← zero_cells (length PROFILED_FORBIDDEN_LENGTHS) (witness_search_length_ns p);
  nodes ← zero_cells (length PROFILED_FORBIDDEN_LENGTHS) (witness_search_length_nodes p);
  calls ← zero_cells (length PROFILED_FORBIDDEN_LENGTHS) (witness_search_length_calls p);
  Ok (mkMutationProfile 0 0 0 0 0 0 0 0 0 0 0 ns nodes calls 0 0 0 0 0 0).

Definition record_operator (operator : string) (elapsed_ns : Z) (p : MutationProfileAccumulator)
  : MutationProfileAccumulator :=
  let '(mkMutationProfile ue un te tn re rn l h m s sn lns ln lc me sa ps cc cv gf) := p in
  if bool_decide (operator = "uniform_two_edge_switch"%string) then
    mkMutationProfile (ue + 1) (un + elapsed_ns) te tn re rn l h m s sn lns ln lc me sa ps cc cv gf
  else if bool_decide (operator = "forbidden_cycle_break_switch"%string) then
    mkMutationProfile ue un (te + 1) (tn + elapsed_ns) re rn l h m s sn lns ln lc me sa ps cc cv gf
  else
    mkMutationProfile ue un te tn (re + 1) (rn + elapsed_ns) l h m s sn lns ln lc me sa ps cc cv gf.

(** The single-field updates of the code below *)
Definition count_lookup (p : MutationProfileAccumulator) :=
  let '(mkMutationProfile ue un te tn re rn l h m s sn lns ln lc me sa ps cc cv gf) := p in
  mkMutationProfile ue un te tn re rn (l + 1) h m s sn lns ln lc me sa ps cc cv gf.
Definition count_hit (p : MutationProfileAccumulator) :=
  let '(mkMutationProfile ue un te tn re rn l h m s sn lns ln lc me sa ps cc cv gf) := p in
  mkMutationProfile ue un te tn re rn l (h + 1) m s sn lns ln lc me sa ps cc cv gf.
Definition count_miss (p : MutationProfileAccumulator) :=
  let '(mkMutationProfile ue un te tn re rn l h m s sn lns ln lc me sa ps cc cv gf) := p in
  mkMutationProfile ue un te tn re rn l h (m + 1) s sn lns ln lc me sa ps cc cv gf.
Definition count_search (ns : Z) (p : MutationProfileAccumulator) :=
  let '(mkMutationProfile ue un te tn re rn l h m s sn lns ln lc me sa ps cc cv gf) := p in
  mkMutationProfile ue un te tn re rn l h m (s + 1) (sn + ns) lns ln lc me sa ps cc cv gf.
Definition count_materialization (ns : Z) (p : MutationProfileAccumulator) :=
  let '(mkMutationProfile ue un te tn re rn l h m s sn lns ln lc me sa ps cc cv gf) := p in
  mkMutationProfile ue un te tn re rn l h m s sn lns ln lc (me + ns) sa ps cc cv gf.
Definition count_attempt (p : MutationProfileAccumulator) :=
  let '(mkMutationProfile ue un te tn re rn l h m s sn lns ln lc me sa ps cc cv gf) := p in
  mkMutationProfile ue un te tn re rn l h m s sn lns ln lc me (sa + 1) ps cc cv gf.
Definition count_sampling (ns : Z) (p : MutationProfileAccumulator) :=
  let '(mkMutationProfile ue un te tn re rn l h m s sn lns ln lc me sa ps cc cv gf) := p in
  mkMutationProfile ue un te tn re rn l h m s sn lns ln lc me sa (ps + ns) cc cv gf.
Definition count_construction (ns : Z) (p : MutationProfileAccumulator) :=
  let '(mkMutationProfile ue un te tn re rn l h m s sn lns ln lc me sa ps cc cv gf) := p in
  mkMutationProfile ue un te tn re rn l h m s sn lns ln lc me sa ps (cc + ns) cv gf.
Definition count_connectivity (ns : Z) (p : MutationProfileAccumulator) :=
  let '(mkMutationProfile ue un te tn re rn l h m s sn lns ln lc me sa ps cc cv gf) := p in
  mkMutationProfile ue un te tn re rn l h m s sn lns ln lc me sa ps cc (cv + ns) gf.
Definition count_family (ns : Z) (p : MutationProfileAccumulator) :=
  let '(mkMutationProfile ue un te tn re rn l h m s sn lns ln lc me sa ps cc cv gf) := p in
  mkMutationProfile ue un te tn re rn l h m s sn lns ln lc me sa ps cc cv (gf + ns).

Definition count_length (len ns visited_nodes : Z) (p : MutationProfileAccumulator)
  : res MutationProfileAccumulator :=
  let '(mkMutationProfile ue un te tn re rn l h m s sn lns ln lc me sa ps cc cv gf) := p in
  index ← tuple_index PROFILED_FORBIDDEN_LENGTHS len;
  lns ← incr lns index ns;
  ln ← incr ln index visited_nodes;
  lc ← incr lc index 1;
  Ok (mkMutationProfile ue un te tn re rn l h m s sn lns ln lc me sa ps cc cv gf).

(** ** The cache of forbidden-witness edges *)

Abbreviation WitnessEdges := (list (Z * Z)).

(** [_graph] is compared by identity: graphs are immutable objects, and a
    graph's identity is a number here. *)
Record ForbiddenWitnessContext := mkContext {
  enabled : bool; _graph : option nat; _choices : list WitnessEdges
}.

Definition new_mutation_context (cache_enabled : bool) : ForbiddenWitnessContext :=
  mkContext cache_enabled None [].

Definition invalidate (c : ForbiddenWitnessContext) : ForbiddenWitnessContext :=
  mkContext (enabled c) None [].

Record MutationResult := mkMutation {
  mutated : BitGraph; removed_edges : list (Z * Z); added_edges : list (Z * Z)
}.

(** ** The state monad *)

Record World (R : Type) := mkWorld {
  w_rng : R; w_tick : nat; w_profile : MutationProfileAccumulator; w_context : ForbiddenWitnessContext
}.
Arguments mkWorld {R} _ _ _ _.
Arguments w_rng {R} _.
Arguments w_tick {R} _.
Arguments w_profile {R} _.
Arguments w_context {R} _.

Definition M (R A : Type) : Type := World R -> res (A * World R).

#[export] Instance M_ret R : MRet (M R) := fun A a w => Ok (a, w).
#[export] Instance M_bind R : MBind (M R) := fun A B f m w =>
  match m w with Ok (a, w') => f a w' | Raise e => Raise e end.

Section Mutate.
Context {R : Type} `{Rng R}.
(** [perf_counter_ns()] at each reading *)
Context (clock : nat -> Z).

Definition raise {A} (e : exn) : M R A := fun _ => Raise e.
Definition lift {A} (r : res A) : M R A := fun w => match r with Ok a => Ok (a, w) | Raise e => Raise e end.

Definition with_rng {A} (f : R -> A * R) : M R A := fun w =>
  let '(a, r) := f (w_rng w) in Ok (a, mkWorld r (w_tick w) (w_profile w) (w_context w)).

(** [perf_counter_ns() if profile is not None else 0] *)
Definition now (profiled : bool) : M R Z := fun w =>
  if profiled then Ok (clock (w_tick w), mkWorld (w_rng w) (S (w_tick w)) (w_profile w) (w_context w))
  else Ok (0, w).

(** [if profile is not None: ...] *)
Definition profile_update (profiled : bool) (f : MutationProfileAccumulator -> res MutationProfileAccumulator)
  : M R unit := fun w =>
  if profiled then
    p ← f (w_profile w); Ok (tt, mkWorld (w_rng w) (w_tick w) p (w_context w))
  else Ok (tt, w).

Definition charge (profiled : bool) (started : Z)
  (f : Z -> MutationProfileAccumulator -> MutationProfileAccumulator) : M R unit :=
  stop ← now profiled; profile_update profiled (fun p => Ok (f (stop - started) p)).

(** [rng.choice(seq)] *)
Definition pick {A} (l : list A) : M R A :=
  match l with
  | [] => raise IndexError
  | _ => i ← with_rng (fun r => choice r (length l)); lift (py_index l (Z.of_nat i))
  end.

(** ** [_compute_forbidden_witness_edge_choices] *)

(** The consecutive pairs of a witness, each sorted *)
Definition witness_edges_of (witness : list Z) : res WitnessEdges :=
  foldM (fun es index =>
    u ← py_index witness index;
    v ← py_index witness ((index + 1) mod Z.of_nat (length witness));
    Ok (es ++ [sort_pair u v])) [] (range 0 (Z.of_nat (length witness))).

Fixpoint search_lengths (profiled : bool) (g : BitGraph) (lens : list Z) (acc : list (list Z))
  : M R (list (list Z)) :=
  match lens with
  | [] => mret acc
  | len :: lens' =>
      started ← now profiled;
      r ← lift (find_cycles_of_length_bounded_profiled g len 1 (Some 4096));
      stop ← now profiled;
      _ ← profile_update profiled (count_length len (stop - started) r.2);
      search_lengths profiled g lens' (acc ++ r.1.1)
  end.

Definition _compute_forbidden_witness_edge_choices (profiled : bool) (g : BitGraph)
  : M R (list WitnessEdges) :=
  started ← now profiled;
  found ← search_lengths profiled g (forbidden_lengths (gn g)) [];
  _ ← charge profiled started count_search;
  match found with
  | [] => mret []
  | _ =>
      materialization_started ← now profiled;
      choices ← lift (foldM (fun cs c => es ← witness_edges_of c; Ok (cs ++ [es])) [] found);
      _ ← charge profiled materialization_started count_materialization;
      mret choices
  end.

Definition get_context : M R ForbiddenWitnessContext := fun w => Ok (w_context w, w).
Definition set_context (c : ForbiddenWitnessContext) : M R unit := fun w =>
  Ok (tt, mkWorld (w_rng w) (w_tick w) (w_profile w) c).

(** [ForbiddenWitnessContext.choices_for], with the only [compute] it is given *)
Definition choices_for (profiled : bool) (gid : nat) (g : BitGraph) : M R (list WitnessEdges) :=
  _ ← profile_update profiled (fun p => Ok (count_lookup p));
  ctx ← get_context;
  if enabled ctx && bool_decide (_graph ctx = Some gid) then
    _ ← profile_update profiled (fun p => Ok (count_hit p));
    mret (_choices ctx)
  else
    _ ← profile_update profiled (fun p => Ok (count_miss p));
    choices ← _compute_forbidden_witness_edge_choices profiled g;
    _ ← (if enabled ctx then set_context (mkContext true (Some gid) choices) else mret tt);
    mret choices.

Definition forbidden_witness_edge_choices (profiled with_context : bool) (gid : nat) (g : BitGraph)
  : M R (list WitnessEdges) :=
  if with_context then choices_for profiled gid g
  else _compute_forbidden_witness_edge_choices profiled g.

(** ** [_minimal_structure_valid] *)

Definition has_degree_three_neighbor (g : BitGraph) (u : Z) : bool :=
  existsb (fun v => degree g v =? 3) (neighbors g u).

Definition degree_three_count (g : BitGraph) : Z :=
  Z.of_nat (length (filter (fun u => degree g u = 3) (range 0 (gn g)))).

(** [math.ceil(4 * graph.n / 7)]; the quotient is a double, exact enough for
    the orders in question *)
Definition ceil_div (a b : Z) : Z := - ((- a) / b).

Definition _minimal_structure_valid (g : BitGraph) : bool :=
  if degree_three_count g <? ceil_div (4 * gn g) 7 then false
  else if existsb (fun uv : Z * Z => (4 <=? degree g uv.1) && (4 <=? degree g uv.2)) (edges g) then false
  else forallb (has_degree_three_neighbor g) (range 0 (gn g)).

(** ** [_two_edge_switch] *)

Definition distinct4 (a b c d : Z) : bool := bool_decide (NoDup [a; b; c; d]).

Fixpoint try_pairings (profiled : bool) (g : BitGraph) (first second : Z * Z) (mode : string)
  (pairings : list ((Z * Z) * (Z * Z))) : M R (option MutationResult) :=
  match pairings with
  | [] => mret None
  | (e1, e2) :: pairings' =>
      let additions := [sort_pair e1.1 e1.2; sort_pair e2.1 e2.2] in
      h1 ← lift (has_edge g (sort_pair e1.1 e1.2).1 (sort_pair e1.1 e1.2).2);
      h2 ← lift (if h1 then Ok true else has_edge g (sort_pair e2.1 e2.2).1 (sort_pair e2.1 e2.2).2);
      if bool_decide (sort_pair e1.1 e1.2 = sort_pair e2.1 e2.2) || h1 || h2
      then try_pairings profiled g first second mode pairings'
      else
        construction_started ← now profiled;
        candidate ← lift (with_edges g additions [first; second]);
        _ ← charge profiled construction_started count_construction;
        connectivity_started ← now profiled;
        let connected := is_connected candidate in
        _ ← charge profiled connectivity_started count_connectivity;
        family_valid ←
          (if connected && bool_decide (mode = "minimal_structure_mixed_degree"%string) then
             family_started ← now profiled;
             let family_valid := _minimal_structure_valid candidate in
             _ ← charge profiled family_started count_family;
             mret family_valid
           else mret true);
        if connected && family_valid
        then mret (Some (mkMutation candidate [first; second] additions))
        else try_pairings profiled g first second mode pairings'
  end.

Definition _two_edge_switch (profiled : bool) (g : BitGraph) (first second : Z * Z) (mode : string)
  : M R (option MutationResult) :=
  let '(a, b) := first in
  let '(c, d) := second in
  if negb (distinct4 a b c d) then mret None
  else
    k ← with_rng (fun r => randrange r 2);
    try_pairings profiled g first second mode
      (if k =? 0 then [((a, c), (b, d)); ((a, d), (b, c))] else [((a, d), (b, c)); ((a, c), (b, d))]).

(** ** [mutate_with_delta] *)

(** A config entry: absent or [None], an object of another class, or the
    world's profile or cache *)
Inductive slot := Missing | WrongClass | Given.

Record Config := mkConfig {
  mode : string;
  mutation_operator : string;
  mutation_profile : slot;
  witness_edge_choices : option (list WitnessEdges);
  witness_context : slot
}.

Definition is_given (s : slot) : bool := match s with Given => true | _ => false end.
Definition check_class (s : slot) : M R unit := match s with WrongClass => raise TypeError | _ => mret tt end.

Definition missing_pairs (g : BitGraph) : res (list (Z * Z)) :=
  foldM (fun es (uv : Z * Z) => h ← has_edge g uv.1 uv.2; Ok (if h : bool then es else es ++ [uv])) []
    (pairs (gn g)).

Definition removable_edges (g : BitGraph) : list (Z * Z) :=
  filter (fun e => 3 < degree g e.1 /\ 3 < degree g e.2) (edges g).

(** The edges of [graph] that [candidate] has not *)
Definition lost_edges (g candidate : BitGraph) : res (list (Z * Z)) :=
  foldM (fun es (uv : Z * Z) => h ← has_edge candidate uv.1 uv.2; Ok (if h : bool then es else es ++ [uv]))
    [] (edges g).

(** [if rng.random() < 0.55: ...] *)
Definition add_missing (g : BitGraph) : M R (option MutationResult) :=
  below ← with_rng random_below_055;
  if below : bool then
    missing ← lift (missing_pairs g);
    match missing with
    | [] => mret None
    | _ =>
        addition ← pick missing;
        h ← lift (with_edges g [addition] []);
        mret (Some (mkMutation h [] [addition]))
    end
  else mret None.

(** [if removable: ...] *)
Definition remove_one (g : BitGraph) : M R (option MutationResult) :=
  match removable_edges g with
  | [] => mret None
  | removable =>
      e ← pick removable;
      candidate ← lift (with_edges g [] [e]);
      if is_connected candidate then
        removed ← lift (lost_edges g candidate);
        mret (Some (mkMutation candidate removed []))
      else mret None
  end.

(** The targeted loop: [for _ in range(64)] *)
Fixpoint targeted_attempts (k : nat) (profiled : bool) (g : BitGraph) (mode : string)
  (witness_edges es : list (Z * Z)) : M R MutationResult :=
  match k with
  | O => mret (mkMutation g [] [])
  | S k' =>
      _ ← profile_update profiled (fun p => Ok (count_attempt p));
      sampling_started ← now profiled;
      first ← pick witness_edges;
      remote ← pick es;
      _ ← charge profiled sampling_started count_sampling;
      candidate ← _two_edge_switch profiled g first remote mode;
      match candidate with
      | Some r => mret r
      | None => targeted_attempts k' profiled g mode witness_edges es
      end
  end.

Fixpoint uniform_attempts (k : nat) (g : BitGraph) (mode : string) (es : list (Z * Z))
  : M R MutationResult :=
  match k with
  | O => mret (mkMutation g [] [])
  | S k' =>
      ij ← with_rng (fun r => sample2 r (length es));
      first ← lift (py_index es (Z.of_nat ij.1));
      second ← lift (py_index es (Z.of_nat ij.2));
      candidate ← _two_edge_switch false g first second mode;
      match candidate with
      | Some r => mret r
      | None => uniform_attempts k' g mode es
      end
  end.

Definition targeted_mutation (cfg : Config) (gid : nat) (g : BitGraph) (es : list (Z * Z))
  : M R MutationResult :=
  _ ← check_class (mutation_profile cfg);
  let profiled := is_given (mutation_profile cfg) in
  witness_choices ←
    match witness_edge_choices cfg with
    | Some choices => mret choices
    | None =>
        _ ← check_class (witness_context cfg);
        forbidden_witness_edge_choices profiled (is_given (witness_context cfg)) gid g
    end;
  witness_edges ← (match witness_choices with [] => mret [] | _ => pick witness_choices end);
  match witness_edges with
  | [] => mret (mkMutation g [] [])
  | _ => targeted_attempts 64 profiled g (mode cfg) witness_edges es
  end.

Definition switch_mutation (cfg : Config) (gid : nat) (g : BitGraph) : M R MutationResult :=
  let es := edges g in
  if (length es <? 2)%nat then mret (mkMutation g [] [])
  else if bool_decide (mutation_operator cfg = "forbidden_cycle_break_switch"%string)
  then targeted_mutation cfg gid g es
  else uniform_attempts 64 g (mode cfg) es.

Definition mutate_with_delta (cfg : Config) (gid : nat) (g : BitGraph) : M R MutationResult :=
  if negb (bool_decide (mutation_operator cfg = "uniform_two_edge_switch"%string) ||
           bool_decide (mutation_operator cfg = "forbidden_cycle_break_switch"%string))
  then raise (ValueError ("unsupported mutation operator: " ++ mutation_operator cfg))
  else if bool_decide (mode cfg = "unrestricted_min_degree_3"%string) then
    added ← add_missing g;
    match added with
    | Some r => mret r
    | None =>
        removed ← remove_one g;
        match removed with
        | Some r => mret r
        | None => switch_mutation cfg gid g
        end
    end
  else switch_mutation cfg gid g.

Definition mutate (cfg : Config) (gid : nat) (g : BitGraph) : M R BitGraph :=
  r ← mutate_with_delta cfg gid g; mret (mutated r).
End Mutate.

(** ** Reasoning about two runs at once

    [simulates Q m1 m2]: from worlds with the same random state, both programs
    return, with the same value, which has [Q], and with the same random state
    again; counters, clock and cache may differ. With [m1 = m2] this is total
    correctness; with different profiling and cache settings it says that
    neither influences the search. *)

Definition counters_ok (p : MutationProfileAccumulator) : Prop :=
  length (witness_search_length_ns p) = 6%nat /\ length (witness_search_length_nodes p) = 6%nat /\
  length (witness_search_length_calls p) = 6%nat.

(** What the search for witnesses finds, as a function of the graph *)
Definition witnesses_of (g : BitGraph) : list (list Z) :=
  len ← forbidden_lengths (gn g);
  match find_cycles_of_length_bounded_profiled g len 1 (Some 4096) with Ok r => r.1.1 | Raise _ => [] end.

Definition edges_of_cycle (c : list Z) : WitnessEdges :=
  (fun i => sort_pair (cell c i) (cell c ((i + 1) mod Z.of_nat (length c)))) <$> range 0 (Z.of_nat (length c)).

Definition forbidden_choices (g : BitGraph) : list WitnessEdges := edges_of_cycle <$> witnesses_of g.

Section Simulation.
Context {R : Type} `{Hrng : Rng R} (heap : nat -> BitGraph).

(** The world the caller keeps: counter lists of the right length, and a cache
    that holds what its graph's search gave *)
Definition world_ok (w : World R) : Prop :=
  counters_ok (w_profile w) /\
  forall i, _graph (w_context w) = Some i -> _choices (w_context w) = forbidden_choices (heap i).

Definition simulates {A} (Q : A -> Prop) (m1 m2 : M R A) : Prop :=
  forall w1 w2, world_ok w1 -> world_ok w2 -> w_rng w1 = w_rng w2 ->
  exists a w1' w2', m1 w1 = Ok (a, w1') /\ m2 w2 = Ok (a, w2') /\
    world_ok w1' /\ world_ok w2' /\ w_rng w1' = w_rng w2' /\ Q a.

(** [silent Q m]: the program returns a value with [Q] and leaves the random
    state alone. *)
Definition silent {A} (Q : A -> Prop) (m : M R A) : Prop :=
  forall w, world_ok w ->
  exists a w', m w = Ok (a, w') /\ world_ok w' /\ w_rng w' = w_rng w /\ Q a.

Lemma sim_ret {A} (Q : A -> Prop) a : Q a -> simulates Q (mret a) (mret a).
Proof. intros Ha w1 w2 ???. exists a, w1, w2. done. Qed.

Lemma sim_bind {A B} (P : A -> Prop) (Q : B -> Prop) m1 m2 k1 k2 :
  simulates P m1 m2 -> (forall a, P a -> simulates Q (k1 a) (k2 a)) ->
  simulates Q (m1 ≫= k1) (m2 ≫= k2).
Proof.
  intros Hm Hk w1 w2 H1 H2 Hr. destruct (Hm w1 w2 H1 H2 Hr) as (a & v1 & v2 & E1 & E2 & H1' & H2' & Hr' & Ha).
  unfold mbind, M_bind. rewrite E1, E2. by apply Hk.
Qed.

Lemma sim_silent {A B C} (P1 : A -> Prop) (P2 : B -> Prop) (Q : C -> Prop) m1 m2 k1 k2 :
  silent P1 m1 -> silent P2 m2 -> (forall a b, P1 a -> P2 b -> simulates Q (k1 a) (k2 b)) ->
  simulates Q (m1 ≫= k1) (m2 ≫= k2).
Proof.
  intros Hm1 Hm2 Hk w1 w2 H1 H2 Hr. destruct (Hm1 w1 H1) as (a & v1 & E1 & H1' & R1 & Ha).
  destruct (Hm2 w2 H2) as (b & v2 & E2 & H2' & R2 & Hb). unfold mbind, M_bind. rewrite E1, E2.
  apply Hk; [done..|congruence].
Qed.

Lemma silent_ret {A} (Q : A -> Prop) a : Q a -> silent Q (mret a).
Proof. intros Ha w Hw. by exists a, w. Qed.

Lemma silent_bind {A B} (P : A -> Prop) (Q : B -> Prop) m k :
  silent P m -> (forall a, P a -> silent Q (k a)) -> silent Q (m ≫= k).
Proof.
  intros Hm Hk w Hw. destruct (Hm w Hw) as (a & w' & E & Hw' & Hr & Ha). unfold mbind, M_bind. rewrite E.
  destruct (Hk a Ha w' Hw') as (b & w'' & E' & ? & ? & ?). exists b, w''. split_all; [done|done|congruence|done].
Qed.

Lemma silent_lift {A} (Q : A -> Prop) r a : r = Ok a -> Q a -> silent Q (lift r).
Proof. intros -> Ha w Hw. by exists a, w. Qed.

Lemma sim_lift {A} (Q : A -> Prop) r a : r = Ok a -> Q a -> simulates Q (lift r) (lift r).
Proof. intros -> Ha. by apply sim_ret. Qed.

Lemma sim_rng {A} (Q : A -> Prop) f : (forall r, Q (f r).1) -> simulates Q (with_rng f) (with_rng f).
Proof.
  intros Hf w1 w2 H1 H2 Hr. unfold with_rng. rewrite <- Hr. specialize (Hf (w_rng w1)).
  destruct (f (w_rng w1)) as [a r]. eexists a, _, _. split_all; [done|done|exact H1|exact H2|done|done].
Qed.

Lemma silent_now clock p : silent (fun _ => True) (now clock p).
Proof. intros w Hw. unfold now. destruct p; eexists _, _; split_all; done. Qed.

Lemma silent_update p f :
  (forall q, p = true -> counters_ok q -> exists q', f q = Ok q' /\ counters_ok q') ->
  silent (fun _ => True) (profile_update p f).
Proof.
  intros Hf w Hw. unfold profile_update. destruct p; [|by exists tt, w].
  destruct Hw as [Hc Hx]. destruct (Hf _ eq_refl Hc) as (q & -> & Hq). cbn. eexists _, _.
  split_all; [done|done|done|done].
Qed.

Lemma silent_charge clock p started f :
  (forall n q, counters_ok q -> counters_ok (f n q)) -> silent (fun _ => True) (charge clock p started f).
Proof.
  intros Hf. apply (silent_bind (fun _ => True)); [apply silent_now|]. intros stop _.
  apply silent_update. intros q _ Hq. eexists. split; [done|]. by apply Hf.
Qed.

Lemma sim_pick {A} `{!RngLaws R} (l : list A) :
  l <> [] -> simulates (fun x => x ∈ l) (pick l) (pick l).
Proof.
  intros Hl. unfold pick. destruct l as [|y l']; [done|]. set (l := y :: l').
  apply (sim_bind (fun i => (i < length l)%nat)).
  - apply sim_rng. intros r. apply choice_lt. cbn. lia.
  - intros i Hi. destruct (py_index_in_range l (Z.of_nat i)) as (x & Hx & Hp); [lia|].
    apply (sim_lift _ _ x Hp). by apply list_elem_of_lookup_2 in Hx.
Qed.
End Simulation.

(** The other counters leave the lists alone. *)
Ltac counters :=
  intros; try (eexists; split; [done|]);
  match goal with H : counters_ok ?q |- _ => destruct q; exact H end.

(** Below order 256 every forbidden length has its counters. *)
Lemma profiled_length n len :
  n < 256 -> len ∈ forbidden_lengths n ->
  exists i, tuple_index PROFILED_FORBIDDEN_LENGTHS len = Ok i /\ 0 <= i < 6.
Proof.
  intros Hn [Hle (k & Hk & ->)]%elem_of_forbidden_lengths.
  assert (k < 8) as Hk8.
  { apply Z.nle_gt. intros H8. pose proof (Z.pow_le_mono_r 2 8 k). cbn in *. lia. }
  assert (k = 2 \/ k = 3 \/ k = 4 \/ k = 5 \/ k = 6 \/ k = 7) as Hcases by lia.
  destruct Hcases as [->|[->|[->|[->|[->| ->]]]]]; eexists; (split; [vm_compute; reflexivity|lia]).
Qed.

Lemma count_length_ok n len ns nodes q :
  n < 256 -> len ∈ forbidden_lengths n -> counters_ok q ->
  exists q', count_length len ns nodes q = Ok q' /\ counters_ok q'.
Proof.
  intros Hn Hl. destruct q. unfold counters_ok. cbn. intros (H1 & H2 & H3).
  destruct (profiled_length n len Hn Hl) as (i & -> & Hi). cbn.
  destruct (incr_length witness_search_length_ns0 i ns) as (l1 & -> & Hl1); [lia|]. cbn.
  destruct (incr_length witness_search_length_nodes0 i nodes) as (l2 & -> & Hl2); [lia|]. cbn.
  destruct (incr_length witness_search_length_calls0 i 1) as (l3 & -> & Hl3); [lia|]. cbn.
  eexists. split; [done|]. cbn. split_all; congruence.
Qed.

Lemma witness_edges_of_ok c : c <> [] -> witness_edges_of c = Ok (edges_of_cycle c).
Proof.
  intros Hc. unfold witness_edges_of, edges_of_cycle. set (n := Z.of_nat (length c)).
  assert (0 < n) as Hn by (unfold n; destruct c; [done|cbn; lia]).
  destruct (foldM_total (fun pre es => es = (fun i => sort_pair (cell c i) (cell c ((i + 1) mod n))) <$> pre)
    (fun es index => u ← py_index c index; v ← py_index c ((index + 1) mod n); Ok (es ++ [sort_pair u v]))
    (range 0 n) []) as (es & He & ->); [|done|exact He].
  intros pre i post es Heq ->. assert (i ∈ range 0 n) as Hi%elem_of_range by (rewrite Heq; set_solver).
  destruct (py_index_in_range c i Hi) as (u & Hu & ->).
  destruct (py_index_in_range c ((i + 1) mod n)) as (v & Hv & ->); [by apply Z.mod_pos_bound|].
  cbn. eexists. split; [done|]. rewrite fmap_app. cbn.
  by rewrite <- (cell_lookup _ _ _ Hu), <- (cell_lookup _ _ _ Hv).
Qed.

Lemma found_within g len r :
  wf g -> find_cycles_of_length_bounded_profiled g len 1 (Some 4096) = Ok r ->
  forall c, c ∈ r.1.1 -> is_cycle g len c.
Proof.
  intros Hg Hr c Hc. destruct r as [[cs comp] nodes].
  destruct (enumerate_spec _ _ _ _ _ _ _ Hg Hr) as (_ & Hcan & _). by apply canonical_is_cycle, Hcan.
Qed.

Lemma witnesses_cycle g c : wf g -> c ∈ witnesses_of g -> exists len, is_cycle g len c.
Proof.
  intros Hg (len & Hc & _)%list_elem_of_bind. exists len.
  destruct (profiled_returns g len 1 (Some 4096)) as [r Hr]; [intros b [= <-]; lia|].
  rewrite Hr in Hc. by apply (found_within g len r).
Qed.

Lemma edges_of_cycle_adj g len c e :
  wf g -> is_cycle g len c -> e ∈ edges_of_cycle c -> adj g e.1 e.2 = true.
Proof.
  intros Hg (H3 & Hl & _ & Hc) (i & -> & Hi%elem_of_range)%list_elem_of_fmap.
  assert (adj g (cell c i) (cell c ((i + 1) mod Z.of_nat (length c))) = true) as Ha.
  { rewrite closed_chain in Hc. by apply (Hc i). }
  unfold sort_pair. case_match; [by rewrite (wf_sym g Hg)|done].
Qed.

(** Every witness offers at least one edge, and all are edges of the graph. *)
Definition usable (g : BitGraph) (choices : list WitnessEdges) : Prop :=
  forall es, es ∈ choices -> es <> [] /\ forall e, e ∈ es -> adj g e.1 e.2 = true.

Lemma forbidden_choices_usable g : wf g -> usable g (forbidden_choices g).
Proof.
  intros Hg es (c & -> & Hc)%list_elem_of_fmap. destruct (witnesses_cycle g c Hg Hc) as (len & Hlen).
  split; [|intros e; by apply (edges_of_cycle_adj g len)].
  destruct Hlen as (H3 & Hl & _). unfold edges_of_cycle. rewrite range_cons by lia. done.
Qed.

Section Cache.
Context {R : Type} `{Hrng : Rng R} (clock : nat -> Z) (heap : nat -> BitGraph) (g : BitGraph) (Hg : wf g).
Local Abbreviation world_ok := (world_ok heap).
Local Abbreviation silent := (silent (R := R) heap).

Lemma silent_search profiled lens acc :
  (profiled = true -> gn g < 256) -> (forall len, len ∈ lens -> len ∈ forbidden_lengths (gn g)) ->
  silent (fun r => r = acc ++ (len ← lens;
      match find_cycles_of_length_bounded_profiled g len 1 (Some 4096) with Ok r => r.1.1 | Raise _ => [] end))
    (search_lengths clock profiled g lens acc).
Proof.
  intros Hp. revert acc. induction lens as [|len lens IH]; intros acc Hl; cbn [search_lengths].
  { apply silent_ret. by rewrite app_nil_r. }
  apply (silent_bind _ (fun _ => True)); [apply silent_now|]. intros started _.
  destruct (profiled_returns g len 1 (Some 4096)) as [r Hr]; [intros b [= <-]; lia|].
  apply (silent_bind _ (eq r)); [by apply (silent_lift _ _ _ r)|]. intros ? <-.
  apply (silent_bind _ (fun _ => True)); [apply silent_now|]. intros stop _.
  apply (silent_bind _ (fun _ => True)).
  { apply silent_update. intros q Hpr Hq. apply (count_length_ok (gn g)); [auto| |done]. apply Hl. set_solver. }
  intros [] _. cbn [mbind list_bind]. rewrite Hr, app_assoc. apply IH. intros x Hx. apply Hl. set_solver.
Qed.

Lemma materialize cs acc :
  (forall c, c ∈ cs -> c <> []) ->
  foldM (fun acc c => es ← witness_edges_of c; Ok (acc ++ [es])) acc cs = Ok (acc ++ (edges_of_cycle <$> cs)).
Proof.
  revert acc. induction cs as [|c cs IH]; intros acc Hc; cbn [foldM]; [by rewrite app_nil_r|].
  rewrite witness_edges_of_ok by (apply Hc; set_solver). cbn [mbind res_bind].
  rewrite IH by (intros; apply Hc; set_solver). by rewrite <- app_assoc.
Qed.

Lemma silent_compute profiled :
  (profiled = true -> gn g < 256) ->
  silent (fun r => r = forbidden_choices g) (_compute_forbidden_witness_edge_choices clock profiled g).
Proof.
  intros Hp. unfold _compute_forbidden_witness_edge_choices.
  apply (silent_bind _ (fun _ => True)); [apply silent_now|]. intros started _.
  apply (silent_bind _ (fun r => r = witnesses_of g)); [by apply silent_search|]. intros found ->.
  apply (silent_bind _ (fun _ => True)); [apply silent_charge; counters|]. intros [] _.
  destruct (witnesses_of g) as [|c cs] eqn:E.
  { apply silent_ret. unfold forbidden_choices. by rewrite E. }
  apply (silent_bind _ (fun _ => True)); [apply silent_now|]. intros mstarted _.
  apply (silent_bind _ (fun r => r = forbidden_choices g)).
  { unfold forbidden_choices. rewrite E. eapply silent_lift; [|done]. apply (materialize (c :: cs) []).
    intros d Hd. rewrite <- E in Hd. destruct (witnesses_cycle g d Hg Hd) as (len & H3 & Hl & _).
    intros ->. cbn in Hl. lia. }
  intros choices ->. apply (silent_bind _ (fun _ => True)); [apply silent_charge; counters|]. intros [] _.
  by apply silent_ret.
Qed.

Context (gid : nat) (Hgid : heap gid = g).

Lemma silent_choices_for profiled :
  (profiled = true -> gn g < 256) ->
  silent (fun r => r = forbidden_choices g) (choices_for clock profiled gid g).
Proof.
  intros Hp. unfold choices_for.
  apply (silent_bind _ (fun _ => True)); [apply silent_update; counters|]. intros [] _.
  intros w Hw. unfold mbind, M_bind, get_context. pose proof Hw as [Hc Hcache].
  destruct (enabled (w_context w)) eqn:Een; cbn [andb];
    [destruct (bool_decide (_graph (w_context w) = Some gid)) eqn:Eg|].
  - apply bool_decide_eq_true in Eg. specialize (Hcache _ Eg). rewrite Hgid in Hcache.
    assert (silent (fun _ => True) (profile_update (R := R) profiled (fun p => Ok (count_hit p)))) as Hs
      by (apply silent_update; counters).
    destruct (Hs w Hw) as ([] & w' & E & Hw' & Hr' & _). unfold M_bind in *. rewrite E.
    by exists (_choices (w_context w)), w'.
  - apply (silent_bind _ (fun _ => True)); [|intros [] _|done].
    + apply silent_update. counters.
    + apply (silent_bind _ (fun r => r = forbidden_choices g)); [by apply silent_compute|]. intros ? ->.
      apply (silent_bind _ (fun _ => True)); [|intros [] _; by apply silent_ret].
      intros v [Hv1 Hv2]. eexists _, _. split; [done|]. split_all; [|done|done].
      split; [done|]. cbn. intros i [= <-]. by rewrite Hgid.
  - apply (silent_bind _ (fun _ => True)); [|intros [] _|done].
    + apply silent_update. counters.
    + apply (silent_bind _ (fun r => r = forbidden_choices g)); [by apply silent_compute|]. intros ? ->.
      apply (silent_bind _ (fun _ => True)); [|intros [] _; by apply silent_ret]. by apply silent_ret.
Qed.

Lemma silent_forbidden profiled with_context :
  (profiled = true -> gn g < 256) ->
  silent (fun r => r = forbidden_choices g)
    (forbidden_witness_edge_choices clock profiled with_context gid g).
Proof.
  intros Hp. unfold forbidden_witness_edge_choices.
  destruct with_context; [by apply silent_choices_for|by apply silent_compute].
Qed.
End Cache.

(** ** What a mutation may do to a graph *)

(** The delta explains the new graph, connectedness and the minimum degree
    survive, the switching modes keep every degree, and the mixed-degree mode
    stays in its family. *)
Definition mutation_ok (md : string) (g : BitGraph) (r : MutationResult) : Prop :=
  let h := mutated r in
  wf h /\ gn h = gn g /\ with_edges g (added_edges r) (removed_edges r) = Ok h /\
  (connected g -> connected h) /\ (minimal_candidate g -> minimal_candidate h) /\
  (md <> "unrestricted_min_degree_3"%string -> same_degrees g h) /\
  (md = "minimal_structure_mixed_degree"%string -> h = g \/ _minimal_structure_valid h = true) /\
  distinct_edges (removed_edges r).

Lemma unchanged_ok md g : wf g -> mutation_ok md g (mkMutation g [] []).
Proof.
  intros Hg. unfold mutation_ok. cbn. split_all; try done.
  - by apply post_init_ok.
  - intros _. by left.
  - apply distinct_edges_nil.
Qed.

Lemma has_edge_pair g u v : wf g -> vertex g u -> vertex g v ->
  has_edge g (sort_pair u v).1 (sort_pair u v).2 = Ok (adj g u v).
Proof.
  intros Hg Hu Hv. unfold sort_pair. destruct (v <? u); cbn.
  - rewrite has_edge_adj by (done || apply Hu). by rewrite (wf_sym g Hg).
  - by rewrite has_edge_adj by (done || apply Hv).
Qed.

Lemma same_edge_sort u v p q : same_edge (sort_pair u v).1 (sort_pair u v).2 p q = same_edge u v p q.
Proof.
  unfold sort_pair. destruct (v <? u); [|done]. apply eq_true_iff_eq. rewrite !same_edge_spec. cbn.
  intuition congruence.
Qed.

Section SwitchGraph.
Context (g : BitGraph) (Hg : wf g) (a b x y : Z) (second : Z * Z).
Hypothesis Hsecond : second = (x, y) \/ second = (y, x).
Hypothesis Hdist : NoDup [a; b; x; y].
Hypothesis Hab : adj g a b = true.
Hypothesis Hxy : adj g x y = true.
Hypothesis Hax : adj g a x = false.
Hypothesis Hby : adj g b y = false.

Lemma switch_vertices : vertex g a /\ vertex g b /\ vertex g x /\ vertex g y.
Proof. destruct (wf_range g Hg a b Hab), (wf_range g Hg x y Hxy). auto. Qed.

Lemma edge_in_added u v :
  edge_in [sort_pair a x; sort_pair b y] u v = same_edge a x u v || same_edge b y u v.
Proof. unfold edge_in. cbn. by rewrite orb_false_r, !same_edge_sort. Qed.

Lemma edge_in_removed u v : edge_in [(a, b); second] u v = same_edge a b u v || same_edge x y u v.
Proof.
  unfold edge_in. cbn. rewrite orb_false_r. f_equal. destruct Hsecond as [->| ->]; [done|].
  apply eq_true_iff_eq. rewrite !same_edge_spec. cbn. intuition congruence.
Qed.

Lemma switch_rewirable : rewirable g [sort_pair a x; sort_pair b y] [(a, b); second].
Proof.
  pose proof switch_vertices as (Ha & Hb & Hx & Hy).
  pose proof (switch_distinct a b x y Hdist) as (? & ? & ? & ? & ? & ?).
  split.
  - intros u v. rewrite !elem_of_cons, elem_of_nil. intros [[= -> ->]|[He|[]]]; [done|].
    destruct Hsecond as [->| ->]; injection He as -> ->; [done|by rewrite (wf_sym g Hg)].
  - assert (forall pre u v, edge_in pre u v = false -> adj g u v = false ->
      rewired g pre [(a, b); second] u v = false) as Hre.
    { intros pre u v Hp Hadj. unfold rewired, Model.removed. by rewrite Hadj, Hp. }
    intros pre u v post Heq. destruct pre as [|p1 [|p2 pre]]; cbn in Heq.
    + injection Heq as He _. unfold sort_pair in He. destruct (x <? a); injection He as <- <-;
        (split_all; [done|done|congruence|]); apply Hre; [done|by rewrite (wf_sym g Hg)|done|done].
    + injection Heq as <- He _. pose proof (same_edge_sort a x u v) as Hs.
      assert (edge_in [sort_pair a x] u v = same_edge a x u v) as Hin.
      { unfold edge_in. cbn. by rewrite orb_false_r. }
      assert (same_edge a x u v = false) as Hf.
      { apply not_true_iff_false. rewrite same_edge_spec. unfold sort_pair in He.
        destruct (y <? b); injection He as <- <-; intuition congruence. }
      unfold sort_pair in He. destruct (y <? b); injection He as <- <-;
        (split_all; [done|done|congruence|]); apply Hre; try (by rewrite Hin);
        [by rewrite (wf_sym g Hg)|done].
    + injection Heq as _ _ He. by destruct pre.
Qed.

Lemma switch_candidate :
  exists h, with_edges g [sort_pair a x; sort_pair b y] [(a, b); second] = Ok h /\ wf h /\
    gn h = gn g /\ same_degrees g h.
Proof.
  apply (switch_spec g Hg a b x y); try done.
  - apply edge_in_removed.
  - apply edge_in_added.
  - apply switch_rewirable.
Qed.
End SwitchGraph.

Lemma two_distinct a b c d : NoDup [a; b; c; d] -> distinct_edges [(a, b); (c, d)].
Proof.
  intros (? & ? & ? & ? & ? & ?)%switch_distinct. unfold distinct_edges, sort_ends, sort_pair. cbn.
  apply NoDup_cons. split; [|apply NoDup_singleton]. intros E%list_elem_of_singleton.
  destruct (b <? a), (d <? c); injection E as -> ->; done.
Qed.

Lemma switched_ok md g h added removed :
  wf g -> wf h -> gn h = gn g -> same_degrees g h -> with_edges g added removed = Ok h ->
  is_connected h = true ->
  (md = "minimal_structure_mixed_degree"%string -> _minimal_structure_valid h = true) -> distinct_edges removed ->
  mutation_ok md g (mkMutation h removed added).
Proof.
  intros Hg Hh Hn Hd Hw Hc Hf Hdist. apply is_connected_iff in Hc; [|done].
  unfold mutation_ok. cbn. split_all; try done.
  - intros Hm. apply (minimal_candidate_keep g); [done|done| |done]. intros u Hu.
    destruct Hm as (_ & _ & H3). rewrite Hd by done. by apply H3.
  - intros Hm. right. by apply Hf.
Qed.

Definition option_ok {A} (P : A -> Prop) (o : option A) : Prop :=
  match o with Some x => P x | None => True end.

Section SwitchRuns.
Context {R : Type} `{Hrng : Rng R} (clock : nat -> Z) (heap : nat -> BitGraph) (g : BitGraph) (Hg : wf g).
Context `{!RngLaws R}.
Local Abbreviation simulates := (simulates (R := R) heap).

(** A pairing of the switch: the ends of [first] joined to those of [second] *)
Definition good_pairing (first second : Z * Z) (pr : (Z * Z) * (Z * Z)) : Prop :=
  exists x y, (second = (x, y) \/ second = (y, x)) /\ pr = ((first.1, x), (first.2, y)).

Lemma sim_try_pairings p1 p2 first second md pairings :
  adj g first.1 first.2 = true -> adj g second.1 second.2 = true ->
  NoDup [first.1; first.2; second.1; second.2] -> Forall (good_pairing first second) pairings ->
  simulates (option_ok (mutation_ok md g))
    (try_pairings clock p1 g first second md pairings) (try_pairings clock p2 g first second md pairings).
Proof.
  intros H1 H2 Hnd. destruct first as [a b], second as [c d]. cbn [fst snd] in *.
  induction 1 as [|pr pairings (x & y & Hxy & ->) _ IH]; cbn [try_pairings]; [by apply sim_ret|].
  cbn [fst snd].
  assert (adj g x y = true) as Hadj.
  { destruct Hxy as [[= -> ->]|[= -> ->]]; [done|by rewrite (wf_sym g Hg)]. }
  assert (NoDup [a; b; x; y]) as Hd.
  { destruct Hxy as [[= -> ->]|[= -> ->]]; [done|].
    revert Hnd. apply NoDup_Permutation_proper. do 2 apply perm_skip. apply perm_swap. }
  pose proof (switch_vertices g Hg a b x y H1 Hadj) as (Ha & Hb & Hx & Hy).
  rewrite has_edge_pair by done. rewrite has_edge_pair by done.
  apply (sim_bind heap (eq (adj g a x))); [by eapply sim_lift|]. intros ? <-.
  apply (sim_bind heap (eq (adj g a x || adj g b y))); [by apply (sim_lift _ _ _ (adj g a x || adj g b y)); [destruct (adj g a x)|]|]. intros ? <-.
  destruct (bool_decide _ || adj g a x || (adj g a x || adj g b y)) eqn:Eskip; [exact IH|].
  apply orb_false_iff in Eskip as [_ [Eax Eby]%orb_false_iff].
  destruct (switch_candidate g Hg a b x y (c, d) Hxy Hd H1 Hadj Eax Eby) as (h & Hw & Hh & Hn & Hdeg).
  apply (sim_silent heap (fun _ => True) (fun _ => True)); [apply silent_now..|]. intros s1 s2 _ _.
  apply (sim_bind heap (eq h)); [by apply (sim_lift _ _ _ h)|]. intros ? <-.
  apply (sim_silent heap (fun _ => True) (fun _ => True)); [apply silent_charge; counters..|]. intros [] [] _ _.
  apply (sim_silent heap (fun _ => True) (fun _ => True)); [apply silent_now..|]. intros t1 t2 _ _.
  apply (sim_silent heap (fun _ => True) (fun _ => True)); [apply silent_charge; counters..|]. intros [] [] _ _.
  assert (forall p, silent (R := R) heap
    (fun v => v = negb (is_connected h && bool_decide (md = "minimal_structure_mixed_degree"%string)) ||
                  _minimal_structure_valid h)
    (if is_connected h && bool_decide (md = "minimal_structure_mixed_degree"%string)
     then family_started ← now clock p; _ ← charge clock p family_started count_family;
          mret (_minimal_structure_valid h) else mret true)) as Hfam.
  { intros p. destruct (_ && _); [|by apply silent_ret].
    apply (silent_bind _ (fun _ => True)); [apply silent_now|]. intros t _.
    apply (silent_bind _ (fun _ => True)); [apply silent_charge; counters|]. intros [] _.
    by apply silent_ret. }
  eapply sim_silent; [apply (Hfam p1)|apply (Hfam p2)|]. intros ? ? -> ->.
  destruct (is_connected h) eqn:Ec; cbn [andb]; [|exact IH].
  destruct (negb _ || _) eqn:Ev; [|exact IH]. apply sim_ret. cbn.
  apply switched_ok; try done; [|by apply (two_distinct a b c d)]. intros ->. by apply orb_true_iff in Ev as [Ev|Ev].
Qed.

Lemma sim_two_edge_switch p1 p2 first second md :
  adj g first.1 first.2 = true -> adj g second.1 second.2 = true ->
  simulates (option_ok (mutation_ok md g))
    (_two_edge_switch clock p1 g first second md) (_two_edge_switch clock p2 g first second md).
Proof.
  intros H1 H2. destruct first as [a b] eqn:E1, second as [c d] eqn:E2. unfold _two_edge_switch.
  destruct (distinct4 a b c d) eqn:Ed; cbn [negb]; [|by apply sim_ret].
  apply bool_decide_eq_true in Ed.
  apply (sim_bind heap (fun _ => True)); [by apply sim_rng|]. intros k _.
  apply sim_try_pairings; [done..|].
  assert (good_pairing (a, b) (c, d) ((a, c), (b, d))) by (exists c, d; auto).
  assert (good_pairing (a, b) (c, d) ((a, d), (b, c))) by (exists d, c; auto).
  destruct (k =? 0); by repeat constructor.
Qed.
End SwitchRuns.

(** ** The operators *)

Lemma collect_absent h l :
  wf h -> (forall u v, (u, v) ∈ l -> vertex h u /\ vertex h v) ->
  foldM (fun es (uv : Z * Z) => b ← has_edge h uv.1 uv.2; Ok (if b : bool then es else es ++ [uv])) [] l =
  Ok (filter (fun e => adj h e.1 e.2 = false) l).
Proof.
  intros Hh Hl. assert (forall acc,
    foldM (fun es (uv : Z * Z) => b ← has_edge h uv.1 uv.2; Ok (if b : bool then es else es ++ [uv])) acc l =
    Ok (acc ++ filter (fun e => adj h e.1 e.2 = false) l)) as Hgen; [|apply (Hgen [])].
  induction l as [|[u v] l IH]; intros acc; cbn [foldM fst snd]; [by rewrite app_nil_r|].
  destruct (Hl u v) as [Hu Hv]; [set_solver|]. rewrite has_edge_adj by (done || apply Hv).
  cbn [mbind res_bind]. rewrite filter_cons. cbn [fst snd].
  rewrite IH by (intros; apply Hl; set_solver).
  destruct (adj h u v); case_decide; try done. by rewrite <- app_assoc.
Qed.

Lemma missing_pairs_ok g :
  wf g -> missing_pairs g = Ok (filter (fun e => adj g e.1 e.2 = false) (pairs (gn g))).
Proof.
  intros Hg. apply collect_absent; [done|]. intros u v [? ?]%elem_of_pairs. unfold vertex. lia.
Qed.

Lemma filter_single {A} (P : A -> Prop) `{forall x, Decision (P x)} (l : list A) x :
  NoDup l -> x ∈ l -> (forall y, y ∈ l -> P y <-> y = x) -> filter P l = [x].
Proof.
  intros Hnd Hx Hp. apply list_elem_of_split in Hx as (l1 & l2 & ->).
  apply NoDup_app in Hnd as (_ & Hd & Hn). apply NoDup_cons in Hn as [Hn _].
  rewrite filter_app, filter_cons_True by (apply Hp; set_solver).
  rewrite (filter_none _ l1), (filter_none _ l2); [done|..]; intros y Hy Hpy.
  - apply Hp in Hpy as ->; [done|set_solver].
  - apply Hp in Hpy as ->; [apply (Hd x Hy); set_solver|set_solver].
Qed.

Lemma lost_edges_ok g h u v :
  wf g -> wf h -> gn h = gn g -> (u, v) ∈ edges g ->
  (forall a b, adj h a b = adj g a b && negb (same_edge u v a b)) -> lost_edges g h = Ok [(u, v)].
Proof.
  intros Hg Hh Hn Huv Hadj. unfold lost_edges. rewrite collect_absent; [|done|].
  - f_equal. apply filter_single; [by apply NoDup_edges|done|]. intros [a b] Hab. cbn.
    apply elem_of_edges in Hab as [Ha Hlt], Huv as [_ ?]; [|done..].
    rewrite Hadj, Ha. cbn. rewrite negb_false_iff, same_edge_spec. split; [|intros [= -> ->]; auto].
    intros [?|[= -> ->]]; [done|lia].
  - intros a b [Ha _]%elem_of_edges; [|done]. apply (wf_range g Hg) in Ha. unfold vertex in *. by rewrite Hn.
Qed.

(** The settings under which a mutation cannot raise *)
Definition config_ok (g : BitGraph) (cfg : Config) : Prop :=
  (mutation_operator cfg = "uniform_two_edge_switch"%string \/
   mutation_operator cfg = "forbidden_cycle_break_switch"%string) /\
  mutation_profile cfg <> WrongClass /\ witness_context cfg <> WrongClass /\
  (mutation_profile cfg = Given -> gn g < 256) /\
  forall choices, witness_edge_choices cfg = Some choices ->
    forall es e, es ∈ choices -> e ∈ es -> adj g e.1 e.2 = true.

(** The settings that decide what a mutation does *)
Definition same_search (c1 c2 : Config) : Prop :=
  mode c1 = mode c2 /\ mutation_operator c1 = mutation_operator c2 /\
  witness_edge_choices c1 = witness_edge_choices c2.

Section Runs.
Context {R : Type} `{Hrng : Rng R} `{!RngLaws R}.
Context (clock : nat -> Z) (heap : nat -> BitGraph) (gid : nat) (g : BitGraph).
Context (Hg : wf g) (Hgid : heap gid = g).
Local Abbreviation simulates := (simulates (R := R) heap).

Lemma sim_add_missing :
  simulates (option_ok (mutation_ok "unrestricted_min_degree_3" g)) (add_missing g) (add_missing g).
Proof.
  unfold add_missing. apply (sim_bind heap (fun _ => True)); [by apply sim_rng|]. intros below _.
  destruct below; [|by apply sim_ret]. rewrite missing_pairs_ok by done.
  set (missing := filter _ _).
  apply (sim_bind heap (eq missing)); [by apply (sim_lift _ _ _ missing)|]. intros ? <-.
  destruct missing as [|e0 es] eqn:Em; [by apply sim_ret|].
  apply (sim_bind heap (fun x => x ∈ missing)); [rewrite Em; by apply sim_pick|].
  intros [u v] [Ha [? ?]%elem_of_pairs]%list_elem_of_filter. cbn in Ha.
  destruct (add_edge_spec g u v) as (h & Hw & Hh & Hn & Hadj & Hc & Hmin);
    [done|unfold vertex; lia..|lia|done|].
  apply (sim_bind heap (eq h)); [by apply (sim_lift _ _ _ h)|]. intros ? <-. apply sim_ret.
  unfold option_ok, mutation_ok. cbn. split_all; try done. apply distinct_edges_nil.
Qed.

Lemma sim_remove_one :
  simulates (option_ok (mutation_ok "unrestricted_min_degree_3" g)) (remove_one g) (remove_one g).
Proof.
  unfold remove_one. destruct (removable_edges g) as [|e0 es] eqn:Er; [by apply sim_ret|].
  apply (sim_bind heap (fun x => x ∈ removable_edges g)); [rewrite Er; by apply sim_pick|].
  intros [u v] [[Hu Hv] Huv]%list_elem_of_filter. cbn in Hu, Hv.
  apply elem_of_edges in Huv as Ha; [|done]. destruct Ha as [Ha _].
  destruct (remove_edge_spec g u v Hg Ha) as (h & Hw & Hh & Hn & Hadj & Hmin).
  apply (sim_bind heap (eq h)); [by apply (sim_lift _ _ _ h)|]. intros ? <-.
  destruct (is_connected h) eqn:Ec; [|by apply sim_ret].
  apply (sim_bind heap (eq [(u, v)])).
  { apply (sim_lift _ _ _ [(u, v)]); [by apply lost_edges_ok|done]. }
  intros ? <-. apply sim_ret. apply is_connected_iff in Ec; [|done].
  unfold option_ok, mutation_ok. cbn. split_all; try done; [by apply Hmin|apply distinct_edges_one].
Qed.

Lemma sim_targeted_attempts k p1 p2 md we :
  edges g <> [] -> we <> [] -> (forall e, e ∈ we -> adj g e.1 e.2 = true) ->
  simulates (mutation_ok md g)
    (targeted_attempts clock k p1 g md we (edges g)) (targeted_attempts clock k p2 g md we (edges g)).
Proof.
  intros He Hwe Hadj. induction k as [|k IH]; cbn [targeted_attempts]; [by apply sim_ret, unchanged_ok|].
  apply (sim_silent heap (fun _ => True) (fun _ => True)); [apply silent_update; counters..|]. intros [] [] _ _.
  apply (sim_silent heap (fun _ => True) (fun _ => True)); [apply silent_now..|]. intros s1 s2 _ _.
  apply (sim_bind heap (fun x => x ∈ we)); [by apply sim_pick|]. intros first Hfirst.
  apply (sim_bind heap (fun x => x ∈ edges g)); [by apply sim_pick|]. intros [u v] [Huv _]%elem_of_edges; [|done].
  apply (sim_silent heap (fun _ => True) (fun _ => True)); [apply silent_charge; counters..|]. intros [] [] _ _.
  apply (sim_bind heap (option_ok (mutation_ok md g))); [by apply sim_two_edge_switch; auto|].
  intros [r|] Hr; [by apply sim_ret|exact IH].
Qed.

Lemma sim_uniform_attempts k md :
  (2 <= length (edges g))%nat ->
  simulates (mutation_ok md g) (uniform_attempts clock k g md (edges g)) (uniform_attempts clock k g md (edges g)).
Proof.
  intros Hl. induction k as [|k IH]; cbn [uniform_attempts]; [by apply sim_ret, unchanged_ok|].
  apply (sim_bind heap (fun ij => (ij.1 < length (edges g))%nat /\ (ij.2 < length (edges g))%nat)).
  { apply sim_rng. intros r. pose proof (sample2_lt r (length (edges g)) Hl). tauto. }
  intros [i j] [Hi Hj]. cbn [fst snd] in *.
  assert (forall i, (i < length (edges g))%nat ->
    exists e, py_index (edges g) (Z.of_nat i) = Ok e /\ adj g e.1 e.2 = true) as Hidx.
  { intros k' Hk. destruct (py_index_in_range (edges g) (Z.of_nat k')) as ([u v] & Hx & Hp); [lia|].
    exists (u, v). split; [done|]. apply list_elem_of_lookup_2, elem_of_edges in Hx; tauto. }
  destruct (Hidx i Hi) as (e1 & Hp1 & Ha1), (Hidx j Hj) as (e2 & Hp2 & Ha2).
  apply (sim_bind heap (eq e1)); [by apply (sim_lift _ _ _ e1)|]. intros ? <-.
  apply (sim_bind heap (eq e2)); [by apply (sim_lift _ _ _ e2)|]. intros ? <-.
  apply (sim_bind heap (option_ok (mutation_ok md g))); [by apply sim_two_edge_switch|].
  intros [r|] Hr; [by apply sim_ret|exact IH].
Qed.

Lemma check_class_ok s : s <> WrongClass -> check_class (R := R) s = mret tt.
Proof. by destruct s. Qed.

Lemma sim_targeted c1 c2 :
  config_ok g c1 -> config_ok g c2 -> same_search c1 c2 -> edges g <> [] ->
  simulates (mutation_ok (mode c1) g)
    (targeted_mutation clock c1 gid g (edges g)) (targeted_mutation clock c2 gid g (edges g)).
Proof.
  intros (_ & Hp1 & Hx1 & Hb1 & Hu1) (_ & Hp2 & Hx2 & Hb2 & _) (Hm & _ & Hc) Hne.
  unfold targeted_mutation. rewrite <- Hc, <- Hm, (check_class_ok _ Hp1), (check_class_ok _ Hp2).
  apply (sim_bind heap (fun _ => True)); [by apply sim_ret|]. intros [] _.
  assert (forall c : Config, (mutation_profile c = Given -> gn g < 256) ->
    is_given (mutation_profile c) = true -> gn g < 256) as Hgiven.
  { intros c Hb. destruct (mutation_profile c); [done|done|auto]. }
  assert (simulates (fun cs => forall es e, es ∈ cs -> e ∈ es -> adj g e.1 e.2 = true)
    (match witness_edge_choices c1 with Some choices => mret choices | None =>
       _ ← check_class (witness_context c1);
       forbidden_witness_edge_choices clock (is_given (mutation_profile c1)) (is_given (witness_context c1)) gid g end)
    (match witness_edge_choices c1 with Some choices => mret choices | None =>
       _ ← check_class (witness_context c2);
       forbidden_witness_edge_choices clock (is_given (mutation_profile c2)) (is_given (witness_context c2)) gid g end))
    as Hchoices.
  { destruct (witness_edge_choices c1) as [cs|] eqn:Ecs; [by apply sim_ret, Hu1|].
    rewrite (check_class_ok _ Hx1), (check_class_ok _ Hx2).
    intros w1 w2 Hw1 Hw2 Hr.
    destruct (silent_forbidden clock heap g Hg gid Hgid (is_given (mutation_profile c1))
      (is_given (witness_context c1)) (Hgiven c1 Hb1) w1 Hw1) as (a & v1 & E1 & Hv1 & R1 & ->).
    destruct (silent_forbidden clock heap g Hg gid Hgid (is_given (mutation_profile c2))
      (is_given (witness_context c2)) (Hgiven c2 Hb2) w2 Hw2) as (b & v2 & E2 & Hv2 & R2 & ->).
    exists (forbidden_choices g), v1, v2. split_all; [exact E1|exact E2|done|done|congruence|].
    intros es e Hes He. by apply (forbidden_choices_usable g Hg es Hes). }
  eapply sim_bind; [exact Hchoices|]. intros choices Hadj.
  apply (sim_bind heap (fun we => forall e, e ∈ we -> adj g e.1 e.2 = true)).
  - destruct choices as [|c cs] eqn:Ech; [apply sim_ret; set_solver|]. rewrite <- Ech in *.
    intros w1 w2 Hw1 Hw2 Hr. destruct (sim_pick heap choices ltac:(by rewrite Ech) w1 w2 Hw1 Hw2 Hr)
      as (a & v1 & v2 & E1 & E2 & ? & ? & ? & Ha).
    exists a, v1, v2. split_all; try done. intros e. by apply Hadj.
  - intros we Hwe. destruct we as [|e0 we'] eqn:Ewe; [by apply sim_ret, unchanged_ok|].
    rewrite <- Ewe in *. apply sim_targeted_attempts; [done|by rewrite Ewe|done].
Qed.

Lemma sim_switch c1 c2 :
  config_ok g c1 -> config_ok g c2 -> same_search c1 c2 ->
  simulates (mutation_ok (mode c1) g) (switch_mutation clock c1 gid g) (switch_mutation clock c2 gid g).
Proof.
  intros H1 H2 Hs. unfold switch_mutation. destruct (Nat.ltb_spec (length (edges g)) 2) as [Hl|Hl];
    [by apply sim_ret, unchanged_ok|].
  pose proof Hs as (Hm & Ho & _). rewrite <- Ho. case_match.
  - apply sim_targeted; [done..|]. destruct (edges g); [cbn in Hl; lia|done].
  - rewrite <- Hm. by apply sim_uniform_attempts.
Qed.

Lemma sim_mutate c1 c2 :
  config_ok g c1 -> config_ok g c2 -> same_search c1 c2 ->
  simulates (mutation_ok (mode c1) g) (mutate_with_delta clock c1 gid g) (mutate_with_delta clock c2 gid g).
Proof.
  intros H1 H2 Hs. pose proof Hs as (Hm & Ho & _). unfold mutate_with_delta. rewrite <- Ho, <- Hm.
  pose proof H1 as (Hop & _).
  replace (negb _) with false by (destruct Hop as [-> | ->]; reflexivity).
  destruct (bool_decide (mode c1 = _)) eqn:Em; [|by apply sim_switch].
  apply bool_decide_eq_true in Em.
  apply (sim_bind heap (option_ok (mutation_ok (mode c1) g))); [rewrite Em; apply sim_add_missing|].
  intros [r|] Hr; [by apply sim_ret|].
  apply (sim_bind heap (option_ok (mutation_ok (mode c1) g))); [rewrite Em; apply sim_remove_one|].
  intros [r|] Hr'; [by apply sim_ret|]. by apply sim_switch.
Qed.
End Runs.

(** ** Properties *)

Definition fresh_world {R} (r : R) (cache_enabled : bool) : World R :=
  mkWorld r 0 new_mutation_profile (new_mutation_context cache_enabled).

Lemma fresh_world_ok {R} heap (r : R) b : world_ok heap (fresh_world r b).
Proof. split; [done|]. intros i. done. Qed.

(** C15: with a supported operator and well-typed settings a mutation
    never raises. The edge delta it reports is exact (applying it to the parent
    gives the child, and it removes no edge twice); the child is a well-formed graph of the same order,
    connected if the parent was and of minimum degree three if the parent was a
    minimal candidate; outside the unrestricted mode every degree is unchanged,
    and a changed child in the mixed-degree mode satisfies that family's
    definition. *)
Theorem mutate_correct {R} `{RngLaws R} clock heap gid g cfg (w : World R) :
  wf g -> heap gid = g -> config_ok g cfg -> world_ok heap w ->
  exists r w', mutate_with_delta clock cfg gid g w = Ok (r, w') /\ world_ok heap w' /\
    let h := mutated r in
    wf h /\ gn h = gn g /\ with_edges g (added_edges r) (removed_edges r) = Ok h /\
    (connected g -> connected h) /\ (minimal_candidate g -> minimal_candidate h) /\
    (mode cfg <> "unrestricted_min_degree_3"%string -> same_degrees g h) /\
    (mode cfg = "minimal_structure_mixed_degree"%string -> h = g \/ _minimal_structure_valid h = true) /\
    distinct_edges (removed_edges r).
Proof.
  intros Hg Hheap Hcfg Hw.
  destruct (sim_mutate clock heap gid g Hg Hheap cfg cfg Hcfg Hcfg) with (w1 := w) (w2 := w)
    as (r & w1 & w2 & E & _ & Hw1 & _ & _ & Hr); [done|done|done|done|].
  exists r, w1. split; [done|]. split; [done|exact Hr].
Qed.

Definition cubic_uniform : Config :=
  mkConfig "cubic_first" "uniform_two_edge_switch" Missing None Missing.

Lemma mutate_correct_witness :
  exists r w', mutate_with_delta (fun _ => 0) cubic_uniform 0 petersen (fresh_world (mkLcg 7) true) = Ok (r, w') /\
    mutated r <> petersen /\ same_degrees petersen (mutated r).
Proof.
  destruct (mutate_correct (fun _ => 0) (fun _ => petersen) 0 petersen cubic_uniform (fresh_world (mkLcg 7) true))
    as (r & w' & Hrun & _ & _ & _ & _ & _ & _ & Hd & _).
  - apply petersen_wf.
  - reflexivity.
  - unfold config_ok. cbn. split_all; [by left|discriminate|discriminate|discriminate|discriminate].
  - apply fresh_world_ok.
  - exists r, w'. split; [exact Hrun|]. split; [|apply Hd; discriminate].
    vm_compute in Hrun. injection Hrun as <- _. vm_compute. discriminate.
Defined.

(** Profiling and the witness cache do not influence the
    search: two runs from the same random state whose configurations differ only
    in the profile and the cache they carry produce the same child, the same
    delta and leave the same random state. *)
Theorem instrumentation_transparent {R} `{RngLaws R} clock heap gid g c1 c2 (w1 w2 : World R) :
  wf g -> heap gid = g -> config_ok g c1 -> config_ok g c2 -> same_search c1 c2 ->
  world_ok heap w1 -> world_ok heap w2 -> w_rng w1 = w_rng w2 ->
  exists r w1' w2', mutate_with_delta clock c1 gid g w1 = Ok (r, w1') /\
    mutate_with_delta clock c2 gid g w2 = Ok (r, w2') /\ w_rng w1' = w_rng w2'.
Proof.
  intros Hg Hheap H1 H2 Hs Hw1 Hw2 Hr.
  destruct (sim_mutate clock heap gid g Hg Hheap c1 c2 H1 H2 Hs w1 w2 Hw1 Hw2 Hr)
    as (r & w1' & w2' & E1 & E2 & _ & _ & Hr' & _). by exists r, w1', w2'.
Qed.

Definition targeted_config (profile context : slot) : Config :=
  mkConfig "cubic_first" "forbidden_cycle_break_switch" profile None context.

Lemma instrumentation_transparent_witness :
  exists r w1' w2',
    mutate_with_delta (fun t => Z.of_nat t) (targeted_config Given Given) 0 petersen (fresh_world (mkLcg 7) true) = Ok (r, w1') /\
    mutate_with_delta (fun t => Z.of_nat t) (targeted_config Missing Missing) 0 petersen (fresh_world (mkLcg 7) false) = Ok (r, w2') /\
    switch_attempts (w_profile w1') <> switch_attempts (w_profile w2').
Proof.
  destruct (instrumentation_transparent (fun t => Z.of_nat t) (fun _ => petersen) 0 petersen
    (targeted_config Given Given) (targeted_config Missing Missing)
    (fresh_world (mkLcg 7) true) (fresh_world (mkLcg 7) false)) as (r & w1' & w2' & E1 & E2 & _).
  - apply petersen_wf.
  - reflexivity.
  - unfold config_ok. cbn. split_all; [by right|discriminate|discriminate|reflexivity|discriminate].
  - unfold config_ok. cbn. split_all; [by right|discriminate|discriminate|discriminate|discriminate].
  - by unfold same_search.
  - apply fresh_world_ok.
  - apply fresh_world_ok.
  - reflexivity.
  - exists r, w1', w2'. split; [exact E1|]. split; [exact E2|].
    vm_compute in E1, E2. injection E1 as _ <-. injection E2 as _ <-. vm_compute. discriminate.
Defined.

(** An unknown operator raises [ValueError] before anything is drawn
    or counted, and in the targeted operator's branch a profile of the wrong
    class raises [TypeError]. *)
Theorem mutate_rejects {R} `{Rng R} clock gid g cfg (w : World R) :
  (mutation_operator cfg <> "uniform_two_edge_switch"%string ->
   mutation_operator cfg <> "forbidden_cycle_break_switch"%string ->
   exists msg, mutate_with_delta clock cfg gid g w = Raise (ValueError msg)) /\
  (mutation_operator cfg = "forbidden_cycle_break_switch"%string ->
   mode cfg <> "unrestricted_min_degree_3"%string -> mutation_profile cfg = WrongClass ->
   (2 <= length (edges g))%nat -> mutate_with_delta clock cfg gid g w = Raise TypeError).
Proof.
  unfold mutate_with_delta. split.
  - intros H1 H2. rewrite (bool_decide_eq_false_2 _ H1), (bool_decide_eq_false_2 _ H2). eexists. reflexivity.
  - intros Ho Hm Hp Hl. unfold switch_mutation. rewrite Ho, (bool_decide_eq_false_2 _ Hm).
    destruct (Nat.ltb_spec (length (edges g)) 2); [lia|].
    change (targeted_mutation clock cfg gid g (edges g) w = Raise TypeError).
    unfold targeted_mutation, mbind, M_bind. by rewrite Hp.
Qed.

Lemma mutate_rejects_witness :
  mutate_with_delta (fun _ => 0) (targeted_config WrongClass Missing) 0 petersen (fresh_world (mkLcg 7) true)
  = Raise TypeError.
Proof.
  apply (mutate_rejects (fun _ => 0) 0 petersen (targeted_config WrongClass Missing) (fresh_world (mkLcg 7) true));
    [reflexivity|discriminate|reflexivity|vm_compute; lia].
Defined.
