(* ===== verification/Seed.v ===== *)
(** * Seed graphs of the Erdos-Gyarfas target

    [src/src/sglab/targets/erdos_gyarfas.py], [generate_seed]: a Hamiltonian
    cycle with a random perfect matching, or a random pairing of the stubs of a
    degree sequence with a few vertices of degree four. The random state and the
    trace are threaded through; the trace keeps what was recorded when an
    exception leaves. A set of edges is the list of its members in the order of
    insertion; [from_edges] does not depend on the order. *)

From S2P Require Import Prelude Bits Model Verification Rng Rewiring Mutation.

#[global] Open Scope Z_scope.

(** ** [SeedGenerationTrace] ([targets/base.py]) *)

Record Trace := mkTrace {
  generator_mode : string; attempts : Z; retry_budget : Z; failure_category : option string
}.

Definition set_generator_mode (m : string) (t : option Trace) : option Trace :=
  (fun t => mkTrace m (attempts t) (retry_budget t) (failure_category t)) <$> t.
Definition set_attempts (k : Z) (t : option Trace) : option Trace :=
  (fun t => mkTrace (generator_mode t) k (retry_budget t) (failure_category t)) <$> t.
Definition set_retry_budget (k : Z) (t : option Trace) : option Trace :=
  (fun t => mkTrace (generator_mode t) (attempts t) k (failure_category t)) <$> t.
Definition set_failure (c : string) (t : option Trace) : option Trace :=
  (fun t => mkTrace (generator_mode t) (attempts t) (retry_budget t) (Some c)) <$> t.
(** [if trace.failure_category is None: ...] *)
Definition default_failure (c : string) (t : option Trace) : option Trace :=
  (fun t => mkTrace (generator_mode t) (attempts t) (retry_budget t)
     (match failure_category t with None => Some c | f => f end)) <$> t.

Definition set_add (e : Z * Z) (es : list (Z * Z)) : list (Z * Z) :=
  if decide (e ∈ es) then es else es ++ [e].

(** ** Configuration *)

(** The entries [order] and [mode]; [order] missing is a [KeyError]. *)
Definition check_config (order : option Z) (m : string) : res Z :=
  match order with
  | None => Raise KeyError
  | Some n =>
      raise_if (n <? 4) (ValueError "order must be at least 4") ;;;
      raise_if (negb (bool_decide (m ∈ ["cubic_first"; "minimal_structure_mixed_degree"; "unrestricted_min_degree_3"])))
        (ValueError ("unsupported mode: " ++ m)) ;;;
      raise_if (bool_decide (m = "cubic_first") && negb (n mod 2 =? 0))
        (ValueError "cubic graphs require an even order") ;;;
      raise_if (bool_decide (m = "minimal_structure_mixed_degree") && (n <? 5))
        (ValueError "minimal_structure_mixed_degree requires order at least 5") ;;;
      Ok n
  end.

(** ** The pairing loops *)

(** Everything paired, or what was left and paired when no partner was allowed *)
Inductive pairing := Paired (es : list (Z * Z)) | Stuck (rest : list Z) (es : list (Z * Z)) | NoFuel.

(** [while l: u = l.pop(); choices = ...; v = l.pop(rng.choice(choices)); ...] *)
Section Pair.
Context {R : Type} `{Rng R} (allowed : Z -> Z -> list (Z * Z) -> bool).

Definition pair_choices (l : list Z) (u : Z) (es : list (Z * Z)) : list nat :=
  filter (fun i => from_option (fun v => allowed u v es) false (l !! i) = true) (seq 0 (length l)).

Fixpoint pair_up (fuel : nat) (l : list Z) (es : list (Z * Z)) (r : R) : pairing * R :=
  match list.last l with
  | None => (Paired es, r)
  | Some u =>
      match fuel with
      | O => (NoFuel, r)
      | S f =>
          let l := removelast l in
          match pair_choices l u es with
          | [] => (Stuck l es, r)
          | choices =>
              let '(k, r) := choice r (length choices) in
              match choices !! k with
              | Some i =>
                  match l !! i with
                  | Some v => pair_up f (delete i l) (set_add (sort_pair u v) es) r
                  | None => (NoFuel, r)
                  end
              | None => (NoFuel, r)
              end
          end
      end
  end.
End Pair.

(** ** The mixed-degree generator *)

Definition high_count (n : Z) : Z :=
  let high_count := Z.min (if n mod 2 =? 0 then 2 else 1) (Z.max 1 (3 * n / 7)) in
  if (4 * high_count + 3 * (n - high_count)) mod 2 =? 0 then high_count else high_count + 1.

(** [[4] * high_count + [3] * (n - high_count)] *)
Definition degrees (n : Z) : list Z :=
  replicate (Z.to_nat (high_count n)) 4 ++ replicate (Z.to_nat (n - high_count n)) 3.

(** [[vertex for vertex, degree in enumerate(degrees) for _ in range(degree)]] *)
Definition stubs (n : Z) : list Z :=
  vd ← enumerate (degrees n); replicate (Z.to_nat vd.2) vd.1.

Definition high (n u : Z) : bool := bool_decide (u ∈ range 0 (high_count n)).

Definition mixed_allowed (n u v : Z) (es : list (Z * Z)) : bool :=
  negb (u =? v) && negb (bool_decide (sort_pair u v ∈ es)) && negb (high n u && high n v).

(** The test a mixed-degree graph must pass *)
Definition mixed_accept (g : BitGraph) (n : Z) : bool :=
  is_connected g && forallb (has_degree_three_neighbor g) (range 0 n).

Section Generate.
Context {R : Type} `{Rng R}.

(** [for attempt in range(1, retry_budget + 1)], counted from the last *)
Fixpoint mixed_attempts (n : Z) (left : nat) (attempt : Z) (t : option Trace) (r : R)
  : res BitGraph * option Trace * R :=
  match left with
  | O =>
      (Raise (RuntimeError "failed to generate a mixed-degree seed within retry budget"),
       set_failure "mixed_degree_stub_construction_exhaustion" t, r)
  | S k =>
      let t := set_attempts attempt t in
      let '(l, r) := shuffle r (stubs n) in
      let '(p, r) := pair_up (mixed_allowed n) (length l) l [] r in
      match p with
      | Paired es =>
          match from_edges n es with
          | Ok g => if mixed_accept g n then (Ok g, t, r) else mixed_attempts n k (attempt + 1) t r
          | Raise e => (Raise e, t, r)
          end
      | _ => mixed_attempts n k (attempt + 1) t r
      end
  end.

(** ** The cubic generator *)

Definition cycle_edges (n : Z) : list (Z * Z) :=
  foldl (fun es u => set_add (sort_pair u ((u + 1) mod n)) es) [] (range 0 n).

Definition cubic_allowed (n u v : Z) (_ : list (Z * Z)) : bool :=
  negb (bool_decide (sort_pair u v ∈ cycle_edges n)).

(** [cycle | matching] *)
Definition set_union (xs ys : list (Z * Z)) : list (Z * Z) := foldl (fun es e => set_add e es) xs ys.

Fixpoint cubic_attempts (n : Z) (left : nat) (attempt : Z) (t : option Trace) (r : R)
  : res BitGraph * option Trace * R :=
  match left with
  | O =>
      (Raise (RuntimeError "failed to generate a cubic seed within retry budget"),
       set_failure "cubic_matching_construction_exhaustion" t, r)
  | S k =>
      let t := set_attempts attempt t in
      let '(l, r) := shuffle r (range 0 n) in
      let '(p, r) := pair_up (cubic_allowed n) (length l) l [] r in
      (* [if not vertices and len(matching) == n // 2] *)
      match p with
      | Paired matching | Stuck [] matching =>
          if Z.of_nat (length matching) =? n / 2
          then (from_edges n (set_union (cycle_edges n) matching), t, r)
          else cubic_attempts n k (attempt + 1) t r
      | _ => cubic_attempts n k (attempt + 1) t r
      end
  end.

Definition generate_seed (order : option Z) (mode : option string) (t : option Trace) (r : R)
  : res BitGraph * option Trace * R :=
  let m := default "cubic_first"%string mode in
  let t0 := match order with None => t | Some _ => set_generator_mode m t end in
  match check_config order m with
  | Raise e => (Raise e, set_failure "invalid_generator_configuration" t0, r)
  | Ok n =>
      let fallback := bool_decide (m = "unrestricted_min_degree_3"%string) && negb (n mod 2 =? 0) in
      let m := if fallback then "minimal_structure_mixed_degree"%string else m in
      let t := if fallback then set_generator_mode m t0 else t0 in
      let '(g, t, r) :=
        if bool_decide (m = "minimal_structure_mixed_degree"%string)
        then mixed_attempts n 2000 1 (set_retry_budget 2000 t) r
        else cubic_attempts n 200 1 (set_retry_budget 200 t) r in
      match g with
      | Ok g => (Ok g, t, r)
      | Raise e => (Raise e, default_failure "other_implementation_failure" t, r)
      end
  end.
End Generate.

(** ** Counting *)

Definition occ (w : Z) (l : list Z) : nat := length (filter (fun x => x = w) l).
Definition incident (w : Z) (es : list (Z * Z)) : nat := length (filter (fun e => e.1 = w \/ e.2 = w) es).

Lemma occ_perm w l k : l ≡ₚ k -> occ w l = occ w k.
Proof. intros Hp. unfold occ. by rewrite Hp. Qed.

Lemma occ_cons w x l : occ w (x :: l) = ((if decide (x = w) then 1 else 0) + occ w l)%nat.
Proof. unfold occ. rewrite filter_cons. by case_decide. Qed.

Lemma occ_nil w : occ w [] = 0%nat.
Proof. done. Qed.

Lemma occ_app w l k : occ w (l ++ k) = (occ w l + occ w k)%nat.
Proof. unfold occ. by rewrite filter_app, length_app. Qed.

Lemma occ_in w l : (0 < occ w l)%nat <-> w ∈ l.
Proof.
  unfold occ. split.
  - intros Hl. destruct (filter _ l) as [|x k] eqn:E; [cbn in Hl; lia|].
    assert (x ∈ filter (fun x => x = w) l) as [-> ?]%list_elem_of_filter by (rewrite E; set_solver). done.
  - intros Hw. assert (w ∈ filter (fun x => x = w) l) as H by by apply list_elem_of_filter.
    destruct (filter _ l); [set_solver|cbn; lia].
Qed.

Lemma occ_NoDup w l : NoDup l -> w ∈ l -> occ w l = 1%nat.
Proof. intros Hnd Hw. unfold occ. by rewrite (filter_single _ _ w). Qed.

Lemma incident_app w es fs : incident w (es ++ fs) = (incident w es + incident w fs)%nat.
Proof. unfold incident. by rewrite filter_app, length_app. Qed.

Lemma incident_in w es e : e ∈ es -> e.1 = w \/ e.2 = w -> (0 < incident w es)%nat.
Proof.
  intros He Hw. unfold incident.
  assert (e ∈ filter (fun e => e.1 = w \/ e.2 = w) es) as H by by apply list_elem_of_filter.
  destruct (filter _ es); [set_solver|cbn; lia].
Qed.

Lemma sort_pair_ends u v w : (sort_pair u v).1 = w \/ (sort_pair u v).2 = w <-> u = w \/ v = w.
Proof. unfold sort_pair. destruct (v <? u); cbn; tauto. Qed.

Lemma incident_pair w u v : u <> v -> incident w [sort_pair u v] = (occ w [u] + occ w [v])%nat.
Proof.
  intros Hne. unfold incident, occ. rewrite !filter_cons, !filter_nil.
  pose proof (sort_pair_ends u v w). repeat case_decide; cbn; try lia; try tauto.
Qed.

(** The ends of a sorted pair, in order *)
Lemma sort_pair_lt u v n :
  u <> v -> 0 <= u < n -> 0 <= v < n -> 0 <= (sort_pair u v).1 < (sort_pair u v).2 /\ (sort_pair u v).2 < n.
Proof. intros. unfold sort_pair. destruct (Z.ltb_spec v u); cbn; lia. Qed.

(** An ordered edge list without repetition *)
Definition ordered_edges (n : Z) (es : list (Z * Z)) : Prop :=
  NoDup es /\ forall u v, (u, v) ∈ es -> 0 <= u < v /\ v < n.

Lemma degree_incident n es g w :
  0 <= n -> ordered_edges n es -> from_edges n es = Ok g ->
  wf g /\ gn g = n /\ (forall a b, adj g a b = edge_in es a b) /\
  (vertex g w -> degree g w = Z.of_nat (incident w es)).
Proof.
  intros Hn [Hnd Ho] Hok. destruct (from_edges_total n es Hn) as (h & Hh & Hg & Hgn & Ha);
    [by apply simple_edges_ordered|].
  rewrite Hok in Hh. injection Hh as <-. split_all; [done..|]. intros Hw.
  rewrite degree_neighbors by done. f_equal. unfold incident.
  rewrite <- (length_fmap (fun e : Z * Z => if decide (e.1 = w) then e.2 else e.1) (filter _ es)).
  apply Permutation_length, NoDup_Permutation.
  - apply NoDup_bits_of, (wf_nonneg g Hg).
  - apply NoDup_fmap_2_strong; [|by apply NoDup_filter].
    intros [a b] [c d] [H1 Hab]%list_elem_of_filter [H2 Hcd]%list_elem_of_filter. cbn in *.
    apply Ho in Hab, Hcd. repeat case_decide; intros ->; f_equal; lia.
  - intros v. rewrite elem_of_neighbors, Ha, edge_in_true, list_elem_of_fmap by done. split.
    + intros [H|H]; eexists; (split; [|apply list_elem_of_filter; split; [|exact H]; cbn; tauto]); cbn.
      * by rewrite decide_True.
      * apply Ho in H. rewrite decide_False by lia. done.
    + intros ([a b] & -> & [Hab Hin]%list_elem_of_filter). cbn in *. case_decide; subst; [by left|].
      right. destruct Hab as [?| ->]; [done|done].
Qed.

(** ** What the pairing loop keeps *)

Record pair_inv (n : Z) (demand : Z -> nat) (Q : Z * Z -> Prop) (l : list Z) (es : list (Z * Z)) : Prop := {
  pi_range : forall x, x ∈ l -> 0 <= x < n;
  pi_count : forall w, (occ w l + incident w es)%nat = demand w;
  pi_edges : ordered_edges n es;
  pi_quality : forall e, e ∈ es -> Q e
}.

Section PairUp.
Context {R : Type} `{Hrng : Rng R} `{!RngLaws R} (allowed : Z -> Z -> list (Z * Z) -> bool).
Context (n : Z) (demand : Z -> nat) (Q : Z * Z -> Prop).
(** What it takes for an allowed pair to be a new edge *)
Hypothesis Hallowed : forall l u v es,
  pair_inv n demand Q (u :: v :: l) es -> allowed u v es = true ->
  u <> v /\ sort_pair u v ∉ es /\ Q (sort_pair u v).

Lemma pair_inv_perm l k es : l ≡ₚ k -> pair_inv n demand Q l es -> pair_inv n demand Q k es.
Proof.
  intros Hp [H1 H2 H3 H4]. split; [|intros w; rewrite <- (occ_perm w l k Hp); apply H2|done|done].
  intros x. rewrite <- Hp. apply H1.
Qed.

Lemma pair_inv_step l u v es :
  pair_inv n demand Q (u :: v :: l) es -> allowed u v es = true ->
  pair_inv n demand Q l (set_add (sort_pair u v) es) /\
  length (set_add (sort_pair u v) es) = S (length es).
Proof.
  intros Hi Ha. destruct (Hallowed l u v es Hi Ha) as (Hne & Hnew & HQ). destruct Hi as [H1 H2 [Hnd Ho] H4].
  unfold set_add. rewrite decide_False by done. split; [|rewrite length_app; cbn; lia]. split.
  - intros x Hx. apply H1. set_solver.
  - intros w. specialize (H2 w). rewrite incident_app, incident_pair by done.
    rewrite !occ_cons, ?occ_nil in *. lia.
  - split; [apply NoDup_app; split_all; [done|set_solver|apply NoDup_singleton]|].
    intros a b [Hab|Hab]%elem_of_app; [by apply Ho|]. apply list_elem_of_singleton in Hab.
    pose proof (sort_pair_lt u v n Hne) as Hlt. rewrite <- Hab in Hlt. cbn in Hlt. apply Hlt; apply H1; set_solver.
  - intros e [He|He]%elem_of_app; [by apply H4|]. apply list_elem_of_singleton in He as ->. done.
Qed.

Lemma pair_choices_spec l u es i :
  i ∈ pair_choices allowed l u es -> exists v, l !! i = Some v /\ allowed u v es = true.
Proof.
  intros [Hi _]%list_elem_of_filter. destruct (l !! i) as [v|]; [|done]. by exists v.
Qed.

Lemma pair_up_spec fuel l es r :
  (length l <= fuel)%nat -> pair_inv n demand Q l es ->
  match (pair_up allowed fuel l es r).1 with
  | NoFuel => False
  | Paired es' => pair_inv n demand Q [] es'
  | Stuck rest es' => (S (length rest) + 2 * length es')%nat = (length l + 2 * length es)%nat
  end.
Proof.
  revert l es r. induction fuel as [|f IH]; intros l es r Hf Hi; cbn [pair_up].
  { destruct l; [done|cbn in Hf; lia]. }
  destruct (list.last l) as [u|] eqn:El; [|apply last_None in El as ->; done].
  apply removelast_last in El. set (k := removelast l) in *.
  assert (length l = S (length k)) as Hlk by (rewrite El, length_app; cbn; lia).
  destruct (pair_choices allowed k u es) as [|i0 k0] eqn:Ec; [cbn; lia|]. rewrite <- Ec.
  destruct (choice r (length (pair_choices allowed k u es))) as [j r'] eqn:Ej.
  pose proof (choice_lt r (length (pair_choices allowed k u es))) as Hj. rewrite Ej in Hj. cbn [fst] in Hj.
  destruct (lookup_lt_is_Some_2 (pair_choices allowed k u es) j) as [i Hix]; [apply Hj; rewrite Ec; cbn; lia|].
  rewrite Hix. destruct (pair_choices_spec k u es i) as (v & Hv & Ha);
    [by apply list_elem_of_lookup_2 in Hix|]. rewrite Hv.
  assert (l ≡ₚ u :: v :: delete i k) as Hp.
  { rewrite El, Permutation_app_comm. cbn. by rewrite <- (delete_Permutation k i v Hv). }
  apply (pair_inv_perm _ _ _ Hp) in Hi. destruct (pair_inv_step _ _ _ _ Hi Ha) as [Hi' Hl'].
  pose proof (length_delete k i ltac:(by eexists)) as Hd.
  assert (0 < length k)%nat by (apply lookup_lt_Some in Hv; lia).
  specialize (IH (delete i k) (set_add (sort_pair u v) es) r' ltac:(lia) Hi').
  destruct (pair_up allowed f _ _ _).1; lia || done.
Qed.
End PairUp.

(** ** The mixed-degree generator *)

Lemma occ_replicate w k x : occ w (replicate k x) = (if decide (x = w) then k else 0)%nat.
Proof. induction k as [|k IH]; cbn [replicate]; [by case_decide|]. rewrite occ_cons, IH. by case_decide. Qed.

Lemma occ_stubs_from i ds w :
  occ w (vd ← enumerate_from i ds; replicate (Z.to_nat vd.2) vd.1) =
  if decide (i <= w) then Z.to_nat (default 0 (ds !! Z.to_nat (w - i))) else 0%nat.
Proof.
  revert i. induction ds as [|d ds IH]; intros i; cbn [enumerate_from mbind list_bind].
  { rewrite lookup_nil. by case_decide. }
  cbn [fst snd]. change (list_bind _ _ ?f ?l) with (l ≫= f). rewrite occ_app, occ_replicate, IH.
  destruct (decide (i = w)) as [->|Hne].
  - rewrite decide_False by lia. rewrite decide_True by lia. rewrite Z.sub_diag, Nat.add_0_r. done.
  - destruct (decide (i <= w)); [|by rewrite decide_False by lia]. rewrite decide_True by lia.
    replace (Z.to_nat (w - i)) with (S (Z.to_nat (w - (i + 1)))) by lia. done.
Qed.

Lemma high_count_cases n :
  5 <= n -> high_count n = (if n mod 2 =? 0 then 2 else 1) /\ 1 <= high_count n <= n /\
    ceil_div (4 * n) 7 <= n - high_count n.
Proof.
  intros Hn. unfold high_count, ceil_div.
  assert (n mod 2 = 0 \/ n mod 2 = 1) as [Hm|Hm] by (pose proof (Z.mod_pos_bound n 2); lia); rewrite Hm; cbn [Z.eqb].
  - assert (Z.min 2 (Z.max 1 (3 * n / 7)) = 2) as -> by (Z.to_euclidean_division_equations; lia).
    replace ((4 * 2 + 3 * (n - 2)) mod 2) with 0 by (Z.to_euclidean_division_equations; lia). cbn.
    split_all; [done|lia|lia|]. Z.to_euclidean_division_equations; lia.
  - assert (Z.min 1 (Z.max 1 (3 * n / 7)) = 1) as -> by (Z.to_euclidean_division_equations; lia).
    replace ((4 * 1 + 3 * (n - 1)) mod 2) with 0 by (Z.to_euclidean_division_equations; lia). cbn.
    split_all; [done|lia|lia|]. Z.to_euclidean_division_equations; lia.
Qed.

Definition wanted (n w : Z) : Z :=
  if decide (0 <= w < n) then if decide (w < high_count n) then 4 else 3 else 0.

Lemma occ_stubs n w : 5 <= n -> occ w (stubs n) = Z.to_nat (wanted n w).
Proof.
  intros Hn. destruct (high_count_cases n Hn) as (_ & Hh & _).
  unfold stubs, enumerate. rewrite occ_stubs_from, Z.sub_0_r. unfold wanted, degrees.
  destruct (decide (0 <= w)) as [Hw|Hw]; [|by rewrite decide_False by lia].
  destruct (decide (w < high_count n)) as [Hlt|Hge].
  - rewrite decide_True by lia. rewrite lookup_app_l by (rewrite length_replicate; lia).
    by rewrite lookup_replicate_2 by lia.
  - rewrite lookup_app_r by (rewrite length_replicate; lia). rewrite length_replicate.
    destruct (decide (w < n)).
    + rewrite decide_True by lia. by rewrite lookup_replicate_2 by lia.
    + rewrite decide_False by lia. by rewrite lookup_ge_None_2 by (rewrite length_replicate; lia).
Qed.

Definition not_both_high (n : Z) (e : Z * Z) : Prop := ~ (e.1 < high_count n /\ e.2 < high_count n).

Lemma mixed_allowed_new n l u v es :
  pair_inv n (fun w => Z.to_nat (wanted n w)) (not_both_high n) (u :: v :: l) es ->
  mixed_allowed n u v es = true ->
  u <> v /\ sort_pair u v ∉ es /\ not_both_high n (sort_pair u v).
Proof.
  intros [H1 _ _ _] Ha. unfold mixed_allowed in Ha.
  apply andb_true_iff in Ha as [[Hne%negb_true_iff%Z.eqb_neq Hnew%negb_true_iff%bool_decide_eq_false]%andb_true_iff Hh].
  split_all; [done..|]. intros [Ha Hb]. apply negb_true_iff, andb_false_iff in Hh.
  pose proof (H1 u ltac:(set_solver)). pose proof (H1 v ltac:(set_solver)).
  unfold sort_pair, high in *.
  destruct Hh as [Hh%bool_decide_eq_false|Hh%bool_decide_eq_false]; apply Hh, elem_of_range;
    destruct (v <? u); cbn in *; lia.
Qed.

Lemma mixed_pairing n es g :
  5 <= n -> pair_inv n (fun w => Z.to_nat (wanted n w)) (not_both_high n) [] es ->
  from_edges n es = Ok g -> mixed_accept g n = true ->
  wf g /\ gn g = n /\ minimal_candidate g /\ _minimal_structure_valid g = true /\
  forall u, vertex g u -> degree g u = if decide (u < high_count n) then 4 else 3.
Proof.
  intros Hn [_ Hc Ho HQ] Hok Hacc. apply andb_true_iff in Hacc as [Hconn Hnb].
  destruct (degree_incident n es g 0 ltac:(lia) Ho Hok) as (Hg & Hgn & Hadj & _).
  apply is_connected_iff in Hconn; [|done].
  assert (forall u, vertex g u -> degree g u = if decide (u < high_count n) then 4 else 3) as Hdeg.
  { intros u Hu. destruct (degree_incident n es g u ltac:(lia) Ho Hok) as (_ & _ & _ & Hd). rewrite Hd by done.
    specialize (Hc u). cbn in Hc. rewrite Hc. unfold wanted, vertex in *. rewrite decide_True by lia.
    destruct (decide (u < high_count n)); reflexivity. }
  destruct (high_count_cases n Hn) as (_ & Hh & Hceil).
  split_all; [done|done| | |done].
  - split; [lia|]. split; [done|]. intros u Hu. rewrite Hdeg by done. case_decide; lia.
  - unfold _minimal_structure_valid, degree_three_count. rewrite Hgn.
    assert (filter (fun u => degree g u = 3) (range 0 n) = range (high_count n) n) as ->.
    { rewrite (range_app 0 (high_count n) n) by lia. rewrite filter_app, filter_none, filter_all; [done| |].
      - intros u Hu%elem_of_range. rewrite Hdeg by (unfold vertex; lia). by rewrite decide_False by lia.
      - intros u Hu%elem_of_range. rewrite Hdeg by (unfold vertex; lia). by rewrite decide_True by lia. }
    rewrite length_range, Z2Nat.id by lia.
    destruct (Z.ltb_spec (n - high_count n) (ceil_div (4 * n) 7)); [lia|].
    destruct (existsb _ (edges g)) eqn:Ee; [|done]. exfalso.
    apply existsb_exists in Ee as ([a b] & Hin%list_elem_of_In & [Ha%Z.leb_le Hb%Z.leb_le]%andb_true_iff).
    cbn in Ha, Hb. apply elem_of_edges in Hin as [Hab Hlt]; [|done].
    destruct (wf_range g Hg a b Hab) as [Hva Hvb]. rewrite Hdeg in Ha, Hb by done.
    rewrite Hadj in Hab. apply edge_in_true in Hab as [Hab|Hab]; apply HQ in Hab; apply Hab; cbn;
      repeat case_decide; lia.
Qed.

(** ** The cubic generator *)

Lemma next_mod n u : 0 < n -> 0 <= u < n -> (u + 1) mod n = if decide (u = n - 1) then 0 else u + 1.
Proof.
  intros Hn Hu. case_decide as He.
  - subst. replace (n - 1 + 1) with n by lia. apply Z.mod_same. lia.
  - apply Z.mod_small. lia.
Qed.

Definition cycle_list (n : Z) : list (Z * Z) := (fun u => sort_pair u ((u + 1) mod n)) <$> range 0 n.

Lemma cycle_pair_inj n u v :
  3 <= n -> 0 <= u < n -> 0 <= v < n ->
  sort_pair u ((u + 1) mod n) = sort_pair v ((v + 1) mod n) -> u = v.
Proof.
  intros Hn Hu Hv. rewrite !next_mod by lia. unfold sort_pair.
  repeat case_decide; repeat case_match; rewrite pair_equal_spec; lia.
Qed.

Lemma NoDup_cycle_list n : 3 <= n -> NoDup (cycle_list n).
Proof.
  intros Hn. apply NoDup_fmap_2_strong; [|apply NoDup_range].
  intros u v Hu%elem_of_range Hv%elem_of_range. by apply cycle_pair_inj.
Qed.

Lemma set_add_all xs ys :
  NoDup (xs ++ ys) -> foldl (fun es e => set_add e es) xs ys = xs ++ ys.
Proof.
  revert xs. induction ys as [|y ys IH]; intros xs Hnd; cbn [foldl]; [by rewrite app_nil_r|].
  assert (set_add y xs = xs ++ [y]) as ->.
  { unfold set_add. rewrite decide_False; [done|]. apply NoDup_app in Hnd as (_ & Hd & _).
    intros Hy. apply (Hd y Hy). set_solver. }
  rewrite IH; [by rewrite <- app_assoc|]. by rewrite <- app_assoc.
Qed.

Lemma cycle_edges_eq n : 3 <= n -> cycle_edges n = cycle_list n.
Proof.
  intros Hn. pose proof (set_add_all [] (cycle_list n) (NoDup_cycle_list n Hn)) as H.
  transitivity (foldl (fun es e => set_add e es) [] (cycle_list n)); [|exact H].
  unfold cycle_edges, cycle_list. generalize (@nil (Z * Z)) (range 0 n).
  intros acc l. revert acc. induction l as [|u l IH]; intros acc; [done|]. cbn. apply IH.
Qed.

Lemma cycle_ordered n : 3 <= n -> ordered_edges n (cycle_list n).
Proof.
  intros Hn. split; [by apply NoDup_cycle_list|].
  intros a b (u & He & Hu%elem_of_range)%list_elem_of_fmap.
  assert (u <> (u + 1) mod n /\ 0 <= (u + 1) mod n < n) as [Hne Hr].
  { rewrite next_mod by lia. case_decide; lia. }
  pose proof (sort_pair_lt u ((u + 1) mod n) n Hne Hu Hr) as H. by rewrite <- He in H.
Qed.

Lemma incident_cycle n w : 3 <= n -> 0 <= w < n -> incident w (cycle_list n) = 2%nat.
Proof.
  intros Hn Hw. unfold incident, cycle_list. rewrite filter_fmap, length_fmap.
  assert (filter (fun u => (sort_pair u ((u + 1) mod n)).1 = w \/ (sort_pair u ((u + 1) mod n)).2 = w) (range 0 n)
          ≡ₚ [w; if decide (w = 0) then n - 1 else w - 1]) as Hp; [|by rewrite Hp].
  apply NoDup_Permutation; [apply NoDup_filter, NoDup_range| |].
  - apply NoDup_cons. split; [|apply NoDup_singleton]. rewrite list_elem_of_singleton. case_decide; lia.
  - intros u. rewrite list_elem_of_filter, elem_of_range, sort_pair_ends, !elem_of_cons, elem_of_nil. split.
    + intros [H Hu]. rewrite next_mod in H by lia. repeat case_decide; lia.
    + intros H. assert (0 <= u < n) as Hu by (repeat case_decide; lia). split; [|done].
      rewrite next_mod by lia. repeat case_decide; lia.
Qed.

Lemma cycle_connected n g :
  3 <= n -> wf g -> gn g = n -> (forall e, e ∈ cycle_list n -> adj g e.1 e.2 = true) -> connected g.
Proof.
  intros Hn Hg Hgn Hc. assert (forall k, 0 <= k -> k < n -> rtc (edge_rel g) 0 k) as H.
  { refine (natlike_ind _ _ _); [done|]. intros k Hk IH Hkn. apply rtc_r with k; [apply IH; lia|].
    assert (sort_pair k ((k + 1) mod n) ∈ cycle_list n) as Hin.
    { apply list_elem_of_fmap. exists k. split; [done|]. apply elem_of_range. lia. }
    apply Hc in Hin. rewrite next_mod in Hin by lia. rewrite decide_False in Hin by lia.
    unfold sort_pair in Hin. replace (k + 1 <? k) with false in Hin by lia. done. }
  intros u v [? ?] [? ?]. transitivity 0; [apply rtc_edge_sym; [done|]|]; apply H; lia.
Qed.

Definition one_each (n w : Z) : nat := if decide (0 <= w < n) then 1%nat else 0%nat.
Definition off_cycle (n : Z) (e : Z * Z) : Prop := e ∉ cycle_list n.

Lemma cubic_allowed_new n l u v es :
  3 <= n -> pair_inv n (one_each n) (off_cycle n) (u :: v :: l) es ->
  cubic_allowed n u v es = true ->
  u <> v /\ sort_pair u v ∉ es /\ off_cycle n (sort_pair u v).
Proof.
  intros Hn [H1 Hc Ho _] Ha. unfold cubic_allowed in Ha.
  apply negb_true_iff, bool_decide_eq_false in Ha. rewrite cycle_edges_eq in Ha by done.
  specialize (Hc u). unfold one_each in Hc. rewrite !occ_cons in Hc. rewrite decide_True in Hc by done.
  split_all; [| |done].
  - intros ->. rewrite decide_True in Hc by done. case_decide; lia.
  - intros Hin. pose proof (incident_in u es _ Hin) as Hi. specialize (Hi ltac:(apply sort_pair_ends; tauto)).
    repeat case_decide; lia.
Qed.

Lemma cubic_pairing n matching :
  4 <= n -> pair_inv n (one_each n) (off_cycle n) [] matching ->
  exists g, from_edges n (set_union (cycle_edges n) matching) = Ok g /\
    wf g /\ gn g = n /\ minimal_candidate g /\ forall u, vertex g u -> degree g u = 3.
Proof.
  intros Hn [_ Hc [Hnd Ho] HQ]. rewrite cycle_edges_eq by lia. unfold set_union.
  destruct (cycle_ordered n ltac:(lia)) as [Hcd Hco].
  assert (ordered_edges n (cycle_list n ++ matching)) as Hall.
  { split; [apply NoDup_app; split_all; [done| |done]|].
    - intros e He Hm. by apply (HQ e Hm).
    - intros a b [H|H]%elem_of_app; [by apply Hco|by apply Ho]. }
  rewrite set_add_all by apply Hall.
  destruct (from_edges_total n (cycle_list n ++ matching) ltac:(lia)) as (g & Hok & Hg & Hgn & Hadj).
  { apply simple_edges_ordered; apply Hall. }
  exists g. assert (forall u, vertex g u -> degree g u = 3) as Hdeg.
  { intros u Hu. destruct (degree_incident n _ g u ltac:(lia) Hall Hok) as (_ & _ & _ & Hd). rewrite Hd by done.
    unfold vertex in Hu. rewrite incident_app, incident_cycle by lia. specialize (Hc u).
    unfold one_each in Hc. rewrite occ_nil, decide_True in Hc by lia. lia. }
  split_all; [done..| |done]. split; [lia|]. split; [|intros u Hu; rewrite Hdeg by done; lia].
  apply (cycle_connected n); [lia|done|done|]. intros [a b] He. cbn. rewrite Hadj. apply edge_in_true.
  left. set_solver.
Qed.

(** ** The generators *)

Definition failure_recorded (t : option Trace) : Prop :=
  match t with Some tr => failure_category tr <> None | None => True end.

(** A result: a good graph, or an exhausted budget that the trace reports *)
Definition generated (good : BitGraph -> Prop) (result : res BitGraph) (t : option Trace) : Prop :=
  match result with
  | Ok g => good g
  | Raise e => (exists msg, e = RuntimeError msg) /\ failure_recorded t
  end.

Section GenerateSpec.
Context {R : Type} `{Hrng : Rng R} `{!RngLaws R}.

Definition mixed_good (n : Z) (g : BitGraph) : Prop :=
  wf g /\ gn g = n /\ minimal_candidate g /\ _minimal_structure_valid g = true.

Lemma mixed_attempts_spec n left attempt t (r : R) :
  5 <= n -> let '(result, t', _) := mixed_attempts n left attempt t r in generated (mixed_good n) result t'.
Proof.
  intros Hn. revert attempt t r. induction left as [|k IH]; intros attempt t r; cbn [mixed_attempts].
  { split; [by eexists|]. by destruct t. }
  pose proof (shuffle_perm Z r (stubs n)) as Hp. destruct (shuffle r (stubs n)) as [l r1]. cbn [fst] in Hp.
  assert (pair_inv n (fun w => Z.to_nat (wanted n w)) (not_both_high n) l []) as Hi.
  { split.
    - intros x. rewrite Hp. intros Hx%occ_in. rewrite occ_stubs in Hx by done. unfold wanted in Hx.
      case_decide; [done|cbn in Hx; lia].
    - intros w. rewrite (occ_perm w l (stubs n) Hp), occ_stubs by done. unfold incident. cbn. lia.
    - split; [by constructor|set_solver].
    - set_solver. }
  pose proof (pair_up_spec (mixed_allowed n) n _ _ (mixed_allowed_new n) (length l) l [] r1 ltac:(lia) Hi) as Hs.
  destruct (pair_up (mixed_allowed n) (length l) l [] r1) as [p r2]. cbn [fst] in Hs.
  destruct p as [es|rest es|]; [|apply IH|done].
  destruct (from_edges n es) as [g|e] eqn:Eg.
  - destruct (mixed_accept g n) eqn:Ea; [|apply IH].
    destruct (mixed_pairing n es g Hn Hs Eg Ea) as (? & ? & ? & ? & _). done.
  - destruct Hs as [_ _ [Hnd Ho] _].
    destruct (from_edges_total n es ltac:(lia)) as (g & Hg & _); [by apply simple_edges_ordered|congruence].
Qed.

Definition cubic_good (n : Z) (g : BitGraph) : Prop :=
  wf g /\ gn g = n /\ minimal_candidate g /\ forall u, vertex g u -> degree g u = 3.

Lemma cubic_attempts_spec n left attempt t (r : R) :
  4 <= n -> n mod 2 = 0 ->
  let '(result, t', _) := cubic_attempts n left attempt t r in generated (cubic_good n) result t'.
Proof.
  intros Hn Heven. revert attempt t r. induction left as [|k IH]; intros attempt t r; cbn [cubic_attempts].
  { split; [by eexists|]. by destruct t. }
  pose proof (shuffle_perm Z r (range 0 n)) as Hp. destruct (shuffle r (range 0 n)) as [l r1]. cbn [fst] in Hp.
  assert (pair_inv n (one_each n) (off_cycle n) l []) as Hi.
  { split.
    - intros x. rewrite Hp. apply elem_of_range.
    - intros w. rewrite (occ_perm w l _ Hp). unfold incident, one_each. cbn. rewrite Nat.add_0_r.
      case_decide as Hw; [by apply occ_NoDup; [apply NoDup_range|apply elem_of_range]|].
      destruct (occ w (range 0 n)) eqn:E; [done|]. exfalso. apply Hw, elem_of_range, occ_in. lia.
    - split; [by constructor|set_solver].
    - set_solver. }
  assert (Z.of_nat (length l) = n) as Hl by (rewrite Hp, length_range; lia).
  pose proof (pair_up_spec (cubic_allowed n) n _ _ (fun l u v es => cubic_allowed_new n l u v es ltac:(lia))
    (length l) l [] r1 ltac:(lia) Hi) as Hs.
  destruct (pair_up (cubic_allowed n) (length l) l [] r1) as [p r2]. cbn [fst] in Hs.
  destruct p as [es|rest es|]; [| |done].
  - destruct (_ =? _); [|apply IH].
    destruct (cubic_pairing n es Hn Hs) as (g & -> & Hg). cbn. by unfold cubic_good.
  - destruct rest as [|x rest]; [|apply IH]. exfalso. cbn in Hs.
    assert (n = 2 * Z.of_nat (length es) + 1) as Hodd by lia. rewrite Hodd in Heven.
    revert Heven. Z.to_euclidean_division_equations. lia.
Qed.
End GenerateSpec.

(** The mixed-degree generator runs for its own mode, and for odd orders in
    place of the unrestricted one. *)
Definition uses_mixed (n : Z) (m : string) : Prop :=
  m = "minimal_structure_mixed_degree"%string \/ (m = "unrestricted_min_degree_3"%string /\ n mod 2 <> 0).

Lemma check_config_Ok order m n :
  check_config order m = Ok n <->
  order = Some n /\ 4 <= n /\ m ∈ ["cubic_first"; "minimal_structure_mixed_degree"; "unrestricted_min_degree_3"]%string /\
  (m = "cubic_first"%string -> n mod 2 = 0) /\ (m = "minimal_structure_mixed_degree"%string -> 5 <= n).
Proof.
  unfold check_config. destruct order as [k|]; [|split; [done|by intros [? _]]].
  rewrite !raise_seq_Ok, Z.ltb_ge, negb_false_iff, bool_decide_eq_true, !andb_false_iff, !bool_decide_eq_false,
    negb_false_iff, Z.eqb_eq, Z.ltb_ge. split.
  - intros (? & ? & H1 & H2 & [= <-]). split_all; [done..| |]; intros Hm; tauto.
  - intros ([= ->] & ? & Hin & H1 & H2). split_all; [done|done| | |done].
    + destruct (decide (m = "cubic_first"%string)); [right; auto|by left].
    + destruct (decide (m = "minimal_structure_mixed_degree"%string)); [right; auto|by left].
Qed.

(** What a call of [generate_seed] gives *)
Lemma generate_seed_spec {R} `{RngLaws R} order mode t (r : R) :
  let m := default "cubic_first"%string mode in
  let '(result, t', _) := generate_seed order mode t r in
  match result with
  | Ok g =>
      exists n, check_config order m = Ok n /\ wf g /\ gn g = n /\ minimal_candidate g /\
        (uses_mixed n m -> _minimal_structure_valid g = true) /\
        (~ uses_mixed n m -> forall u, vertex g u -> degree g u = 3)
  | Raise e => (check_config order m = Raise e \/ exists msg, e = RuntimeError msg) /\ failure_recorded t'
  end.
Proof.
  intros m. unfold generate_seed. fold m. destruct (check_config order m) as [n|e] eqn:Ec.
  2: { split; [by left|]. destruct order, t; done. }
  apply check_config_Ok in Ec as Hok. destruct Hok as (_ & Hn & Hin & Hcub & Hmix).
  set (fallback := bool_decide (m = "unrestricted_min_degree_3"%string) && negb (n mod 2 =? 0)).
  assert (bool_decide ((if fallback then "minimal_structure_mixed_degree"%string else m) =
    "minimal_structure_mixed_degree"%string) = true <-> uses_mixed n m) as Hmode.
  { rewrite bool_decide_eq_true. unfold fallback, uses_mixed.
    destruct (decide (m = "unrestricted_min_degree_3"%string)) as [Hm|Hm].
    - rewrite bool_decide_eq_true_2 by done. cbn [andb]. destruct (Z.eqb_spec (n mod 2) 0); cbn; intuition congruence.
    - rewrite bool_decide_eq_false_2 by done. cbn [andb]. intuition. }
  destruct (bool_decide ((if fallback then _ else m) = _)) eqn:Em.
  - assert (uses_mixed n m) as Hu by by apply Hmode. assert (5 <= n) as Hn5.
    { destruct Hu as [?|[_ Hodd]]; [auto|]. assert (n <> 4) by (intros ->; done). lia. }
    match goal with |- context [mixed_attempts ?a ?b ?c ?d ?e] =>
      pose proof (mixed_attempts_spec a b c d e Hn5) as Hs; destruct (mixed_attempts a b c d e) as [[[g|e'] t'] r'] end.
    + destruct Hs as (? & ? & ? & ?). exists n. split_all; done.
    + destruct Hs as [Hmsg Hf]. split; [by right|]. destruct t' as [tr|]; [|done]. cbn in *.
      by destruct (failure_category tr).
  - assert (~ uses_mixed n m) as Hu by (intros H1%Hmode; congruence). assert (n mod 2 = 0) as Heven.
    { destruct (decide (n mod 2 = 0)) as [|Hodd]; [done|]. unfold uses_mixed in Hu.
      rewrite !elem_of_cons, elem_of_nil in Hin. destruct Hin as [?|[?|[?|[]]]]; [auto|tauto|tauto]. }
    match goal with |- context [cubic_attempts ?a ?b ?c ?d ?e] =>
      pose proof (cubic_attempts_spec a b c d e Hn Heven) as Hs; destruct (cubic_attempts a b c d e) as [[[g|e'] t'] r'] end.
    + destruct Hs as (? & ? & ? & ?). exists n. split_all; done.
    + destruct Hs as [Hmsg Hf]. split; [by right|]. destruct t' as [tr|]; [|done]. cbn in *.
      by destruct (failure_category tr).
Qed.

(** ** Properties *)

(** C22: a returned seed is a minimal candidate of the requested
    order (connected, minimum degree three); from the cubic generator it is cubic,
    from the mixed-degree generator it satisfies [_minimal_structure_valid].
    The call always ends: otherwise it raises the configuration's error, or
    [RuntimeError] after its retry budget, and then the trace, if there is one,
    names a failure category. *)
Theorem generate_seed_correct {R} `{RngLaws R} order mode t (r : R) :
  let m := default "cubic_first"%string mode in
  let '(result, t', _) := generate_seed order mode t r in
  match result with
  | Ok g =>
      exists n, check_config order m = Ok n /\ wf g /\ gn g = n /\ minimal_candidate g /\
        (uses_mixed n m -> _minimal_structure_valid g = true) /\
        (~ uses_mixed n m -> forall u, vertex g u -> degree g u = 3)
  | Raise e => (check_config order m = Raise e \/ exists msg, e = RuntimeError msg) /\ failure_recorded t'
  end.
Proof. apply generate_seed_spec. Qed.

Lemma generate_seed_correct_witness :
  exists g t r, generate_seed (Some 10) None None (mkLcg 7) = (Ok g, t, r) /\ minimal_candidate g.
Proof.
  pose proof (generate_seed_correct (Some 10) None None (mkLcg 7)) as H.
  destruct (generate_seed (Some 10) None None (mkLcg 7)) as [[[g|e] t] r] eqn:E.
  - exists g, t, r. split; [reflexivity|]. destruct H as (n & _ & _ & _ & H & _). exact H.
  - vm_compute in E. discriminate E.
Defined.
