(* ===== verification/Search.v ===== *)
(** * The search of one run

    [src/src/sglab/search.py]: the configuration and its checks, scores as
    payloads, and the worker that walks through graphs: simulated annealing or
    iterated local search over the mutations of the target, scored by a service
    that may fail, with checkpoints from which a worker is resumed. The target
    is the Erdos-Gyarfas target. *)

From stdpp Require Import sorting.
From S2P Require Import Prelude Floats Json Convert Model Graph6 Verification Score Rng Rewiring Mutation Seed.

#[global] Open Scope Z_scope.

(** ** [SearchConfig] *)

Definition ALGORITHMS : list string := ["simulated_annealing"; "iterated_local_search"]%string.
Definition MODES : list string := ["cubic_first"; "minimal_structure_mixed_degree"; "unrestricted_min_degree_3"]%string.
Definition TARGET_IDS : list string := ["erdos_gyarfas"; "m6_hidden_witness_control_v1"]%string.

Record SearchConfig := mkSearchConfig {
  target : string;
  order : Z;
  search_mode : string;
  algorithm : string;
  workers : Z;
  seed : Z;
  wall_seconds : float;
  max_candidates : Z;
  witness_cap : Z;
  queue_capacity : Z;
  archive_top_k : Z;
  state_seconds : float;
  checkpoint_seconds : float;
  worker_recycle_candidates : Z;
  memory_high_bytes : Z;
  memory_limit_bytes : Z;
  min_free_disk_bytes : Z;
  max_log_bytes : Z;
  notes : string;
  exact_timeout_seconds : float
}.

(** [not lo <= x <= hi] *)
Definition outside (lo x hi : Z) : bool := negb ((lo <=? x) && (x <=? hi)).

Definition validate (c : SearchConfig) : res unit :=
  raise_if (negb (bool_decide (target c ∈ TARGET_IDS))) (ValueError ("unsupported target: " ++ target c)%string) ;;;
  raise_if ((order c <? 4) || (128 <? order c)) (ValueError "order must be between 4 and 128") ;;;
  raise_if (negb (bool_decide (search_mode c ∈ MODES))) (ValueError ("unsupported mode: " ++ search_mode c)%string) ;;;
  raise_if (negb (bool_decide (algorithm c ∈ ALGORITHMS))) (ValueError ("unsupported algorithm: " ++ algorithm c)%string) ;;;
  raise_if (bool_decide (search_mode c = "cubic_first"%string) && negb (order c mod 2 =? 0))
    (ValueError "cubic_first requires an even order") ;;;
  raise_if (bool_decide (search_mode c = "minimal_structure_mixed_degree"%string) && (order c <? 5))
    (ValueError "minimal_structure_mixed_degree requires order at least 5") ;;;
  raise_if (outside 1 (workers c) 256) (ValueError "workers must be between 1 and 256") ;;;
  raise_if (negb (is_finite (wall_seconds c)) ||
            negb (f_lt (f_lit 0) (wall_seconds c) && f_le (wall_seconds c) (f_lit (365 * 86400))))
    (ValueError "wall_seconds must be between 0 and 31536000") ;;;
  raise_if (max_candidates c <? 0) (ValueError "max_candidates cannot be negative") ;;;
  raise_if (outside 1 (witness_cap c) 10000) (ValueError "witness_cap must be between 1 and 10000") ;;;
  raise_if (outside 4 (queue_capacity c) 65536) (ValueError "queue_capacity must be between 4 and 65536") ;;;
  raise_if (outside 1 (archive_top_k c) 10000) (ValueError "archive_top_k must be between 1 and 10000") ;;;
  raise_if (negb (is_finite (state_seconds c)) || negb (is_finite (checkpoint_seconds c)) ||
            f_le (state_seconds c) (f_lit 0) || f_le (checkpoint_seconds c) (f_lit 0))
    (ValueError "state and checkpoint intervals must be finite and positive") ;;;
  raise_if (outside 1 (worker_recycle_candidates c) 1000000000)
    (ValueError "worker_recycle_candidates must be between 1 and 1000000000") ;;;
  raise_if (outside 0 (memory_high_bytes c) (2 ^ 63 - 1) || outside 0 (memory_limit_bytes c) (2 ^ 63 - 1))
    (ValueError "memory limits must fit a nonnegative signed 64-bit value") ;;;
  raise_if (outside 0 (min_free_disk_bytes c) (2 ^ 63 - 1))
    (ValueError "min_free_disk_bytes must fit a nonnegative signed 64-bit value") ;;;
  raise_if (outside 1024 (max_log_bytes c) (1024 * 1024 * 1024)) (ValueError "max_log_bytes must be between 1 KiB and 1 GiB") ;;;
  raise_if (500 <? len (notes c)) (ValueError "notes exceed 500 characters") ;;;
  raise_if (negb (is_finite (exact_timeout_seconds c)) ||
            negb (f_le (f_lit 0) (exact_timeout_seconds c) && f_le (exact_timeout_seconds c) (f_lit (7 * 86400))))
    (ValueError "exact_timeout_seconds must be between 0 and 604800") ;;;
  raise_if (negb (memory_high_bytes c =? 0) && negb (memory_limit_bytes c =? 0) &&
            (memory_limit_bytes c <? memory_high_bytes c))
    (ValueError "memory_high_bytes cannot exceed memory_limit_bytes").

(** ** Scores as payloads *)

Definition add_count (d : list (string * json)) (lc : Z * Z) : res (list (string * json)) :=
  t ← int_text lc.1; Ok (dict_set d t (JInt lc.2)).

Definition _score_payload (s : ScoreResult) : res (list (string * json)) :=
  counts ← foldM add_count [] (witness_counts s);
  key ← ordering_key s;
  Ok [("valid", JBool (score_valid s)); ("witness_counts", JObj counts); ("weighted_penalty", JInt (weighted_penalty s));
      ("complete", JBool (score_complete s)); ("novelty", JFloat (novelty s)); ("simplicity", JInt (simplicity s));
      ("ordering_key", JList (JInt <$> key))]%string.

Definition length_le (x y : Z * Z) : Prop := x.1 <= y.1.
#[export] Instance length_le_dec : RelDecision length_le.
Proof. intros x y. unfold length_le. apply _. Defined.

(** [replace(score, novelty=...)] *)
Definition with_novelty (s : ScoreResult) (x : float) : ScoreResult :=
  mkScore (score_valid s) (witness_counts s) (weighted_penalty s) (score_complete s) x (simplicity s).

Section Payload.
Variable parse_float : string -> res float.

Definition read_count (acc : list (Z * Z)) (kv : string * json) : res (list (Z * Z)) :=
  l ← int_of_text kv.1; c ← to_int kv.2; Ok (acc ++ [(l, c)]).

Definition _score_from_payload (payload : list (string * json)) : res ScoreResult :=
  v ← subscript payload "valid";
  wc ← subscript payload "witness_counts";
  items ← match wc with JObj d => Ok d | _ => Raise AttributeError end;
  counts ← foldM read_count [] items;
  w ← subscript payload "weighted_penalty"; penalty ← to_int w;
  c ← subscript payload "complete";
  nov ← to_float parse_float (get_or payload "novelty" (JInt 0));
  simp ← to_int (get_or payload "simplicity" (JInt 0));
  Ok (mkScore (truthy v) (merge_sort length_le counts) penalty (truthy c) nov simp).
End Payload.

(** ** The services a worker uses

    The score worker is behind an interface: [ask] is one [score] call, [restart]
    one restart of its process. The random source has, besides the operations of
    [Rng], [random()] and a state that is written as text and read back. *)

Class ScoreService (S : Type) := {
  ask : S -> BitGraph -> list Z -> Z -> Z -> res (list CycleCountResult) * S;
  restart : S -> res unit * S
}.

Class RngState (R : Type) := {
  random : R -> float * R;
  getstate : R -> string;
  setstate : string -> res R
}.
Class RngStateLaws (R : Type) `{RngState R} := {
  setstate_getstate : forall r, setstate (getstate r) = Ok r
}.

(** The exceptions the scoring loop catches *)
Definition caught (e : exn) : bool :=
  match e with OSError | ScoreWorkerError _ | ValueError _ => true | _ => false end.

Section Scoring.
Context {S : Type} `{ScoreService S} (cap : Z).

Definition node_budget : Z := Z.max 4096 (Z.min 50000 (cap * 1024)).
Definition score_failed : exn := ScoreWorkerError "mandatory C++ score worker failed after one restart".

Definition score_attempt (g : BitGraph) (s : S) : res ScoreResult * S :=
  let '(r, s) := ask s g (forbidden_lengths (gn g)) (cap + 1) node_budget in
  (results ← r; scored ← score_from_cycle_counts 0 0 g cap results None None; Ok scored.1, s).

Definition score_graph (g : BitGraph) (s : S) : res ScoreResult * S :=
  match score_attempt g s with
  | (Ok x, s) => (Ok x, s)
  | (Raise e, s) =>
      if negb (caught e) then (Raise e, s)
      else
        match restart s with
        | (Raise (ScoreWorkerError _), s) => (Raise score_failed, s)
        | (Raise e, s) => (Raise e, s)
        | (Ok _, s) =>
            match score_attempt g s with
            | (Ok x, s) => (Ok x, s)
            | (Raise e, s) => (Raise (if caught e then score_failed else e), s)
            end
        end
  end.
End Scoring.

(** ** The worker *)

Inductive Message :=
  | Checkpoint (payload : list (string * json))
  | Improvement (worker : Z) (graph6 : string) (score : list (string * json))
  | Metrics (worker evaluated accepted legal improvements rss_bytes : Z)
  | Exit (worker : Z) (reason : string) (evaluated accepted legal improvements : Z).

Record Search (R S : Type) := mkSearch {
  graph : BitGraph;
  score : ScoreResult;
  best_graph : BitGraph;
  best_score : ScoreResult;
  stagnation : Z;
  tabu : list string;
  algorithm_evaluated : Z;
  next_restart : Z;
  evaluated : Z;
  accepted : Z;
  improvements : Z;
  legal : Z;
  lifetime_evaluated : Z;
  last_report : float;
  rng : R;
  score_worker : S;
  sent : list Message
}.
Arguments mkSearch {R S}.
Arguments graph {R S}. Arguments score {R S}. Arguments best_graph {R S}. Arguments best_score {R S}.
Arguments stagnation {R S}. Arguments tabu {R S}. Arguments algorithm_evaluated {R S}. Arguments next_restart {R S}.
Arguments evaluated {R S}. Arguments accepted {R S}. Arguments improvements {R S}. Arguments legal {R S}.
Arguments lifetime_evaluated {R S}. Arguments last_report {R S}. Arguments rng {R S}. Arguments score_worker {R S}.
Arguments sent {R S}.

(** [recommended_workers], on a machine with [cpus] processors *)
Definition recommended_workers (cpus requested reserve_threads : Z) : Z :=
  let available := Z.max 1 (cpus - Z.max 2 reserve_threads) in
  Z.max 1 (Z.min (if requested =? 0 then Z.min 12 available else requested) available).

Definition _worker_candidate_budget (cpus : Z) (c : SearchConfig) (worker_id : Z) : option Z :=
  if max_candidates c <=? 0 then None
  else
    let worker_count := recommended_workers cpus (workers c) 2 in
    Some (max_candidates c / worker_count + (if worker_id <? max_candidates c mod worker_count then 1 else 0)).

(** What the flags and the clock show a turn of the loop. The stop flag is only
    ever set; [stop_later] says that it is set after the loop's test and before
    the exit message. [queue.put] may drop a message when the queue is full, so a
    message is one the worker tried to send. *)
Record Turn := mkTurn { stop_set : bool; stop_later : bool; pause_set : bool; now_seconds : float; rss_bytes : Z }.

Definition f_max (x y : float) : float := if f_lt x y then y else x.
Definition f_min (x y : float) : float := if f_lt y x then y else x.
Definition f_twentieth : float := f_ratio 5 100.
Definition f_decay : float := f_ratio 9995 10000.
Definition f_half : float := f_ratio 1 2.

Section Worker.
Context {R S : Type} `{Rng R} `{RngState R} `{ScoreService S}.
Variables (parse_float : string -> res float) (sha256 : list Z -> string).
(** [x ** k] and [math.exp] of the C library *)
Variables (f_pow : float -> Z -> float) (f_exp : float -> float).
Variables (cpus : Z) (config : SearchConfig) (worker_id : Z).

Definition graph6_text (g : BitGraph) : res string := t ← to_graph6 g; Ok (text_of t).

Definition with_sent (st : Search R S) (m : Message) : Search R S :=
  mkSearch (graph st) (score st) (best_graph st) (best_score st) (stagnation st) (tabu st) (algorithm_evaluated st)
    (next_restart st) (evaluated st) (accepted st) (improvements st) (legal st) (lifetime_evaluated st) (last_report st)
    (rng st) (score_worker st) (sent st ++ [m]).

Definition checkpoint_payload (st : Search R S) : res (list (string * json)) :=
  g ← graph6_text (graph st); s ← _score_payload (score st);
  bg ← graph6_text (best_graph st); bs ← _score_payload (best_score st);
  Ok [("kind", JStr "checkpoint"); ("worker", JInt worker_id); ("graph6", JStr g); ("score", JObj s);
      ("best_graph6", JStr bg); ("best_score", JObj bs); ("rng_state", JStr (getstate (rng st)));
      ("evaluated", JInt (evaluated st)); ("lifetime_evaluated", JInt (lifetime_evaluated st + evaluated st));
      ("algorithm_evaluated", JInt (algorithm_evaluated st)); ("stagnation", JInt (stagnation st));
      ("tabu", JList (JStr <$> tabu st)); ("next_restart", JInt (next_restart st))]%string.

Definition send_checkpoint (st : Search R S) : res (Search R S) := p ← checkpoint_payload st; Ok (with_sent st (Checkpoint p)).

Definition send_improvement (g : BitGraph) (s : ScoreResult) (st : Search R S) : res (Search R S) :=
  t ← graph6_text g; p ← _score_payload s; Ok (with_sent st (Improvement worker_id t p)).

(** *** Start *)

Definition fresh (now : float) (r : R) (w : S) : res (Search R S) :=
  let '(g, _, r) := generate_seed (Some (order config)) (Some (search_mode config)) None r in
  g ← g;
  let '(s, w) := score_graph (witness_cap config) g w in
  s ← s;
  let s := with_novelty s (f_lit 1) in
  h ← stable_hash sha256 g;
  Ok (mkSearch g s g s 0 [h] 0 50000 0 0 0 0 0 now r w []).

Definition decode_graph (v : json) : res BitGraph := t ← py_str v; from_graph6 (Text (codes t)).
Definition read_score (v : json) : res ScoreResult :=
  match v with JObj d => _score_from_payload parse_float d | _ => Raise TypeError end.

(** The items of [for value in x] *)
Definition iterate (v : json) : res (list json) :=
  match v with
  | JList l => Ok l
  | JStr s => Ok ((fun a => JStr (String a EmptyString)) <$> Stdlib.Strings.String.list_ascii_of_string s)
  | JObj d => Ok ((fun kv => JStr kv.1) <$> d)
  | JNull | JBool _ | JInt _ | JFloat _ => Raise TypeError
  end.

Definition add_text (acc : list string) (v : json) : res (list string) := t ← py_str v; Ok (acc ++ [t]).

(** [l[-128:]] *)
Definition last_128 {A} (l : list A) : list A := drop (length l - 128) l.

Definition resume (d : list (string * json)) (now : float) (w : S) : res (Search R S) :=
  v ← subscript d "graph6"; g ← decode_graph v;
  v ← subscript d "rng_state"; t ← py_str v; r ← setstate t;
  sv ← subscript d "score"; s ← read_score sv;
  default_best ← graph6_text g;
  bg ← decode_graph (get_or d "best_graph6" (JStr default_best));
  bs ← read_score (get_or d "best_score" sv);
  stag ← to_int (get_or d "stagnation" (JInt 0));
  h ← stable_hash sha256 g;
  items ← iterate (get_or d "tabu" (JList [JStr h]));
  tb ← foldM add_text [] items;
  ae ← to_int (get_or d "algorithm_evaluated" (JInt 0));
  nr ← to_int (get_or d "next_restart" (JInt 50000));
  life ← to_int (get_or d "lifetime_evaluated" (JInt 0));
  Ok (mkSearch g s bg bs stag (last_128 tb) ae nr 0 0 0 0 life now r w []).

(** An absent or empty checkpoint is false. *)
Definition start (resume_checkpoint : option (list (string * json))) (now : float) (r : R) (w : S) : res (Search R S) :=
  st ← match resume_checkpoint with
       | None | Some [] => fresh now r w
       | Some d => resume d now w
       end;
  st ← send_checkpoint st;
  send_improvement (best_graph st) (best_score st) st.

(** *** One turn of the loop *)

(** Simulated annealing starts from a new seed every 50,000 evaluations. *)
Definition restart_due (st : Search R S) : bool :=
  bool_decide (algorithm config = "simulated_annealing"%string) && (next_restart st <=? algorithm_evaluated st).

Definition restart_search (st : Search R S) : res (Search R S) :=
  let '(g, _, r) := generate_seed (Some (order config)) (Some (search_mode config)) None (rng st) in
  g ← g;
  let '(s, w) := score_graph (witness_cap config) g (score_worker st) in
  s ← s;
  nov ← _novelty g (best_graph st);
  h ← stable_hash sha256 g;
  Ok (mkSearch g (with_novelty s nov) (best_graph st) (best_score st) 0 [h] (algorithm_evaluated st)
        (next_restart st + 50000) (evaluated st) (accepted st) (improvements st) (legal st) (lifetime_evaluated st)
        (last_report st) r w (sent st)).

(** [plugin.mutate(graph, rng, {"mode": config.mode})] *)
Definition mutate_config : Config := mkConfig (search_mode config) "uniform_two_edge_switch" Missing None Missing.
Definition propose (g : BitGraph) (r : R) : res (BitGraph * R) :=
  m ← mutate (fun _ => 0) mutate_config 0 g (fresh_world r false);
  Ok (m.1, w_rng m.2).

(** The acceptance test: the decision, the stagnation counter, the tabu list and
    the random source afterwards *)
Definition anneal (st : Search R S) (candidate_score : ScoreResult) : res (bool * Z * list string * R) :=
  let temperature := f_max f_twentieth (f_mul (f_lit 8) (f_pow f_decay (algorithm_evaluated st mod 20000))) in
  let hot := 2000 <? stagnation st in
  let temperature := if hot then f_lit 8 else temperature in
  let stag := if hot then 0 else stagnation st in
  c ← _scalar candidate_score; s ← _scalar (score st);
  let delta := f_sub c s in
  if f_le delta (f_lit 0) then Ok (true, stag, tabu st, rng st)
  else
    let '(x, r) := random (rng st) in
    Ok (f_lt x (f_exp (f_div (SFopp (f_min delta (f_lit 700))) temperature)), stag, tabu st, r).

Definition remember (l : list string) (key : string) : list string :=
  let l := l ++ [key] in if 128 <? Z.of_nat (length l) then drop 1 l else l.

Definition local_search (st : Search R S) (candidate : BitGraph) (candidate_score : ScoreResult)
  : res (bool * Z * list string * R) :=
  key ← stable_hash sha256 candidate;
  improves ← (if bool_decide (key ∈ tabu st) then Ok false
              else c ← ordering_key candidate_score; s ← ordering_key (score st); Ok (tuple_le c s));
  let accept := improves || (algorithm_evaluated st mod 64 =? 0) in
  Ok (accept, stagnation st, if accept then remember (tabu st) key else tabu st, rng st).

Definition judge (st : Search R S) (candidate : BitGraph) (candidate_score : ScoreResult)
  : res (bool * Z * list string * R) :=
  if bool_decide (algorithm config = "simulated_annealing"%string) then anneal st candidate_score
  else local_search st candidate candidate_score.

(** The candidate becomes the current graph, and the best one if its key is
    smaller. *)
Definition settle (st : Search R S) (candidate : BitGraph) (candidate_score : ScoreResult) (w : S)
  (judged : bool * Z * list string * R) : res (Search R S) :=
  let '(accept, stag, tb, r) := judged in
  c ← ordering_key candidate_score; b ← ordering_key (best_score st);
  let better := tuple_lt c b in
  let st' := mkSearch (if accept then candidate else graph st) (if accept then candidate_score else score st)
    (if better then candidate else best_graph st) (if better then candidate_score else best_score st)
    (if better then 0 else stag + 1) tb (algorithm_evaluated st) (next_restart st) (evaluated st)
    (if accept then accepted st + 1 else accepted st) (if better then improvements st + 1 else improvements st)
    (legal st) (lifetime_evaluated st) (last_report st) r w (sent st) in
  if better then send_improvement candidate candidate_score st' else Ok st'.

Definition report (t : Turn) (st : Search R S) : res (Search R S) :=
  if f_le f_half (f_sub (now_seconds t) (last_report st)) then
    let st := with_sent st (Metrics worker_id (evaluated st) (accepted st) (legal st) (improvements st) (rss_bytes t)) in
    st ← send_checkpoint st;
    Ok (mkSearch (graph st) (score st) (best_graph st) (best_score st) (stagnation st) (tabu st) (algorithm_evaluated st)
          (next_restart st) (evaluated st) (accepted st) (improvements st) (legal st) (lifetime_evaluated st) (now_seconds t)
          (rng st) (score_worker st) (sent st))
  else Ok st.

(** The counters after one more candidate, [legal] when it differs *)
Definition counted (st : Search R S) (is_legal : bool) (r : R) : Search R S :=
  mkSearch (graph st) (score st) (best_graph st) (best_score st) (stagnation st) (tabu st) (algorithm_evaluated st + 1)
    (next_restart st) (evaluated st + 1) (accepted st) (improvements st) (if is_legal then legal st + 1 else legal st)
    (lifetime_evaluated st) (last_report st) r (score_worker st) (sent st).

(** The candidate and its score, when the turn examined one *)
Definition turn (t : Turn) (st : Search R S) : res (option (BitGraph * ScoreResult) * Search R S) :=
  if pause_set t then Ok (None, st)
  else
    st ← (if restart_due st then restart_search st else Ok st);
    cr ← propose (graph st) (rng st);
    let '(candidate, r) := cr in
    if bool_decide (candidate = graph st) then Ok (None, counted st false r)
    else
      let st := counted st true r in
      let '(s, w) := score_graph (witness_cap config) candidate (score_worker st) in
      s ← s;
      nov ← _novelty candidate (best_graph st);
      let candidate_score := with_novelty s nov in
      judged ← judge st candidate candidate_score;
      st ← settle st candidate candidate_score w judged;
      st ← report t st;
      Ok (Some (candidate, candidate_score), st).

(** *** The loop *)

Definition budget_left (st : Search R S) : bool :=
  match _worker_candidate_budget cpus config worker_id with
  | None => true
  | Some b => lifetime_evaluated st + evaluated st <? b
  end.
Definition continues (t : Turn) (st : Search R S) : bool :=
  negb (stop_set t) && (evaluated st <? worker_recycle_candidates config) && budget_left st.

(** The last checkpoint and the exit message; [stopped] is the flag as read
    then. *)
Definition finish (stopped : bool) (st : Search R S) : res (Search R S) :=
  st ← send_checkpoint st;
  let reason := if stopped then "stopped" else if negb (budget_left st) then "budget" else "recycle" in
  Ok (with_sent st (Exit worker_id reason (evaluated st) (accepted st) (legal st) (improvements st))).

(** The loop over the turns seen so far: whether it has ended, the candidates
    examined, the state *)
Fixpoint work (turns : list Turn) (st : Search R S) : res (bool * list (BitGraph * ScoreResult) * Search R S) :=
  match turns with
  | [] => Ok (false, [], st)
  | t :: turns' =>
      if continues t st then
        r ← turn t st;
        rest ← work turns' r.2;
        Ok (rest.1.1, option_list r.1 ++ rest.1.2, rest.2)
      else st ← finish (stop_set t || stop_later t) st; Ok (true, [], st)
  end.
End Worker.

(** ** The order of scores *)

(** [x.ordering_key < y.ordering_key], for scores whose keys exist *)
Definition key_of (s : ScoreResult) : list Z := match ordering_key s with Ok k => k | Raise _ => [] end.

Lemma key_of_Ok s k : ordering_key s = Ok k -> key_of s = k.
Proof. unfold key_of. by intros ->. Qed.

Lemma not_lt_trans x y z : tuple_lt y x = false -> tuple_lt z y = false -> length x = length y -> length y = length z ->
  tuple_lt z x = false.
Proof.
  intros Hxy Hyz Hl1 Hl2. apply not_true_iff_false. intros Hzx.
  destruct (decide (x = y)) as [->|Hne]; [congruence|].
  destruct (tuple_lt_total x y Hl1 Hne) as [Hlt|]; [|congruence].
  assert (tuple_lt z y = true) by by eapply tuple_lt_trans. congruence.
Qed.

Lemma key_length s k : ordering_key s = Ok k -> length k = 5%nat.
Proof. unfold ordering_key. intros (n & _ & [= <-])%bind_Ok. done. Qed.
