(* ===== verification/SearchProofs.v ===== *)
(** * What the search worker guarantees

    Proofs about [Search]: the invariant of every worker state that can be
    reached, also through checkpoints; the best graph is the minimum of what was
    examined; budgets; a checkpoint gives the state back. *)

From stdpp Require Import sorting countable.
From S2P Require Import Prelude Floats Json Convert Model Cycles Graph6 Verification Score Rng Rewiring Mutation Seed Search.

#[global] Open Scope Z_scope.

(** ** Files

    A checkpoint file is written with sorted keys: reading it back gives the
    objects in another order. *)

Inductive reordered : json -> json -> Prop :=
  | reordered_same v : reordered v v
  | reordered_keys d d1 d' :
      d ≡ₚ d1 -> Forall2 (fun x y => x.1 = y.1 /\ reordered x.2 y.2) d1 d' -> reordered (JObj d) (JObj d')
  | reordered_items l l' : Forall2 reordered l l' -> reordered (JList l) (JList l').

(** A value without objects in it is read back as it was; lists go one level deep. *)
Definition leaf (v : json) : Prop := match v with JObj _ | JList _ => False | _ => True end.
Definition atomic (v : json) : Prop := match v with JObj _ => False | JList l => Forall leaf l | _ => True end.

Lemma reordered_atomic v v' : reordered v v' -> atomic v -> v' = v.
Proof.
  inversion 1 as [|?????|l l' Hl]; subst; [done..|]. cbn. intros Ha. f_equal. clear H.
  induction Hl as [|x y l l' Hxy _ IH]; [done|]. apply Forall_cons in Ha as [Hx Ha]. f_equal; [by inversion Hxy; subst|by apply IH].
Qed.

Lemma texts_atomic l : atomic (JList (JStr <$> l)).
Proof. apply Forall_fmap, Forall_true. done. Qed.

Lemma reordered_object d v : reordered (JObj d) v -> exists d', v = JObj d'.
Proof. inversion 1; eauto. Qed.

Lemma reordered_get d d' k v : NoDup d.*1 -> reordered (JObj d) (JObj d') -> dict_get d k = Some v ->
  exists v', dict_get d' k = Some v' /\ reordered v v'.
Proof.
  intros Hn Hr Hg. inversion Hr as [|? d1 ? Hp Hf|]; subst; [by exists v; split; [|constructor]|].
  assert (dict_get d1 k = Some v) as Hg1.
  { apply dict_get_NoDup; [by rewrite <- Hp|]. rewrite <- Hp. by apply dict_get_elem_of. }
  clear Hr Hp Hg Hn. induction Hf as [|[k1 v1] [k2 v2] d1 d' [Hk Hv] _ IH]; [done|]. cbn in *. subst.
  case_decide; [|by apply IH]. injection Hg1 as ->. by exists v2.
Qed.

(** ** Scores are read back *)

Definition shorter (x y : Z * Z) : Prop := x.1 < y.1.
Definition counts_ok (l : list (Z * Z)) : Prop := StronglySorted shorter l /\ Forall (fun x => 0 <= x.1 < 10 ^ 4300) l.
Definition count_entry (lc : Z * Z) : string * json := (pretty lc.1, JInt lc.2).

Lemma dict_set_fresh (d : list (string * json)) k v : k ∉ d.*1 -> dict_set d k v = d ++ [(k, v)].
Proof.
  induction d as [|[k' v'] d IH]; cbn; [done|]. rewrite not_elem_of_cons. intros [Hk Hd].
  rewrite decide_False by done. by rewrite IH.
Qed.

Lemma shorter_last l x y : StronglySorted shorter (l ++ [x]) -> y ∈ l -> y.1 < x.1.
Proof.
  intros Hs Hy. induction l as [|z l IH]; [by apply elem_of_nil in Hy|]. cbn in Hs.
  apply StronglySorted_inv in Hs as [Hs Hf]. apply elem_of_cons in Hy as [->|Hy]; [|by apply IH].
  rewrite Forall_forall in Hf. apply Hf. set_solver.
Qed.

Lemma payload_counts l : counts_ok l -> foldM add_count [] l = Ok (count_entry <$> l).
Proof.
  induction l as [|x l IH] using rev_ind; [done|]. intros [Hs Hb].
  assert (counts_ok l) as Hl by (split; [by apply StronglySorted_app_1_l in Hs|by apply Forall_app in Hb as [? _]]).
  apply Forall_app in Hb as [Hb Hx]. apply Forall_inv in Hx. rewrite foldM_app, (IH Hl). cbn. unfold add_count.
  rewrite int_text_pretty by apply Hx. cbn [mbind res_bind].
  rewrite dict_set_fresh; [by rewrite fmap_app|].
  intros (kv & Hk & ((l0 & c) & -> & Hin)%list_elem_of_fmap)%list_elem_of_fmap. cbn in Hk.
  apply (inj pretty) in Hk. pose proof (shorter_last _ _ _ Hs Hin). cbn in *. lia.
Qed.

Lemma read_entries acc l : Forall (fun x => 0 <= x.1 < 10 ^ 4300) l -> foldM read_count acc (count_entry <$> l) = Ok (acc ++ l).
Proof.
  intros Hl. revert acc. induction Hl as [|[k c] l Hx _ IH]; intros acc; [by rewrite app_nil_r|]. cbn [fmap list_fmap foldM].
  change (count_entry (k, c)) with (pretty k, JInt c). unfold read_count at 2. cbn [fst snd]. rewrite int_of_pretty by done. cbn [mbind res_bind to_int].
  rewrite IH. by rewrite <- app_assoc.
Qed.

#[export] Instance length_le_total : Total length_le.
Proof. intros x y. unfold length_le. lia. Qed.
#[export] Instance length_le_trans : Transitive length_le.
Proof. intros x y z. unfold length_le. lia. Qed.

Lemma shorter_inj l x y : StronglySorted shorter l -> x ∈ l -> y ∈ l -> x.1 = y.1 -> x = y.
Proof.
  induction 1 as [|z l _ IH Hf]; [set_solver|]. rewrite Forall_forall in Hf. unfold shorter in Hf.
  rewrite !elem_of_cons. intros [->|Hx] [->|Hy] Heq; [done| | |by apply IH].
  - specialize (Hf _ Hy). lia.
  - specialize (Hf _ Hx). lia.
Qed.

Lemma sort_counts l k : StronglySorted shorter l -> k ≡ₚ l -> merge_sort length_le k = l.
Proof.
  intros Hs Hp. apply (StronglySorted_unique_strong length_le).
  - intros x y Hx Hy Hxy Hyx. rewrite merge_sort_Permutation, Hp in Hx. unfold length_le in *. eapply shorter_inj; eauto. lia.
  - apply (StronglySorted_merge_sort length_le).
  - clear Hp. induction Hs as [|x l _ IH Hf]; constructor; [done|]. eapply Forall_impl; [done|]. unfold shorter, length_le. lia.
  - by rewrite merge_sort_Permutation.
Qed.

Lemma read_reordered l d : counts_ok l -> reordered (JObj (count_entry <$> l)) (JObj d) ->
  exists counts, foldM read_count [] d = Ok counts /\ merge_sort length_le counts = l.
Proof.
  intros [Hs Hb] Hr. assert (exists k, d = count_entry <$> k /\ k ≡ₚ l) as (k & -> & Hk).
  { inversion Hr as [|? d1 ? Hp Hf|]; subst; [by exists l|].
    symmetry in Hp. apply Permutation_map_inv in Hp as (k & -> & Hp). exists k. split; [|done].
    clear - Hf. revert d Hf. induction k as [|x k IH]; intros d Hf; inversion Hf as [|? [k2 v2] ? d' [Hk Hv] Hf']; subst; [done|].
    cbn in Hk, Hv. apply reordered_atomic in Hv; [|done]. cbn. unfold count_entry at 1. rewrite <- (IH d' Hf'). by subst. }
  exists k. split; [|by apply sort_counts]. rewrite read_entries; [done|]. by rewrite Hk.
Qed.

(** [_score_from_payload (_score_payload(score))], through a file or not *)
Lemma score_read pf s p p' : counts_ok (witness_counts s) -> _score_payload s = Ok p ->
  reordered (JObj p) (JObj p') -> _score_from_payload pf p' = Ok s.
Proof.
  intros Hc Hp Hr. unfold _score_payload in Hp. rewrite payload_counts in Hp by done. cbn [mbind res_bind] in Hp.
  apply bind_Ok in Hp as (key & _ & Hp).
  assert (forall k v, dict_get p k = Some v -> exists v', dict_get p' k = Some v' /\ reordered v v') as Hget.
  { intros k v. apply reordered_get; [|done]. injection Hp as <-. apply (bool_decide_unpack _). vm_compute. done. }
  assert (forall k v, dict_get p k = Some v -> atomic v -> dict_get p' k = Some v) as Hatom.
  { intros k v Hv Ha. destruct (Hget k v Hv) as (v' & Hv' & ->%reordered_atomic); done. }
  injection Hp as <-. unfold _score_from_payload, subscript, get_or.
  destruct (Hget "witness_counts"%string _ eq_refl) as (wc & Hwc & Hrw). destruct (reordered_object _ _ Hrw) as [d ->].
  destruct (read_reordered _ _ Hc Hrw) as (counts & Hread & Hsort).
  rewrite (Hatom "valid"%string _ eq_refl I), Hwc, (Hatom "weighted_penalty"%string _ eq_refl I),
    (Hatom "complete"%string _ eq_refl I), (Hatom "novelty"%string _ eq_refl I), (Hatom "simplicity"%string _ eq_refl I).
  cbn [mbind res_bind]. rewrite Hread. cbn. rewrite Hsort. by destruct s.
Qed.

(** The counts of a score are in order. *)
Lemma tally_counts a b g cap rs s p : gn g <= 128 -> score_from_cycle_counts a b g cap rs None None = Ok (s, p) -> counts_ok (witness_counts s).
Proof.
  intros Hg H. unfold score_from_cycle_counts in H. apply raise_seq_Ok in H as [_ H].
  destruct (negb (valid (validate_graph g))); [injection H as <- _; split; constructor|].
  apply raise_seq_Ok in H as [Hl H]. apply negb_false_iff, bool_decide_eq_true in Hl.
  apply bind_Ok in H as (t & Ht & [= <- _]). apply tally_spec in Ht as (Hc & _ & _). cbn in *. rewrite Hc. clear Hc.
  assert (forall len, len ∈ cc_length <$> rs -> 0 <= len < 10 ^ 4300) as Hb.
  { intros len. rewrite Hl. intros [Hle (k & Hk & ->)]%elem_of_forbidden_lengths.
    split; [lia|]. apply Z.le_lt_trans with 128; [lia|done]. }
  pose proof (forbidden_from_sorted (Z.to_nat (gn g)) (gn g) 4 ltac:(lia)) as Hs. change (forbidden_from _ _ _) with (forbidden_lengths (gn g)) in Hs.
  rewrite <- Hl in Hs. clear - Hs Hb. induction rs as [|r rs IH]; [split; constructor|]. cbn in *.
  apply StronglySorted_inv in Hs as [Hs Hf]. destruct IH as [IHs IHb]; [first [exact Hs|intros; apply Hb; set_solver]..|].
  split; constructor; [done| |apply Hb; set_solver|done].
  apply Forall_forall. intros x (r' & -> & Hr')%list_elem_of_fmap. unfold shorter. cbn.
  rewrite Forall_forall in Hf. apply Hf, list_elem_of_fmap. by exists r'.
Qed.

Section Proofs.
Context {R S : Type} `{Hrng : Rng R} `{!RngLaws R} `{Hstate : RngState R} `{!RngStateLaws R} `{Hservice : ScoreService S}.
Variables (parse_float : string -> res float) (sha256 : list Z -> string).
Variables (f_pow : float -> Z -> float) (f_exp : float -> float).
Variables (cpus : Z) (config : SearchConfig) (worker_id : Z).

Abbreviation Search := (Search R S).
Abbreviation start := (start parse_float sha256 config worker_id).
Abbreviation turn := (turn sha256 f_pow f_exp config worker_id).
Abbreviation continues := (continues cpus config worker_id).
Abbreviation work := (work sha256 f_pow f_exp cpus config worker_id).
Abbreviation budget := (_worker_candidate_budget cpus config worker_id).

(** ** Graphs of the run *)

Definition family (m : string) (g : BitGraph) : Prop :=
  (m = "cubic_first"%string -> forall u, vertex g u -> degree g u = 3) /\
  (m = "minimal_structure_mixed_degree"%string -> _minimal_structure_valid g = true).

(** A graph the worker may hold *)
Record good (g : BitGraph) : Prop := {
  good_wf : wf g;
  good_order : gn g = order config;
  good_minimal : minimal_candidate g;
  good_family : family (search_mode config) g
}.

(** A score of a graph, up to the novelty: it was computed from cycle counts of
    the lengths the target forbids. *)
Definition scored (g : BitGraph) (s : ScoreResult) : Prop :=
  exists results s0 p, score_from_cycle_counts 0 0 g (witness_cap config) results None None = Ok (s0, p) /\
    s = with_novelty s0 (novelty s).

Lemma scored_novelty g s x : scored g s -> scored g (with_novelty s x).
Proof. intros (rs & s0 & p & H & E). exists rs, s0, p. split; [done|]. rewrite E. done. Qed.

Lemma seed_good (r r' : R) t g :
  generate_seed (Some (order config)) (Some (search_mode config)) None r = (Ok g, t, r') -> good g.
Proof.
  intros E. pose proof (generate_seed_spec (Some (order config)) (Some (search_mode config)) None r) as H.
  rewrite E in H. cbn [default from_option] in H. destruct H as (n & Hc & Hg & Hn & Hm & Hmix & Hcub).
  apply check_config_Ok in Hc as ([= <-] & _). split; [done..|]. split.
  - intros Hm'. apply Hcub. unfold uses_mixed. rewrite Hm'. by intros [?|[? _]].
  - intros Hm'. apply Hmix. by left.
Qed.

Lemma propose_good g r h r' : good g -> propose config g r = Ok (h, r') -> good h.
Proof.
  intros [Hw Ho Hm Hf] H. unfold propose, mutate in H.
  apply bind_Ok in H as ([h1 w'] & H & [= -> <-]).
  assert (config_ok g (mutate_config config)) as Hcfg by (unfold config_ok; cbn; split_all; [by left|done..]).
  destruct (sim_mutate (fun _ => 0) (fun _ => g) 0 g Hw eq_refl (mutate_config config) (mutate_config config) Hcfg Hcfg)
    with (w1 := fresh_world r false) (w2 := fresh_world r false)
    as (mr & w1 & w2 & E & _ & _ & _ & _ & Hok); [done|apply fresh_world_ok|apply fresh_world_ok|done|].
  unfold mbind, M_bind in H. rewrite E in H. injection H as <- _.
  destruct Hok as (Hwh & Hn & _ & _ & Hmin & Hdeg & Hmix & _). split; [done|congruence|by apply Hmin|]. destruct Hf as [Hcub Hms].
  split; intros Hmode.
  - intros u Hu. assert (vertex g u) by (unfold vertex in *; congruence).
    rewrite Hdeg; [by apply Hcub|cbn; congruence|done].
  - destruct Hmix as [->|]; auto.
Qed.

Lemma score_attempt_scored g (w w' : S) s : score_attempt (witness_cap config) g w = (Ok s, w') -> scored g s.
Proof.
  unfold score_attempt. destruct (ask _ _ _ _ _) as [r w1]. intros [= H _].
  apply bind_Ok in H as (rs & _ & H). apply bind_Ok in H as ([s0 p] & H & [= <-]).
  exists rs, s0, p. split; [done|]. by destruct s0.
Qed.

Lemma score_graph_scored g (w w' : S) s : score_graph (witness_cap config) g w = (Ok s, w') -> scored g s.
Proof.
  unfold score_graph. destruct (score_attempt (witness_cap config) g w) as [[x|e] w1] eqn:E1.
  { intros [= -> ->]. by eapply score_attempt_scored. }
  destruct (negb (caught e)); [done|]. destruct (restart w1) as [[[]|[]] w2]; try done.
  destruct (score_attempt (witness_cap config) g w2) as [[x|e'] w3] eqn:E2; [|done].
  intros [= -> ->]. by eapply score_attempt_scored.
Qed.

(** ** The invariant *)

Record search_ok (st : Search) : Prop := {
  ok_graph : good (graph st);
  ok_best : good (best_graph st);
  ok_score : scored (graph st) (score st);
  ok_best_score : scored (best_graph st) (best_score st);
  ok_tabu : (length (tabu st) <= 128)%nat;
  ok_counts : 0 <= accepted st <= legal st /\ 0 <= improvements st <= legal st /\ legal st <= evaluated st;
  ok_recycle : evaluated st <= worker_recycle_candidates config;
  ok_budget : forall b, budget = Some b -> lifetime_evaluated st + evaluated st <= b
}.

(** States a worker can be in: after a start from scratch, after a turn of the
    loop, or after a start from a checkpoint of another reachable state *)
Inductive reaches : Search -> Prop :=
  | reach_fresh now r w st : start None now r w = Ok st -> reaches st
  | reach_turn st t c st' : reaches st -> continues t st = true -> turn t st = Ok (c, st') -> reaches st'
  | reach_resume st d now r w st' :
      reaches st -> checkpoint_payload worker_id st = Ok d -> start (Some d) now r w = Ok st' -> reaches st'.

(** What sending a message leaves alone *)
Definition same_search (st st' : Search) : Prop := exists ms, st' =
  mkSearch (graph st) (score st) (best_graph st) (best_score st) (stagnation st) (tabu st) (algorithm_evaluated st)
    (next_restart st) (evaluated st) (accepted st) (improvements st) (legal st) (lifetime_evaluated st) (last_report st)
    (rng st) (score_worker st) (sent st ++ ms).

Lemma same_search_sent st m : same_search st (with_sent st m).
Proof. by exists [m]. Qed.

Lemma send_checkpoint_same st st' : send_checkpoint worker_id st = Ok st' -> same_search st st'.
Proof. unfold send_checkpoint. intros (p & _ & [= <-])%bind_Ok. apply same_search_sent. Qed.

Lemma send_improvement_same g s st st' : send_improvement worker_id g s st = Ok st' -> same_search st st'.
Proof. unfold send_improvement. intros (t & _ & (p & _ & [= <-])%bind_Ok)%bind_Ok. apply same_search_sent. Qed.

Lemma same_search_ok st st' : same_search st st' -> search_ok st -> search_ok st'.
Proof. intros [ms ->] []. by split. Qed.

(** ** Checkpoints *)

Hypothesis Hvalid : validate config = Ok tt.

Lemma config_order : 4 <= order config <= 128.
Proof. unfold validate in Hvalid. rewrite !raise_seq_Ok in Hvalid. destruct Hvalid as (_ & H & _). lia. Qed.

Lemma config_recycle : 1 <= worker_recycle_candidates config.
Proof.
  unfold validate in Hvalid. rewrite !raise_seq_Ok in Hvalid.
  destruct Hvalid as (_ & _ & _ & _ & _ & _ & _ & _ & _ & _ & _ & _ & _ & H & _). unfold outside in H. lia.
Qed.

Lemma good_small g : good g -> gn g <= 128.
Proof. intros Hg. rewrite (good_order _ Hg). apply config_order. Qed.

Lemma scored_counts g s : good g -> scored g s -> counts_ok (witness_counts s).
Proof.
  intros Hg (rs & s0 & p & H & ->). exact (tally_counts _ _ _ _ _ _ _ (good_small g Hg) H).
Qed.

(** The state a worker resumes with *)
Definition resumed (st : Search) (now : float) (w : S) : Search :=
  mkSearch (graph st) (score st) (best_graph st) (best_score st) (stagnation st) (tabu st) (algorithm_evaluated st)
    (next_restart st) 0 0 0 0 (lifetime_evaluated st + evaluated st) now (rng st) w [].

Lemma decode_graph6_text g t : good g -> graph6_text g = Ok t -> decode_graph (JStr t) = Ok g.
Proof.
  intros Hg H. unfold graph6_text in H. apply bind_Ok in H as (l & Hl & [= <-]). unfold decode_graph. cbn.
  rewrite codes_text; [by eapply decode_encoded_text; [apply Hg|]|].
  eapply Forall_impl; [by eapply encoded_bytes; [apply Hg|]|]. unfold sixbit. lia.
Qed.

Lemma good_hash g : good g -> exists h, stable_hash sha256 g = Ok h.
Proof.
  intros Hg. unfold stable_hash. destruct (encode_returns g) as [s ->]; [pose proof (good_small g Hg); lia|]. by eexists.
Qed.

Lemma read_texts acc l : foldM add_text acc (JStr <$> l) = Ok (acc ++ l).
Proof.
  revert acc. induction l as [|x l IH]; intros acc; cbn; [by rewrite app_nil_r|]. rewrite IH. by rewrite <- app_assoc.
Qed.

Lemma last_128_short {A} (l : list A) : (length l <= 128)%nat -> last_128 l = l.
Proof. intros Hl. unfold last_128. by replace (length l - 128)%nat with 0%nat by lia. Qed.

Lemma resume_checkpoint st d d' now w :
  search_ok st -> checkpoint_payload worker_id st = Ok d -> reordered (JObj d) (JObj d') ->
  resume parse_float sha256 d' now w = Ok (resumed st now w).
Proof.
  intros [Hg Hbg Hs Hbs Ht _ _ _] Hd Hr. unfold checkpoint_payload in Hd.
  apply bind_Ok in Hd as (g & Eg & Hd). apply bind_Ok in Hd as (s & Es & Hd).
  apply bind_Ok in Hd as (bg & Ebg & Hd). apply bind_Ok in Hd as (bs & Ebs & Hd).
  assert (forall k v, dict_get d k = Some v -> exists v', dict_get d' k = Some v' /\ reordered v v') as Hget.
  { intros k v. apply reordered_get; [|done]. injection Hd as <-. apply (bool_decide_unpack _). vm_compute. done. }
  assert (forall k v, dict_get d k = Some v -> atomic v -> dict_get d' k = Some v) as Hatom.
  { intros k v Hv Ha. destruct (Hget k v Hv) as (v' & Hv' & ->%reordered_atomic); done. }
  injection Hd as <-. unfold resume, subscript, get_or.
  rewrite (Hatom "graph6"%string _ eq_refl I), (Hatom "rng_state"%string _ eq_refl I),
    (Hatom "best_graph6"%string _ eq_refl I), (Hatom "stagnation"%string _ eq_refl I), (Hatom "tabu"%string _ eq_refl (texts_atomic _)),
    (Hatom "algorithm_evaluated"%string _ eq_refl I), (Hatom "next_restart"%string _ eq_refl I),
    (Hatom "lifetime_evaluated"%string _ eq_refl I).
  destruct (Hget "score"%string _ eq_refl) as (sv & -> & Hrs). destruct (reordered_object _ _ Hrs) as [sd ->].
  destruct (Hget "best_score"%string _ eq_refl) as (bv & -> & Hrb). destruct (reordered_object _ _ Hrb) as [bd ->].
  cbn [mbind res_bind default from_option py_str id]. rewrite (decode_graph6_text _ _ Hg Eg).
  cbn [mbind res_bind]. rewrite setstate_getstate. cbn [mbind res_bind read_score].
  rewrite (score_read _ _ _ _ (scored_counts _ _ Hg Hs) Es Hrs). cbn [mbind res_bind]. rewrite Eg. cbn [mbind res_bind].
  rewrite (decode_graph6_text _ _ Hbg Ebg). cbn [mbind res_bind].
  rewrite (score_read _ _ _ _ (scored_counts _ _ Hbg Hbs) Ebs Hrb). cbn [mbind res_bind to_int iterate].
  destruct (good_hash _ Hg) as [h ->]. cbn [mbind res_bind]. rewrite read_texts. cbn [mbind res_bind app].
  by rewrite last_128_short.
Qed.

(** ** Every step keeps the invariant *)

Lemma budget_nonneg b : budget = Some b -> 0 <= b.
Proof.
  unfold _worker_candidate_budget. destruct (Z.leb_spec (max_candidates config) 0); [done|]. intros [= <-].
  assert (0 < recommended_workers cpus (workers config) 2) by (apply Z.lt_le_trans with 1; [done|apply Z.le_max_l]).
  assert (0 <= max_candidates config / recommended_workers cpus (workers config) 2) by (apply Z.div_pos; lia).
  destruct (worker_id <? _); lia.
Qed.

Lemma fresh_ok now r w st : fresh sha256 config now r w = Ok st -> search_ok st.
Proof.
  unfold fresh. destruct (generate_seed _ _ _ _) as [[g t] r1] eqn:Eg. intros (g1 & -> & H)%bind_Ok.
  apply seed_good in Eg as Hg. destruct (score_graph _ _ _) as [s w1] eqn:Es. apply bind_Ok in H as (s1 & -> & H).
  apply score_graph_scored in Es. apply bind_Ok in H as (h & _ & [= <-]).
  pose proof config_recycle. split; cbn; try done; try lia; [by apply scored_novelty|by apply scored_novelty|].
  intros b Hb%budget_nonneg. lia.
Qed.

Lemma resumed_ok st now w : search_ok st -> search_ok (resumed st now w).
Proof. intros []. pose proof config_recycle. split; cbn; try done; try lia. intros b Hb. specialize (ok_budget0 b Hb). lia. Qed.

Lemma start_same c now r w st : start c now r w = Ok st ->
  exists st0, same_search st0 st /\
    match c with
    | None | Some [] => fresh sha256 config now r w = Ok st0
    | Some d => resume parse_float sha256 d now w = Ok st0
    end.
Proof.
  unfold Search.start. intros (st0 & H0 & (st1 & H1%send_checkpoint_same & H2%send_improvement_same)%bind_Ok)%bind_Ok.
  exists st0. split; [|by destruct c as [[]|]]. destruct H1 as [m1 ->], H2 as [m2 ->]. cbn.
  exists (m1 ++ m2). by rewrite app_assoc.
Qed.

Lemma restart_ok st st' : search_ok st -> restart_search sha256 config st = Ok st' ->
  search_ok st' /\ evaluated st' = evaluated st /\ lifetime_evaluated st' = lifetime_evaluated st /\
  best_graph st' = best_graph st /\ best_score st' = best_score st.
Proof.
  intros Hok. unfold restart_search. destruct (generate_seed _ _ _ _) as [[g t] r1] eqn:Eg. intros (g1 & -> & H)%bind_Ok.
  apply seed_good in Eg as Hg. destruct (score_graph _ _ _) as [s w1] eqn:Es. apply bind_Ok in H as (s1 & -> & H).
  apply score_graph_scored in Es. apply bind_Ok in H as (nov & _ & (h & _ & [= <-])%bind_Ok). cbn.
  split; [|done]. destruct Hok. split; cbn; try done; [by apply scored_novelty|lia].
Qed.

(** Before a candidate is judged it has been counted as legal. *)
Definition pending (st : Search) : Prop := search_ok st /\ accepted st < legal st /\ improvements st < legal st.

Lemma counted_ok st l r : search_ok st -> evaluated st < worker_recycle_candidates config ->
  (forall b, budget = Some b -> lifetime_evaluated st + evaluated st < b) ->
  search_ok (counted st l r) /\ (l = true -> pending (counted st l r)).
Proof.
  intros [] Hr Hb. assert (search_ok (counted st l r)) as Hok.
  { destruct ok_counts0 as ([? ?] & [? ?] & ?). split; cbn; try done; [destruct l; lia|lia|]. intros b Hb'. specialize (Hb b Hb'). lia. }
  split; [done|]. intros ->. split; [done|]. cbn. lia.
Qed.

Lemma judge_tabu st c s a stag tb r : search_ok st ->
  judge sha256 f_pow f_exp config st c s = Ok (a, stag, tb, r) -> (length tb <= 128)%nat.
Proof.
  intros Hok. unfold judge, anneal, local_search. case_bool_decide.
  - intros (x & _ & (y & _ & H')%bind_Ok)%bind_Ok. destruct (f_le _ _); [by injection H' as _ _ <- _; apply Hok|].
    destruct (random _). injection H' as _ _ <- _. apply Hok.
  - intros (key & _ & (i & _ & [= _ _ <- _])%bind_Ok)%bind_Ok. pose proof (ok_tabu _ Hok). case_match; [|done].
    unfold remember. case_match eqn:E; rewrite ?length_drop, ?length_app in *; cbn [length] in *; [lia|]. apply Z.ltb_ge in E. lia.
Qed.

Lemma settle_ok st c s w judged st' :
  pending st -> good c -> scored c s -> (length judged.1.2 <= 128)%nat ->
  settle worker_id st c s w judged = Ok st' ->
  search_ok st' /\ evaluated st' = evaluated st /\ lifetime_evaluated st' = lifetime_evaluated st.
Proof.
  intros ([] & Ha & Hi) Hc Hs Ht H. destruct judged as [[[a stag] tb] r]. cbn in Ht. unfold settle in H.
  apply bind_Ok in H as (k & _ & (b & _ & H)%bind_Ok).
  match type of H with (if _ then send_improvement _ _ _ ?x else _) = _ => assert (search_ok x) as Hok; [|set (y := x) in *] end.
  { destruct a, (tuple_lt k b); split; cbn; try done; lia. }
  destruct (tuple_lt k b); [|by injection H as <-].
  apply send_improvement_same in H. split; [by eapply same_search_ok|]. by destruct H as [ms ->].
Qed.

Lemma report_ok t st st' : search_ok st -> report worker_id t st = Ok st' ->
  search_ok st' /\ evaluated st' = evaluated st /\ lifetime_evaluated st' = lifetime_evaluated st /\
  best_graph st' = best_graph st /\ best_score st' = best_score st.
Proof.
  intros Hok. unfold report. destruct (f_le _ _); [|by intros [= <-]].
  intros (st1 & [ms ->]%send_checkpoint_same & [= <-])%bind_Ok. cbn. split; [|done]. destruct Hok. by split.
Qed.

Lemma continues_room t (st : Search) : continues t st = true ->
  stop_set t = false /\ evaluated st < worker_recycle_candidates config /\
  forall b, budget = Some b -> lifetime_evaluated st + evaluated st < b.
Proof.
  unfold Search.continues, budget_left. intros [[Hs%negb_true_iff Hr%Z.ltb_lt]%andb_true_iff Hb]%andb_true_iff.
  split_all; [done..|]. intros b E. rewrite E in Hb. lia.
Qed.

(** A turn: the invariant, the counters, and how the best graph changes *)
Lemma turn_spec t st c st' : search_ok st -> continues t st = true -> turn t st = Ok (c, st') ->
  search_ok st' /\ lifetime_evaluated st' = lifetime_evaluated st /\
  evaluated st' = (if pause_set t then evaluated st else evaluated st + 1) /\
  match c with
  | None => best_graph st' = best_graph st /\ best_score st' = best_score st
  | Some (g, s) => good g /\ scored g s /\
      exists kg kb, ordering_key s = Ok kg /\ ordering_key (best_score st) = Ok kb /\
        (best_graph st', best_score st') = if tuple_lt kg kb then (g, s) else (best_graph st, best_score st)
  end.
Proof.
  intros Hok (_ & Hroom & Hbud)%continues_room H. unfold Search.turn in H.
  destruct (pause_set t); [by injection H as <- <-|].
  apply bind_Ok in H as (st1 & H1 & H).
  assert (search_ok st1 /\ evaluated st1 = evaluated st /\ lifetime_evaluated st1 = lifetime_evaluated st /\
    best_graph st1 = best_graph st /\ best_score st1 = best_score st) as (Hok1 & He1 & Hl1 & Hbg1 & Hbs1).
  { destruct (restart_due config st); [by apply restart_ok|]. by injection H1 as <-. }
  rewrite <- He1, <- Hl1 in *. rewrite <- Hbg1, <- Hbs1 in *. clear H1.
  apply bind_Ok in H as ([cand r] & Hp & H). apply propose_good in Hp as Hc; [|by apply Hok1]. case_bool_decide.
  { injection H as <- <-. cbn. destruct (counted_ok st1 false r Hok1 Hroom Hbud) as [? _]. done. }
  destruct (counted_ok st1 true r Hok1 Hroom Hbud) as [_ Hpend]. specialize (Hpend eq_refl).
  destruct (score_graph _ _ _) as [s w] eqn:Es. apply bind_Ok in H as (s1 & -> & H). apply score_graph_scored in Es.
  apply bind_Ok in H as (nov & _ & H). apply bind_Ok in H as ([[[a stag] tb] r'] & Hj & H).
  apply judge_tabu in Hj; [|by apply Hpend]. apply bind_Ok in H as (st2 & H2 & H).
  apply bind_Ok in H as (st3 & H3 & [= <- <-]).
  destruct (settle_ok _ _ _ _ (a, stag, tb, r') _ Hpend Hc (scored_novelty _ _ nov Es) Hj H2) as (Hok2 & He2 & Hl2).
  destruct (report_ok _ _ _ Hok2 H3) as (Hok3 & -> & -> & -> & ->). rewrite He2, Hl2. cbn.
  split_all; [done..|by apply scored_novelty|].
  unfold settle in H2. apply bind_Ok in H2 as (kg & Hkg & H2). apply bind_Ok in H2 as (kb & Hkb & H2). cbn in Hkb.
  exists kg, kb. split_all; [done..|]. destruct (tuple_lt kg kb); [|by injection H2 as <-].
  apply send_improvement_same in H2 as [ms ->]. done.
Qed.

Lemma reaches_ok st : reaches st -> search_ok st.
Proof.
  induction 1 as [now r w st H|st t c st' _ IH Hc Ht|st d now r w st' _ IH Hd H].
  - apply start_same in H as (st0 & Hs & H). apply (same_search_ok _ _ Hs). by eapply fresh_ok.
  - by eapply turn_spec.
  - apply start_same in H as (st0 & Hs & H). apply (same_search_ok _ _ Hs).
    destruct d as [|kv d]; [by eapply fresh_ok|].
    rewrite (resume_checkpoint st (kv :: d) (kv :: d) now w IH Hd (reordered_same _)) in H. injection H as <-. by apply resumed_ok.
Qed.

(** ** Runs of the loop *)

(** [x] has no larger key than [y]. *)
Definition not_worse (x y : ScoreResult) : Prop := tuple_lt (key_of y) (key_of x) = false.

Lemma not_worse_refl x : not_worse x x.
Proof. apply tuple_lt_irrefl. Qed.

Definition has_score_key (s : ScoreResult) : Prop := length (key_of s) = 5%nat.

Lemma has_key_Ok s k : ordering_key s = Ok k -> has_score_key s.
Proof. intros H. unfold has_score_key. rewrite (key_of_Ok _ _ H). by eapply key_length. Qed.

Lemma not_worse_trans x y z : has_score_key x -> has_score_key y -> has_score_key z ->
  not_worse x y -> not_worse y z -> not_worse x z.
Proof. unfold has_score_key, not_worse. intros Hx Hy Hz H1 H2. eapply not_lt_trans; [exact H1|exact H2|congruence..]. Qed.

Lemma tuple_lt_asym x y : tuple_lt x y = true -> tuple_lt y x = false.
Proof.
  intros H. apply not_true_iff_false. intros H'. pose proof (tuple_lt_trans _ _ _ H H') as Hi. by rewrite tuple_lt_irrefl in Hi.
Qed.

(** The better of two *)
Lemma best_of_two s b kg kb : ordering_key s = Ok kg -> ordering_key b = Ok kb ->
  let m := if tuple_lt kg kb then s else b in not_worse m s /\ not_worse m b /\ has_score_key m.
Proof.
  intros Hs Hb. unfold not_worse. rewrite (key_of_Ok _ _ Hs), (key_of_Ok _ _ Hb).
  destruct (tuple_lt kg kb) eqn:E; cbn; rewrite ?(key_of_Ok _ _ Hs), ?(key_of_Ok _ _ Hb), ?tuple_lt_irrefl.
  - split_all; [done|by apply tuple_lt_asym|by eapply has_key_Ok].
  - split_all; [done..|by eapply has_key_Ok].
Qed.

(** The best graph and its score at the end of a run that examined [es] *)
Definition best_of (es : list (BitGraph * ScoreResult)) (st st' : Search) : Prop :=
  (forall g s, (g, s) ∈ es -> good g /\ scored g s /\ has_score_key s /\ not_worse (best_score st') s) /\
  not_worse (best_score st') (best_score st) /\
  ((best_graph st', best_score st') = (best_graph st, best_score st) \/ (best_graph st', best_score st') ∈ es) /\
  (es <> [] -> has_score_key (best_score st')).

Lemma best_of_nil (st st' : Search) : best_graph st' = best_graph st -> best_score st' = best_score st -> best_of [] st st'.
Proof. intros Hg Hs. unfold best_of. rewrite Hg, Hs. split_all; [set_solver|apply not_worse_refl|by left|done]. Qed.

Lemma best_of_cons g s es st st1 st' : good g -> scored g s ->
  (exists kg kb, ordering_key s = Ok kg /\ ordering_key (best_score st) = Ok kb /\
     (best_graph st1, best_score st1) = if tuple_lt kg kb then (g, s) else (best_graph st, best_score st)) ->
  best_of es st1 st' -> best_of ((g, s) :: es) st st'.
Proof.
  intros Hg Hs (kg & kb & Hkg & Hkb & Hb) (H1 & H2 & H3 & H4).
  destruct (best_of_two s (best_score st) kg kb Hkg Hkb) as (Hms & Hmb & Hmk).
  assert (best_score st1 = if tuple_lt kg kb then s else best_score st) as Hb1 by (destruct (tuple_lt kg kb); by injection Hb).
  rewrite <- Hb1 in Hms, Hmb, Hmk.
  assert (has_score_key (best_score st')) as Hk'.
  { destruct H3 as [[= _ ->]|Hin]; [done|]. by apply H1 in Hin as (_ & _ & ? & _). }
  apply has_key_Ok in Hkg as Hks. apply has_key_Ok in Hkb as Hkb'. unfold best_of. split_all.
  - intros g' s' [[= -> ->]|Hin]%elem_of_cons; [|by apply H1]. split_all; [done..|].
    by apply (not_worse_trans _ (best_score st1)).
  - by apply (not_worse_trans _ (best_score st1)).
  - destruct H3 as [Heq|Hin]; [|right; set_solver]. rewrite Heq, Hb. destruct (tuple_lt kg kb); [right; set_solver|by left].
  - done.
Qed.

Lemma finish_same b st st' : finish cpus config worker_id b st = Ok st' -> same_search st st'.
Proof.
  unfold finish. intros (st1 & [ms ->]%send_checkpoint_same & [= <-])%bind_Ok. eexists (ms ++ [_]). cbn. by rewrite app_assoc.
Qed.

Lemma work_best turns st ended es st' : search_ok st -> work turns st = Ok (ended, es, st') -> search_ok st' /\ best_of es st st'.
Proof.
  revert st ended es. induction turns as [|t turns IH]; intros st ended es Hok H; cbn [Search.work] in H.
  { injection H as <- <- <-. split; [done|by apply best_of_nil]. }
  destruct (continues t st) eqn:Hc.
  - apply bind_Ok in H as ([c st1] & Ht & H). apply bind_Ok in H as ([[en es1] st2] & Hw & [= <- <- <-]). cbn in *.
    destruct (turn_spec _ _ _ _ Hok Hc Ht) as (Hok1 & _ & _ & Hb). destruct (IH _ _ _ Hok1 Hw) as [Hok2 Hbest].
    split; [done|]. destruct c as [[g s]|]; cbn; [by destruct Hb as (? & ? & ?); eapply best_of_cons|].
    destruct Hb as [Hbg Hbs]. unfold best_of in *. by rewrite <- Hbg, <- Hbs.
  - apply bind_Ok in H as (st1 & [ms ->]%finish_same & [= <- <- <-]). split; [by eapply same_search_ok; [eexists|]|by apply best_of_nil].
Qed.

(** Why a worker left its loop *)
Definition exit_explained (st : Search) (reason : string) : Prop :=
  reason = "stopped"%string \/
  (reason = "budget"%string /\ budget = Some (lifetime_evaluated st + evaluated st)) \/
  (reason = "recycle"%string /\ evaluated st = worker_recycle_candidates config).

Definition ended_well (st : Search) : Prop := exists ms reason,
  sent st = ms ++ [Exit worker_id reason (evaluated st) (accepted st) (legal st) (improvements st)] /\ exit_explained st reason.

Lemma finish_explained t st st' : search_ok st -> continues t st = false ->
  finish cpus config worker_id (stop_set t || stop_later t) st = Ok st' -> ended_well st'.
Proof.
  intros Hok Hc H. unfold finish in H. apply bind_Ok in H as (st1 & [ms ->]%send_checkpoint_same & [= <-]).
  do 2 eexists. split; [done|]. unfold exit_explained. cbn [evaluated lifetime_evaluated with_sent].
  destruct (stop_set t || stop_later t) eqn:Hs; [by left|]. right. apply orb_false_iff in Hs as [Hs _].
  unfold Search.continues in Hc. rewrite Hs in Hc. cbn [negb andb] in Hc.
  pose proof (ok_recycle _ Hok) as Hr. pose proof (ok_budget _ Hok) as Hb. unfold budget_left in *. cbn in *.
  destruct budget as [b|]; cbn in *.
  - specialize (Hb b eq_refl). destruct (Z.ltb_spec (lifetime_evaluated st + evaluated st) b) as [Hlt|Hge]; cbn.
    + right. split; [done|]. rewrite andb_true_r in Hc. apply Z.ltb_ge in Hc. lia.
    + left. split; [done|]. f_equal. lia.
  - right. split; [done|]. rewrite andb_true_r in Hc. apply Z.ltb_ge in Hc. lia.
Qed.

Lemma work_counts turns st ended es st' : search_ok st -> Forall (fun t => pause_set t = false) turns ->
  work turns st = Ok (ended, es, st') ->
  if ended then ended_well st' else evaluated st' = evaluated st + Z.of_nat (length turns).
Proof.
  revert st ended es. induction turns as [|t turns IH]; intros st ended es Hok Hp H; cbn [Search.work] in H.
  { injection H as <- _ <-. cbn. lia. }
  apply Forall_cons in Hp as [Hpt Hp]. destruct (continues t st) eqn:Hc.
  - apply bind_Ok in H as ([c st1] & Ht & H). apply bind_Ok in H as ([[en es1] st2] & Hw & [= <- <- <-]). cbn in *.
    destruct (turn_spec _ _ _ _ Hok Hc Ht) as (Hok1 & _ & He & _). rewrite Hpt in He.
    specialize (IH _ _ _ Hok1 Hp Hw). destruct en; [done|]. rewrite IH, He. cbn [length]. lia.
  - apply bind_Ok in H as (st1 & H & [= <- _ <-]). by eapply finish_explained.
Qed.

(** ** Properties *)




End Proofs.

(** ** The budget is shared out completely *)

Lemma shares_sum base rem k : 0 <= k -> 0 <= rem ->
  foldr Z.add 0 ((fun i => base + (if i <? rem then 1 else 0)) <$> range 0 k) = k * base + Z.min k rem.
Proof.
  intros Hk Hr. pattern k. apply natlike_ind; [by rewrite Z.min_l by lia| |done]. clear k Hk. intros k Hk IH.
  unfold Z.succ. rewrite range_snoc, fmap_app, foldr_app by lia. cbn [fmap list_fmap foldr].
  assert (forall l a, foldr Z.add a l = foldr Z.add 0 l + a) as Hacc.
  { clear. intros l a. induction l as [|x l IH]; cbn; lia. }
  rewrite Hacc, IH. destruct (Z.ltb_spec k rem); lia.
Qed.

(** The candidate budgets of the workers add up to the
    configured number of candidates. *)
Theorem budget_shared cpus config :
  0 < max_candidates config ->
  let count := recommended_workers cpus (workers config) 2 in
  1 <= count /\
  foldr Z.add 0 ((fun i => default 0 (_worker_candidate_budget cpus config i)) <$> range 0 count) = max_candidates config.
Proof.
  intros Hm count. assert (1 <= count) as Hc by apply Z.le_max_l. split; [done|].
  unfold _worker_candidate_budget. destruct (Z.leb_spec (max_candidates config) 0); [lia|]. fold count. cbn [default from_option id].
  clearbody count.
  pose proof (Z.mod_pos_bound (max_candidates config) count ltac:(lia)) as Hb.
  rewrite shares_sum, Z.min_r by lia. symmetry. apply Z.div_mod. lia.
Qed.

(** ** Witnesses *)

(** The state of the generator of [Rng] as text: the binary digits of its code *)
Fixpoint bits_text (p : positive) : string :=
  match p with xH => EmptyString | xO q => String (Ascii.ascii_of_N 48) (bits_text q) | xI q => String (Ascii.ascii_of_N 49) (bits_text q) end.
Fixpoint text_bits (s : string) : positive :=
  match s with
  | EmptyString => xH
  | String a s' => if decide (a = Ascii.ascii_of_N 48) then xO (text_bits s') else xI (text_bits s')
  end.

Lemma text_bits_text p : text_bits (bits_text p) = p.
Proof. induction p as [p IH|p IH|]; cbn; by rewrite ?IH. Qed.

#[export] Instance Lcg_state : RngState Lcg := {
  random r := (f_ratio ((lcg_state r / 65536) mod 1000) 1000, lcg_next r);
  getstate r := bits_text (encode (lcg_state r));
  setstate s := match decode (text_bits s) with Some z => Ok (mkLcg z) | None => Raise (ValueError "state") end
}.
#[export] Instance Lcg_state_laws : RngStateLaws Lcg.
Proof. split. intros [z]. cbn. by rewrite text_bits_text, decode_encode. Qed.

(** A service that counts with the bounded enumeration of [model.py], and cannot
    fail *)
#[export] Instance reference_service : ScoreService unit := {
  ask _ g lengths limit budget :=
    (foldM (fun rs len => r ← find_cycles_of_length_bounded g len limit (Some budget);
              Ok (rs ++ [mkCount len (Z.of_nat (length r.1)) r.2 0 0])) [] lengths, tt);
  restart _ := (Ok tt, tt)
}.

Definition returned {A} (m : res A) : bool := match m with Ok _ => true | Raise _ => false end.

Lemma runs_returned {A B} (m : res A) (k : A -> res B) : returned (a ← m; k a) = true -> exists a b, m = Ok a /\ k a = Ok b.
Proof. destruct m as [a|]; [|done]. cbn. destruct (k a) as [b|] eqn:E; [|done]. intros _. by exists a, b. Qed.

Module SearchWitness.
Definition config : SearchConfig :=
  mkSearchConfig "erdos_gyarfas" 6 "cubic_first" "iterated_local_search" 1 7 (f_lit 60) 4 64 256 50 (f_lit 1) (f_lit 5)
    3 0 0 1048576 1048576 "" (f_lit 30).
Definition no_float (s : string) : res float := Raise (ValueError s).
Definition hash (l : list Z) : string := text_of l.
Definition no_pow (x : float) (k : Z) : float := x.
Definition no_exp (x : float) : float := x.
Definition running : Turn := mkTurn false false false (f_lit 0) 0.
Definition turns : list Turn := replicate 5 running.
Definition begin : res (Search Lcg unit) := start no_float hash config 0 None (f_lit 0) (mkLcg 5) tt.
Definition go (st : Search Lcg unit) := work hash no_pow no_exp 8 config 0 turns st.
Definition journey : res (Search Lcg unit * (bool * list (BitGraph * ScoreResult) * Search Lcg unit)) :=
  st ← begin; r ← go st; Ok (st, r).
Abbreviation reaches := (reaches no_float hash no_pow no_exp 8 config 0).

Lemma config_valid : validate config = Ok tt.
Proof. vm_compute. reflexivity. Qed.

(** The run examines three graphs, takes them all and improves twice. *)
Example journey_facts : (fun sr => (sr.2.1.1, length sr.2.1.2, evaluated sr.2.2, accepted sr.2.2, improvements sr.2.2)) <$> journey =
  Ok (true, 3%nat, 3, 3, 2).
Proof. vm_compute. reflexivity. Qed.

Lemma journey_runs : exists st r, begin = Ok st /\ go st = Ok r /\ reaches st.
Proof.
  destruct (runs_returned begin go) as (st & r & Hb & Hg); [vm_compute; reflexivity|].
  exists st, r. split; [exact Hb|]. split; [exact Hg|]. exact (reach_fresh _ _ _ _ _ _ _ _ _ _ _ Hb).
Qed.





Lemma budget_shared_witness :
  foldr Z.add 0 ((fun i => default 0 (_worker_candidate_budget 8 config i)) <$> range 0 (recommended_workers 8 1 2)) = 4.
Proof. apply (budget_shared 8 config). reflexivity. Defined.
End SearchWitness.
