(* ===== verification/Certification.v ===== *)
(** * Certification

    [src/src/sglab/certification.py]: a candidate is judged by the reference
    verifier in a process of its own and by an external cycle checker, whose
    answer is checked against the graph before it counts; [certify] combines the
    two into the status of an artifact. Processes, files and clocks are inputs:
    what a process did, what the checker printed. *)

From S2P Require Import Prelude Floats Json Convert Bits Model Cycles Graph6 Verification.

#[global] Open Scope Z_scope.

(** ** What the environment does *)

(** [resources.ProcessResult] *)
Record ProcessResult := mkProcess { run_status : string; returncode : option Z; stdout : list Z; stderr : list Z }.

(** The child process of [verify_reference_bounded]: killed at the deadline,
    dead without a report, out of memory, or done after some seconds *)
Inductive Child := Overran | Silent (exitcode : option Z) | OutOfMemory | Done (elapsed : float).

(** The target plugins as the code looks them up *)
Definition ERDOS : string := "erdos_gyarfas".
Definition CONTROL : string := "m6_hidden_witness_control_v1".
Definition TARGETS : list string := [ERDOS; CONTROL].
Definition plugin_lengths (target : string) : Z -> list Z :=
  if bool_decide (target = CONTROL) then HiddenWitness.forbidden_lengths else forbidden_lengths.
Definition exact_verify (target : string) (g : BitGraph) : VerifyResult :=
  if bool_decide (target = CONTROL) then HiddenWitness.exact_verify 0 g else verify_reference 0 g.

Definition status_text (s : Status) : string :=
  match s with VERIFIED => "VERIFIED" | REJECTED => "REJECTED" | UNKNOWN => "UNKNOWN" | INVALID => "INVALID" end.

(** ** The checker's answer *)

(** [isinstance(value, int)] without the booleans *)
Definition plain_int (v : json) : option Z := match v with JInt z => Some z | _ => None end.

(** [set(lengths or forbidden_lengths(graph.n))] *)
Definition requested_lengths (g : BitGraph) (lengths : option (list Z)) : list Z :=
  match lengths with Some (x :: l) => x :: l | _ => forbidden_lengths (gn g) end.

(** [any(not graph.has_edge(...) for index in range(length))] *)
Fixpoint misses_edge (g : BitGraph) (witness : list Z) (len : Z) (indices : list Z) : res bool :=
  match indices with
  | [] => Ok false
  | i :: indices' =>
      u ← py_index witness i; v ← py_index witness ((i + 1) mod len);
      h ← has_edge g u v;
      if (h : bool) then misses_edge g witness len indices' else Ok true
  end.

Definition witness_error (g : BitGraph) (d : list (string * json)) (is_complete : bool) (requested : list Z) : res (option string) :=
  match plain_int (get d "length") with
  | None => Ok (Some "cycle checker returned an invalid witness length"%string)
  | Some len =>
      if negb (bool_decide (len ∈ requested)) then Ok (Some "cycle checker returned an invalid witness length"%string)
      else
        let bad := Ok (Some "cycle checker returned invalid witness vertices"%string) in
        match get d "witness" with
        | JList items =>
            match mapM plain_int items with
            | None => bad
            | Some witness =>
                if negb (Z.of_nat (length witness) =? len) ||
                   existsb (fun v => negb ((0 <=? v) && (v <? gn g))) witness ||
                   negb (Z.of_nat (length (remove_dups witness)) =? len)
                then bad
                else
                  m ← misses_edge g witness len (range 0 len);
                  if m : bool then Ok (Some "cycle checker witness is not a cycle in the input graph"%string)
                  else if negb is_complete then Ok (Some "a found witness must be complete"%string)
                  else Ok None
            end
        | _ => bad
        end
  end.

(** [set(reported) != requested_lengths] *)
Definition same_set (l k : list Z) : bool := bool_decide (Forall (fun x => x ∈ k) l) && bool_decide (Forall (fun x => x ∈ l) k).

Definition absence_error (d : list (string * json)) (is_complete : bool) (requested : list Z) : option string :=
  let bad := Some "cycle checker absence result does not cover all requested lengths"%string in
  if negb is_complete then bad
  else
    match get d "lengths" with
    | JList items =>
        match mapM plain_int items with
        | Some reported => if same_set reported requested then None else bad
        | None => bad
        end
    | _ => bad
    end.

Definition _cyclecheck_payload_error (payload : json) (g : BitGraph) (lengths : option (list Z)) : res (option string) :=
  match payload with
  | JObj d =>
      let st := get d "status" in
      known ← in_set st ["FOUND"; "ABSENT"; "TIMEOUT"; "ERROR"]%string;
      if negb known then Ok (Some "cycle checker returned an unknown status"%string)
      else
        match get d "complete" with
        | JBool is_complete =>
            let requested := requested_lengths g lengths in
            if is_text st "FOUND" then witness_error g d is_complete requested
            else if is_text st "ABSENT" then Ok (absence_error d is_complete requested)
            else if is_complete then Ok (Some "timeout and error results cannot be complete"%string)
            else Ok None
        | _ => Ok (Some "cycle checker omitted its completeness flag"%string)
        end
  | _ => Ok (Some "cycle checker JSON must be an object"%string)
  end.

(** ** [verify_cpp] *)

(** A dict of a report *)
Definition Report : Type := list (string * json).
Definition reported (r : Report) : json := get r "status".

Definition lower_char (a : Ascii.ascii) : Ascii.ascii :=
  let c := code a in
  if ((65 <=? c) && (c <=? 90)) || ((192 <=? c) && (c <=? 222) && negb (c =? 215))
  then Ascii.ascii_of_N (Z.to_N (c + 32)) else a.
Fixpoint lower (s : string) : string :=
  match s with EmptyString => EmptyString | String a s' => String (lower_char a) (lower s') end.

(** [part in text] *)
Fixpoint contains (part s : string) : bool :=
  startswith s part || match s with EmptyString => false | String _ s' => contains part s' end.

Definition set_status (r : Report) (st : string) : Report := dict_set (dict_set r "status" (JStr st)) "complete" (JBool false).

Definition failure_report (st : string) (before : Report) (message : string) (after : Report) : Report :=
  [("status", JStr st); ("complete", JBool false)]%string ++ before ++ [("message", JStr message)]%string ++ after.

Definition check_limits (timeout_seconds : float) (memory_limit_bytes : Z) : res unit :=
  raise_if (negb (is_finite timeout_seconds) || f_lt timeout_seconds (f_lit 0)) (ValueError "timeout_seconds must be finite and nonnegative") ;;;
  raise_if (memory_limit_bytes <? 0) (ValueError "memory_limit_bytes cannot be negative").

Section Certify.
(** The run of a command with its time and memory limits; [json.loads] of what it
    printed, [None] when it is not UTF-8 or not JSON; lenient decoding of bytes;
    the seconds of the run; the checker's path, whether it is a file, and the
    temporary file *)
Variables (run_bounded : list string -> float -> option Z -> ProcessResult).
Variables (json_loads : list Z -> option json) (decode_replace : list Z -> string).
Variables (elapsed : float) (executable : string) (is_file : bool) (graph_path : string).

Definition length_argument (l : Z) : list string := ["--length"; pretty l]%string.

Definition cpp_command (checked : list Z) (timeout_seconds : float) : list string :=
  [executable; "--graph6"; graph_path]%string ++ concat (length_argument <$> checked) ++
  (if f_lt (f_lit 0) timeout_seconds then ["--timeout-seconds"; float_repr timeout_seconds]%string else []).

Definition cpp_timeout (timeout_seconds : float) : float :=
  if f_lt (f_lit 0) timeout_seconds
  then let t := f_add timeout_seconds (f_lit 2) in if f_lt t (f_lit 5) then f_lit 5 else t
  else f_lit (7 * 86400).

(** The report of a checker that answered something acceptable *)
Definition adjust_payload (result : ProcessResult) (memory_limit_bytes : Z) (d : Report) : res Report :=
  let d := dict_set (dict_set d "elapsed_seconds" (JFloat elapsed)) "implementation" (JStr "cpp17-bitset-dfs") in
  text ← (if negb (memory_limit_bytes =? 0) && is_text (reported d) "ERROR"
          then py_str (default (JStr EmptyString) (dict_get d "message")) else Ok EmptyString);
  let d := if negb (memory_limit_bytes =? 0) && is_text (reported d) "ERROR" && contains "alloc" (lower text)
           then set_status d "UNKNOWN_MEMORY_LIMIT" else d in
  if is_text (reported d) "TIMEOUT" then Ok (set_status d "UNKNOWN_TIMEOUT")
  else if negb (bool_decide (run_status result = "OK"%string)) && negb (is_text (reported d) "ERROR")
  then Ok (set_status d "TOOL_FAILURE")
  else Ok d.

Definition verify_cpp (g : BitGraph) (timeout_seconds : float) (memory_limit_bytes : Z) (lengths : option (list Z)) : res Report :=
  check_limits timeout_seconds memory_limit_bytes ;;;
  if negb is_file then
    Ok (failure_report "TOOL_FAILURE" [] ("missing cycle checker: " ++ executable)%string [])
  else
    _ ← to_graph6 g;
    let checked := match lengths with Some (x :: l) => x :: l | _ => forbidden_lengths (gn g) end in
    let result := run_bounded (cpp_command checked timeout_seconds) (cpp_timeout timeout_seconds)
                    (if memory_limit_bytes =? 0 then None else Some memory_limit_bytes) in
    let took := [("elapsed_seconds", JFloat elapsed)]%string in
    let said := [("stderr", JStr (decode_replace (stderr result)))]%string in
    if bool_decide (run_status result = "UNKNOWN_TIMEOUT"%string) then
      Ok (failure_report "UNKNOWN_TIMEOUT" (took ++ [("implementation", JStr "cpp17-bitset-dfs")]%string)
            "cycle checker exceeded its wall-time budget" [])
    else
      match json_loads (stdout result) with
      | None =>
          if negb (memory_limit_bytes =? 0) && negb (bool_decide (returncode result = Some 0 \/ returncode result = None))
          then Ok (failure_report "UNKNOWN_MEMORY_LIMIT" took "cycle checker failed under its memory limit" [])
          else Ok (failure_report "TOOL_FAILURE" took "cycle checker returned invalid JSON" said)
      | Some payload =>
          e ← _cyclecheck_payload_error payload g (Some checked);
          match e, payload with
          | Some message, _ => Ok (failure_report "TOOL_FAILURE" took message said)
          | None, JObj d => adjust_payload result memory_limit_bytes d
          | None, _ => Raise AssertionError
          end
      end.

(** ** [verify_reference_bounded] *)

Definition witness_json (w : Witness) : json := JObj [("kind", JStr (kind w)); ("vertices", JList (JInt <$> vertices w))]%string.

(** The report the child puts into the queue *)
Definition _reference_worker (target : string) (g : BitGraph) (seconds : float) : Report :=
  let r := exact_verify target g in
  [("status", JStr (status_text (status r))); ("complete", JBool (complete r)); ("message", JStr (message r));
   ("elapsed_seconds", JFloat seconds); ("implementation", JStr (implementation r));
   ("witnesses", JList (witness_json <$> witnesses r))]%string.

Definition reference_failure (st message : string) (seconds : json) : Report :=
  [("status", JStr st); ("complete", JBool false); ("message", JStr message);
   ("implementation", JStr "python-reference-dfs"); ("witnesses", JList []); ("elapsed_seconds", seconds)]%string.

Definition exit_text (c : option Z) : string := match c with Some z => pretty z | None => "None" end.

Definition verify_reference_bounded (child : Child) (g : BitGraph) (timeout_seconds : float) (memory_limit_bytes : Z) (target : string)
  : res Report :=
  check_limits timeout_seconds memory_limit_bytes ;;;
  raise_if (negb (bool_decide (target ∈ TARGETS))) (ValueError ("unsupported target: " ++ target)%string) ;;;
  Ok (match child with
      | Overran => reference_failure "UNKNOWN_TIMEOUT" "Python reference verifier exceeded its wall-time budget" (JFloat timeout_seconds)
      | OutOfMemory => reference_failure "UNKNOWN_MEMORY_LIMIT" "Python verifier exceeded its memory limit" (JInt 0)
      | Silent c =>
          reference_failure
            (if negb (memory_limit_bytes =? 0) && negb (bool_decide (c = Some 0 \/ c = None)) then "UNKNOWN_MEMORY_LIMIT" else "TOOL_FAILURE")
            ("Python verifier worker exited with " ++ exit_text c)%string (JInt 0)
      | Done seconds => _reference_worker target g seconds
      end).

(** ** [certify] *)

(** The status of the artifact *)
Definition combine (reference independent : json) : string :=
  if is_text reference "INVALID" then "INVALID_CANDIDATE"
  else if is_text independent "UNKNOWN_TIMEOUT" || is_text reference "UNKNOWN_TIMEOUT" then "UNKNOWN_TIMEOUT"
  else if is_text independent "UNKNOWN_MEMORY_LIMIT" || is_text reference "UNKNOWN_MEMORY_LIMIT" then "UNKNOWN_MEMORY_LIMIT"
  else if in_tuple independent ["TOOL_FAILURE"; "ERROR"]%string || is_text reference "TOOL_FAILURE" then "TOOL_FAILURE"
  else if is_text reference "VERIFIED" && is_text independent "ABSENT" then "COUNTEREXAMPLE_VERIFIED"
  else if is_text reference "REJECTED" && is_text independent "FOUND" then "INVALID_CANDIDATE"
  else "VERIFIER_DISAGREEMENT".

Inductive Artifact := BytesFile (name : string) (content : list Z) | JsonFile (name : string) (content : json).

Definition edge_json (e : Z * Z) : json := JList [JInt e.1; JInt e.2].

Definition certify (sha256 : list Z -> string) (environment : json) (child : Child)
  (g : BitGraph) (timeout_seconds : float) (memory_limit_bytes : Z) (target : string) : res (Report * list Artifact) :=
  check_limits timeout_seconds memory_limit_bytes ;;;
  raise_if (negb (bool_decide (target ∈ TARGETS))) (ValueError ("unsupported target: " ++ target)%string) ;;;
  let lengths := plugin_lengths target (gn g) in
  raise_if (bool_decide (lengths = [])) (ValueError "target has no verifier lengths for this graph order") ;;;
  graph6 ← to_graph6 g;
  let graph6_bytes := graph6 ++ [10] in
  edge_text ← dumps (JObj [("n", JInt (gn g)); ("edges", JList (edge_json <$> edges g))]%string);
  let edge_bytes := codes edge_text ++ [10] in
  reference ← verify_reference_bounded child g timeout_seconds memory_limit_bytes target;
  independent ← verify_cpp g timeout_seconds memory_limit_bytes (Some lengths);
  let st := combine (reported reference) (reported independent) in
  let manifest :=
    [("candidate_id", JStr (String.substring 0 20 (sha256 graph6))); ("target", JStr target); ("status", JStr st);
     ("status_checked_at", JStr "2026-07-23"); ("order", JInt (gn g)); ("size", JInt (size g));
     ("minimum_degree", JInt (minimum_degree g)); ("forbidden_lengths", JList (JInt <$> lengths));
     ("graph6_sha256", JStr (sha256 graph6_bytes)); ("edge_list_sha256", JStr (sha256 edge_bytes));
     ("verifiers", JList [JObj reference; JObj independent]); ("environment", JStr "environment.json");
     ("reproduce", JStr "commands.txt")]%string in
  Ok (manifest,
      [BytesFile "candidate.graph6" graph6_bytes; BytesFile "candidate.json" edge_bytes;
       JsonFile "environment.json" environment; JsonFile "manifest.json" (JObj manifest);
       BytesFile "commands.txt" (codes ("sglab verify --target " ++ target ++
         " --graph6 candidate.graph6 --artifact-dir reproduced") ++ [10])]%string).
End Certify.

(** ** Cycles named by the checker *)

Section Witness.
Context (g : BitGraph) (Hg : wf g) (w : list Z) (Hw : Forall (vertex g) w).
Abbreviation n := (Z.of_nat (length w)).

(** The vertices at an index and after it, around the cycle *)
Definition step_adjacent (i : Z) : Prop :=
  forall u v, w !! Z.to_nat i = Some u -> w !! Z.to_nat ((i + 1) mod n) = Some v -> adj g u v = true.

Lemma misses_edge_spec indices : (forall i, i ∈ indices -> 0 <= i < n) ->
  exists b, misses_edge g w n indices = Ok b /\ (b = false <-> forall i, i ∈ indices -> step_adjacent i).
Proof.
  induction indices as [|i indices IH]; intros Hi; cbn.
  { exists false. split; [done|]. split; [|done]. intros _ j Hj. by apply elem_of_nil in Hj. }
  assert (0 <= i < n) as Hin by (apply Hi; set_solver). pose proof (Z.mod_pos_bound (i + 1) n ltac:(lia)) as Hm.
  destruct (py_index_in_range w i Hin) as (u & Hu & ->). destruct (py_index_in_range w _ Hm) as (v & Hv & ->).
  cbn [mbind res_bind]. rewrite Forall_forall in Hw.
  assert (vertex g u) as Hvu by (apply Hw; by eapply list_elem_of_lookup_2).
  assert (vertex g v) as Hvv by (apply Hw; by eapply list_elem_of_lookup_2).
  rewrite has_edge_adj by (done || apply Hvv). cbn [mbind res_bind].
  destruct IH as (b & Hb & Hspec); [intros; apply Hi; set_solver|].
  destruct (adj g u v) eqn:E.
  - exists b. split; [done|]. rewrite Hspec. split; intros H j Hj; [|apply H; set_solver].
    apply elem_of_cons in Hj as [->|Hj]; [|by apply H]. intros u' v' Hu' Hv'. congruence.
  - exists true. split; [done|]. split; [done|]. intros H. specialize (H i ltac:(set_solver) u v Hu Hv). congruence.
Qed.

Lemma around_chain : w <> [] -> (forall i, 0 <= i < n -> step_adjacent i) <-> chain (edge_rel g) (w ++ take 1 w).
Proof.
  intros Hn. rewrite closed_chain. unfold step_adjacent, edge_rel, cell, next_index.
  assert (forall i, 0 <= i < n -> is_Some (w !! Z.to_nat i)) as Hin by (intros i Hi; apply lookup_lt_is_Some_2; lia).
  split; intros H i Hi; specialize (H i Hi);
    destruct (Hin i Hi) as [u Hu], (Hin _ (Z.mod_pos_bound (i + 1) n ltac:(lia))) as [v Hv].
  - rewrite Hu, Hv. cbn. by apply H.
  - intros u' v' Hu' Hv'. rewrite Hu', Hv' in H. exact H.
Qed.

Lemma misses_no_edge : 3 <= n -> NoDup w ->
  misses_edge g w n (range 0 n) = Ok false <-> is_cycle g n w.
Proof.
  intros H3 Hnd. destruct (misses_edge_spec (range 0 n)) as (b & -> & Hb); [intros i ?%elem_of_range; lia|].
  assert (w <> []) as Hn by (intros ->; cbn in *; lia).
  transitivity (forall i, 0 <= i < n -> step_adjacent i).
  - split.
    + intros [= ->] i Hi. apply Hb; [done|]. by apply elem_of_range.
    + intros H. f_equal. apply Hb. intros i Hi%elem_of_range. by apply H.
  - rewrite around_chain by done. unfold is_cycle. tauto.
Qed.
End Witness.

Lemma plain_ints items w : mapM plain_int items = Some w <-> items = JInt <$> w.
Proof.
  rewrite mapM_Some. split.
  - induction 1 as [|v z items w Hv _ IH]; [done|]. destruct v; try done. injection Hv as ->. cbn. by rewrite IH.
  - intros ->. induction w as [|z w IH]; constructor; done.
Qed.

(** A cycle of a requested length, named by its vertices *)
Definition names_cycle (g : BitGraph) (requested : list Z) (d : Report) : Prop :=
  exists len w, get d "length" = JInt len /\ len ∈ requested /\ get d "witness" = JList (JInt <$> w) /\ is_cycle g len w.

Lemma witness_error_None g d c requested : wf g -> (forall len, len ∈ requested -> 3 <= len) ->
  witness_error g d c requested = Ok None <-> c = true /\ names_cycle g requested d.
Proof.
  intros Hg H3. unfold witness_error, names_cycle. split.
  - destruct (plain_int (get d "length")) as [len|] eqn:El; [|done]. destruct (get d "length") as [| | | | | |] eqn:Hl; try done.
    injection El as ->. case_bool_decide as Hin; [|done]. cbn [negb]. destruct (get d "witness") as [| | | | |items|] eqn:Hw; try done.
    destruct (mapM plain_int items) as [w|] eqn:Em; [|done]. apply plain_ints in Em as ->.
    destruct (Z.eqb_spec (Z.of_nat (length w)) len) as [<-|]; [|done]. cbn [negb orb].
    destruct (existsb _ w) eqn:Ev; [done|]. cbn [orb].
    destruct (Z.eqb_spec (Z.of_nat (length (remove_dups w))) (Z.of_nat (length w))) as [Hd|]; [|done]. cbn [negb].
    intros (m & Hm & H)%bind_Ok. destruct m; [done|]. destruct c; [|done]. split; [done|].
    exists (Z.of_nat (length w)), w. split_all; [done..|]. apply misses_no_edge; [done| |by apply H3|apply full_NoDup; lia|done].
    apply Forall_forall. intros v Hv. apply not_true_iff_false in Ev. unfold vertex.
    destruct (decide (0 <= v < gn g)) as [|Hn]; [done|]. destruct Ev. apply existsb_exists. exists v.
    split; [by apply list_elem_of_In|lia].
  - intros (-> & len & w & -> & Hin & -> & Hc). cbn [plain_int]. rewrite bool_decide_eq_true_2 by done. cbn [negb].
    rewrite (proj2 (plain_ints _ w) eq_refl). pose proof Hc as (_ & Hlen & Hnd & Hch).
    rewrite Hlen, Z.eqb_refl. cbn [negb orb].
    assert (Forall (vertex g) w) as Hv by (apply Forall_forall; intros v; by eapply is_cycle_vertex).
    replace (existsb _ w) with false; [|symmetry; apply not_true_iff_false; intros (v & Hv' & Hb)%existsb_exists].
    + rewrite remove_dups_id by done. rewrite Hlen, Z.eqb_refl. cbn [negb orb].
      rewrite <- Hlen. rewrite (proj2 (misses_no_edge g Hg w Hv ltac:(rewrite Hlen; by apply H3) Hnd)); [done|by rewrite Hlen].
    + rewrite Forall_forall in Hv. apply list_elem_of_In, Hv in Hv'. unfold vertex in Hv'. lia.
Qed.

(** What an answer of the checker must be to count *)
Definition acceptable (g : BitGraph) (lengths : option (list Z)) (payload : json) : Prop :=
  exists d, payload = JObj d /\
    ((reported d = JStr "FOUND" /\ get d "complete" = JBool true /\ names_cycle g (requested_lengths g lengths) d) \/
     (reported d = JStr "ABSENT" /\ get d "complete" = JBool true /\
        exists ls, get d "lengths" = JList (JInt <$> ls) /\ forall len, len ∈ ls <-> len ∈ requested_lengths g lengths) \/
     ((reported d = JStr "TIMEOUT" \/ reported d = JStr "ERROR") /\ get d "complete" = JBool false)).

Lemma same_set_spec l k : same_set l k = true <-> forall x, x ∈ l <-> x ∈ k.
Proof. unfold same_set. rewrite andb_true_iff, !bool_decide_eq_true, !Forall_forall. naive_solver. Qed.

Lemma absence_error_None d c requested :
  absence_error d c requested = None <->
  c = true /\ exists ls, get d "lengths" = JList (JInt <$> ls) /\ forall len, len ∈ ls <-> len ∈ requested.
Proof.
  unfold absence_error. destruct c; cbn [negb]; [|naive_solver]. split.
  - destruct (get d "lengths") as [| | | | |items|]; try done. destruct (mapM plain_int items) as [ls|] eqn:E; [|done].
    apply plain_ints in E as ->. destruct (same_set ls requested) eqn:Es; [|done]. intros _. split; [done|].
    exists ls. split; [done|]. by apply same_set_spec.
  - intros (_ & ls & -> & Hl). rewrite (proj2 (plain_ints _ ls) eq_refl). by rewrite (proj2 (same_set_spec _ _) Hl).
Qed.

Lemma is_text_true v s : is_text v s = true <-> v = JStr s.
Proof. destruct v; cbn; try (split; [done|discriminate]). rewrite bool_decide_eq_true. naive_solver. Qed.

Ltac known_text :=
  rewrite bool_decide_eq_true_2 by set_solver; unfold is_text;
  repeat first [rewrite bool_decide_eq_true_2 by reflexivity | rewrite bool_decide_eq_false_2 by discriminate]; cbn [negb].

Lemma payload_error_None g lengths payload : wf g -> (forall len, len ∈ requested_lengths g lengths -> 3 <= len) ->
  _cyclecheck_payload_error payload g lengths = Ok None <-> acceptable g lengths payload.
Proof.
  intros Hg H3. unfold _cyclecheck_payload_error, acceptable, reported. destruct payload as [| | | | | |d]; try (split; [done|naive_solver]).
  transitivity ((reported d = JStr "FOUND" /\ get d "complete" = JBool true /\ names_cycle g (requested_lengths g lengths) d) \/
     (reported d = JStr "ABSENT" /\ get d "complete" = JBool true /\
        exists ls, get d "lengths" = JList (JInt <$> ls) /\ forall len, len ∈ ls <-> len ∈ requested_lengths g lengths) \/
     ((reported d = JStr "TIMEOUT" \/ reported d = JStr "ERROR") /\ get d "complete" = JBool false)); [|unfold reported; naive_solver].
  unfold reported. destruct (get d "status") as [| | | |s| |]; try (split; [done|naive_solver]). cbn [in_set mbind res_bind in_tuple].
  destruct (get d "complete") as [|c| | | | |] eqn:Ec; try (split; [by destruct (bool_decide _)|naive_solver]).
  destruct (decide (s = "FOUND"%string)) as [->|H1].
  { known_text. rewrite witness_error_None by done. naive_solver. }
  destruct (decide (s = "ABSENT"%string)) as [->|H2].
  { known_text. pose proof (absence_error_None d c (requested_lengths g lengths)) as Ha. split; [intros [= H]; naive_solver|].
    intros [?|[(_ & [= ->] & Hl)|?]]; [naive_solver| |naive_solver]. f_equal. by apply Ha. }
  destruct (decide (s = "TIMEOUT"%string)) as [->|H4]; [known_text; destruct c; naive_solver|].
  destruct (decide (s = "ERROR"%string)) as [->|H5]; [known_text; destruct c; naive_solver|].
  rewrite bool_decide_eq_false_2 by set_solver. naive_solver.
Qed.

(** ** What the two reports can say *)

Definition UNDECIDED : list string := ["UNKNOWN_TIMEOUT"; "UNKNOWN_MEMORY_LIMIT"; "TOOL_FAILURE"]%string.
Definition FAILURES : list string := ["TOOL_FAILURE"; "UNKNOWN_TIMEOUT"; "UNKNOWN_MEMORY_LIMIT"; "ERROR"]%string.

Definition failed (r : Report) : Prop := exists s, reported r = JStr s /\ s ∈ FAILURES.

Ltac reports_failure := unfold failed, FAILURES, reported, get; eexists; split; [reflexivity|set_solver].

Lemma reported_set r k v : reported (dict_set r k v) = if decide (k = "status"%string) then v else reported r.
Proof. unfold reported, get. rewrite dict_get_set. repeat case_decide; subst; done. Qed.

Lemma reported_set_status r st : reported (set_status r st) = JStr st.
Proof. unfold set_status. rewrite !reported_set. done. Qed.

(** The answers of the checker that [certify] goes by *)
Definition checker_said (g : BitGraph) (lengths : list Z) (r : Report) : Prop :=
  failed r \/ reported r = JStr "ABSENT" \/
  (reported r = JStr "FOUND" /\ exists len, len ∈ lengths /\ has_cycle g len).

Lemma adjust_said el g lengths result m d r : wf g -> (forall len, len ∈ requested_lengths g (Some lengths) -> 3 <= len) -> lengths <> [] ->
  acceptable g (Some lengths) (JObj d) -> adjust_payload el result m d = Ok r -> checker_said g lengths r.
Proof.
  intros Hg H3 Hne Ha. unfold adjust_payload. intros (text & _ & H)%bind_Ok.
  set (d1 := dict_set (dict_set d "elapsed_seconds" (JFloat el)) "implementation" (JStr "cpp17-bitset-dfs")) in *.
  assert (reported d1 = reported d) as Hd1 by (unfold d1; by rewrite !reported_set).
  assert (requested_lengths g (Some lengths) = lengths) as Hreq by by destruct lengths.
  assert (checker_said g lengths d1 \/ reported d1 = JStr "TIMEOUT") as Hsaid.
  { unfold checker_said, failed. rewrite Hd1. destruct Ha as (d' & [= <-] & Ha). rewrite Hreq in Ha.
    destruct Ha as [(-> & _ & len & w & _ & Hin & _ & Hc)|[(-> & _)|[[->| ->] _]]].
    - left. right. right. split; [done|]. exists len. split; [done|]. by exists w.
    - left. right. by left.
    - by right.
    - left. left. exists "ERROR"%string. split; [done|]. set_solver. }
  assert (forall st, st ∈ FAILURES ->
    forall x, checker_said g lengths (set_status x st)) as Hset.
  { intros st Hst x. left. exists st. by rewrite reported_set_status. }
  destruct (negb (m =? 0) && _ && _); cbn [andb] in H.
  - rewrite reported_set_status in H. cbn in H.
    destruct (negb (bool_decide (run_status result = _)) && _); injection H as <-; apply Hset; set_solver.
  - destruct (is_text (reported d1) "TIMEOUT") eqn:Et; [injection H as <-; apply Hset; set_solver|].
    destruct Hsaid as [Hs|Hs]; [|by rewrite (proj2 (is_text_true _ _) Hs) in Et].
    destruct (_ && _); injection H as <-; [apply Hset; set_solver|done].
Qed.

Section Reports.
Variables (run_bounded : list string -> float -> option Z -> ProcessResult).
Variables (json_loads : list Z -> option json) (decode_replace : list Z -> string).
Variables (elapsed : float) (executable : string) (is_file : bool) (graph_path : string).
Abbreviation verify_cpp := (verify_cpp run_bounded json_loads decode_replace elapsed executable is_file graph_path).

Lemma verify_cpp_said g timeout memory lengths r :
  wf g -> (forall len, len ∈ lengths -> 3 <= len) -> lengths <> [] ->
  verify_cpp g timeout memory (Some lengths) = Ok r -> checker_said g lengths r.
Proof.
  intros Hg H3 Hne H. unfold Certification.verify_cpp in H. apply seq_Ok in H as [_ H].
  destruct is_file; cbn [negb] in H; [|injection H as <-; left; reports_failure].
  apply bind_Ok in H as (t & _ & H).
  replace (match lengths with x :: l => x :: l | [] => _ end) with lengths in H by by destruct lengths.
  assert (forall len, len ∈ requested_lengths g (Some lengths) -> 3 <= len) as H3' by by destruct lengths.
  case_bool_decide; [injection H as <-; left; reports_failure|].
  destruct (json_loads _) as [payload|].
  2: { destruct (negb (memory =? 0) && _); injection H as <-; left; reports_failure. }
  apply bind_Ok in H as ([e|] & He & H); [injection H as <-; left; reports_failure|].
  apply payload_error_None in He; [|done..]. pose proof He as (d & -> & _). by eapply adjust_said.
Qed.
End Reports.

(** The claim a target's candidate is to refute *)
Definition refutes (target : string) (g : BitGraph) : Prop :=
  if decide (target = CONTROL)
  then (gn g = 10 /\ connected g /\ forall u, vertex g u -> degree g u = 3) /\ ~ has_cycle g 3
  else counterexample g.

(** A cycle of a length the plugin forbids *)
Definition forbidden_cycle (target : string) (g : BitGraph) : Prop :=
  exists len, len ∈ plugin_lengths target (gn g) /\ has_cycle g len.

Lemma refutes_no_cycle target g : wf g -> refutes target g -> ~ forbidden_cycle target g.
Proof.
  intros Hg Hr (len & Hin & Hc). unfold refutes, plugin_lengths in *. case_decide as Ht; case_bool_decide; try done.
  - unfold HiddenWitness.forbidden_lengths in Hin. destruct (gn g =? 10); [|by apply elem_of_nil in Hin].
    apply list_elem_of_singleton in Hin as ->. tauto.
  - apply elem_of_forbidden_lengths in Hin as [_ Hp]. destruct Hr as [_ Hn]. by destruct (Hn len Hp).
Qed.

(** What the reference verifier reports *)
Definition reference_said (target : string) (g : BitGraph) (r : Report) : Prop :=
  (exists s, reported r = JStr s /\ s ∈ UNDECIDED) \/ (reported r = JStr "VERIFIED" /\ refutes target g) \/
  (reported r = JStr "REJECTED" /\ ~ refutes target g /\ forbidden_cycle target g) \/
  (reported r = JStr "INVALID" /\ ~ refutes target g).

Lemma exact_verify_said target g seconds : wf g -> reference_said target g (_reference_worker target g seconds).
Proof.
  intros Hg. unfold reference_said, _reference_worker, reported, get. cbn [dict_get decide default from_option id].
  rewrite decide_True by done. cbn [default from_option id]. right. unfold exact_verify, refutes, forbidden_cycle, plugin_lengths.
  destruct (decide (target = CONTROL)) as [->|Ht].
  - rewrite bool_decide_eq_true_2 by done. destruct (control_verdict 0 g Hg) as (Hv & Hi & Hr).
    destruct (status (HiddenWitness.exact_verify 0 g)) eqn:E; cbn.
    + left. split; [done|]. by apply Hv.
    + right. left. destruct Hr as [Hr _]. destruct (Hr eq_refl) as (Hc & c & Hcy & _).
      assert (has_cycle g 3) as Hc3 by by exists c. split_all; [done|tauto|]. exists 3.
      unfold HiddenWitness.forbidden_lengths. destruct Hc as [-> _]. split; [set_solver|done].
    + exfalso. unfold HiddenWitness.exact_verify in E. destruct (negb _); [done|]. by destruct (find_cycle_of_length g 3).
    + right. right. split; [done|]. assert (~ (gn g = 10 /\ connected g /\ forall u, vertex g u -> degree g u = 3)) by by apply Hi. tauto.
  - rewrite bool_decide_eq_false_2 by done. destruct (verify_reference_verdict 0 g Hg) as [Hv _]. unfold verdict in Hv.
    destruct (status (verify_reference 0 g)); cbn.
    + left. split; [done|]. apply Hv.
    + right. left. destruct Hv as (Hm & len & c & Hp & Hc & _). assert (has_cycle g len) as Hcy by by exists c.
      split_all; [done| |]. { intros [_ Hn]. by destruct (Hn len Hp). }
      exists len. split; [|done]. apply elem_of_forbidden_lengths. split; [by apply has_cycle_le|done].
    + done.
    + right. right. split; [done|]. unfold counterexample. tauto.
Qed.

Lemma reference_bounded_said child g timeout memory target r : wf g ->
  verify_reference_bounded child g timeout memory target = Ok r -> reference_said target g r.
Proof.
  intros Hg H. unfold verify_reference_bounded in H. apply seq_Ok in H as [_ H]. apply raise_seq_Ok in H as [_ H].
  injection H as <-. destruct child as [|c| |seconds]; [left|left|left|by apply exact_verify_said].
  - exists "UNKNOWN_TIMEOUT"%string. split; [done|set_solver].
  - unfold reference_failure, reported, get. cbn. eexists. split; [done|]. unfold UNDECIDED.
    destruct (negb (memory =? 0) && _); set_solver.
  - exists "UNKNOWN_MEMORY_LIMIT"%string. split; [done|set_solver].
Qed.

(** ** The status of the artifact *)

(** What a status says about the graph and about the checker's report *)
Definition status_justified (target : string) (g : BitGraph) (independent : Report) (st : string) : Prop :=
  (st = "COUNTEREXAMPLE_VERIFIED"%string /\ refutes target g /\ reported independent = JStr "ABSENT") \/
  (st = "INVALID_CANDIDATE"%string /\ ~ refutes target g) \/
  (st = "VERIFIER_DISAGREEMENT"%string /\ ~ refutes target g /\ forbidden_cycle target g /\ reported independent = JStr "ABSENT") \/
  st ∈ UNDECIDED.

(** All combinations with a report that decides nothing *)
Lemma combine_undecided :
  Forall (fun s => Forall (fun t => combine (JStr s) (JStr t) ∈ UNDECIDED) (FAILURES ++ ["ABSENT"; "FOUND"]%string)) UNDECIDED /\
  Forall (fun s => Forall (fun t => combine (JStr s) (JStr t) ∈ UNDECIDED) FAILURES) ["VERIFIED"; "REJECTED"]%string.
Proof. apply (bool_decide_unpack _). vm_compute. exact I. Qed.

Lemma combine_justified target g reference independent :
  wf g -> reference_said target g reference -> checker_said g (plugin_lengths target (gn g)) independent ->
  status_justified target g independent (combine (reported reference) (reported independent)).
Proof.
  intros Hg Href Hind. unfold status_justified. destruct combine_undecided as [H1 H2].
  assert (exists t, reported independent = JStr t /\ t ∈ FAILURES ++ ["ABSENT"; "FOUND"]%string) as (t & Ht & Hin).
  { destruct Hind as [(t & ? & ?)|[->|[-> _]]]; eexists; (split; [done|set_solver]). }
  rewrite Forall_forall in H1, H2. destruct Href as [(s & -> & Hs)|[[-> Hr]|[(-> & Hr & Hc)|[-> Hr]]]].
  - right. right. right. rewrite Ht. specialize (H1 s Hs). rewrite Forall_forall in H1. by apply H1.
  - destruct Hind as [(t' & -> & Hf)|[->|[-> (len & Hl & Hc)]]].
    + right. right. right. specialize (H2 "VERIFIED"%string ltac:(set_solver)). rewrite Forall_forall in H2. by apply H2.
    + by left.
    + exfalso. apply (refutes_no_cycle target g Hg Hr). by exists len.
  - destruct Hind as [(t' & -> & Hf)|[->|[-> _]]].
    + right. right. right. specialize (H2 "REJECTED"%string ltac:(set_solver)). rewrite Forall_forall in H2. by apply H2.
    + right. right. by left.
    + right. by left.
  - right. by left.
Qed.

Lemma plugin_lengths_bound target n len : len ∈ plugin_lengths target n -> 3 <= len.
Proof.
  unfold plugin_lengths. case_bool_decide.
  - unfold HiddenWitness.forbidden_lengths. destruct (n =? 10); set_solver by lia.
  - intros [_ (k & Hk & ->)]%elem_of_forbidden_lengths. pose proof (Z.pow_le_mono_r 2 2 k ltac:(lia) Hk). lia.
Qed.

(** ** Properties *)

(** C4: Whatever the processes do and the checker prints, the
    status of an artifact is right: COUNTEREXAMPLE_VERIFIED is given only to
    graphs that refute the target's statement, INVALID_CANDIDATE only to others;
    a disagreement means that the checker claimed the absence of a cycle that
    exists; every other status decides nothing. The manifest carries both reports. *)
Theorem certify_sound run loads lenient elapsed executable is_file path sha256 environment child g timeout memory target manifest files :
  wf g ->
  certify run loads lenient elapsed executable is_file path sha256 environment child g timeout memory target = Ok (manifest, files) ->
  exists st reference independent,
    get manifest "status" = JStr st /\ get manifest "verifiers" = JList [JObj reference; JObj independent] /\
    status_justified target g independent st.
Proof.
  intros Hg H. unfold certify in H. apply seq_Ok in H as [_ H]. rewrite !raise_seq_Ok in H. destruct H as (_ & Hne & H).
  apply bool_decide_eq_false in Hne. apply bind_Ok in H as (g6 & _ & H). apply bind_Ok in H as (text & _ & H).
  apply bind_Ok in H as (reference & Href & H). apply bind_Ok in H as (independent & Hind & [= <- _]).
  apply reference_bounded_said in Href; [|done]. apply verify_cpp_said in Hind; [|done|by apply plugin_lengths_bound|done].
  eexists _, reference, independent. split; [reflexivity|]. split; [reflexivity|]. by apply combine_justified.
Qed.

(** An answer of the external checker counts exactly when
    it is well formed and, for FOUND, names a cycle of the graph of a requested
    length, for ABSENT, covers the requested lengths, and otherwise is marked
    incomplete. *)
Theorem checker_answer_exact g lengths payload :
  wf g -> (forall len, len ∈ requested_lengths g lengths -> 3 <= len) ->
  _cyclecheck_payload_error payload g lengths = Ok None <-> acceptable g lengths payload.
Proof. apply payload_error_None. Qed.

(** An allocation failure the checker reports under a
    memory limit is recognised and then lost: the checker exits with code 1 after
    an ERROR answer, so its run has the status ERROR, and the report says
    TOOL_FAILURE where UNKNOWN_MEMORY_LIMIT was set two statements before. *)
Theorem memory_failure_masked loads lenient elapsed executable path g timeout memory d message r out err :
  0 < memory -> loads out = Some (JObj d) ->
  dict_get d "status" = Some (JStr "ERROR") -> dict_get d "complete" = Some (JBool false) ->
  dict_get d "message" = Some (JStr message) -> contains "alloc" (lower message) = true ->
  verify_cpp (fun _ _ _ => mkProcess "ERROR" (Some 1) out err) loads lenient elapsed executable true path g timeout memory None = Ok r ->
  reported r = JStr "TOOL_FAILURE".
Proof.
  intros Hm Hl Hs Hc Hmsg Ha H. unfold verify_cpp in H. apply seq_Ok in H as [_ H]. cbn [negb] in H.
  apply bind_Ok in H as (t & _ & H). cbn [run_status] in H. rewrite bool_decide_eq_false_2 in H by done.
  cbn [stdout] in H. rewrite Hl in H.
  unfold _cyclecheck_payload_error, get in H. rewrite Hs, Hc in H. cbn [default from_option id in_set in_tuple mbind res_bind] in H.
  change (bool_decide ("ERROR"%string ∈ ["FOUND"; "ABSENT"; "TIMEOUT"; "ERROR"]%string)) with true in H. cbn in H.
  unfold adjust_payload in H.
  set (d1 := dict_set (dict_set d "elapsed_seconds" (JFloat elapsed)) "implementation" (JStr "cpp17-bitset-dfs")) in *.
  assert (reported d1 = JStr "ERROR") as Hd1 by (unfold d1; rewrite !reported_set; unfold reported, get; by rewrite Hs).
  assert (dict_get d1 "message" = Some (JStr message)) as Hm1 by (unfold d1; rewrite !dict_get_set; by rewrite Hmsg).
  rewrite Hd1, Hm1 in H. destruct (Z.eqb_spec memory 0); [lia|]. change (is_text (JStr "ERROR") "ERROR") with true in H.
  cbn [negb andb default from_option id py_str mbind res_bind run_status] in H. rewrite Ha in H. cbn [andb] in H.
  rewrite reported_set_status in H. cbn in H. injection H as <-. by rewrite reported_set_status.
Qed.

Module CertificationWitness.
Definition found_answer : json :=
  JObj [("status", JStr "FOUND"); ("complete", JBool true); ("length", JInt 4);
        ("witness", JList [JInt 0; JInt 1; JInt 2; JInt 3])]%string.
Definition absent_answer : json :=
  JObj [("status", JStr "ABSENT"); ("complete", JBool true); ("lengths", JList [JInt 3])]%string.

Lemma checker_answer_exact_witness : acceptable K4 None found_answer.
Proof.
  apply (checker_answer_exact K4 None found_answer).
  - exact K4_wf.
  - intros len [_ (k & Hk & ->)]%elem_of_forbidden_lengths. pose proof (Z.pow_le_mono_r 2 2 k ltac:(lia) Hk). lia.
  - vm_compute. reflexivity.
Defined.

(** The Petersen graph refutes the control target's statement. *)
Definition petersen_certificate : res (Report * list Artifact) :=
  certify (fun _ _ _ => mkProcess "OK" (Some 0) [] []) (fun _ => Some absent_answer) text_of (f_lit 1) "cyclecheck" true
    "candidate.graph6" text_of (JObj []) (Done (f_lit 1)) petersen (f_lit 0) 0 CONTROL.

Lemma certify_sound_witness : exists manifest files, petersen_certificate = Ok (manifest, files) /\
  get manifest "status" = JStr "COUNTEREXAMPLE_VERIFIED" /\ refutes CONTROL petersen.
Proof.
  destruct petersen_certificate as [[manifest files]|e] eqn:E; [|vm_compute in E; discriminate E].
  destruct (certify_sound _ _ _ _ _ _ _ _ _ _ petersen _ _ CONTROL manifest files petersen_wf E)
    as (st & reference & independent & Hst & _ & Hj).
  exists manifest, files. split; [reflexivity|].
  assert (get manifest "status" = JStr "COUNTEREXAMPLE_VERIFIED") as Hs.
  { vm_compute in E. injection E as <- _. vm_compute. reflexivity. }
  split; [exact Hs|]. rewrite Hs in Hst. injection Hst as <-.
  destruct Hj as [(_ & Hr & _)|[[H _]|[[H _]|H]]]; [exact Hr|discriminate H..|].
  exfalso. apply (bool_decide_pack _) in H. vm_compute in H. exact H.
Defined.
Definition alloc_answer : Report :=
  [("status", JStr "ERROR"); ("complete", JBool false); ("message", JStr "std::bad_alloc")]%string.
Definition alloc_report : res Report :=
  verify_cpp (fun _ _ _ => mkProcess "ERROR" (Some 1) [] []) (fun _ => Some (JObj alloc_answer)) text_of (f_lit 1) "cyclecheck" true
    "candidate.graph6" petersen (f_lit 0) 1073741824 None.

Lemma memory_failure_masked_witness : exists r, alloc_report = Ok r /\ reported r = JStr "TOOL_FAILURE".
Proof.
  destruct alloc_report as [r|e] eqn:E; [|vm_compute in E; discriminate E]. exists r. split; [reflexivity|].
  apply (memory_failure_masked (fun _ => Some (JObj alloc_answer)) text_of (f_lit 1) "cyclecheck" "candidate.graph6" petersen
           (f_lit 0) 1073741824 alloc_answer "std::bad_alloc" r [] []); try reflexivity. exact E.
Defined.
End CertificationWitness.
