(* ===== verification/FloatBounds.v ===== *)
(** * Quotients of integers stay finite

    Python's [a / b] on integers is a finite float unless the quotient is huge:
    the exponent that rounding leaves is bounded by the size of the dividend. *)

From S2P Require Import Prelude Floats.

#[global] Open Scope Z_scope.

Abbreviation digits := Zdigits2.
Abbreviation shr_fexp := (SpecFloat.shr_fexp prec emax).
Abbreviation fexp := (SpecFloat.fexp prec emax).

Lemma digits_log2 m : 0 < m -> digits m = Z.log2 m + 1.
Proof.
  destruct m as [|p|p]; [done| |done]. intros _. cbn [Zdigits2]. induction p as [p IH|p IH|]; [..|done].
  - change (Z.pos (Pos.succ (digits2_pos p)) = Z.log2 (2 * Z.pos p + 1) + 1). rewrite Pos2Z.inj_succ, IH, Z.log2_succ_double by lia. lia.
  - change (Z.pos (Pos.succ (digits2_pos p)) = Z.log2 (2 * Z.pos p) + 1). rewrite Pos2Z.inj_succ, IH, Z.log2_double by lia. lia.
Qed.

Lemma digits_le m k : 0 <= k -> 0 <= m < 2 ^ k -> digits m <= k.
Proof.
  intros Hk [Hm Hlt]. destruct (decide (m = 0)) as [->|]; [done|]. rewrite digits_log2 by lia.
  apply Z.log2_lt_pow2 in Hlt; lia.
Qed.

Lemma digits_spec m : 0 <= m -> 0 <= digits m /\ m < 2 ^ digits m.
Proof.
  intros Hm. destruct (decide (m = 0)) as [->|]; [done|]. rewrite digits_log2 by lia.
  pose proof (Z.log2_spec m ltac:(lia)). pose proof (Z.log2_nonneg m). replace (Z.log2 m + 1) with (Z.succ (Z.log2 m)) by lia. lia.
Qed.

Lemma shr_1_half r : 0 <= shr_m r -> shr_m (shr_1 r) = shr_m r / 2.
Proof.
  destruct r as [[|[p|p|]|p] ? ?]; cbn; intros Hm; try done; try lia.
  - rewrite <- Z.div2_div. done.
  - rewrite <- Z.div2_div. done.
Qed.

Lemma iter_shr n r : 0 <= shr_m r -> shr_m (iter_pos shr_1 n r) = shr_m r / 2 ^ Zpos n.
Proof.
  revert r. induction n as [n IH|n IH|]; intros r Hr; cbn [iter_pos]; [..|by apply shr_1_half];
    assert (0 < 2 ^ Zpos n) as Hp by (apply Z.pow_pos_nonneg; lia).
  - pose proof (shr_1_half r Hr) as H1. assert (0 <= shr_m (shr_1 r)) as Hr1 by (rewrite H1; apply Z.div_pos; lia).
    pose proof (IH _ Hr1) as H2. assert (0 <= shr_m (iter_pos shr_1 n (shr_1 r))) as Hr2 by (rewrite H2; apply Z.div_pos; lia).
    rewrite (IH _ Hr2), H2, H1, !Z.div_div by lia. f_equal.
    replace (Z.pos n~1) with (1 + Zpos n + Zpos n) by lia. rewrite !Z.pow_add_r by lia. lia.
  - pose proof (IH _ Hr) as H2. assert (0 <= shr_m (iter_pos shr_1 n r)) as Hr2 by (rewrite H2; apply Z.div_pos; lia).
    rewrite (IH _ Hr2), H2, Z.div_div by lia. f_equal.
    replace (Z.pos n~0) with (Zpos n + Zpos n) by lia. by rewrite Z.pow_add_r by lia.
Qed.

(** One rounding step keeps the size of the number and leaves an exponent that
    this size bounds. *)
Lemma shr_fexp_bound m e l K : 0 <= m -> 53 <= K -> digits m + e <= K -> e <= K - 53 ->
  let r := shr_fexp m e l in 0 <= shr_m r.1 /\ digits (shr_m r.1) + r.2 <= K /\ r.2 <= K - 53.
Proof.
  intros Hm HK Hd He. unfold SpecFloat.shr_fexp. set (n := fexp (digits m + e) - e).
  assert (shr_m (shr_record_of_loc m l) = m) as Hl by by destruct l as [|[]].
  assert (n + e <= K - 53) as Hn by (unfold n, SpecFloat.fexp, SpecFloat.emin, prec, emax; lia).
  destruct (Z.le_gt_cases n 0) as [Hn0|Hn0].
  { assert (shr (shr_record_of_loc m l) e n = (shr_record_of_loc m l, e)) as -> by (unfold shr; destruct n; done).
    cbn. rewrite Hl. lia. }
  destruct n as [|p|p] eqn:En; [lia| |lia]. unfold shr. cbn [fst snd]. rewrite iter_shr, Hl by (by rewrite Hl).
  assert (0 < 2 ^ Z.pos p) as Hp by (apply Z.pow_pos_nonneg; lia). assert (0 <= m / 2 ^ Z.pos p) as H0 by by apply Z.div_pos.
  destruct (digits_spec m Hm) as [Hd0 Hlt]. split_all; [done| |lia].
  destruct (Z.le_gt_cases (Z.pos p) (digits m)) as [Hle|Hgt].
  - assert (digits (m / 2 ^ Z.pos p) <= digits m - Z.pos p); [|lia]. apply digits_le; [lia|]. split; [done|].
    apply Z.div_lt_upper_bound; [done|]. rewrite <- Z.pow_add_r by lia. by replace (Z.pos p + (digits m - Z.pos p)) with (digits m) by lia.
  - rewrite Z.div_small; [cbn; lia|]. split; [done|]. eapply Z.lt_trans; [exact Hlt|]. apply Z.pow_lt_mono_r; lia.
Qed.

Lemma round_even_bound m l : 0 <= m -> m <= round_nearest_even m l <= m + 1.
Proof. intros Hm. destruct l as [|[]]; cbn; repeat case_match; lia. Qed.

(** Not negative and finite *)
Definition finite_nonneg (x : float) : Prop :=
  match x with S754_zero false | S754_finite false _ _ => True | _ => False end.

Lemma round_aux_finite m e l K : 0 <= m -> 53 <= K <= 1000 -> digits m + e <= K -> e <= K - 53 ->
  finite_nonneg (binary_round_aux prec emax false m e l).
Proof.
  intros Hm HK Hd He. unfold binary_round_aux.
  pose proof (shr_fexp_bound m e l K Hm ltac:(lia) Hd He) as H1. destruct (shr_fexp m e l) as [r1 e1]. cbn in H1.
  destruct H1 as (Hm1 & Hd1 & He1). set (m2 := round_nearest_even (shr_m r1) (loc_of_shr_record r1)).
  pose proof (round_even_bound (shr_m r1) (loc_of_shr_record r1) Hm1) as Hm2. fold m2 in Hm2.
  destruct (digits_spec (shr_m r1) Hm1) as [Hd0 Hlt].
  assert (digits m2 <= digits (shr_m r1) + 1) as Hd2.
  { apply digits_le; [lia|]. rewrite Z.pow_add_r by lia. lia. }
  pose proof (shr_fexp_bound m2 e1 loc_Exact (K + 1) ltac:(lia) ltac:(lia) ltac:(lia) ltac:(lia)) as H2.
  destruct (shr_fexp m2 e1 loc_Exact) as [r2 e2]. cbn in H2. destruct H2 as (Hm3 & _ & He3).
  destruct (shr_m r2); [done| |lia]. destruct (Z.leb_spec e2 (emax - prec)) as [|Hgt]; [done|]. unfold emax, prec in Hgt. lia.
Qed.

(** [a / b] for integers that are not negative *)
Lemma truediv_finite a b : 0 <= a < 2 ^ 900 -> 0 < b -> exists x, py_truediv a b = Ok x /\ finite_nonneg x.
Proof.
  intros [Ha Hlt] Hb. unfold py_truediv. destruct (Z.eqb_spec b 0); [lia|].
  destruct (Z.eqb_spec a 0) as [->|Hn]; [by eexists|]. rewrite !Z.abs_eq by lia.
  destruct (Z.ltb_spec a 0), (Z.ltb_spec b 0); try lia. cbn [xorb].
  unfold SFdiv_core_binary. rewrite !Z.add_0_r, !Z.sub_0_r. change (0 - 0) with 0.
  set (e := Z.min (fexp (digits a - digits b)) 0). rewrite Z.sub_0_l.
  assert ((match - e with Z0 => a | Zpos _ => Z.shiftl a (- e) | Zneg _ => 0 end) = a * 2 ^ (- e)) as ->.
  { destruct (- e) as [|p|p] eqn:E; [cbn; lia|apply Z.shiftl_mul_pow2; lia|unfold e in E; lia]. }
  destruct (Z.div_eucl (a * 2 ^ (- e)) b) as [q r] eqn:Eq.
  assert (q = a * 2 ^ (- e) / b) as -> by (unfold Z.div; by rewrite Eq). clear Eq.
  assert (0 <= - e) as He by (unfold e; lia). assert (0 < 2 ^ (- e)) as Hp by (apply Z.pow_pos_nonneg; lia).
  assert (finite_nonneg (binary_round_aux prec emax false (a * 2 ^ (- e) / b) e (new_location b r))) as Hf.
  { apply (round_aux_finite _ _ _ 900); [apply Z.div_pos; lia|lia| |lia].
    enough (digits (a * 2 ^ (- e) / b) <= 900 - e) by lia. apply digits_le; [lia|]. split; [apply Z.div_pos; lia|].
    apply Z.div_lt_upper_bound; [lia|]. replace (900 - e) with (900 + - e) by lia. rewrite Z.pow_add_r by lia.
    apply Z.lt_le_trans with (2 ^ 900 * 2 ^ (- e)); [by apply Z.mul_lt_mono_pos_r|].
    rewrite <- (Z.mul_1_l (2 ^ 900 * 2 ^ (- e))) at 1. apply Z.mul_le_mono_nonneg_r; [|lia]. apply Z.mul_nonneg_nonneg; [done|lia]. }
  destruct (binary_round_aux _ _ _ _ _ _) as [[]|[]| |[] ? ?]; cbn in Hf |- *; try done; by eexists.
Qed.
