(* ===== verification/Matchings.v ===== *)
(** * Edges, canonical cycles and perfect matchings

    [src/src/sglab/research/proposal_ranking.py]: the helpers of the proposal
    pool. [_perfect_matching_shapes] lists the ways to pair a tuple of vertices;
    the theorem is that the list is complete and has no matching twice. *)

From stdpp Require Import sorting.
From S2P Require Import Prelude Order.

#[global] Open Scope Z_scope.

Abbreviation Edge := (Z * Z)%type.

(** [_edge] *)
Definition _edge (u v : Z) : res Edge :=
  raise_if (u =? v) (ValueError "loops are not edges") ;;; Ok (if u <? v then (u, v) else (v, u)).

(** [_canonical_cycle]: the least of the rotations of the cycle and of its reverse *)
Definition rotations (c : list Z) : list (list Z) := (fun i => drop i c ++ take i c) <$> seq 0 (length c).

Definition _canonical_cycle (c : list Z) : res (list Z) :=
  match py_min (rotations c ++ rotations (reverse c)) with
  | Some m => Ok m
  | None => Raise (ValueError "min() iterable argument is empty")
  end.

(** ** [_perfect_matching_shapes] *)

(** [vertices[index]] with [vertices[1:index] + vertices[index + 1:]], for each
    [index] from 1; [before] are the vertices already passed *)
Fixpoint partners (before after : list Z) : list (Z * list Z) :=
  match after with
  | [] => []
  | v :: after' => (v, before ++ after') :: partners (before ++ [v]) after'
  end.

(** A call pairs two vertices, so the length is enough fuel. *)
Fixpoint shapes_fuel (fuel : nat) (vertices : list Z) : list (list Edge) :=
  match vertices with
  | [] => [[]]
  | first :: others =>
      match fuel with
      | O => []
      | S f =>
          py_sorted (p ← partners [] others;
            suffix ← shapes_fuel f p.2; [py_sorted ((first, p.1) :: suffix)])
      end
  end.
Definition _perfect_matching_shapes (vertices : list Z) : list (list Edge) :=
  shapes_fuel (length vertices) vertices.

(** The inner comprehension of [_perfect_matchings_sorted] *)
Fixpoint place (ordered : list Z) (shape : list Edge) : res (list Edge) :=
  match shape with
  | [] => Ok []
  | (l, r) :: shape' =>
      u ← py_index ordered l; v ← py_index ordered r; e ← _edge u v; es ← place ordered shape'; Ok (e :: es)
  end.

Fixpoint place_all (ordered : list Z) (shapes : list (list Edge)) : res (list (list Edge)) :=
  match shapes with
  | [] => Ok []
  | s :: shapes' => m ← place ordered s; ms ← place_all ordered shapes'; Ok (m :: ms)
  end.

Definition _perfect_matchings_sorted (ordered : list Z) : res (list (list Edge)) :=
  match ordered with
  | [] => Ok [[]]
  | _ => place_all ordered (_perfect_matching_shapes (range 0 (Z.of_nat (length ordered))))
  end.

Definition _perfect_matchings (vertices : list Z) : res (list (list Edge)) :=
  _perfect_matchings_sorted (py_sorted vertices).

(** ** What a perfect matching is *)

Definition endpoints (m : list Edge) : list Z := e ← m; [e.1; e.2].

(** Every vertex is an end of exactly one edge; the edges are written in order. *)
Definition perfect_matching (vertices : list Z) (m : list Edge) : Prop :=
  endpoints m ≡ₚ vertices /\ Forall (fun e => e.1 < e.2) m /\ StronglySorted (py_le id) m.

Definition increasing (l : list Z) : Prop := StronglySorted Z.lt l.

Example six_matchings : length (_perfect_matching_shapes (range 0 6)) = 15%nat.
Proof. vm_compute. reflexivity. Qed.

(** ** Lemmas *)

Lemma edge_lt_mk u v : u < v -> _edge u v = Ok (u, v).
Proof. intros H. unfold _edge. destruct (Z.eqb_spec u v); [lia|]. cbn. by destruct (Z.ltb_spec u v); [|lia]. Qed.

Lemma edge_Ok u v e : _edge u v = Ok e -> u <> v /\ e = (if u <? v then (u, v) else (v, u)).
Proof. unfold _edge. rewrite raise_seq_Ok, Z.eqb_neq. naive_solver. Qed.

Lemma edge_sorted u v e : _edge u v = Ok e -> e.1 < e.2.
Proof. intros [Hn ->]%edge_Ok. destruct (Z.ltb_spec u v); cbn; lia. Qed.

Lemma py_le_edge (e f : Edge) : py_le id e f <-> e.1 < f.1 \/ e.1 = f.1 /\ e.2 <= f.2.
Proof.
  destruct e as [a b], f as [c d]. unfold py_le. cbn. unfold compare_pair. cbn.
  destruct (Z.compare_spec a c); [|naive_solver lia..]. destruct (Z.compare_spec b d); naive_solver lia.
Qed.

Lemma elem_of_partners before after v rest :
  (v, rest) ∈ partners before after <-> exists l1 l2, after = l1 ++ v :: l2 /\ rest = before ++ l1 ++ l2.
Proof.
  revert before. induction after as [|w after IH]; intros before; cbn.
  { split; [by intros ?%elem_of_nil|]. by intros ([|]&?&?&_). }
  rewrite elem_of_cons, IH. split.
  - intros [[= -> ->]|(l1 & l2 & -> & ->)]; [by exists [], after|]. exists (w :: l1), l2. by rewrite <- app_assoc.
  - intros ([|x l1] & l2 & [= -> ->] & ->); [by left|]. right. exists l1, l2. by rewrite <- app_assoc.
Qed.

Lemma endpoints_cons e m : endpoints (e :: m) = e.1 :: e.2 :: endpoints m.
Proof. done. Qed.

#[export] Instance endpoints_perm : Proper ((≡ₚ) ==> (≡ₚ)) endpoints.
Proof. intros l k Hp. unfold endpoints. by rewrite Hp. Qed.

Lemma elem_of_endpoints m x : x ∈ endpoints m <-> exists e, e ∈ m /\ (x = e.1 \/ x = e.2).
Proof. unfold endpoints. rewrite list_elem_of_bind. set_solver. Qed.

(** Sorting the edges of a matching keeps it one. *)
Lemma perfect_matching_sorted vs m :
  endpoints m ≡ₚ vs -> Forall (fun e => e.1 < e.2) m -> perfect_matching vs (py_sorted m).
Proof.
  intros Hp Hm. unfold perfect_matching. split_all; [by rewrite py_sorted_perm|by rewrite py_sorted_perm|apply py_sorted_sorted].
Qed.

(** ** The shapes of an increasing tuple are its perfect matchings *)

Lemma increasing_remove l1 v l2 : increasing (l1 ++ v :: l2) -> increasing (l1 ++ l2).
Proof.
  unfold increasing. induction l1 as [|x l1 IH]; cbn; [by intros [? _]%StronglySorted_inv|].
  intros [Hs Hx]%StronglySorted_inv. constructor; [by apply IH|]. rewrite Forall_forall in *. set_solver.
Qed.

Lemma partners_increasing vs p : increasing vs -> p ∈ partners [] vs -> increasing p.2.
Proof. destruct p as [v r]. intros Hi (a & b & -> & ->)%elem_of_partners. by apply increasing_remove in Hi. Qed.

Lemma shapes_sound fuel vs m : increasing vs -> m ∈ shapes_fuel fuel vs -> perfect_matching vs m.
Proof.
  revert vs m. induction fuel as [|f IH]; intros [|x vs] m Hi; cbn [shapes_fuel];
    [|by intros ?%elem_of_nil| |].
  1,2: intros ->%list_elem_of_singleton; by repeat constructor.
  unfold py_sorted at 1. rewrite elem_of_sorted_by, list_elem_of_bind.
  intros ([v rest] & Hm & Hp). rewrite list_elem_of_bind in Hm. destruct Hm as (s & ->%list_elem_of_singleton & Hs).
  apply elem_of_partners in Hp as (l1 & l2 & -> & ->). cbn [app fst snd] in *.
  apply StronglySorted_inv in Hi as [Hi Hx]. rewrite Forall_forall in Hx.
  destruct (IH _ _ (increasing_remove _ _ _ Hi) Hs) as (He & Hlt & _).
  apply perfect_matching_sorted.
  - rewrite endpoints_cons, He. cbn. by rewrite Permutation_middle.
  - constructor; [|done]. cbn. apply Hx. set_solver.
Qed.

(** The first edge of a matching holds the least vertex. *)
Lemma matching_head x vs e m :
  increasing (x :: vs) -> perfect_matching (x :: vs) (e :: m) -> e.1 = x.
Proof.
  intros [_ Hx]%StronglySorted_inv (He & Hlt & Hs). rewrite Forall_forall in Hx.
  assert (forall y, y ∈ endpoints (e :: m) -> x <= y) as Hmin.
  { intros y Hy. rewrite He in Hy. apply elem_of_cons in Hy as [->|Hy]; [lia|]. specialize (Hx _ Hy). lia. }
  assert (x ∈ endpoints (e :: m)) as (f & Hf & Hxf)%elem_of_endpoints by (rewrite He; by left).
  rewrite Forall_forall in Hlt. pose proof (Hlt f Hf) as Hfl.
  pose proof (Hmin f.1 ltac:(apply elem_of_endpoints; eauto)) as Hf1.
  assert (f.1 = x) as Hfx by (destruct Hxf; lia).
  apply elem_of_cons in Hf as [->|Hf]; [done|].
  apply StronglySorted_inv in Hs as [_ Hs]. rewrite Forall_forall in Hs.
  specialize (Hs _ Hf). apply py_le_edge in Hs.
  pose proof (Hmin e.1 ltac:(apply elem_of_endpoints; exists e; split; [by left|by left])). lia.
Qed.

Lemma shapes_complete fuel vs m :
  (length vs <= fuel)%nat -> increasing vs -> perfect_matching vs m -> m ∈ shapes_fuel fuel vs.
Proof.
  revert vs m. induction fuel as [|f IH]; intros [|x vs] m Hf Hi Hm; cbn [shapes_fuel];
    [|by cbn in Hf; lia| |].
  1,2: destruct Hm as (He & _); destruct m as [|e m]; [by left|by apply Permutation_nil_r in He].
  destruct m as [|e m]; [destruct Hm as (He & _); by apply Permutation_nil_l in He|].
  pose proof (matching_head _ _ _ _ Hi Hm) as Hx. destruct Hm as (He & Hlt & Hs). destruct e as [a b]. cbn in Hx. subst a.
  rewrite endpoints_cons in He. cbn in He. apply Permutation_cons_inv in He.
  assert (b ∈ vs) as (l1 & l2 & ->)%list_elem_of_split by (rewrite <- He; by left).
  rewrite <- Permutation_middle in He. apply Permutation_cons_inv in He.
  apply StronglySorted_inv in Hi as [Hi _]. apply Forall_cons in Hlt as [Hb Hlt].
  pose proof (py_sorted_id _ Hs) as Hid. apply StronglySorted_inv in Hs as [Hs _].
  unfold py_sorted at 1. rewrite elem_of_sorted_by, list_elem_of_bind.
  exists (b, l1 ++ l2). split; [|apply elem_of_partners; by exists l1, l2].
  rewrite list_elem_of_bind. exists m. split; [change ((x, b) :: m ∈ [py_sorted ((x, b) :: m)]); rewrite Hid; by left|].
  apply IH; [|by eapply increasing_remove|done]. cbn [length snd] in *. rewrite length_app in *. cbn [length] in Hf. lia.
Qed.

Lemma partners_NoDup before after : NoDup after -> NoDup (partners before after).*1.
Proof.
  revert before. induction after as [|v after IH]; intros before Hn; cbn; [constructor|].
  apply NoDup_cons in Hn as [Hv Hn]. apply NoDup_cons. split; [|by apply IH].
  rewrite list_elem_of_fmap. intros ([w rest] & -> & (l1 & l2 & -> & _)%elem_of_partners). set_solver.
Qed.

Lemma increasing_NoDup vs : increasing vs -> NoDup vs.
Proof.
  unfold increasing. induction 1 as [|x vs _ IH Hx]; constructor; [|done].
  rewrite Forall_forall in Hx. intros Hin. specialize (Hx _ Hin). lia.
Qed.

(** The matching tells the partner of the first vertex. *)
Lemma matching_partner vs m x v w :
  NoDup vs -> perfect_matching vs m -> (x, v) ∈ m -> (x, w) ∈ m -> v = w.
Proof.
  intros Hn (He & _). rewrite <- He in Hn. clear He. revert Hn.
  induction m as [|e m IH]; intros Hn Hv Hw; [by apply elem_of_nil in Hv|].
  rewrite endpoints_cons in Hn. apply NoDup_cons in Hn as [H1 Hn]. apply NoDup_cons in Hn as [_ Hn].
  assert (forall z, (x, z) ∈ m -> e.1 <> x) as Hne.
  { intros z Hz <-. apply H1, elem_of_cons. right. apply elem_of_endpoints. exists (e.1, z). by split; [|left]. }
  apply elem_of_cons in Hv as [Hv|Hv]; apply elem_of_cons in Hw as [Hw|Hw].
  - congruence.
  - subst e. by apply Hne in Hw.
  - subst e. by apply Hne in Hv.
  - by apply IH.
Qed.

Lemma shapes_NoDup fuel vs : increasing vs -> NoDup (shapes_fuel fuel vs).
Proof.
  revert vs. induction fuel as [|f IH]; intros [|x vs] Hi; cbn [shapes_fuel];
    [apply NoDup_singleton|constructor|apply NoDup_singleton|].
  unfold py_sorted at 1. rewrite sorted_by_perm.
  pose proof Hi as Hi'. apply StronglySorted_inv in Hi as [Hi _].
  assert (forall p s, p ∈ partners [] vs -> s ∈ shapes_fuel f p.2 -> perfect_matching (x :: vs) (py_sorted ((x, p.1) :: s)))
    as Hmatch.
  { intros p s Hp Hs. eapply (shapes_sound (S f)); [done|]. cbn [shapes_fuel].
    unfold py_sorted at 2. rewrite elem_of_sorted_by, list_elem_of_bind. exists p. split; [|done].
    rewrite list_elem_of_bind. exists s. split; [by left|done]. }
  apply NoDup_bind.
  - intros p q m Hp Hq (s & ->%list_elem_of_singleton & Hs)%list_elem_of_bind (t & Ht%list_elem_of_singleton & Ht')%list_elem_of_bind.
    assert (p.1 = q.1) as Hpq.
    { apply (matching_partner (x :: vs) (py_sorted ((x, p.1) :: s)) x); [by apply increasing_NoDup|by apply Hmatch|..].
      - rewrite py_sorted_perm. by left.
      - rewrite Ht, py_sorted_perm. by left. }
    destruct p as [v r], q as [w r']. cbn in Hpq. subst w.
    apply elem_of_partners in Hp as (a & b & -> & ->), Hq as (c & d & Hab & ->). cbn.
    apply increasing_NoDup in Hi. f_equal.
    apply NoDup_app in Hi as (_ & Hd & [Hv _]%NoDup_cons).
    assert (v ∉ a) as Hva by (intros Hin; apply (Hd _ Hin); by left). clear Hd Hs Ht Ht' Hmatch Hi'.
    revert c Hab. induction a as [|y a IHa]; intros [|z c] Hab; cbn in *.
    + by injection Hab.
    + injection Hab as -> Hab. rewrite Hab in Hv. exfalso. set_solver.
    + injection Hab as -> _. exfalso. set_solver.
    + injection Hab as -> Hab. f_equal. apply IHa; [set_solver|done].
  - intros p Hp. apply NoDup_bind; [|intros; apply NoDup_singleton|].
    + intros s t m Hs Ht ->%list_elem_of_singleton Hm%list_elem_of_singleton.
      pose proof (partners_increasing _ _ Hi Hp) as Hip.
      destruct (shapes_sound _ _ _ Hip Hs) as (_ & _ & Hss), (shapes_sound _ _ _ Hip Ht) as (_ & _ & Hst).
      pose proof (py_le_antisymm (A := Edge) id (fun _ _ E => E)) as Hanti.
      apply (StronglySorted_unique (py_le id)); [done..|].
      apply (Permutation_cons_inv (a := (x, p.1))). by rewrite <- (py_sorted_perm ((x, p.1) :: s)), Hm, py_sorted_perm.
    + by apply IH, (partners_increasing vs).
  - eapply NoDup_fmap_1, partners_NoDup, increasing_NoDup, Hi.
Qed.

(** *** How many there are *)

(** [(n - 1) * (n - 3) * ...], down to 1 *)
Fixpoint pairings (n : nat) : nat :=
  match n with O => 1 | S O => 0 | S (S m as k) => k * pairings m end%nat.

Lemma partners_length (before after : list Z) :
  (length (partners before after) = length after /\
  forall p, p ∈ partners before after -> S (length p.2) = length before + length after)%nat.
Proof.
  split.
  - revert before. induction after as [|v after IH]; intros before; cbn; [done|]. by rewrite IH.
  - intros [v r] (a & b & -> & ->)%elem_of_partners. cbn. rewrite !length_app. cbn. lia.
Qed.

Lemma length_bind_const {A B} (f : A -> list B) k l :
  (forall x, x ∈ l -> length (f x) = k) -> length (l ≫= f) = (length l * k)%nat.
Proof.
  induction l as [|x l IH]; intros Hf; [done|]. cbn. rewrite length_app, (Hf x) by by left.
  rewrite IH; [done|]. intros y Hy. apply Hf. by right.
Qed.

Lemma shapes_length fuel vs : (length vs <= fuel)%nat -> length (shapes_fuel fuel vs) = pairings (length vs).
Proof.
  revert vs. induction fuel as [|f IH]; intros [|x vs] Hf; cbn [shapes_fuel]; [done|by cbn in Hf; lia|done|].
  unfold py_sorted at 1. rewrite length_sorted_by. cbn [length] in *.
  destruct (partners_length [] vs) as [Hl Hp].
  rewrite (length_bind_const _ (pairings (pred (length vs)))).
  - rewrite Hl. destruct vs; cbn; lia.
  - intros p Hin. specialize (Hp _ Hin). cbn in Hp.
    rewrite (length_bind_const _ 1) by done. rewrite IH by lia. rewrite <- Hp. cbn. lia.
Qed.

(** ** Placing the shapes on the vertices *)

(** An increasing renaming of the vertices renames the matchings. *)
Definition rename (h : Z -> Z) (m : list Edge) : list Edge := (fun e => (h e.1, h e.2)) <$> m.

Lemma endpoints_rename h m : endpoints (rename h m) = h <$> endpoints m.
Proof. induction m as [|e m IH]; [done|]. change (h e.1 :: h e.2 :: endpoints (rename h m) = h <$> e.1 :: e.2 :: endpoints m). by rewrite IH. Qed.

Lemma perfect_matching_rename h vs m :
  (forall x y, x ∈ vs -> y ∈ vs -> x < y -> h x < h y) ->
  perfect_matching vs m -> perfect_matching (h <$> vs) (rename h m).
Proof.
  intros Hh (He & Hlt & Hs).
  assert (forall e, e ∈ m -> e.1 ∈ vs /\ e.2 ∈ vs) as Hin.
  { intros e Hm. split; rewrite <- He; apply elem_of_endpoints; eauto. }
  assert (forall x y, x ∈ vs -> y ∈ vs -> x <= y -> h x <= h y) as Hle.
  { intros x y Hx Hy Hxy. destruct (decide (x = y)) as [->|]; [lia|]. specialize (Hh x y Hx Hy). lia. }
  split; [by rewrite endpoints_rename, He|]. rewrite Forall_forall in Hlt. split.
  - apply Forall_forall. intros e (f & -> & Hf)%list_elem_of_fmap. cbn. apply Hh; [by apply Hin..|by apply Hlt].
  - clear He Hlt. induction Hs as [|e m Hs IH Hf]; cbn; constructor; [apply IH; set_solver|].
    apply Forall_forall. intros f (f' & -> & Hf')%list_elem_of_fmap. rewrite Forall_forall in Hf.
    specialize (Hf f' Hf'). apply py_le_edge in Hf. apply py_le_edge. cbn.
    destruct (Hin e ltac:(by left)), (Hin f' ltac:(by right)). destruct Hf as [Hf|[Hf Hf2]].
    + left. by apply Hh.
    + right. rewrite Hf. split; [done|]. by apply Hle.
Qed.

Lemma increasing_lookup l i j x y : increasing l -> (i < j)%nat -> l !! i = Some x -> l !! j = Some y -> x < y.
Proof.
  intros Hl. revert i j. induction Hl as [|z l Hl IH Hz]; intros i j Hij Hx Hy; [done|]. rewrite Forall_forall in Hz.
  destruct j as [|j]; [lia|]. cbn in Hy. destruct i as [|i]; cbn in Hx.
  - injection Hx as <-. apply Hz. by eapply list_elem_of_lookup_2.
  - apply (IH i j); [lia|done..].
Qed.

Section Place.
Context (ordered : list Z) (Hord : increasing ordered).
Abbreviation n := (Z.of_nat (length ordered)).

Definition at_index (i : Z) : Z := default 0 (ordered !! Z.to_nat i).
Definition index_of (v : Z) : Z := default 0 ((fun p : nat * Z => Z.of_nat p.1) <$> list_find (eq v) ordered).

Lemma at_index_lt i j : 0 <= i -> i < j -> j < n -> at_index i < at_index j.
Proof.
  intros Hi Hij Hj. unfold at_index.
  destruct (lookup_lt_is_Some_2 ordered (Z.to_nat i)) as [x Hx]; [lia|].
  destruct (lookup_lt_is_Some_2 ordered (Z.to_nat j)) as [y Hy]; [lia|]. rewrite Hx, Hy. cbn.
  by apply (increasing_lookup ordered (Z.to_nat i) (Z.to_nat j)); [|lia|..].
Qed.

Lemma index_of_spec v : v ∈ ordered -> 0 <= index_of v < n /\ at_index (index_of v) = v.
Proof.
  intros Hv. unfold index_of. destruct (list_find_elem_of (eq v) ordered v Hv eq_refl) as [[i w] Hf].
  rewrite Hf. apply list_find_Some in Hf as (Hi & <- & _). cbn. unfold at_index. rewrite Nat2Z.id, Hi.
  apply lookup_lt_Some in Hi. split; [lia|done].
Qed.

Lemma index_of_lt v w : v ∈ ordered -> w ∈ ordered -> v < w -> index_of v < index_of w.
Proof.
  intros Hv Hw Hlt. destruct (index_of_spec v Hv) as [Hi Ei], (index_of_spec w Hw) as [Hj Ej].
  destruct (Z.lt_ge_cases (index_of v) (index_of w)) as [|Hge]; [done|].
  destruct (decide (index_of v = index_of w)) as [E|]; [rewrite E in Ei; lia|].
  pose proof (at_index_lt (index_of w) (index_of v)). lia.
Qed.

Lemma at_index_range : at_index <$> range 0 n = ordered.
Proof.
  apply list_eq. intros i. rewrite list_lookup_fmap. destruct (decide (i < length ordered)%nat) as [Hi|Hi].
  - unfold range. rewrite lookup_seqZ_lt by lia. cbn. unfold at_index. rewrite Z.add_0_l, Nat2Z.id.
    destruct (lookup_lt_is_Some_2 ordered i Hi) as [x Hx]. by rewrite Hx.
  - unfold range. rewrite lookup_seqZ_ge by lia. cbn. symmetry. apply lookup_ge_None. lia.
Qed.

Lemma place_rename m :
  (forall e, e ∈ m -> 0 <= e.1 /\ e.1 < e.2 /\ e.2 < n) -> place ordered m = Ok (rename at_index m).
Proof.
  induction m as [|[l r] m IH]; intros Hm; [done|]. cbn [place].
  destruct (Hm (l, r) ltac:(by left)) as (Hl & Hlr & Hr). cbn in Hl, Hlr, Hr.
  pose proof (at_index_lt l r ltac:(lia) Hlr Hr) as Hlt. unfold at_index in Hlt.
  destruct (py_index_in_range ordered l ltac:(lia)) as (u & Hu & ->).
  destruct (py_index_in_range ordered r ltac:(lia)) as (v & Hv & ->). rewrite Hu, Hv in Hlt. cbn in Hlt.
  cbn [mbind res_bind]. rewrite edge_lt_mk by done. cbn [mbind res_bind]. rewrite IH by set_solver.
  cbn. unfold at_index. by rewrite Hu, Hv.
Qed.

Lemma shape_in_range m e : perfect_matching (range 0 n) m -> e ∈ m -> 0 <= e.1 /\ e.1 < e.2 /\ e.2 < n.
Proof.
  intros (He & Hlt & _) Hm. rewrite Forall_forall in Hlt. specialize (Hlt _ Hm).
  assert (e.1 ∈ range 0 n) as H1%elem_of_range by (rewrite <- He; apply elem_of_endpoints; eauto).
  assert (e.2 ∈ range 0 n) as H2%elem_of_range by (rewrite <- He; apply elem_of_endpoints; eauto). lia.
Qed.

Lemma place_all_map shapes :
  (forall m, m ∈ shapes -> perfect_matching (range 0 n) m) -> place_all ordered shapes = Ok (rename at_index <$> shapes).
Proof.
  induction shapes as [|m shapes IH]; intros Hs; [done|]. cbn [place_all].
  rewrite place_rename by (intros e; apply shape_in_range, Hs; by left). cbn [mbind res_bind].
  by rewrite IH by (intros; apply Hs; by right).
Qed.

Lemma rename_index m :
  (forall x, x ∈ endpoints m -> x ∈ ordered) -> rename at_index (rename index_of m) = m.
Proof.
  unfold rename. induction m as [|[u v] m IH]; intros Hm; [done|]. cbn.
  rewrite (proj2 (index_of_spec u ltac:(apply Hm; by left))).
  rewrite (proj2 (index_of_spec v ltac:(apply Hm; by right; left))). f_equal. apply IH.
  intros x Hx. apply Hm. rewrite endpoints_cons. by right; right.
Qed.

Lemma index_at i : 0 <= i < n -> index_of (at_index i) = i.
Proof.
  intros Hi. assert (at_index i ∈ ordered) as Hin.
  { unfold at_index. destruct (lookup_lt_is_Some_2 ordered (Z.to_nat i)) as [x Hx]; [lia|]. rewrite Hx. cbn.
    by eapply list_elem_of_lookup_2. }
  destruct (index_of_spec _ Hin) as [Hj Ej]. destruct (Z.lt_trichotomy (index_of (at_index i)) i) as [Hlt|[|Hlt]]; [|done|].
  - pose proof (at_index_lt _ i ltac:(apply Hj) Hlt ltac:(lia)). lia.
  - pose proof (at_index_lt i _ ltac:(lia) Hlt ltac:(apply Hj)). lia.
Qed.

Lemma index_of_ordered : index_of <$> ordered = range 0 n.
Proof.
  transitivity (index_of <$> (at_index <$> range 0 n)); [by rewrite at_index_range|].
  rewrite <- list_fmap_compose. rewrite <- (list_fmap_id (range 0 n)) at 2. apply list_fmap_ext.
  intros i x Hx%list_elem_of_lookup_2%elem_of_range. by apply index_at.
Qed.
End Place.

(** ** The listing *)

Lemma increasing_range a b : increasing (range a b).
Proof.
  unfold increasing. remember (Z.to_nat (b - a)) as n eqn:Hn. revert a Hn.
  induction n as [|n IH]; intros a Hn; [rewrite range_nil by lia; constructor|].
  rewrite range_cons by lia. constructor; [apply IH; lia|]. apply Forall_forall.
  intros x Hx%elem_of_range. lia.
Qed.

Lemma sorted_increasing (l : list Z) : NoDup l -> increasing (py_sorted l).
Proof.
  intros Hn. pose proof (py_sorted_sorted l) as Hs. rewrite <- (py_sorted_perm l) in Hn.
  unfold increasing. induction Hs as [|x k Hs IH Hx]; constructor.
  - apply IH. by apply NoDup_cons in Hn as [_ ?].
  - apply NoDup_cons in Hn as [Hxk _]. apply Forall_forall. intros y Hy. rewrite Forall_forall in Hx.
    specialize (Hx _ Hy). unfold py_le in Hx. cbn in Hx. apply Z.le_lteq in Hx as [|<-]; [done|by contradict Hxk].
Qed.

Lemma perfect_matching_perm vs vs' m : vs ≡ₚ vs' -> perfect_matching vs m <-> perfect_matching vs' m.
Proof. intros Hp. unfold perfect_matching. by rewrite Hp. Qed.

Lemma shapes_spec vs m : increasing vs -> m ∈ _perfect_matching_shapes vs <-> perfect_matching vs m.
Proof. intros Hi. split; [by apply shapes_sound|]. by apply shapes_complete. Qed.

Lemma sorted_matchings ordered : increasing ordered ->
  exists ms, _perfect_matchings_sorted ordered = Ok ms /\ NoDup ms /\ length ms = pairings (length ordered) /\
    forall m, m ∈ ms <-> perfect_matching ordered m.
Proof.
  intros Hi. set (n := Z.of_nat (length ordered)). set (shapes := _perfect_matching_shapes (range 0 n)).
  assert (forall m, m ∈ shapes <-> perfect_matching (range 0 n) m) as Hsh by (intros; apply shapes_spec, increasing_range).
  exists (rename (at_index ordered) <$> shapes). split_all.
  - pose proof (place_all_map ordered Hi shapes ltac:(intros m; apply Hsh)) as Hp.
    unfold _perfect_matchings_sorted. fold n. fold shapes. rewrite Hp. by destruct ordered.
  - apply NoDup_fmap_2_strong; [|apply shapes_NoDup, increasing_range].
    intros m m' Hm%Hsh Hm'%Hsh E. assert (forall k, perfect_matching (range 0 n) k ->
      rename (index_of ordered) (rename (at_index ordered) k) = k) as Hinv.
    { intros k Hk. unfold rename. rewrite <- list_fmap_compose. rewrite <- (list_fmap_id k) at 2.
      apply list_fmap_ext. intros i [u v] Hik%list_elem_of_lookup_2. apply (shape_in_range ordered _ _ Hk) in Hik. cbn in *.
      rewrite !index_at by (done || lia). done. }
    rewrite <- (Hinv m), <- (Hinv m') by done. by rewrite E.
  - rewrite length_fmap. unfold shapes, _perfect_matching_shapes. rewrite shapes_length by done.
    f_equal. rewrite length_range. lia.
  - intros m. rewrite list_elem_of_fmap. split.
    + intros (s & -> & Hs%Hsh). rewrite <- (at_index_range ordered) at 1. apply perfect_matching_rename; [|done].
      intros x y Hx%elem_of_range Hy%elem_of_range ?. apply at_index_lt; [done|lia..].
    + intros Hm. exists (rename (index_of ordered) m). split.
      * symmetry. apply rename_index. destruct Hm as (He & _). intros x. by rewrite He.
      * apply Hsh. unfold n. rewrite <- (index_of_ordered ordered Hi) at 1.
        apply perfect_matching_rename; [|done]. by apply index_of_lt.
Qed.

(** [_perfect_matchings] lists every perfect matching of a set of vertices
    exactly once: an even number n of vertices has (n - 1)(n - 3)...1 of them,
    an odd number none. *)
Theorem perfect_matchings_correct vertices :
  NoDup vertices ->
  exists ms, _perfect_matchings vertices = Ok ms /\ NoDup ms /\ length ms = pairings (length vertices) /\
    forall m, m ∈ ms <-> perfect_matching vertices m.
Proof.
  intros Hn. destruct (sorted_matchings (py_sorted vertices) (sorted_increasing _ Hn)) as (ms & H1 & H2 & H3 & H4).
  exists ms. split_all; [done..|by rewrite H3, py_sorted_perm|].
  intros m. rewrite H4. apply perfect_matching_perm, py_sorted_perm.
Qed.

Lemma perfect_matchings_correct_witness :
  exists ms, _perfect_matchings [7; 3; 5; 1] = Ok ms /\ NoDup ms /\ length ms = 3%nat /\
    forall m, m ∈ ms <-> perfect_matching [7; 3; 5; 1] m.
Proof. apply (perfect_matchings_correct [7; 3; 5; 1]). apply (bool_decide_unpack (NoDup [7; 3; 5; 1])). vm_compute. exact I. Defined.
