(* ===== verification/Features.v ===== *)
(** * Features of a proposal

    [src/src/sglab/research/proposal_ranking.py]: the limits of the features,
    [_GraphLocalFeatures] (sampled cycles, edge loads) and [_FeatureSnapshot]
    (distances, local risks, payload). A snapshot shares the two distance caches
    with the features of its graph: the caches are part of the state that an
    operation hands on. A Python set of integers is a [gset]; the order in which
    the code iterates over one is a parameter, [set_iter]. *)

From stdpp Require Import gmap.
From S2P Require Import Prelude Floats Json Bits Model Cycles Order Matchings.

#[global] Open Scope Z_scope.

(** ** [FeatureLimits] *)

Definition FROZEN_FORBIDDEN_LENGTHS : list Z := [4; 5; 6; 7; 8; 9].
Definition FROZEN_WITNESS_SAMPLE_CAP : Z := 32.
Definition FROZEN_CYCLE_NODE_BUDGET : Z := 20000.
Definition FROZEN_DISTANCE_QUERY_BUDGET : Z := 256.
Definition FROZEN_LOCAL_RISK_BUDGET : Z := 2048.

Record FeatureLimits := mkFeatureLimits {
  forbidden_lengths : list Z;
  witness_sample_cap : Z;
  cycle_node_budget : Z;
  distance_query_budget : Z;
  local_risk_budget : Z
}.

Definition default_limits : FeatureLimits :=
  mkFeatureLimits FROZEN_FORBIDDEN_LENGTHS FROZEN_WITNESS_SAMPLE_CAP FROZEN_CYCLE_NODE_BUDGET
    FROZEN_DISTANCE_QUERY_BUDGET FROZEN_LOCAL_RISK_BUDGET.

Definition check_feature_limits (l : FeatureLimits) : res FeatureLimits :=
  raise_if (negb (bool_decide (forbidden_lengths l = FROZEN_FORBIDDEN_LENGTHS))) (ValueError "forbidden lengths are frozen to 4..9") ;;;
  raise_if (negb (witness_sample_cap l =? FROZEN_WITNESS_SAMPLE_CAP)) (ValueError "witness sample cap is frozen to 32") ;;;
  raise_if (negb (cycle_node_budget l =? FROZEN_CYCLE_NODE_BUDGET)) (ValueError "cycle-node budget is frozen to 20000") ;;;
  raise_if (negb (distance_query_budget l =? FROZEN_DISTANCE_QUERY_BUDGET)) (ValueError "distance-query budget is frozen to 256") ;;;
  raise_if (negb (local_risk_budget l =? FROZEN_LOCAL_RISK_BUDGET)) (ValueError "local-risk budget is frozen to 2048") ;;;
  Ok l.

(** ** [_GraphLocalFeatures] *)

Definition card (s : gset (list Z)) : Z := Z.of_nat (stdpp.base.size s).

(** The facts of a graph that no operation changes *)
Record Features := mkFeatures {
  f_graph : BitGraph;
  f_adj : list (gset Z);
  witnesses : list (Z * list (list Z));
  edge_loads : list (Z * gmap Edge Z);
  total_edge_loads : gmap Edge Z;
  loaded_edges : list Edge;
  cycle_nodes : Z;
  sampled_witnesses : Z;
  cycle_budget_exhausted : bool
}.

(** The caches every snapshot of the graph shares *)
Record Caches := mkCaches {
  distance_cache : gmap Edge Z;
  edge_distance_cache : gmap (Edge * Edge) Z
}.

Definition adjacency (g : BitGraph) : list (gset Z) := (fun u => list_to_set (neighbors g u)) <$> range 0 (gn g).

(** [self.cycle_nodes], [found], [stopped] and [self.cycle_budget_exhausted] *)
Record Walk := mkWalk { nodes : Z; found : gset (list Z); stopped : bool; exhausted : bool }.

Section Walk.
Context (g : BitGraph) (nb : list (gset Z)) (limits : FeatureLimits) (len : Z).

(** [visit]; a path grows to [length] vertices, so [length] is enough fuel *)
Fixpoint visit (fuel : nat) (start : Z) (path : list Z) (last visited : Z) (s : Walk) : res Walk :=
  if stopped s then Ok s
  else if cycle_node_budget limits <=? nodes s then Ok (mkWalk (nodes s) (found s) true true)
  else
    let s := mkWalk (nodes s + 1) (found s) (stopped s) (exhausted s) in
    if Z.of_nat (length path) =? len then
      around ← py_index nb last;
      if bool_decide (start ∈ around) then
        c ← _canonical_cycle path;
        let found' := {[c]} ∪ found s in
        Ok (mkWalk (nodes s) found' (stopped s || (witness_sample_cap limits <=? card found')) (exhausted s))
      else Ok s
    else
      match fuel with
      | O => Ok s
      | S f =>
          foldM (fun s nxt => visit f start (path ++ [nxt]) nxt (Z.lor visited (bit nxt)) s) s
            (bits_of (Z.land (row g last) (Z.lnot visited)))
      end.

(** [for start in range(graph.n)], left once the walk has stopped *)
Fixpoint visit_starts (starts : list Z) (s : Walk) : res Walk :=
  match starts with
  | [] => Ok s
  | start :: starts' =>
      s' ← visit (Z.to_nat len) start [start] start (bit start) s;
      if stopped s' then Ok s' else visit_starts starts' s'
  end.
End Walk.

(** The sampled cycles of one length, with the counters handed on *)
Definition sample_length (g : BitGraph) (nb : list (gset Z)) (limits : FeatureLimits)
    (acc : list (Z * list (list Z)) * Z * bool) (len : Z) : res (list (Z * list (list Z)) * Z * bool) :=
  s ← visit_starts g nb limits len (range 0 (gn g)) (mkWalk acc.1.2 ∅ false acc.2);
  Ok (acc.1.1 ++ [(len, take (Z.to_nat (witness_sample_cap limits)) (py_sorted (elements (found s))))], nodes s, exhausted s).

(** [loads[_edge(u, cycle[(i + 1) % length])] += 1] around a cycle *)
Definition add_load (cycle : list Z) (len : Z) (loads : gmap Edge Z) (iu : Z * Z) : res (gmap Edge Z) :=
  v ← py_index cycle ((iu.1 + 1) mod len);
  e ← _edge iu.2 v;
  Ok (<[e := default 0 (loads !! e) + 1]> loads).

Definition loads_of (w : Z * list (list Z)) : res (Z * gmap Edge Z) :=
  loads ← foldM (fun loads cycle => foldM (add_load cycle w.1) loads (enumerate cycle)) ∅ w.2;
  Ok (w.1, loads).

Definition add_total (total loads : gmap Edge Z) : gmap Edge Z := union_with (fun a b => Some (a + b)) total loads.

Definition load_key (total : gmap Edge Z) (e : Edge) : Z * Edge := (- default 0 (total !! e), e).

Definition local_features (g : BitGraph) (limits : FeatureLimits) : res Features :=
  let nb := adjacency g in
  r ← foldM (sample_length g nb limits) ([], 0, false) (forbidden_lengths limits);
  let ws := r.1.1 in
  loads ← mapM loads_of ws;
  let total := foldl add_total ∅ loads.*2 in
  Ok (mkFeatures g nb ws loads total (sorted_by (load_key total) (edges g)) r.1.2
    (foldl (fun n w => n + Z.of_nat (length w)) 0 ws.*2) r.2).

(** ** [_FeatureSnapshot] *)

Record Snap := mkSnap {
  caches : Caches;
  distance_queries : Z;
  distance_hits : Z;
  local_ops : Z;
  distance_budget_exhausted : bool;
  local_budget_exhausted : bool
}.

Definition new_snapshot (c : Caches) : Snap := mkSnap c 0 0 0 false false.

(** Operations on a snapshot *)
Definition M (A : Type) : Type := Snap -> res (A * Snap).

#[export] Instance M_ret : MRet M := fun A a s => Ok (a, s).
#[export] Instance M_bind : MBind M := fun A B f m s => r ← m s; f r.1 r.2.

Definition lift {A} (r : res A) : M A := fun s => a ← r; Ok (a, s).

Definition with_distance (s : Snap) (k : Edge) (d : Z) : Snap :=
  mkSnap (mkCaches (<[k := d]> (distance_cache (caches s))) (edge_distance_cache (caches s)))
    (distance_queries s + 1) (distance_hits s) (local_ops s) (distance_budget_exhausted s) (local_budget_exhausted s).
Definition with_hit (s : Snap) : Snap :=
  mkSnap (caches s) (distance_queries s) (distance_hits s + 1) (local_ops s) (distance_budget_exhausted s) (local_budget_exhausted s).
Definition with_exhausted (s : Snap) : Snap :=
  mkSnap (caches s) (distance_queries s) (distance_hits s) (local_ops s) true (local_budget_exhausted s).
Definition with_edge_distance (s : Snap) (k : Edge * Edge) (d : Z) : Snap :=
  mkSnap (mkCaches (distance_cache (caches s)) (<[k := d]> (edge_distance_cache (caches s))))
    (distance_queries s) (distance_hits s) (local_ops s) (distance_budget_exhausted s) (local_budget_exhausted s).
Definition with_local (s : Snap) (ops : Z) (full : bool) : Snap :=
  mkSnap (caches s) (distance_queries s) (distance_hits s) ops (distance_budget_exhausted s) (local_budget_exhausted s || full).

(** The breadth-first loop of [distance]: [q] and [seen]; [n] is the result when
    the queue runs empty. Each vertex is queued once, so [n + 1] turns are
    enough. *)
Fixpoint distance_loop (fuel : nat) (nb : list (gset Z)) (n right : Z) (q : list (Z * Z)) (seen : gset Z) : res Z :=
  match fuel, q with
  | S f, (u, d) :: q' =>
      if u =? right then Ok d
      else
        around ← py_index nb u;
        let fresh := filter (fun v => v ∉ seen) (py_sorted (elements around)) in
        distance_loop f nb n right (q' ++ ((fun v => (v, d + 1)) <$> fresh)) (seen ∪ list_to_set fresh)
  | _, _ => Ok n
  end.

Section Snapshot.
Context (set_iter : gset Z -> list Z) (limits : FeatureLimits) (base : Features).
Abbreviation g := (f_graph base).

Definition distance (left right : Z) : M Z := fun s =>
  if left =? right then Ok (0, s)
  else
    key ← _edge left right;
    match distance_cache (caches s) !! key with
    | Some d => Ok (d, with_hit s)
    | None =>
        if distance_query_budget limits <=? distance_queries s then Ok (gn g, with_exhausted s)
        else
          d ← distance_loop (S (Z.to_nat (gn g))) (f_adj base) (gn g) right [(left, 0)] {[left]};
          Ok (d, with_distance s key d)
    end.

Definition edge_key (left right : Edge) : Edge * Edge :=
  match cmp left right with Gt => (right, left) | _ => (left, right) end.

Definition edge_distance (left right : Edge) : M Z := fun s =>
  let key := edge_key left right in
  match edge_distance_cache (caches s) !! key with
  | Some d => Ok (d, s)
  | None =>
      r ← mapM (fun uv => distance uv.1 uv.2)
        [(left.1, right.1); (left.1, right.2); (left.2, right.1); (left.2, right.2)] s;
      value ← match py_min r.1 with Some m => Ok m | None => Raise (ValueError "min() iterable argument is empty") end;
      Ok (value, with_edge_distance r.2 key value)
  end.

(** *** [local_risks] *)

(** The adjacency after a rewrite: [writable(u).discard(v)], [writable(u).add(v)] *)
Definition discard (nb : list (gset Z)) (u v : Z) : res (list (gset Z)) :=
  a ← py_index nb u; py_store nb u (a ∖ {[v]}).
Definition insert_neighbor (nb : list (gset Z)) (u v : Z) : res (list (gset Z)) :=
  a ← py_index nb u; py_store nb u (a ∪ {[v]}).

Definition rewritten (nb : list (gset Z)) (removed added : list Edge) : res (list (gset Z)) :=
  nb1 ← foldM (fun a e => a' ← discard a e.1 e.2; discard a' e.2 e.1) nb removed;
  foldM (fun a e => a' ← insert_neighbor a e.1 e.2; insert_neighbor a' e.2 e.1) nb1 added.

(** [triangles], [squares], [self.local_ops], and whether the method has returned *)
Record Risk := mkRisk { triangles : gset (list Z); squares : gset (list Z); ops : Z; returned : bool }.

Definition risk_second (nb : list (gset Z)) (u v first : Z) (r : Risk) (second : Z) : res Risk :=
  if returned r then Ok r
  else if local_risk_budget limits <=? ops r then Ok (mkRisk (triangles r) (squares r) (ops r) true)
  else
    let r := mkRisk (triangles r) (squares r) (ops r + 1) false in
    if second =? v then Ok r
    else
      a ← py_index nb second;
      if bool_decide (v ∈ a) then
        c ← _canonical_cycle [u; first; second; v];
        Ok (mkRisk (triangles r) ({[c]} ∪ squares r) (ops r) false)
      else Ok r.

Definition risk_first (nb : list (gset Z)) (u v : Z) (r : Risk) (first : Z) : res Risk :=
  if returned r then Ok r
  else
    a ← py_index nb first;
    foldM (risk_second nb u v first) r (set_iter (a ∖ {[u]})).

Definition risk_triangle (u v : Z) (r : Risk) (m : Z) : res Risk :=
  c ← _canonical_cycle [u; m; v];
  Ok (mkRisk ({[c]} ∪ triangles r) (squares r) (ops r) (returned r)).

Definition risk_edge (nb : list (gset Z)) (r : Risk) (e : Edge) : res Risk :=
  let '(u, v) := e in
  if returned r then Ok r
  else
    au ← py_index nb u; av ← py_index nb v;
    r ← foldM (risk_triangle u v) r (set_iter (au ∩ av));
    foldM (risk_first nb u v) r (set_iter (au ∖ {[v]})).

Definition local_risks (removed added : list Edge) : M (Z * Z) := fun s =>
  if local_budget_exhausted s then Ok ((0, 0), s)
  else
    nb ← rewritten (f_adj base) removed added;
    r ← foldM (risk_edge nb) (mkRisk ∅ ∅ (local_ops s) false) added;
    Ok ((card (triangles r), card (squares r)), with_local s (ops r) (returned r)).

(** *** [payload] *)

(** [combinations(removed, 2)] *)
Fixpoint combinations2 {A} (l : list A) : list (A * A) :=
  match l with [] => [] | x :: l' => ((fun y => (x, y)) <$> l') ++ combinations2 l' end.

(** [any(_edge(v, c[(i + 1) % length]) in rem for i, v in enumerate(c))] *)
Fixpoint breaks (rem c : list Z) (removed : list Edge) (len i : Z) : res bool :=
  match rem with
  | [] => Ok false
  | v :: rem' =>
      w ← py_index c ((i + 1) mod len); e ← _edge v w;
      if bool_decide (e ∈ removed) then Ok true else breaks rem' c removed len (i + 1)
  end.

Definition broken_count (removed : list Edge) (w : Z * list (list Z)) : res Z :=
  foldM (fun n c => b ← breaks c c removed w.1 0; Ok (if (b : bool) then n + 1 else n)) 0 w.2.

Definition sum (l : list Z) : Z := foldl Z.add 0 l.
Definition max_default (l : list Z) : Z := default 0 (max_by id l).
Definition min_default (l : list Z) : Z := default 0 (py_min l).

Definition loads_at (loads : gmap Edge Z) (removed : list Edge) : list Z := (fun e => default 0 (loads !! e)) <$> removed.

Definition mean (l : list Z) : res float :=
  match l with [] => Ok (f_lit 0) | _ => py_truediv (sum l) (Z.of_nat (length l)) end.

Definition ints (l : list Z) : json := JList (JInt <$> l).
Definition opt_int (o : option Z) : json := match o with Some z => JInt z | None => JNull end.

Definition PROPOSAL_SCHEMA_VERSION : string := "stage2b.proposal.v1".

(** [f"legal_{k}_switch"] *)
Definition family_name (k : Z) : string := ("legal_" ++ pretty k ++ "_switch")%string.

(** The dictionary that [payload] returns *)
Definition proposal_fields (pid : string) (k : Z) (selector : string) (anchor : option Z) (broken load_sum load_max : list Z)
    (min_removed : Z) (mean_removed : float) (min_new : Z) (mean_new : float) (risks : Z * Z) : list (string * json) :=
  [("schema_version", JStr PROPOSAL_SCHEMA_VERSION); ("proposal_id", JStr pid); ("k", JInt k);
    ("operator_family", JStr (family_name k)); ("selector_tags", JList [JStr selector]);
    ("anchor_forbidden_length", opt_int anchor); ("broken_sampled_witnesses_by_length", ints broken);
    ("removed_edge_load_sum_by_length", ints load_sum); ("removed_edge_load_max_by_length", ints load_max);
    ("minimum_distance_between_removed_edges", JInt min_removed); ("mean_distance_between_removed_edges", JFloat mean_removed);
    ("minimum_preexisting_distance_for_new_edges", JInt min_new); ("mean_preexisting_distance_for_new_edges", JFloat mean_new);
    ("local_triangle_risk", JInt risks.1); ("local_c4_risk", JInt risks.2); ("reconnection_span", JFloat mean_new)]%string.

Definition payload (pid : string) (removed added : list Edge) (selector : string) (k : Z) (anchor : option Z) :
    M (list (string * json)) :=
  rd ← mapM (fun p => edge_distance p.1 p.2) (combinations2 removed);
  nd ← mapM (fun e => distance e.1 e.2) added;
  risks ← local_risks removed added;
  broken ← lift (mapM (broken_count removed) (witnesses base));
  let loads := (fun l => loads_at l.2 removed) <$> edge_loads base in
  mean_removed ← lift (mean rd);
  mean_new ← lift (mean nd);
  mret (proposal_fields pid k selector anchor broken (sum <$> loads) (max_default <$> loads)
    (min_default rd) mean_removed (min_default nd) mean_new risks).
End Snapshot.
