(* ===== verification/Distances.v ===== *)
(** * Distances are shortest-path lengths

    [distance] of [_FeatureSnapshot] returns the number of edges of a shortest
    path, the order of the graph when there is none, and the order of the graph
    too once its query budget is used up. [edge_distance] stores its answers
    beyond the pool that computed them, the last kind of answer included. *)

From stdpp Require Import gmap relations sorting.
From S2P Require Import Prelude Model Order Matchings Features.

#[global] Open Scope Z_scope.

Lemma from_edges_wf n es g : from_edges n es = Ok g -> wf g.
Proof.
  intros H. destruct (from_edges_inv _ _ _ H) as [Hn Hs]. destruct (from_edges_total n es Hn Hs) as (h & Hh & Hwf & _).
  congruence.
Qed.

(** ** What a distance is *)

Definition hops (g : BitGraph) : nat -> Z -> Z -> Prop := nsteps (edge_rel g).

Definition shortest (g : BitGraph) (u v : Z) (d : nat) : Prop :=
  hops g d u v /\ forall k, hops g k u v -> (d <= k)%nat.

(** The order of the graph stands for no path: every distance is smaller. *)
Definition distance_value (g : BitGraph) (u v z : Z) : Prop :=
  (exists d, z = Z.of_nat d /\ z < gn g /\ shortest g u v d) \/ (z = gn g /\ forall d, ~ hops g d u v).

(** The least distance between an end of one edge and an end of the other *)
Definition edge_value (g : BitGraph) (e f : Edge) (z : Z) : Prop :=
  (exists u v, u ∈ [e.1; e.2] /\ v ∈ [f.1; f.2] /\ distance_value g u v z) /\
  forall u v y, u ∈ [e.1; e.2] -> v ∈ [f.1; f.2] -> distance_value g u v y -> z <= y.

Lemma hops_sym g d u v : wf g -> hops g d u v -> hops g d v u.
Proof.
  intros Hg. unfold hops. revert u. induction d as [|d IH]; intros u H; inversion H as [|? ? y ? Hu Hy]; subst.
  { constructor. }
  apply (nsteps_r d v y u); [by apply IH|]. unfold edge_rel in *. by rewrite (wf_sym g Hg).
Qed.

Lemma distance_value_sym g u v z : wf g -> distance_value g u v z -> distance_value g v u z.
Proof.
  intros Hg [(d & -> & Hn & Hd & Hmin)|[-> Hno]].
  - left. exists d. split_all; [done..|]. split; [by apply hops_sym|]. intros k Hk. by apply Hmin, hops_sym.
  - right. split; [done|]. intros d Hd. by apply (Hno d), hops_sym.
Qed.

Lemma distance_value_unique g u v x y : distance_value g u v x -> distance_value g u v y -> x = y.
Proof.
  intros [(d & -> & _ & Hd & Hmin)|[-> Hno]] [(e & -> & _ & He & Hmin')|[-> Hno']].
  - specialize (Hmin _ He). specialize (Hmin' _ Hd). lia.
  - by destruct (Hno' d).
  - by destruct (Hno e).
  - done.
Qed.

Lemma distance_value_refl g u : 0 < gn g -> distance_value g u u 0.
Proof. intros Hn. left. exists 0%nat. split_all; [done..|]. split; [constructor|lia]. Qed.

Lemma distance_value_range g u v z : 0 <= gn g -> distance_value g u v z -> 0 <= z <= gn g.
Proof. intros Hn [(d & -> & ? & _)|[-> _]]; lia. Qed.

Lemma py_index_adjacency g u : wf g -> vertex g u ->
  exists a, py_index (adjacency g) u = Ok a /\ forall v, v ∈ a <-> adj g u v = true.
Proof.
  intros Hg Hu. unfold adjacency. exists (list_to_set (neighbors g u)). split.
  - destruct (py_index_in_range ((fun u => list_to_set (C := gset Z) (neighbors g u)) <$> range 0 (gn g)) u) as (a & Ha & ->).
    { rewrite length_fmap, length_range. destruct Hu. lia. }
    rewrite list_lookup_fmap in Ha. unfold range in Ha. destruct Hu as [H0 Hn].
    rewrite lookup_seqZ_lt in Ha by lia. cbn [fmap option_fmap option_map] in Ha. rewrite Z2Nat.id, Z.add_0_l in Ha by done. by injection Ha as <-.
  - intros v. rewrite elem_of_list_to_set. by apply elem_of_neighbors.
Qed.

(** ** The breadth-first loop *)

Definition queue_order (a b : Z * Z) : Prop := a.2 <= b.2 <= a.2 + 1.

(** The next layer goes to the end of the queue. *)
Lemma queue_sorted d q l :
  (forall b, b ∈ q -> d <= b.2 <= d + 1) -> StronglySorted queue_order q ->
  StronglySorted queue_order (q ++ ((fun v => (v, d + 1)) <$> l)).
Proof.
  intros Hd Hs. induction Hs as [|a q Hs IH Ha]; cbn [app].
  - induction l as [|v l IHl]; cbn; constructor; [apply IHl|].
    apply Forall_forall. intros b (w & -> & _)%list_elem_of_fmap. unfold queue_order. cbn. lia.
  - constructor; [apply IH; intros b Hb; apply Hd; by right|]. apply Forall_app. split; [done|].
    apply Forall_forall. intros b (w & -> & _)%list_elem_of_fmap. specialize (Hd a ltac:(by left)).
    unfold queue_order. cbn. lia.
Qed.

Section Bfs.
Context (g : BitGraph) (Hg : wf g) (left right : Z) (Hl : vertex g left).

(** [P] are the vertices taken from the queue so far. *)
Record dinv (P : list Z) (q : list (Z * Z)) (seen : gset Z) : Prop := {
  d_label : forall v d, (v, d) ∈ q -> exists k, d = Z.of_nat k /\ (k <= length P)%nat /\ shortest g left v k;
  d_sorted : StronglySorted queue_order q;
  d_seen : forall v, v ∈ seen <-> v ∈ P \/ v ∈ q.*1;
  d_nodup : NoDup (P ++ q.*1);
  d_vertex : forall v, v ∈ seen -> vertex g v;
  d_closed : forall x y, x ∈ P -> adj g x y = true -> y ∈ seen;
  d_left : left ∈ seen;
  d_right : right ∉ P
}.

Lemma dinv_start : dinv [] [(left, 0)] {[left]}.
Proof.
  split; cbn; try set_solver.
  - intros v d [= -> ->]%list_elem_of_singleton. exists 0%nat. split_all; [done..|]. split; [constructor|lia].
  - repeat constructor.
  - apply NoDup_singleton.
Qed.

Lemma dinv_room P q seen : dinv P q seen -> (length P + length q <= Z.to_nat (gn g))%nat.
Proof.
  intros I. pose proof (wf_n g Hg). rewrite <- (length_fmap fst q), <- length_app.
  replace (Z.to_nat (gn g)) with (length (range 0 (gn g))) by (rewrite length_range; lia).
  apply submseteq_length, NoDup_submseteq; [apply (d_nodup _ _ _ I)|].
  intros x Hx%elem_of_app. apply elem_of_range, (d_vertex _ _ _ I), (d_seen _ _ _ I). done.
Qed.

(** A vertex not seen yet is farther than the head of the queue. *)
Lemma dinv_unseen P u d q seen k w :
  dinv P ((u, d) :: q) seen -> hops g k left w -> w ∉ seen -> d < Z.of_nat k.
Proof.
  intros I. revert w. induction k as [|k IH]; intros w Hk Hw.
  { inversion Hk; subst. by destruct Hw; apply (d_left _ _ _ I). }
  apply nsteps_inv_r in Hk as (x & Hx & Hxw). destruct (decide (x ∈ seen)) as [Hs|Hs]; [|specialize (IH x Hx Hs); lia].
  apply (d_seen _ _ _ I) in Hs as [Hp|Hq]; [by destruct Hw; apply (d_closed _ _ _ I x)|].
  apply list_elem_of_fmap in Hq as ([x' dx] & -> & Hin). cbn in Hx.
  destruct (d_label _ _ _ I x' dx Hin) as (kx & -> & _ & _ & Hmin). specialize (Hmin _ Hx).
  apply elem_of_cons in Hin as [[= <- <-]|Hin]; [lia|].
  pose proof (d_sorted _ _ _ I) as Hs. apply StronglySorted_inv in Hs as [_ Hs]. rewrite Forall_forall in Hs.
  specialize (Hs _ Hin). unfold queue_order in Hs. cbn in Hs. lia.
Qed.

Section Step.
Context P u d q seen (I : dinv P ((u, d) :: q) seen) (Hne : u <> right).
Context (around : gset Z) (Ha : forall v, v ∈ around <-> adj g u v = true).

Abbreviation fresh := (filter (fun v => v ∉ seen) (py_sorted (elements around))).

Lemma elem_of_fresh v : v ∈ fresh <-> v ∉ seen /\ adj g u v = true.
Proof. rewrite list_elem_of_filter, py_sorted_perm, elem_of_elements. by rewrite Ha. Qed.

Lemma NoDup_fresh : NoDup fresh.
Proof. apply NoDup_filter. rewrite py_sorted_perm. apply NoDup_elements. Qed.

Lemma fresh_label v : v ∈ fresh -> exists k, d + 1 = Z.of_nat k /\ (k <= S (length P))%nat /\ shortest g left v k.
Proof.
  intros [Hv Huv]%elem_of_fresh. destruct (d_label _ _ _ I u d) as (k & -> & Hk & Hu & _); [by left|].
  exists (S k). split; [lia|]. split; [lia|]. split; [by eapply nsteps_r|].
  intros j Hj. pose proof (dinv_unseen _ _ _ _ _ _ _ I Hj Hv). lia.
Qed.

Lemma dinv_step : dinv (P ++ [u]) (q ++ ((fun v => (v, d + 1)) <$> fresh)) (seen ∪ list_to_set fresh).
Proof.
  assert (u ∈ seen) as Hu by (apply (d_seen _ _ _ I); right; by left).
  assert ((((fun v => (v, d + 1)) <$> fresh).*1) = fresh) as Hfst.
  { rewrite <- list_fmap_compose. apply list_fmap_id. }
  split.
  - intros v e Hv. rewrite length_app. cbn. apply elem_of_app in Hv as [Hv|Hv].
    + destruct (d_label _ _ _ I v e) as (k & -> & ? & ?); [by right|]. exists k. split_all; [done|lia|done].
    + apply list_elem_of_fmap in Hv as (w & [= -> ->] & Hw). destruct (fresh_label w Hw) as (k & -> & ? & ?).
      exists k. split_all; [done|lia|done].
  - pose proof (d_sorted _ _ _ I) as [Hs Hd]%StronglySorted_inv. rewrite Forall_forall in Hd.
    apply queue_sorted; [|done]. intros b Hb. apply (Hd b Hb).
  - intros v. rewrite elem_of_union, elem_of_list_to_set, fmap_app, !elem_of_app, Hfst, list_elem_of_singleton.
    rewrite (d_seen _ _ _ I v). cbn. rewrite elem_of_cons. tauto.
  - rewrite fmap_app, Hfst, <- app_assoc. cbn. pose proof (d_nodup _ _ _ I) as Hn. cbn in Hn.
    rewrite app_comm_cons, app_assoc. apply NoDup_app. split_all; [done| |apply NoDup_fresh].
    intros x Hx [Hf _]%elem_of_fresh. apply Hf, (d_seen _ _ _ I). by apply elem_of_app in Hx.
  - intros v [Hv|Hv]%elem_of_union; [by apply (d_vertex _ _ _ I)|].
    apply elem_of_list_to_set, elem_of_fresh in Hv as [_ Hv]. by apply (wf_range g Hg) in Hv as [_ ?].
  - intros x y [Hx|Hx]%elem_of_app Hxy; apply elem_of_union.
    + left. by apply (d_closed _ _ _ I x).
    + apply list_elem_of_singleton in Hx as ->. destruct (decide (y ∈ seen)) as [|Hy]; [by left|]. right.
      by apply elem_of_list_to_set, elem_of_fresh.
  - apply elem_of_union_l, (d_left _ _ _ I).
  - pose proof (d_right _ _ _ I). set_solver.
Qed.
End Step.

Lemma distance_loop_spec fuel P q seen :
  dinv P q seen -> (Z.to_nat (gn g) < fuel + length P)%nat ->
  exists z, distance_loop fuel (adjacency g) (gn g) right q seen = Ok z /\ distance_value g left right z.
Proof.
  revert P q seen. induction fuel as [|f IH]; intros P q seen I Hf; pose proof (dinv_room _ _ _ I) as Hr; [lia|].
  cbn [distance_loop]. destruct q as [|[u d] q].
  - exists (gn g). split; [done|]. right. split; [done|].
    assert (forall k w, hops g k left w -> w ∈ P) as Hall.
    { intros k. induction k as [|k IHk]; intros w Hw.
      - inversion Hw; subst. pose proof (d_left _ _ _ I) as [|H]%(d_seen _ _ _ I); [done|]. by apply elem_of_nil in H.
      - apply nsteps_inv_r in Hw as (x & Hx & Hxw). pose proof (d_closed _ _ _ I x w (IHk x Hx) Hxw) as Hs.
        apply (d_seen _ _ _ I) in Hs as [|H]; [done|]. by apply elem_of_nil in H. }
    intros k Hk. by apply (d_right _ _ _ I), (Hall k).
  - cbn [length] in Hr. destruct (Z.eqb_spec u right) as [->|Hne].
    + exists d. split; [done|]. left. destruct (d_label _ _ _ I right d) as (k & -> & Hk & Hs); [by left|].
      exists k. split_all; [done|lia|done].
    + assert (vertex g u) as Hu by (apply (d_vertex _ _ _ I), (d_seen _ _ _ I); right; by left).
      destruct (py_index_adjacency g u Hg Hu) as (a & -> & Ha). cbn [mbind res_bind].
      apply (IH (P ++ [u])); [by apply dinv_step|]. rewrite length_app. cbn. lia.
Qed.
End Bfs.

(** ** Operations that run one after another *)

Lemma mapM_cons {A B} (f : A -> M B) x l s :
  mapM f (x :: l) s = (r ← f x s; rs ← mapM f l r.2; Ok (r.1 :: rs.1, rs.2)).
Proof. done. Qed.

Section MapM.
Context {A B : Type} (f : A -> M B) (I : Snap -> Prop) (R : Snap -> Snap -> Prop) (Q : A -> B -> Snap -> Prop).
Context `{!PreOrder R} (HQ : forall x y s s', Q x y s -> R s s' -> Q x y s').

(** A step keeps [I], moves along [R] and gives a [Q] that later steps keep. *)
Definition runs (x : A) : Prop :=
  forall s, I s -> exists y s', f x s = Ok (y, s') /\ I s' /\ R s s' /\ Q x y s'.

Lemma mapM_runs l s : (forall x, x ∈ l -> runs x) -> I s ->
  exists ys s', mapM f l s = Ok (ys, s') /\ I s' /\ R s s' /\ Forall2 (fun x y => Q x y s') l ys.
Proof.
  intros Hf. revert s. induction l as [|x l IH]; intros s Hs.
  { exists [], s. split_all; [done..|constructor]. }
  destruct (Hf x ltac:(by left) s Hs) as (y & s1 & Hy & H1 & HR1 & HQ1).
  destruct (IH ltac:(intros z Hz; apply Hf; by right) s1 H1) as (ys & s2 & Hys & H2 & HR2 & HQ2).
  exists (y :: ys), s2. split_all; [|done|by etransitivity|constructor; [by eapply HQ|done]].
  rewrite mapM_cons, Hy. cbn [mbind res_bind fst snd]. by rewrite Hys.
Qed.
End MapM.

(** ** Distances through the caches *)

Section Snapshot.
Context (limits : FeatureLimits) (base : Features).
Abbreviation g := (f_graph base).
Context (Hg : wf g) (Hadj : f_adj base = adjacency g).

(** What the caches hold: exact distances of vertices; of edges only a number in
    the range of distances *)
Record coherent (c : Caches) : Prop := {
  cached_exact : forall k d, distance_cache c !! k = Some d -> distance_value g k.1 k.2 d;
  cached_range : forall k d, edge_distance_cache c !! k = Some d -> 0 <= d <= gn g
}.

(** The counters of a snapshot over time *)
Record later (s s' : Snap) : Prop := {
  later_queries : distance_queries s <= distance_queries s' <= Z.max (distance_queries s) (distance_query_budget limits);
  later_flag : distance_budget_exhausted s = true -> distance_budget_exhausted s' = true;
  later_ops : local_ops s' = local_ops s;
  later_local : local_budget_exhausted s' = local_budget_exhausted s
}.

#[export] Instance later_preorder : PreOrder later.
Proof.
  split; [by split; [lia|..]|]. intros s1 s2 s3 [] []. split; [lia|auto|congruence..].
Qed.

Definition exact_unless_exhausted (P : Z -> Prop) (z : Z) (s : Snap) : Prop :=
  0 <= z <= gn g /\ (distance_budget_exhausted s = false -> P z).

Lemma exact_later P z s s' : exact_unless_exhausted P z s -> later s s' -> exact_unless_exhausted P z s'.
Proof.
  intros [Hz Hp] Hl. split; [done|]. intros Hf. apply Hp.
  destruct (distance_budget_exhausted s) eqn:E; [|done]. by rewrite (later_flag _ _ Hl E) in Hf.
Qed.

Lemma distance_cases u v s :
  vertex g u -> vertex g v -> coherent (caches s) ->
  exists z s', distance limits base u v s = Ok (z, s') /\ coherent (caches s') /\ later s s' /\
    0 <= z <= gn g /\ edge_distance_cache (caches s') = edge_distance_cache (caches s) /\
    (distance_value g u v z \/ (z = gn g /\ distance_budget_exhausted s' = true)).
Proof.
  intros Hu Hv Hc. pose proof (wf_n g Hg) as Hn. unfold distance. destruct (Z.eqb_spec u v) as [->|Hne].
  { exists 0, s. split_all; [done..|lia|lia|done|]. left. apply distance_value_refl. destruct Hv. lia. }
  assert (exists key, _edge u v = Ok key /\ (key = (u, v) \/ key = (v, u))) as (key & -> & Hkey).
  { unfold _edge. destruct (Z.eqb_spec u v); [done|]. cbn. destruct (u <? v); eauto. }
  assert (forall z, distance_value g key.1 key.2 z <-> distance_value g u v z) as Hsym.
  { intros z. destruct Hkey as [-> | ->]; [done|]. split; by apply distance_value_sym. }
  cbn [mbind res_bind]. destruct (distance_cache (caches s) !! key) as [d|] eqn:E.
  - pose proof (cached_exact _ Hc _ _ E) as Hd. apply Hsym in Hd.
    exists d, (with_hit s). split_all; [done..|by split; cbn; [lia|..]| | |done|by left];
      apply (distance_value_range g u v d) in Hd; lia.
  - destruct (Z.leb_spec (distance_query_budget limits) (distance_queries s)) as [Hb|Hb].
    + exists (gn g), (with_exhausted s). split_all; [done..|by split; cbn; [lia|..]|lia|lia|done|by right].
    + rewrite Hadj. destruct (distance_loop_spec g Hg u v Hu (S (Z.to_nat (gn g))) [] [(u, 0)] {[u]} (dinv_start g Hg u v Hu)) as (z & -> & Hz).
      { cbn. lia. }
      cbn [mbind res_bind]. exists z, (with_distance s key z).
      pose proof (distance_value_range g u v z Hn Hz). split_all; [done| |split; cbn; [lia|done..]|lia|lia|done|by left].
      split; cbn; [|apply (cached_range _ Hc)]. intros k d. rewrite lookup_insert_Some.
      intros [[<- <-]|[_ Hk]]; [by apply Hsym|by apply (cached_exact _ Hc)].
Qed.

(** Later, with the cache of edges as it was *)
Definition later_same (s s' : Snap) : Prop :=
  later s s' /\ edge_distance_cache (caches s') = edge_distance_cache (caches s).

#[export] Instance later_same_preorder : PreOrder later_same.
Proof. split; [by split|]. intros s1 s2 s3 [H1 E1] [H2 E2]. split; [by etransitivity|congruence]. Qed.

Lemma distance_runs uv :
  vertex g uv.1 -> vertex g uv.2 ->
  runs (fun uv => distance limits base uv.1 uv.2) (fun s => coherent (caches s)) later_same
    (fun uv z => exact_unless_exhausted (distance_value g uv.1 uv.2) z) uv.
Proof.
  intros Hu Hv s Hs. destruct (distance_cases _ _ s Hu Hv Hs) as (z & s' & H & Hc & Hl & Hz & Hk & Hd).
  exists z, s'. split_all; [done|done|by split|]. split; [done|]. destruct Hd as [|[_ ->]]; done.
Qed.

Definition edge_vertices (e : Edge) : Prop := vertex g e.1 /\ vertex g e.2.

Definition four (e f : Edge) : list (Z * Z) := [(e.1, f.1); (e.1, f.2); (e.2, f.1); (e.2, f.2)].

Lemma four_runs e f s :
  edge_vertices e -> edge_vertices f -> coherent (caches s) ->
  exists ds s', mapM (fun uv => distance limits base uv.1 uv.2) (four e f) s = Ok (ds, s') /\
    coherent (caches s') /\ later_same s s' /\
    Forall2 (fun uv z => exact_unless_exhausted (distance_value g uv.1 uv.2) z s') (four e f) ds.
Proof.
  intros [He1 He2] [Hf1 Hf2] Hs. apply (mapM_runs _ (fun s => coherent (caches s)) later_same (fun uv z => exact_unless_exhausted (distance_value g uv.1 uv.2) z)); [..|done].
  - intros uv z s1 s2 Hz [Hl _]. by apply (exact_later _ _ s1).
  - intros uv Huv. apply distance_runs; unfold four in Huv; set_solver.
Qed.

Lemma min_four_value e f s' ds m :
  Forall2 (fun uv z => exact_unless_exhausted (distance_value g uv.1 uv.2) z s') (four e f) ds ->
  py_min ds = Some m -> exact_unless_exhausted (edge_value g e f) m s'.
Proof.
  intros Hds [Hm Hmin]%min_by_spec. split.
  - apply list_elem_of_lookup in Hm as [i Hi]. destruct (Forall2_lookup_r _ _ _ _ _ Hds Hi) as (uv & _ & Hz). apply Hz.
  - intros Hf. split.
    + apply list_elem_of_lookup in Hm as [i Hi]. destruct (Forall2_lookup_r _ _ _ _ _ Hds Hi) as (uv & Huv & [_ Hz]).
      apply list_elem_of_lookup_2 in Huv. exists uv.1, uv.2. split_all; [unfold four in Huv; set_solver..|by apply Hz].
    + intros u v y Hu Hv Hy. assert ((u, v) ∈ four e f) as Hin by (unfold four; set_solver).
      apply list_elem_of_lookup in Hin as [i Hi]. destruct (Forall2_lookup_l _ _ _ _ _ Hds Hi) as (z & Hz & [_ Hex]).
      specialize (Hex Hf). cbn in Hex. rewrite (distance_value_unique _ _ _ _ _ Hy Hex).
      specialize (Hmin z ltac:(by eapply list_elem_of_lookup_2)). by apply py_le_Z in Hmin.
Qed.

Lemma edge_distance_uncached e f s :
  edge_vertices e -> edge_vertices f -> coherent (caches s) ->
  edge_distance_cache (caches s) !! edge_key e f = None ->
  exists z s', edge_distance limits base e f s = Ok (z, s') /\ coherent (caches s') /\ later s s' /\
    edge_distance_cache (caches s') = <[edge_key e f := z]> (edge_distance_cache (caches s)) /\ exact_unless_exhausted (edge_value g e f) z s'.
Proof.
  intros He Hf Hs Hk. unfold edge_distance. rewrite Hk.
  destruct (four_runs e f s He Hf Hs) as (ds & s1 & Hds & Hc & [Hl Hsame] & HF). unfold four in Hds. rewrite Hds. cbn [mbind res_bind fst snd].
  destruct (py_min ds) as [m|] eqn:Hm.
  2: { unfold four in HF. inversion HF; subst. done. }
  cbn [mbind res_bind]. pose proof (min_four_value _ _ _ _ _ HF Hm) as Hv.
  exists m, (with_edge_distance s1 (edge_key e f) m). split_all; [done| | |cbn; by rewrite Hsame|done].
  - split; cbn; [apply (cached_exact _ Hc)|]. intros k d. rewrite lookup_insert_Some.
    intros [[_ <-]|[_ Hd]]; [apply Hv|by apply (cached_range _ Hc k)].
  - destruct Hl. by split.
Qed.

Lemma edge_distance_total e f s :
  edge_vertices e -> edge_vertices f -> coherent (caches s) ->
  exists z s', edge_distance limits base e f s = Ok (z, s') /\ coherent (caches s') /\ later s s' /\ 0 <= z <= gn g.
Proof.
  intros He Hf Hs. destruct (edge_distance_cache (caches s) !! edge_key e f) as [d|] eqn:E.
  - exists d, s. unfold edge_distance. rewrite E. pose proof (cached_range _ Hs _ _ E). split_all; (done || lia).
  - destruct (edge_distance_uncached e f s He Hf Hs E) as (z & s' & ? & ? & ? & _ & [? _]). exists z, s'. split_all; (done || lia).
Qed.
End Snapshot.

(** ** The theorems *)


(** C37: an [edge_distance] computed after the query budget was used up is the
    order of the graph; it stays in the cache that later pools on the same graph
    share, and they read it with their own budget untouched and no exhaustion to
    report, whatever the distance of the edges is. *)
Theorem exhausted_edge_distance_persists limits base e f s :
  f_adj base = adjacency (f_graph base) -> wf (f_graph base) ->
  (forall u v, u ∈ [e.1; e.2] -> v ∈ [f.1; f.2] ->
    u <> v /\ distance_cache (caches s) !! (u, v) = None /\ distance_cache (caches s) !! (v, u) = None) ->
  edge_distance_cache (caches s) !! edge_key e f = None ->
  distance_query_budget limits <= distance_queries s ->
  exists s', edge_distance limits base e f s = Ok (gn (f_graph base), s') /\
    edge_distance limits base e f (new_snapshot (caches s')) = Ok (gn (f_graph base), new_snapshot (caches s')).
Proof.
  intros Ha Hg Hd He Hb.
  assert (forall t u v, caches t = caches s -> distance_queries t = distance_queries s ->
    u ∈ [e.1; e.2] -> v ∈ [f.1; f.2] -> distance limits base u v t = Ok (gn (f_graph base), with_exhausted t)) as Hall.
  { intros t u v Ht Hq Hu Hv. destruct (Hd u v Hu Hv) as (Hne & H1 & H2). unfold distance, _edge.
    destruct (Z.eqb_spec u v); [done|]. cbn. rewrite Ht, Hq. destruct (Z.leb_spec (distance_query_budget limits) (distance_queries s)); [|lia].
    destruct (u <? v); [by rewrite H1|by rewrite H2]. }
  unfold edge_distance at 1. rewrite He.
  do 4 (rewrite mapM_cons; cbn [fst snd]; rewrite Hall by (done || set_solver); cbn [mbind res_bind fst snd]).
  cbn [mapM mret M_ret mbind res_bind fst snd].
  unfold py_min, min_by. cbn [foldl]. cbn. rewrite !Z.compare_refl. cbn.
  eexists. split; [done|]. unfold edge_distance. cbn. by rewrite lookup_insert_eq.
Qed.

Module DistancesWitness.
Definition base : Features := mkFeatures K4 (adjacency K4) [] [] ∅ [] 0 0 false.


Lemma exhausted_edge_distance_persists_witness :
  adj K4 1 2 = true /\
  exists s', edge_distance default_limits base (0, 1) (2, 3) (mkSnap (mkCaches ∅ ∅) 256 0 0 false false) = Ok (4, s') /\
    edge_distance default_limits base (0, 1) (2, 3) (new_snapshot (caches s')) = Ok (4, new_snapshot (caches s')).
Proof.
  split; [done|]. apply (exhausted_edge_distance_persists default_limits base (0, 1) (2, 3) (mkSnap (mkCaches ∅ ∅) 256 0 0 false false)).
  - done.
  - apply K4_wf.
  - intros u v Hu Hv. cbn. rewrite !lookup_empty. split_all; [|done..]. cbn in Hu, Hv. intros ->. set_solver.
  - done.
  - done.
Defined.
End DistancesWitness.
