(* ===== verification/Sampling.v ===== *)
(** * The sampled cycles of a graph

    The walks of [_GraphLocalFeatures] list cycles of the forbidden lengths, each
    once and in canonical form, and all of them unless a bound was reached. The
    edge loads count the listed cycles through an edge. *)

From stdpp Require Import gmap sorting.
From S2P Require Import Prelude Bits Model Cycles Order Matchings Features Distances.

#[global] Open Scope Z_scope.

(** ** The canonical form of a cycle *)

Lemma same_cycle_sym c d : same_cycle c d -> same_cycle d c.
Proof.
  intros [H|H]; [left; by apply rotation_sym|right].
  apply rotation_sym, rotation_reverse in H. by rewrite reverse_involutive in H.
Qed.

Lemma same_cycle_trans c d e : same_cycle c d -> same_cycle d e -> same_cycle c e.
Proof.
  intros [H|H] [K|K].
  - left. by eapply rotation_trans.
  - right. apply rotation_reverse in H. by eapply rotation_trans.
  - right. by eapply rotation_trans.
  - left. apply rotation_reverse in H. rewrite reverse_involutive in H. by eapply rotation_trans.
Qed.

Lemma same_cycle_refl c : same_cycle c c.
Proof. left. exists c, []. by rewrite app_nil_r. Qed.

Lemma elem_of_rotations c d : c <> [] -> d ∈ rotations c <-> rotation c d.
Proof.
  intros Hc. unfold rotations, rotation. rewrite list_elem_of_fmap. split.
  - intros (i & -> & _). exists (take i c), (drop i c). by rewrite take_drop.
  - intros (l1 & l2 & -> & ->). destruct l2 as [|x l2].
    + exists 0%nat. rewrite app_nil_r in *. cbn. rewrite app_nil_r, drop_0. split; [done|]. apply elem_of_seq.
      destruct l1; [done|cbn; lia].
    + exists (length l1). rewrite drop_app_length, take_app_length. split; [done|]. apply elem_of_seq.
      rewrite length_app. cbn. lia.
Qed.

Lemma elem_of_variants c d : c <> [] -> d ∈ rotations c ++ rotations (reverse c) <-> same_cycle c d.
Proof.
  intros Hc. rewrite elem_of_app, !elem_of_rotations; [done| |done].
  intros H. apply Hc. by rewrite <- (reverse_involutive c), H.
Qed.

Lemma py_min_ext `{Ordered A} (l k : list A) : (forall x, x ∈ l <-> x ∈ k) -> py_min l = py_min k.
Proof.
  intros Hlk. destruct l as [|x l], k as [|y k]; [done|..].
  - by destruct (not_elem_of_nil y (proj2 (Hlk y) ltac:(by left))).
  - by destruct (not_elem_of_nil x (proj1 (Hlk x) ltac:(by left))).
  - unfold py_min. destruct (min_by id (x :: l)) as [a|] eqn:Ea; [|done]. destruct (min_by id (y :: k)) as [b|] eqn:Eb; [|done].
    apply min_by_spec in Ea as [Ha Hamin], Eb as [Hb Hbmin]. f_equal.
    pose proof (py_le_antisymm (A := A) id (fun _ _ E => E)) as Hanti.
    apply (anti_symm (py_le id)); [by apply Hamin, Hlk|by apply Hbmin, Hlk].
Qed.

Lemma canonical_same c d : same_cycle c d -> _canonical_cycle c = _canonical_cycle d.
Proof.
  intros Hcd. destruct (decide (c = [])) as [->|Hc].
  { destruct Hcd as [(l1 & l2 & E & ->)|(l1 & l2 & E & ->)]; destruct l1, l2; done. }
  assert (d <> []) as Hd.
  { intros ->. apply same_cycle_sym in Hcd as [(l1 & l2 & E & ->)|(l1 & l2 & E & ->)]; destruct l1, l2; done. }
  unfold _canonical_cycle. rewrite (py_min_ext _ (rotations d ++ rotations (reverse d))); [done|].
  intros x. rewrite !elem_of_variants by done. split; intros H; eapply same_cycle_trans; try exact H; [|done].
  by apply same_cycle_sym.
Qed.

Lemma canonical_total c : c <> [] -> exists m, _canonical_cycle c = Ok m /\ same_cycle c m /\ _canonical_cycle m = Ok m.
Proof.
  intros Hc. unfold _canonical_cycle at 1. destruct (py_min (rotations c ++ rotations (reverse c))) as [m|] eqn:E.
  - exists m. pose proof E as [Hm _]%min_by_spec. apply elem_of_variants in Hm; [|done]. split_all; [done..|].
    rewrite <- (canonical_same c m Hm). unfold _canonical_cycle. by rewrite E.
  - destruct c; [done|]. by destruct (rotations (z :: c)) eqn:E'.
Qed.

(** A cycle of the graph, written in canonical form *)
Definition form (g : BitGraph) (len : Z) (c : list Z) : Prop := is_cycle g len c /\ _canonical_cycle c = Ok c.

Lemma is_cycle_same g len c d : wf g -> is_cycle g len c -> same_cycle c d -> is_cycle g len d.
Proof.
  intros Hg Hc [Hr|Hr]; [by eapply is_cycle_rotation|]. eapply is_cycle_rotation; [|done]. by apply is_cycle_reverse.
Qed.

Lemma canonical_form g len c : wf g -> is_cycle g len c ->
  exists m, _canonical_cycle c = Ok m /\ form g len m /\ same_cycle c m.
Proof.
  intros Hg Hc. destruct (canonical_total c) as (m & Hm & Hs & Hi).
  { destruct Hc as (? & Hl & _). destruct c; [cbn in Hl; lia|done]. }
  exists m. split_all; [done| |done]. split; [by eapply is_cycle_same|done].
Qed.

Lemma form_unique g len c d : form g len c -> form g len d -> same_cycle c d -> c = d.
Proof. intros [_ Hc] [_ Hd] Hs. apply canonical_same in Hs. congruence. Qed.

(** ** Simple paths *)

Record spath (g : BitGraph) (path : list Z) (last : Z) : Prop := {
  sp_nodup : NoDup path;
  sp_chain : chain (edge_rel g) path;
  sp_last : exists p, path = p ++ [last];
  sp_vertex : forall x, x ∈ path -> vertex g x
}.

Lemma spath_start g u : vertex g u -> spath g [u] u.
Proof. intros Hu. split; [apply NoDup_singleton|done|by exists []|]. by intros x ->%list_elem_of_singleton. Qed.

Lemma spath_snoc g path last v : wf g ->
  spath g path last -> adj g last v = true -> v ∉ path -> spath g (path ++ [v]) v.
Proof.
  intros Hg [Hn Hc (p & ->) Hv] Ha Hin. split.
  - apply NoDup_app. split_all; [done| |apply NoDup_singleton]. intros x Hx ->%list_elem_of_singleton. done.
  - rewrite <- app_assoc. cbn. by apply chain_snoc.
  - by eexists.
  - intros x [Hx| ->%list_elem_of_singleton]%elem_of_app; [by apply Hv|]. by apply (wf_range g Hg) in Ha as [_ ?].
Qed.

(** A cycle that extends a path continues it by an edge to a new vertex. *)
Lemma cycle_step g len path last v q :
  wf g -> (exists p, path = p ++ [last]) -> is_cycle g len (path ++ v :: q) -> adj g last v = true /\ v ∉ path.
Proof.
  intros Hg (p & ->) (_ & _ & Hn & Hc). split.
  - rewrite <- !app_assoc in Hc. cbn in Hc. apply chain_cut in Hc as [_ Hc]. cbn in Hc. by destruct Hc.
  - apply NoDup_app in Hn as (_ & Hd & _). intros Hv. apply (Hd v Hv). by left.
Qed.

Lemma spath_cycle g len path start p last :
  wf g -> 3 <= len -> spath g path last -> path = start :: p -> Z.of_nat (length path) = len ->
  is_cycle g len path <-> adj g last start = true.
Proof.
  intros Hg H3 [Hn Hc (q & Hq) _] Hp Hl. unfold is_cycle. rewrite Hp. change (take 1 (start :: p)) with [start]. rewrite <- Hp.
  assert (chain (edge_rel g) (path ++ [start]) <-> chain (edge_rel g) path /\ edge_rel g last start) as ->.
  { rewrite Hq, <- app_assoc. cbn. apply chain_snoc. }
  unfold edge_rel. tauto.
Qed.

(** The bits tried next are the edges to a new vertex. *)
Lemma elem_of_next g path last m v : wf g -> spath g path last -> mask_of path m ->
  v ∈ bits_of (Z.land (row g last) (Z.lnot m)) <-> adj g last v = true /\ v ∉ path.
Proof.
  intros Hg Hp [Hm Hi]. assert (vertex g last) as Hl.
  { apply (sp_vertex _ _ _ Hp). destruct (sp_last _ _ _ Hp) as (q & ->). set_solver. }
  rewrite elem_of_bits_of by (rewrite Z.land_nonneg; left; apply (wf_nonneg g Hg)).
  rewrite adj_row by apply Hl. destruct (Z.lt_ge_cases v 0).
  { rewrite !Z.testbit_neg_r by done. intuition congruence. }
  rewrite Z.land_spec, Z.lnot_spec by lia. rewrite andb_true_iff, negb_true_iff, <- Hi.
  destruct (Z.testbit m v); intuition congruence.
Qed.

(** ** Loops that list things until they halt *)

Section Listing.
Context {S C : Type} (halted : S -> bool) (ok : S -> Prop) (R : S -> S -> Prop) (has : S -> C -> Prop).
Context `{!PreOrder R}.

(** From [s] to [s'] everything of [P] is listed, unless the loop halted. *)
Record lists (P : C -> Prop) (s s' : S) : Prop := {
  ls_ok : ok s';
  ls_rel : R s s';
  ls_found : halted s' = false -> halted s = false /\ (forall c, has s c -> has s' c) /\ forall c, P c -> has s' c
}.

Lemma lists_halted P s : ok s -> halted s = true -> lists P s s.
Proof. intros Hs Ht. split; [done..|]. congruence. Qed.

Lemma lists_none (P : C -> Prop) s : ok s -> (forall c, ~ P c) -> lists P s s.
Proof. intros Hs HP. split; [done..|]. intros Ht. split_all; [done..|]. intros c Hc. by destruct (HP c). Qed.

Lemma lists_trans P Q s s' s'' : lists P s s' -> lists Q s' s'' -> lists (fun c => P c \/ Q c) s s''.
Proof.
  intros [H1 H2 Hf] [K1 K2 Kf]. split; [done|by etransitivity|]. intros Ht. destruct (Kf Ht) as (Ht' & Hsub & Hq).
  destruct (Hf Ht') as (Ht0 & Hsub' & Hp). split_all; [done|auto|]. intros c [Hc|Hc]; auto.
Qed.

Lemma lists_mono (P Q : C -> Prop) s s' : (forall c, P c -> Q c) -> lists Q s s' -> lists P s s'.
Proof. intros HPQ [H1 H2 Hf]. split; [done..|]. intros Ht. destruct (Hf Ht) as (? & ? & Hq). split_all; auto. Qed.

Lemma loop_lists {X} (body : S -> X -> res S) (P : X -> C -> Prop) l s :
  (forall x s, x ∈ l -> ok s -> exists s', body s x = Ok s' /\ lists (P x) s s') -> ok s ->
  exists s', foldM body s l = Ok s' /\ lists (fun c => exists x, x ∈ l /\ P x c) s s'.
Proof.
  intros Hb Hs. apply (foldM_total (fun done s' => lists (fun c => exists x, x ∈ done /\ P x c) s s')).
  - intros pre x post s1 -> Hl. destruct (Hb x s1 ltac:(set_solver) (ls_ok _ _ _ Hl)) as (s2 & Hs2 & Hl2).
    exists s2. split; [done|]. eapply lists_mono; [|by eapply lists_trans].
    intros c (y & [Hy| ->%list_elem_of_singleton]%elem_of_app & Hp); [left; eauto|by right].
  - apply lists_none; [done|]. intros c (x & Hx & _). by apply elem_of_nil in Hx.
Qed.
End Listing.

(** ** The walk *)

Section Walks.
Context (g : BitGraph) (Hg : wf g) (limits : FeatureLimits) (len : Z) (H3 : 3 <= len).
Context (Hcap : 0 < witness_sample_cap limits).
Abbreviation cap := (witness_sample_cap limits).
Abbreviation budget := (cycle_node_budget limits).
Abbreviation visit := (visit g (adjacency g) limits len).

Record walk_ok (s : Walk) : Prop := {
  wk_form : forall c, c ∈ found s -> form g len c;
  wk_cap : card (found s) <= cap;
  wk_room : stopped s = false -> card (found s) < cap;
  wk_why : stopped s = true -> exhausted s = true \/ card (found s) = cap;
  wk_nodes : nodes s <= budget
}.

(** A cycle is listed in its canonical form. *)
Definition listed (s : Walk) (c : list Z) : Prop := exists m, _canonical_cycle c = Ok m /\ m ∈ found s.
Definition stays_exhausted (s s' : Walk) : Prop := exhausted s = true -> exhausted s' = true.

#[local] Instance stays_preorder : PreOrder stays_exhausted.
Proof. unfold stays_exhausted. split; [intros s H; exact H|]. intros s1 s2 s3 H1 H2 H. auto. Qed.

(** The cycles that extend a path *)
Definition from_path (path c : list Z) : Prop := is_cycle g len c /\ exists q, c = path ++ q.

Abbreviation wlists := (lists stopped walk_ok stays_exhausted listed).

Lemma listed_mono s s' c : found s ⊆ found s' -> listed s c -> listed s' c.
Proof. intros Hsub (m & Hm & Hin). exists m. split; [done|set_solver]. Qed.

(** One more vertex is counted. *)
Definition counted (s : Walk) : Walk := mkWalk (nodes s + 1) (found s) (stopped s) (exhausted s).

Lemma counted_within s : walk_ok s -> nodes s < budget -> walk_ok (counted s).
Proof. intros [] Hn. split; cbn; [done..|lia]. Qed.

Lemma lists_counted P s s' : wlists P (counted s) s' -> wlists P s s'.
Proof. intros [H1 H2 Hf]. by split. Qed.

Lemma card_insert (c : list Z) (f : gset (list Z)) : card f <= card ({[c]} ∪ f) <= card f + 1.
Proof.
  unfold card. split.
  - apply inj_le, subseteq_size. set_solver.
  - rewrite size_union_alt, size_singleton. assert (stdpp.base.size (f ∖ {[c]}) <= stdpp.base.size f)%nat; [|lia].
    apply subseteq_size. set_solver.
Qed.

Lemma from_full path c : Z.of_nat (length path) = len -> from_path path c -> c = path.
Proof.
  intros Hl [(_ & Hlc & _) (q & ->)]. rewrite length_app in Hlc. destruct q; [by rewrite app_nil_r|cbn in Hlc; lia].
Qed.

(** A path of full length that closes is listed. *)
Lemma visit_full start p path last s :
  walk_ok s -> stopped s = false -> nodes s < budget -> spath g path last -> path = start :: p ->
  Z.of_nat (length path) = len ->
  exists s', (around ← py_index (adjacency g) last;
      if bool_decide (start ∈ around) then
        c ← _canonical_cycle path;
        let found' := {[c]} ∪ found s in
        Ok (mkWalk (nodes s + 1) found' (stopped s || (cap <=? card found')) (exhausted s))
      else Ok (counted s)) = Ok s' /\ wlists (from_path path) s s'.
Proof.
  intros Hs Ht Hn Hp Hpath Hl. destruct (sp_last _ _ _ Hp) as (q & Hq).
  destruct (py_index_adjacency g last) as (a & -> & Ha); [done|apply (sp_vertex _ _ _ Hp); rewrite Hq; set_solver|].
  pose proof (spath_cycle g len path start p last Hg H3 Hp Hpath Hl) as Hcyc. cbn [mbind res_bind].
  case_bool_decide as Hin; rewrite Ha in Hin.
  - apply Hcyc in Hin as Hc. destruct (canonical_form g len path Hg Hc) as (m & Hm & Hf & _). rewrite Hm. cbn [mbind res_bind].
    eexists. split; [done|]. pose proof (card_insert m (found s)) as Hcard. rewrite Ht. cbn [orb]. destruct Hs as [H1 H2 Hr Hw Hnd].
    specialize (Hr Ht). split; [split; cbn|intros H; exact H|cbn].
    + intros c [->%elem_of_singleton|Hc']%elem_of_union; [done|by apply H1].
    + lia.
    + rewrite Z.leb_gt. done.
    + rewrite Z.leb_le. intros. right. lia.
    + lia.
    + rewrite Z.leb_gt. intros Hlt. split_all; [done|intros c; apply listed_mono; cbn; set_solver|].
      intros c Hcp. rewrite (from_full path c Hl Hcp). exists m. split; [done|cbn; set_solver].
  - exists (counted s). split; [done|]. apply lists_counted, lists_none; [typeclasses eauto|by apply counted_within|].
    intros c Hcp. pose proof (from_full path c Hl Hcp) as ->. apply Hin, Hcyc, Hcp.
Qed.

Lemma visit_lists fuel start p path last m s :
  walk_ok s -> spath g path last -> path = start :: p -> mask_of path m ->
  Z.of_nat (length path) <= len -> (Z.to_nat len - length path <= fuel)%nat ->
  exists s', visit fuel start path last m s = Ok s' /\ wlists (from_path path) s s'.
Proof.
  revert p path last m s. induction fuel as [|f IH]; intros p path last m s Hs Hp Hpath Hm Hl Hf; cbn [Features.visit];
    (destruct (stopped s) eqn:Ht; [exists s; split; [done|by apply lists_halted; [typeclasses eauto|..]]|]);
    (destruct (Z.leb_spec budget (nodes s)) as [Hb|Hb];
     [eexists; split; [done|]; destruct Hs; split; [by split; cbn; [..|left|]|by intros ?|done]|]);
    (destruct (Z.eqb_spec (Z.of_nat (length path)) len) as [E|E];
     [destruct (visit_full start p path last s Hs Ht Hb Hp Hpath E) as (s' & H & Hls); unfold counted in H; rewrite Ht in H;
      cbn [orb stopped found nodes exhausted] in H |- *; by exists s'|]).
  { lia. }
  destruct (loop_lists stopped walk_ok stays_exhausted listed (fun s nxt => visit f start (path ++ [nxt]) nxt (Z.lor m (bit nxt)) s)
    (fun nxt => from_path (path ++ [nxt])) (bits_of (Z.land (row g last) (Z.lnot m))) (counted s)) as (s' & Hs' & Hls).
  - intros v s1 Hv Hs1. assert (adj g last v = true /\ v ∉ path) as [Ha Hn].
    { by apply (elem_of_next g path last m v). }
    apply (IH (p ++ [v])); [done|by eapply spath_snoc|by rewrite Hpath| |rewrite length_app; cbn; lia..].
    apply mask_of_snoc; [|done]. by apply (wf_range g Hg) in Ha as [_ [? _]].
  - by apply counted_within.
  - exists s'. split; [unfold counted in Hs'; rewrite Ht in Hs'; exact Hs'|]. apply lists_counted. eapply lists_mono; [|exact Hls].
    intros c [Hc (q & ->)]. destruct q as [|v q].
    { rewrite app_nil_r in Hc. destruct Hc as (_ & Hlc & _). lia. }
    destruct (cycle_step g len path last v q Hg (sp_last _ _ _ Hp) Hc) as [Ha Hn].
    exists v. split; [by apply (elem_of_next g path last m v)|]. split; [done|]. exists q. by rewrite <- app_assoc.
Qed.

Lemma visit_starts_lists starts s :
  walk_ok s -> (forall u, u ∈ starts -> vertex g u) ->
  exists s', visit_starts g (adjacency g) limits len starts s = Ok s' /\
    wlists (fun c => exists u, u ∈ starts /\ from_path [u] c) s s'.
Proof.
  revert s. induction starts as [|u starts IH]; intros s Hs Hv; cbn [visit_starts].
  { exists s. split; [done|]. apply lists_none; [typeclasses eauto|done|]. intros c (u & Hu & _). by apply elem_of_nil in Hu. }
  destruct (visit_lists (Z.to_nat len) u [] [u] u (bit u) s) as (s1 & -> & Hl); [done|apply spath_start, Hv; by left|done| |cbn; lia..|].
  { apply mask_of_start. by apply (Hv u); left. }
  cbn [mbind res_bind]. destruct (stopped s1) eqn:Ht.
  - exists s1. split; [done|]. destruct Hl as [H1 H2 _]. split; [done..|]. congruence.
  - destruct (IH s1 (ls_ok _ _ _ _ _ _ _ Hl)) as (s2 & -> & Hl2); [intros; apply Hv; by right|]. exists s2. split; [done|].
    eapply lists_mono; [|by eapply lists_trans; [typeclasses eauto|..]]. intros c (v & [-> | Hin]%elem_of_cons & Hq); [by left|right; eauto].
Qed.

(** What the sample of one length is *)
Record sampled (exh : bool) (l : list (list Z)) : Prop := {
  sm_form : forall c, c ∈ l -> form g len c;
  sm_nodup : NoDup l;
  sm_cap : Z.of_nat (length l) <= cap;
  sm_all : exh = false -> Z.of_nat (length l) = cap \/ forall c, is_cycle g len c -> exists d, d ∈ l /\ same_cycle c d
}.

Lemma sample_length_spec ws n exh : n <= budget -> exists l n' exh',
  sample_length g (adjacency g) limits (ws, n, exh) len = Ok (ws ++ [(len, l)], n', exh') /\
  sampled exh' l /\ n' <= budget /\ (exh = true -> exh' = true).
Proof.
  intros Hn. unfold sample_length. cbn [fst snd].
  destruct (visit_starts_lists (range 0 (gn g)) (mkWalk n ∅ false exh)) as (s & -> & Hl).
  { split; cbn; [set_solver|unfold card; rewrite size_empty; lia..|done|lia]. }
  { intros u. by rewrite elem_of_range. }
  cbn [mbind res_bind]. destruct (ls_ok _ _ _ _ _ _ _ Hl) as [H1 H2 Hr Hw Hnd].
  assert (Z.of_nat (length (py_sorted (elements (found s)))) = card (found s)) as Hlen by by rewrite py_sorted_perm.
  rewrite take_ge by lia. eexists _, _, _. split; [done|]. split; [|split; [done|by apply (ls_rel _ _ _ _ _ _ _ Hl)]].
  assert (forall c, c ∈ py_sorted (elements (found s)) <-> c ∈ found s) as Hin.
  { intros c. by rewrite py_sorted_perm, elem_of_elements. }
  split.
  - intros c Hc%Hin. by apply H1.
  - rewrite py_sorted_perm. apply NoDup_elements.
  - lia.
  - intros He. destruct (stopped s) eqn:Ht; [left|right].
    + destruct (Hw eq_refl); [congruence|lia].
    + intros c Hc. destruct (ls_found _ _ _ _ _ _ _ Hl Ht) as (_ & _ & Hall).
      destruct c as [|u q]; [destruct Hc as (_ & Hc & _); cbn in Hc; lia|].
      destruct (Hall (u :: q)) as (m & Hm & Hf).
      { exists u. split; [|by split; [|exists q]]. apply elem_of_range. apply (is_cycle_vertex g len (u :: q) u Hg Hc). by left. }
      exists m. split; [by apply Hin|]. destruct (canonical_form g len _ Hg Hc) as (m' & Hm' & _ & Hs). congruence.
Qed.
End Walks.

(** The samples of all lengths, in order *)
Lemma samples_spec g limits : wf g -> 0 < witness_sample_cap limits -> 0 <= cycle_node_budget limits ->
  (forall len, len ∈ forbidden_lengths limits -> 3 <= len) ->
  exists ws n exh, foldM (sample_length g (adjacency g) limits) ([], 0, false) (forbidden_lengths limits) = Ok (ws, n, exh) /\
    n <= cycle_node_budget limits /\ ws.*1 = forbidden_lengths limits /\
    forall len l, (len, l) ∈ ws -> sampled g limits len exh l.
Proof.
  intros Hg Hcap Hb H3.
  destruct (foldM_total (fun done (acc : list (Z * list (list Z)) * Z * bool) => acc.1.2 <= cycle_node_budget limits /\
    acc.1.1.*1 = done /\ forall len l, (len, l) ∈ acc.1.1 -> sampled g limits len acc.2 l)
    (sample_length g (adjacency g) limits) (forbidden_lengths limits) ([], 0, false)) as ([[ws n] exh] & H & Hn & Hk & Hw).
  - intros pre len post [[ws n] exh] Hl (Hn & Hk & Hw). cbn in Hn, Hk, Hw.
    destruct (sample_length_spec g Hg limits len) with (ws := ws) (n := n) (exh := exh) as (l & n' & exh' & H & Hs & Hn' & He); [|done..|].
    { apply H3. rewrite Hl. set_solver. }
    eexists. split; [exact H|]. cbn. split_all; [done|by rewrite fmap_app, Hk|].
    intros len' l' [Hin|[= -> ->]%list_elem_of_singleton]%elem_of_app; [|done].
    destruct (Hw _ _ Hin) as [K1 K2 K3 K4]. split; [done..|]. intros ->. apply K4. destruct exh; [by specialize (He eq_refl)|done].
  - split_all; [done..|]. intros len l Hin. by apply elem_of_nil in Hin.
  - exists ws, n, exh. by split_all.
Qed.

(** ** Edge loads *)

(** The edges of a cycle, by the index of their first end *)
Definition mk_edge (u v : Z) : Edge := if u <? v then (u, v) else (v, u).
Definition cycle_edge (c : list Z) (i : Z) : Edge := mk_edge (cell c i) (cell c (next_index c i)).
Definition cycle_edges (c : list Z) : list Edge := cycle_edge c <$> range 0 (Z.of_nat (length c)).

Definition load (loads : gmap Edge Z) (e : Edge) : Z := default 0 (loads !! e).
Definition count {A} (P : A -> Prop) `{forall x, Decision (P x)} (l : list A) : Z := Z.of_nat (length (filter P l)).

Definition broken_by (removed : list Edge) (c : list Z) : Prop := Exists (fun e => e ∈ removed) (cycle_edges c).
#[export] Instance broken_by_dec removed c : Decision (broken_by removed c).
Proof. unfold broken_by. apply _. Defined.

Lemma mk_edge_inj u v x y : mk_edge u v = mk_edge x y -> u = x /\ v = y \/ u = y /\ v = x.
Proof. unfold mk_edge. repeat case_match; intros [= -> ->]; auto. Qed.

Lemma enumerate_from_lookup {A} k (l : list A) i : enumerate_from k l !! i = (fun x => (k + Z.of_nat i, x)) <$> l !! i.
Proof.
  revert k i. induction l as [|x l IH]; intros k [|i]; cbn; try done.
  - by rewrite Z.add_0_r.
  - rewrite IH. destruct (l !! i); cbn; [|done]. do 2 f_equal. lia.
Qed.

Lemma count_app {A} (P : A -> Prop) `{forall x, Decision (P x)} (l k : list A) : count P (l ++ k) = count P l + count P k.
Proof. unfold count. rewrite filter_app, length_app. lia. Qed.

Lemma count_cons {A} (P : A -> Prop) `{forall x, Decision (P x)} x (l : list A) :
  count P (x :: l) = (if decide (P x) then 1 else 0) + count P l.
Proof. unfold count. rewrite filter_cons. destruct (decide (P x)); cbn [length]; lia. Qed.

Lemma count_eq_NoDup (e : Edge) l : NoDup l -> count (fun x => x = e) l = if decide (e ∈ l) then 1 else 0.
Proof.
  induction 1 as [|x l Hx _ IH]; [by rewrite decide_False by apply not_elem_of_nil|]. rewrite count_cons, IH.
  destruct (decide (x = e)) as [->|Hn].
  - rewrite decide_False by done. by rewrite decide_True by by left.
  - destruct (decide (e ∈ l)); [by rewrite decide_True by by right|]. by rewrite decide_False by set_solver.
Qed.

Section Loads.
Context (g : BitGraph) (Hg : wf g) (len : Z).

Section Cycle.
Context (c : list Z) (Hc : is_cycle g len c).

Lemma cycle_length : Z.of_nat (length c) = len /\ 3 <= len.
Proof. by destruct Hc as (? & ? & _). Qed.

Lemma cycle_cell i : 0 <= i < len -> c !! Z.to_nat i = Some (cell c i).
Proof.
  destruct cycle_length. intros Hi. destruct (lookup_lt_is_Some_2 c (Z.to_nat i)) as [x Hx]; [lia|].
  by rewrite (cell_lookup _ _ _ Hx).
Qed.

Lemma cell_inj i j : 0 <= i < len -> 0 <= j < len -> cell c i = cell c j -> i = j.
Proof.
  intros Hi Hj E. destruct Hc as (_ & _ & Hn & _). pose proof (cycle_cell i Hi) as Ci. rewrite E in Ci.
  pose proof (NoDup_lookup _ _ _ _ Hn Ci (cycle_cell j Hj)). lia.
Qed.

Lemma next_range i : 0 <= i < len -> 0 <= next_index c i < len.
Proof. destruct cycle_length as [<- ?]. intros. unfold next_index. apply Z.mod_pos_bound. lia. Qed.

Lemma next_cases i : 0 <= i < len -> next_index c i = i + 1 \/ i = len - 1 /\ next_index c i = 0.
Proof.
  destruct cycle_length as [Hl ?]. intros. unfold next_index. rewrite Hl.
  destruct (decide (i = len - 1)) as [->|]; [right|left; apply Z.mod_small; lia].
  split; [done|]. replace (len - 1 + 1) with len by lia. apply Z.mod_same. lia.
Qed.

Lemma cycle_edge_adj i : 0 <= i < len -> adj g (cell c i) (cell c (next_index c i)) = true.
Proof. destruct Hc as (_ & Hl & _ & Hch). rewrite closed_chain in Hch. intros Hi. apply Hch. lia. Qed.

Lemma edge_cell i : 0 <= i < len -> _edge (cell c i) (cell c (next_index c i)) = Ok (cycle_edge c i).
Proof.
  intros Hi. pose proof (cycle_edge_adj i Hi) as Ha. unfold _edge, cycle_edge, mk_edge.
  destruct (Z.eqb_spec (cell c i) (cell c (next_index c i))) as [E|]; [|done].
  rewrite <- E in Ha. by rewrite (wf_irrefl g Hg) in Ha.
Qed.

Lemma cycle_edge_inj i j : 0 <= i < len -> 0 <= j < len -> cycle_edge c i = cycle_edge c j -> i = j.
Proof.
  intros Hi Hj [[H _]|[H1 H2]]%mk_edge_inj; [by apply cell_inj|].
  apply cell_inj in H1; [|done|by apply next_range]. apply cell_inj in H2; [|by apply next_range|done].
  destruct cycle_length. destruct (next_cases i Hi), (next_cases j Hj); lia.
Qed.

Lemma NoDup_cycle_edges : NoDup (cycle_edges c).
Proof.
  destruct cycle_length as [Hl _]. apply NoDup_fmap_2_strong; [|apply NoDup_range].
  intros i j Hi%elem_of_range Hj%elem_of_range. apply cycle_edge_inj; lia.
Qed.

Lemma enumerate_cycle : enumerate c = (fun i => (i, cell c i)) <$> range 0 len.
Proof.
  destruct cycle_length as [Hl _]. apply list_eq. intros i. unfold enumerate. rewrite enumerate_from_lookup, list_lookup_fmap.
  unfold range. destruct (decide (Z.of_nat i < len)) as [Hi|Hi].
  - rewrite lookup_seqZ_lt by lia. cbn. replace i with (Z.to_nat (Z.of_nat i)) at 1 by lia.
    rewrite cycle_cell by lia. cbn. done.
  - rewrite lookup_seqZ_ge by lia. by rewrite lookup_ge_None_2 by lia.
Qed.

Lemma py_next i : 0 <= i < len -> py_index c ((i + 1) mod len) = Ok (cell c (next_index c i)).
Proof.
  intros Hi. pose proof (next_range i Hi) as Hn. destruct cycle_length as [Hl _]. unfold next_index in *. rewrite Hl in *.
  destruct (py_index_in_range c ((i + 1) mod len)) as (x & Hx & ->); [lia|]. by rewrite (cell_lookup _ _ _ Hx).
Qed.

Lemma add_loads_spec loads : exists loads', foldM (add_load c len) loads (enumerate c) = Ok loads' /\
  forall e, load loads' e = load loads e + if decide (e ∈ cycle_edges c) then 1 else 0.
Proof.
  rewrite enumerate_cycle. destruct (foldM_total (fun done l => forall e, load l e = load loads e + count (fun x => x = e) ((fun iu => cycle_edge c iu.1) <$> done))
    (add_load c len) ((fun i => (i, cell c i)) <$> range 0 len) loads) as (loads' & H & HI).
  - intros pre iu post l Hsplit Hl. assert (exists i, iu = (i, cell c i) /\ 0 <= i < len) as (i & -> & Hi).
    { assert (iu ∈ (fun i => (i, cell c i)) <$> range 0 len) as (i & -> & Hi)%list_elem_of_fmap by (rewrite Hsplit; set_solver).
      exists i. by rewrite <- elem_of_range. }
    unfold add_load. cbn [fst snd]. rewrite py_next by done. cbn [mbind res_bind]. rewrite edge_cell by done. cbn [mbind res_bind].
    eexists. split; [done|]. intros e. rewrite fmap_app, count_app. cbn. rewrite count_cons. unfold count at 2. cbn. specialize (Hl e).
    unfold load in *. destruct (decide (cycle_edge c i = e)) as [->|Hne].
    + rewrite lookup_insert_eq. cbn. lia.
    + rewrite lookup_insert_ne by done. lia.
  - intros e. unfold count. cbn. lia.
  - exists loads'. split; [done|]. intros e. rewrite HI, <- list_fmap_compose. cbn.
    rewrite <- (count_eq_NoDup e) by apply NoDup_cycle_edges. unfold cycle_edges. destruct cycle_length as [-> _]. done.
Qed.

Lemma breaks_spec removed rem i : 0 <= i <= len -> rem = drop (Z.to_nat i) c ->
  breaks rem c removed len i = Ok (bool_decide (Exists (fun e => e ∈ removed) (cycle_edge c <$> range i len))).
Proof.
  revert i. induction rem as [|v rem IH]; intros i Hi Hr; destruct cycle_length as [Hl _].
  - assert (len <= i). { apply (f_equal length) in Hr. rewrite length_drop in Hr. cbn in Hr. lia. }
    rewrite range_nil by lia. done.
  - assert (i < len). { apply (f_equal length) in Hr. rewrite length_drop in Hr. cbn in Hr. lia. }
    assert (v = cell c i /\ rem = drop (Z.to_nat (i + 1)) c) as [-> Hrem].
    { rewrite (drop_S c (cell c i)) in Hr by (apply cycle_cell; lia). injection Hr as -> ->. split; [done|]. f_equal. lia. }
    cbn [breaks]. rewrite py_next by lia. cbn [mbind res_bind]. rewrite edge_cell by lia. cbn [mbind res_bind].
    rewrite (range_cons i len) by lia. cbn [fmap list_fmap]. case_bool_decide as H1; f_equal.
    + symmetry. apply bool_decide_eq_true_2. by left.
    + rewrite (IH (i + 1)) by (done || lia). f_equal. apply bool_decide_ext. rewrite Exists_cons. tauto.
Qed.
End Cycle.

Lemma broken_count_spec removed l : (forall c, c ∈ l -> is_cycle g len c) ->
  broken_count removed (len, l) = Ok (count (broken_by removed) l).
Proof.
  intros Hl. unfold broken_count. cbn [fst snd].
  destruct (foldM_total (fun done n => n = count (broken_by removed) done)
    (fun n c => b ← breaks c c removed len 0; Ok (if (b : bool) then n + 1 else n)) l 0) as (n & H & Hn).
  - intros pre c post n -> Hn. assert (is_cycle g len c) as Hc by (apply Hl; set_solver).
    destruct (cycle_length c Hc) as [Hlen ?]. rewrite (breaks_spec c Hc removed c 0) by (done || lia). cbn [mbind res_bind].
    eexists. split; [done|]. rewrite count_app, count_cons. unfold count at 2. cbn. rewrite Hn.
    assert (Exists (fun e => e ∈ removed) (cycle_edge c <$> range 0 len) <-> broken_by removed c) as Hb
      by (unfold broken_by, cycle_edges; by rewrite Hlen).
    case_bool_decide; case_decide; tauto || lia.
  - done.
  - by rewrite H, Hn.
Qed.

Lemma loads_of_spec l : (forall c, c ∈ l -> is_cycle g len c) ->
  exists loads, loads_of (len, l) = Ok (len, loads) /\ forall e, load loads e = count (fun c => e ∈ cycle_edges c) l.
Proof.
  intros Hl. unfold loads_of. cbn [fst snd].
  destruct (foldM_total (fun done loads => forall e, load loads e = count (fun c => e ∈ cycle_edges c) done)
    (fun loads cycle => foldM (add_load cycle len) loads (enumerate cycle)) l ∅) as (loads & -> & HI).
  - intros pre c post loads -> HI. destruct (add_loads_spec c (Hl c ltac:(set_solver)) loads) as (loads' & H & HI').
    exists loads'. split; [done|]. intros e. rewrite HI', HI, count_app, count_cons. unfold count at 3. cbn. lia.
  - done.
  - exists loads. by split.
Qed.
End Loads.

Lemma load_total total loads e : load (add_total total loads) e = load total e + load loads e.
Proof. unfold load, add_total. rewrite lookup_union_with. destruct (total !! e), (loads !! e); cbn; lia. Qed.

(** ** What the features of a graph are *)

(** The loads of an edge over all lengths *)
Definition total_load (ws : list (Z * list (list Z))) (e : Edge) : Z :=
  foldr (fun w n => count (fun c => e ∈ cycle_edges c) w.2 + n) 0 ws.

Record features_of (g : BitGraph) (limits : FeatureLimits) (f : Features) : Prop := {
  fo_graph : f_graph f = g;
  fo_adj : f_adj f = adjacency g;
  fo_lengths : (witnesses f).*1 = forbidden_lengths limits;
  fo_sampled : forall len l, (len, l) ∈ witnesses f -> 3 <= len /\ sampled g limits len (cycle_budget_exhausted f) l;
  fo_nodes : cycle_nodes f <= cycle_node_budget limits;
  fo_loads : Forall2 (fun w l => l.1 = w.1 /\ forall e, load l.2 e = count (fun c => e ∈ cycle_edges c) w.2)
    (witnesses f) (edge_loads f);
  fo_total : forall e, load (total_edge_loads f) e = total_load (witnesses f) e;
  fo_edges : loaded_edges f = sorted_by (load_key (total_edge_loads f)) (edges g)
}.

Lemma total_loads_spec ws loads total :
  Forall2 (fun w l => l.1 = w.1 /\ forall e, load l.2 e = count (fun c => e ∈ cycle_edges c) w.2) ws loads ->
  forall e, load (foldl add_total total loads.*2) e = load total e + total_load ws e.
Proof.
  intros HF. revert total. induction HF as [|w l ws loads [_ Hl] _ IH]; intros total e; cbn [foldl foldr fmap list_fmap total_load].
  { by rewrite Z.add_0_r. }
  rewrite IH, load_total, Hl. unfold total_load. lia.
Qed.

Lemma mapM_loads g ws : wf g -> (forall len l, (len, l) ∈ ws -> forall c, c ∈ l -> is_cycle g len c) ->
  exists loads, mapM loads_of ws = Ok loads /\
    Forall2 (fun w l => l.1 = w.1 /\ forall e, load l.2 e = count (fun c => e ∈ cycle_edges c) w.2) ws loads.
Proof.
  intros Hg. induction ws as [|[len l] ws IH]; intros Hw; [by exists []|].
  destruct (loads_of_spec g Hg len l) as (loads & H & Hl); [by apply Hw; left|].
  destruct IH as (ls & Hls & HF); [intros len' l' ?; apply Hw; by right|].
  exists ((len, loads) :: ls). split; [by rewrite mapM_res_cons, H; cbn [mbind res_bind]; rewrite Hls|]. by constructor.
Qed.

Definition limits_ok (limits : FeatureLimits) : Prop :=
  0 < witness_sample_cap limits /\ 0 <= cycle_node_budget limits /\ forall len, len ∈ forbidden_lengths limits -> 3 <= len.

Lemma default_limits_ok : limits_ok default_limits.
Proof.
  unfold limits_ok. split_all; [done..|]. apply (Forall_forall (fun len => 3 <= len)). by repeat constructor.
Qed.

Lemma local_features_spec g limits :
  wf g -> limits_ok limits -> exists f, local_features g limits = Ok f /\ features_of g limits f.
Proof.
  intros Hg (Hcap & Hb & H3). destruct (samples_spec g limits Hg Hcap Hb H3) as (ws & n & exh & H & Hn & Hk & Hw).
  unfold local_features. rewrite H. cbn [mbind res_bind fst snd].
  destruct (mapM_loads g ws Hg) as (loads & Hl & HF).
  { intros len l Hin c Hc. by apply (sm_form _ _ _ _ _ (Hw len l Hin)). }
  rewrite Hl. cbn [mbind res_bind]. eexists. split; [done|]. split; cbn; try done.
  - intros len l Hin. split; [|by apply Hw]. apply H3. rewrite <- Hk. apply list_elem_of_fmap. by exists (len, l).
  - intros e. by rewrite (total_loads_spec ws loads ∅ HF e).
Qed.

(** the features of a graph are computed for every graph: for each length the
    listed cycles are cycles of the graph in canonical form, none twice, at most
    the cap of them, and all of them up to rotation and reversal when neither the
    cap nor the node budget was reached; the load of an edge is the number of
    listed cycles through it, and the edges are sorted by their loads. *)
Theorem local_features_correct g limits :
  wf g -> limits_ok limits -> exists f, local_features g limits = Ok f /\ features_of g limits f.
Proof. apply local_features_spec. Qed.

Lemma local_features_correct_witness : exists f, local_features K4 default_limits = Ok f /\ features_of K4 default_limits f.
Proof. apply local_features_correct; [apply K4_wf|apply default_limits_ok]. Defined.
