(* ===== verification/Risks.v ===== *)
(** * Local risks count the short cycles a rewrite creates

    [local_risks] of [_FeatureSnapshot] counts the triangles and the 4-cycles
    through the edges a rewrite adds, up to a budget of operations. *)

From stdpp Require Import gmap.
From S2P Require Import Prelude Model Cycles Order Matchings Features Distances Sampling.

#[global] Open Scope Z_scope.

(** ** The rewritten adjacency *)

(** The sets hold the neighbours that [f] gives. *)
Definition reads (n : Z) (f : Z -> Z -> bool) (nb : list (gset Z)) : Prop :=
  Z.of_nat (length nb) = n /\
  forall u, 0 <= u < n -> exists a, nb !! Z.to_nat u = Some a /\ forall v, v ∈ a <-> f u v = true.

Lemma reads_ext n f f' nb : (forall u v, f u v = f' u v) -> reads n f nb -> reads n f' nb.
Proof.
  intros Hf [Hl Hr]. split; [done|]. intros u Hu. destruct (Hr u Hu) as (a & ? & Ha). exists a. split; [done|].
  intros v. by rewrite Ha, Hf.
Qed.

Lemma reads_index n f nb u : reads n f nb -> 0 <= u < n ->
  exists a, py_index nb u = Ok a /\ forall v, v ∈ a <-> f u v = true.
Proof.
  intros [Hl Hr] Hu. destruct (Hr u Hu) as (a & Ha & Hf). destruct (py_index_in_range nb u) as (x & Hx & ->); [lia|].
  exists a. split; [congruence|done].
Qed.

Lemma reads_adjacency g : wf g -> reads (gn g) (adj g) (adjacency g).
Proof.
  intros Hg. pose proof (wf_n g Hg). assert (Z.of_nat (length (adjacency g)) = gn g) as Hl.
  { unfold adjacency. rewrite length_fmap, length_range. lia. }
  split; [done|]. intros u Hu. destruct (py_index_adjacency g u Hg Hu) as (a & Ha & Hadj).
  destruct (py_index_in_range (adjacency g) u) as (x & Hx & Hx'); [lia|]. exists a. split; [congruence|done].
Qed.

(** Replacing the set of one vertex *)
Lemma reads_update n f nb u (op : gset Z -> gset Z) (f' : Z -> Z -> bool) :
  reads n f nb -> 0 <= u < n ->
  (forall a v, (forall w, w ∈ a <-> f u w = true) -> v ∈ op a <-> f' u v = true) ->
  (forall x v, x <> u -> f' x v = f x v) ->
  exists nb', (a ← py_index nb u; py_store nb u (op a)) = Ok nb' /\ reads n f' nb'.
Proof.
  intros Hr Hu Hop Hother. destruct (reads_index _ _ _ u Hr Hu) as (a & -> & Ha). destruct Hr as [Hl Hr].
  cbn [mbind res_bind]. unfold py_store. destruct (Z.ltb_spec u 0); [lia|].
  destruct (Z.leb_spec (Z.of_nat (length nb)) u); [lia|]. destruct (Z.ltb_spec u 0); [lia|]. cbn [orb].
  eexists. split; [done|]. split; [by rewrite length_insert|]. intros x Hx. destruct (decide (x = u)) as [->|Hne].
  - exists (op a). rewrite list_lookup_insert_eq by lia. split; [done|]. intros v. by apply Hop.
  - destruct (Hr x Hx) as (b & Hb & Hbf). exists b. rewrite list_lookup_insert_ne by lia. split; [done|].
    intros v. rewrite Hbf. by rewrite Hother.
Qed.

Lemma discard_pair n f nb u v : reads n f nb -> 0 <= u < n -> 0 <= v < n ->
  exists nb', (a ← discard nb u v; discard a v u) = Ok nb' /\ reads n (fun a b => f a b && negb (same_edge u v a b)) nb'.
Proof.
  intros Hr Hu Hv.
  destruct (reads_update n f nb u (fun a => a ∖ {[v]}) (fun a b => f a b && negb ((a =? u) && (b =? v))) Hr Hu) as (nb1 & H1 & R1).
  { intros a w Ha. rewrite elem_of_difference, Ha, elem_of_singleton, Z.eqb_refl. destruct (f u w); lia. }
  { intros x w Hx. destruct (Z.eqb_spec x u); [done|]. by destruct (f x w). }
  unfold discard. rewrite H1. cbn [mbind res_bind].
  destruct (reads_update n _ nb1 v (fun a => a ∖ {[u]}) (fun a b => f a b && negb (same_edge u v a b)) R1 Hv) as (nb2 & H2 & R2).
  { intros a w Ha. rewrite elem_of_difference, Ha, elem_of_singleton. unfold same_edge. destruct (f v w); lia. }
  { intros x w Hx. unfold same_edge. destruct (f x w); lia. }
  by exists nb2.
Qed.

Lemma insert_pair n f nb u v : reads n f nb -> 0 <= u < n -> 0 <= v < n ->
  exists nb', (a ← insert_neighbor nb u v; insert_neighbor a v u) = Ok nb' /\ reads n (fun a b => f a b || same_edge u v a b) nb'.
Proof.
  intros Hr Hu Hv.
  destruct (reads_update n f nb u (fun a => a ∪ {[v]}) (fun a b => f a b || ((a =? u) && (b =? v))) Hr Hu) as (nb1 & H1 & R1).
  { intros a w Ha. rewrite elem_of_union, Ha, elem_of_singleton, Z.eqb_refl. destruct (f u w); lia. }
  { intros x w Hx. destruct (Z.eqb_spec x u); [done|]. by destruct (f x w). }
  unfold insert_neighbor. rewrite H1. cbn [mbind res_bind].
  destruct (reads_update n _ nb1 v (fun a => a ∪ {[u]}) (fun a b => f a b || same_edge u v a b) R1 Hv) as (nb2 & H2 & R2).
  { intros a w Ha. rewrite elem_of_union, Ha, elem_of_singleton. unfold same_edge. destruct (f v w); lia. }
  { intros x w Hx. unfold same_edge. destruct (f x w); lia. }
  by exists nb2.
Qed.

Lemma rewritten_spec g removed added h : wf g -> with_edges g added removed = Ok h ->
  exists nb, rewritten (adjacency g) removed added = Ok nb /\ reads (gn h) (adj h) nb.
Proof.
  intros Hg Hw. pose proof (with_edges_inv _ _ _ _ Hg Hw) as Hre. pose proof Hre as [Hrem Hadd].
  destruct (with_edges_total g added removed Hg Hre) as (h' & Hh & _ & Hn & Ha). rewrite Hw in Hh. injection Hh as <-.
  unfold rewritten.
  destruct (foldM_total (fun pre nb => reads (gn g) (Model.removed g pre) nb)
    (fun a e => a' ← discard a e.1 e.2; discard a' e.2 e.1) removed (adjacency g)) as (nb1 & -> & R1).
  { intros pre [u v] post nb Heq Hr. assert (adj g u v = true) as [Hu Hv]%(wf_range g Hg) by (apply Hrem; rewrite Heq; set_solver).
    destruct (discard_pair _ _ _ u v Hr Hu Hv) as (nb' & H & R). exists nb'. split; [done|]. eapply reads_ext; [|exact R].
    intros a b. unfold Model.removed. rewrite edge_in_snoc, negb_orb. by rewrite andb_assoc. }
  { eapply reads_ext; [|by apply reads_adjacency]. intros a b. unfold Model.removed. cbn. by rewrite andb_true_r. }
  cbn [mbind res_bind].
  destruct (foldM_total (fun pre nb => reads (gn g) (rewired g pre removed) nb)
    (fun a e => a' ← insert_neighbor a e.1 e.2; insert_neighbor a' e.2 e.1) added nb1) as (nb2 & H2 & R2).
  { intros pre [u v] post nb Heq Hr. destruct (Hadd _ _ _ _ Heq) as (Hu & Hv & _).
    destruct (insert_pair _ _ _ u v Hr Hu Hv) as (nb' & H & R). exists nb'. split; [done|]. eapply reads_ext; [|exact R].
    intros a b. by rewrite rewired_snoc. }
  { eapply reads_ext; [|exact R1]. intros a b. unfold rewired. cbn. by rewrite orb_false_r. }
  exists nb2. split; [done|]. rewrite Hn. eapply reads_ext; [|exact R2]. done.
Qed.

(** ** The cycles a rewrite creates *)

(** The cycle can be written from one end of the edge to the other. *)
Definition passes (c : list Z) (e : Edge) : Prop := exists p, same_cycle c (e.1 :: p ++ [e.2]).

(** A cycle of the graph, in canonical form, through one of the edges *)
Definition created (h : BitGraph) (added : list Edge) (len : Z) (c : list Z) : Prop :=
  form h len c /\ exists e, e ∈ added /\ passes c e.

Lemma closed_triangle h u m v : wf h ->
  is_cycle h 3 [u; m; v] <-> adj h u m = true /\ adj h m v = true /\ adj h u v = true.
Proof.
  intros Hh. unfold is_cycle, edge_rel. cbn. rewrite (wf_sym h Hh v u). split; [tauto|]. intros (Hum & Hmv & Huv).
  split_all; [done..| |done|done|done|done]. 
  assert (forall a b, adj h a b = true -> a <> b) as Hne by (intros a b Hab ->; by rewrite (wf_irrefl h Hh) in Hab).
  pose proof (Hne _ _ Hum). pose proof (Hne _ _ Hmv). pose proof (Hne _ _ Huv).
  repeat constructor; set_solver.
Qed.

Lemma closed_square h u a b v : wf h ->
  is_cycle h 4 [u; a; b; v] <->
  adj h u a = true /\ adj h a b = true /\ adj h b v = true /\ adj h u v = true /\ a <> v /\ b <> u.
Proof.
  intros Hh. unfold is_cycle, edge_rel. cbn. rewrite (wf_sym h Hh v u). split.
  - intros (_ & _ & Hn & Hc). split_all; [tauto..| |].
    + intros ->. apply NoDup_cons in Hn as [_ Hn]. apply NoDup_cons in Hn as [Hn _]. set_solver.
    + intros ->. apply NoDup_cons in Hn as [Hn _]. set_solver.
  - intros (Hua & Hab & Hbv & Huv & Hav & Hbu). split_all; [done..| |done|done|done|done|done].
    assert (forall x y, adj h x y = true -> x <> y) as Hne by (intros x y Hxy ->; by rewrite (wf_irrefl h Hh) in Hxy).
    pose proof (Hne _ _ Hua). pose proof (Hne _ _ Hab). pose proof (Hne _ _ Hbv). pose proof (Hne _ _ Huv).
    repeat constructor; set_solver.
Qed.

(** Nothing is forgotten: the operations only grow. *)
Definition risk_grows (r r' : Risk) : Prop := ops r <= ops r'.
#[export] Instance risk_grows_preorder : PreOrder risk_grows.
Proof. unfold risk_grows. split; intros ?; lia. Qed.

Section Count.
Context (set_iter : gset Z -> list Z) (Hiter : forall X, set_iter X ≡ₚ elements X).
Context (limits : FeatureLimits) (h : BitGraph) (Hh : wf h) (added : list Edge) (Hadded : forall e, e ∈ added -> adj h e.1 e.2 = true).
Context (nb : list (gset Z)) (Hnb : reads (gn h) (adj h) nb).

Lemma elem_of_iter X x : x ∈ set_iter X <-> x ∈ X.
Proof. by rewrite Hiter, elem_of_elements. Qed.

Lemma index_nb u v : adj h u v = true -> exists a, py_index nb u = Ok a /\ forall w, w ∈ a <-> adj h u w = true.
Proof. intros [Hu _]%(wf_range h Hh). by apply (reads_index _ _ _ u Hnb). Qed.

Record risk_ok (r : Risk) : Prop := {
  rk_triangles : forall c, c ∈ triangles r -> created h added 3 c;
  rk_squares : forall c, c ∈ squares r -> created h added 4 c;
  rk_ops : ops r <= local_risk_budget limits
}.

(** A triangle or a square, written along its added edge, and counted once *)
Definition listed (r : Risk) (c : list Z) : Prop :=
  exists m, _canonical_cycle c = Ok m /\ (length c = 3%nat -> m ∈ triangles r) /\ (length c = 4%nat -> m ∈ squares r).

Abbreviation rlists := (lists returned risk_ok risk_grows listed).

Definition written (len : Z) (u v : Z) (c : list Z) : Prop := is_cycle h len c /\ exists p, c = u :: p ++ [v].

Lemma written_created len u v c : (u, v) ∈ added -> written len u v c ->
  exists m, _canonical_cycle c = Ok m /\ created h added len m.
Proof.
  intros Huv [Hc (p & ->)]. destruct (canonical_form h len _ Hh Hc) as (m & Hm & Hf & Hs).
  exists m. split; [done|]. split; [done|]. exists (u, v). split; [done|]. exists p. by apply same_cycle_sym.
Qed.

Section Edge.
Context (u v : Z) (Huv : (u, v) ∈ added).

Lemma edge_adj : adj h u v = true.
Proof. apply (Hadded _ Huv). Qed.

Lemma add_triangle r m : risk_ok r -> adj h u m = true -> adj h v m = true ->
  exists r', risk_triangle u v r m = Ok r' /\ rlists (fun c => c = [u; m; v]) r r'.
Proof.
  intros [H1 H2 H3] Hum Hvm. assert (written 3 u v [u; m; v]) as Hw.
  { split; [|by exists [m]]. apply closed_triangle; [done|]. rewrite (wf_sym h Hh m v). split_all; [done..|apply edge_adj]. }
  destruct (written_created _ _ _ _ Huv Hw) as (x & Hx & Hc). unfold risk_triangle. rewrite Hx. cbn [mbind res_bind].
  eexists. split; [done|]. split; [split; cbn; [set_solver|done..]|unfold risk_grows; cbn; lia|].
  cbn. intros Ht. split_all; [done| |].
  - intros c (y & Hy & Hc3 & Hc4). exists y. cbn. split_all; [done|set_solver|done].
  - intros c ->. exists x. cbn. split_all; [done|set_solver|done].
Qed.

Lemma add_second first r second : risk_ok r -> adj h u first = true -> first <> v -> adj h first second = true -> second <> u ->
  exists r', risk_second limits nb u v first r second = Ok r' /\ rlists (fun c => c = [u; first; second; v] /\ is_cycle h 4 c) r r'.
Proof.
  intros Hr Huf Hfv Hfs Hsu. unfold risk_second. destruct (returned r) eqn:Ht.
  { exists r. split; [done|]. by apply lists_halted; [typeclasses eauto|..]. }
  pose proof Hr as [H1 H2 H3]. destruct (Z.leb_spec (local_risk_budget limits) (ops r)) as [Hb|Hb].
  { eexists. split; [done|]. split; [by split|unfold risk_grows; cbn; lia|done]. }
  assert (forall P : list Z -> Prop, (forall c, ~ P c) ->
    rlists P r (mkRisk (triangles r) (squares r) (ops r + 1) false)) as Hskip.
  { intros P HP. split; [split; cbn; [done..|lia]|unfold risk_grows; cbn; lia|]. intros _. split_all; [done..|]. intros c Hc. by destruct (HP c). }
  destruct (Z.eqb_spec second v) as [->|Hsv].
  { eexists. split; [done|]. apply Hskip. intros c [-> (_ & _ & Hn & _)]. apply NoDup_cons in Hn as [_ Hn].
    apply NoDup_cons in Hn as [_ Hn]. apply NoDup_cons in Hn as [Hn _]. set_solver. }
  destruct (index_nb second first) as (a & -> & Ha); [by rewrite (wf_sym h Hh)|]. cbn [mbind res_bind].
  case_bool_decide as Hva; rewrite Ha in Hva.
  - assert (written 4 u v [u; first; second; v]) as Hw.
    { split; [|by exists [first; second]]. apply closed_square; [done|]. split_all; [done..|apply edge_adj|done|done]. }
    destruct (written_created _ _ _ _ Huv Hw) as (x & Hx & Hc). rewrite Hx. cbn [mbind res_bind].
    eexists. split; [done|]. split; [split; cbn; [done|set_solver|lia]|unfold risk_grows; cbn; lia|].
    cbn. intros _. split_all; [done| |].
    + intros c (y & Hy & Hc3 & Hc4). exists y. cbn. split_all; [done|done|set_solver].
    + intros c [-> _]. exists x. cbn. split_all; [done|done|set_solver].
  - eexists. split; [done|]. apply Hskip. intros c [-> Hc]. apply closed_square in Hc; [|done]. tauto.
Qed.

Lemma add_first r first : risk_ok r -> adj h u first = true -> first <> v ->
  exists r', risk_first set_iter limits nb u v r first = Ok r' /\
    rlists (fun c => is_cycle h 4 c /\ exists second, c = [u; first; second; v]) r r'.
Proof.
  intros Hr Huf Hfv. unfold risk_first. destruct (returned r) eqn:Ht.
  { exists r. split; [done|]. by apply lists_halted; [typeclasses eauto|..]. }
  destruct (index_nb first u) as (a & -> & Ha); [by rewrite (wf_sym h Hh)|]. cbn [mbind res_bind].
  destruct (loop_lists returned risk_ok risk_grows listed (risk_second limits nb u v first)
    (fun second c => c = [u; first; second; v] /\ is_cycle h 4 c) (set_iter (a ∖ {[u]})) r) as (r' & Hr' & Hl); [|done|].
  - intros second s Hin Hs. rewrite elem_of_iter, elem_of_difference, Ha, elem_of_singleton in Hin.
    apply add_second; [done..|apply Hin|apply Hin].
  - exists r'. split; [done|]. eapply lists_mono; [|exact Hl]. intros c [Hc (second & ->)]. exists second. split; [|done].
    rewrite elem_of_iter, elem_of_difference, Ha, elem_of_singleton. apply closed_square in Hc; tauto.
Qed.

Lemma add_edge r : risk_ok r ->
  exists r', risk_edge set_iter limits nb r (u, v) = Ok r' /\ rlists (fun c => written 3 u v c \/ written 4 u v c) r r'.
Proof.
  intros Hr. unfold risk_edge. destruct (returned r) eqn:Ht.
  { exists r. split; [done|]. by apply lists_halted; [typeclasses eauto|..]. }
  destruct (index_nb u v edge_adj) as (au & -> & Hau). cbn [mbind res_bind].
  destruct (index_nb v u) as (av & -> & Hav); [rewrite (wf_sym h Hh); apply edge_adj|]. cbn [mbind res_bind].
  destruct (loop_lists returned risk_ok risk_grows listed (risk_triangle u v) (fun m c => c = [u; m; v]) (set_iter (au ∩ av)) r)
    as (r1 & -> & Hl1); [|done|].
  { intros m s Hin Hs. rewrite elem_of_iter, elem_of_intersection, Hau, Hav in Hin. destruct Hin. by apply add_triangle. }
  cbn [mbind res_bind].
  destruct (loop_lists returned risk_ok risk_grows listed (risk_first set_iter limits nb u v)
    (fun first c => is_cycle h 4 c /\ exists second, c = [u; first; second; v]) (set_iter (au ∖ {[v]})) r1) as (r2 & Hr2 & Hl2).
  { intros first s Hin Hs. rewrite elem_of_iter, elem_of_difference, Hau, elem_of_singleton in Hin. destruct Hin. by apply add_first. }
  { by apply (ls_ok _ _ _ _ _ _ _ Hl1). }
  exists r2. split; [done|]. eapply lists_mono; [|by eapply lists_trans; [typeclasses eauto|..]].
  intros c [[Hc (p & ->)]|[Hc (p & ->)]].
  - left. pose proof Hc as (_ & Hlen & _). cbn in Hlen. rewrite length_app in Hlen. destruct p as [|m [|]]; cbn in Hlen; [lia| |lia].
    exists m. split; [|done]. apply closed_triangle in Hc as (? & ? & _); [|done].
    rewrite elem_of_iter, elem_of_intersection, Hau, Hav. by rewrite (wf_sym h Hh v m).
  - right. pose proof Hc as (_ & Hlen & _). cbn in Hlen. rewrite length_app in Hlen.
    destruct p as [|first [|second [|]]]; cbn in Hlen; [lia|lia| |lia]. exists first. split; [|by split; [|exists second]].
    rewrite elem_of_iter, elem_of_difference, Hau, elem_of_singleton. apply closed_square in Hc; tauto.
Qed.
End Edge.
End Count.

Lemma local_risks_spec set_iter limits base removed added h s :
  (forall X, set_iter X ≡ₚ elements X) ->
  wf (f_graph base) -> f_adj base = adjacency (f_graph base) ->
  with_edges (f_graph base) added removed = Ok h ->
  local_budget_exhausted s = false -> local_ops s <= local_risk_budget limits ->
  exists T Q n full, local_risks set_iter limits base removed added s = Ok ((card T, card Q), with_local s n full) /\
    n <= local_risk_budget limits /\
    (forall c, c ∈ T -> created h added 3 c) /\ (forall c, c ∈ Q -> created h added 4 c) /\
    (full = false -> (forall c, created h added 3 c -> c ∈ T) /\ forall c, created h added 4 c -> c ∈ Q).
Proof.
  intros Hiter Hg Hadj Hw Hs Hops. pose proof (with_edges_inv _ _ _ _ Hg Hw) as Hre.
  destruct (with_edges_total _ _ _ Hg Hre) as (h' & Hh' & Hh & Hn & Ha). rewrite Hw in Hh'. injection Hh' as <-.
  destruct (rewritten_spec _ _ _ _ Hg Hw) as (nb & Hnb & Hr).
  assert (forall e, e ∈ added -> adj h e.1 e.2 = true) as Hadded.
  { intros [u v] He. cbn. rewrite Ha. unfold rewired. apply orb_true_iff. right. apply edge_in_true. by left. }
  unfold local_risks. rewrite Hs, Hadj, Hnb. cbn [mbind res_bind].
  destruct (loop_lists returned (risk_ok limits h added) risk_grows listed (risk_edge set_iter limits nb)
    (fun e c => written h 3 e.1 e.2 c \/ written h 4 e.1 e.2 c) added (mkRisk ∅ ∅ (local_ops s) false)) as (r & -> & Hl).
  - intros [u v] r He Hok. by apply (add_edge set_iter Hiter limits h Hh added Hadded nb Hr u v He).
  - split; cbn; [set_solver..|lia].
  - cbn [mbind res_bind]. destruct (ls_ok _ _ _ _ _ _ _ Hl) as [H1 H2 H3].
    eexists (triangles r), (squares r), _, _. split; [done|]. split_all; [lia|done..|].
    intros Ht. destruct (ls_found _ _ _ _ _ _ _ Hl Ht) as (_ & _ & Hall).
    assert (forall len c, created h added len c -> (len = 3 \/ len = 4) ->
      (len = 3 -> c ∈ triangles r) /\ (len = 4 -> c ∈ squares r)) as Hfin.
    { intros len c [[Hc Hcan] ([u v] & He & (p & Hp))] Hlen. cbn in Hp.
      pose proof (is_cycle_same _ _ _ _ Hh Hc Hp) as Hcyc.
      destruct (Hall (u :: p ++ [v])) as (m & Hm & H3' & H4').
      { exists (u, v). split; [done|]. destruct Hlen as [-> | ->]; [left|right]; by split; [|exists p]. }
      rewrite <- (canonical_same _ _ Hp), Hcan in Hm. injection Hm as <-. destruct Hcyc as (_ & Hl' & _).
      split; intros ->; [apply H3'|apply H4']; lia. }
    split; intros c Hc; apply (Hfin _ c Hc); auto.
Qed.

(** ** The theorem *)

(** For a legal rewrite, [local_risks] returns the number of triangles and of
    4-cycles of the new graph that pass through an added edge, each counted once,
    unless its budget of operations ran out, which it then records; it spends at
    most the budget and leaves the caches alone. *)
Theorem local_risks_exact set_iter limits base removed added h s :
  (forall X, set_iter X ≡ₚ elements X) ->
  wf (f_graph base) -> f_adj base = adjacency (f_graph base) ->
  with_edges (f_graph base) added removed = Ok h ->
  local_budget_exhausted s = false -> local_ops s <= local_risk_budget limits ->
  exists T Q s', local_risks set_iter limits base removed added s = Ok ((card T, card Q), s') /\
    local_ops s' <= local_risk_budget limits /\ caches s' = caches s /\
    (forall c, c ∈ T -> created h added 3 c) /\ (forall c, c ∈ Q -> created h added 4 c) /\
    (local_budget_exhausted s' = false ->
      (forall c, created h added 3 c -> c ∈ T) /\ forall c, created h added 4 c -> c ∈ Q).
Proof.
  intros Hiter Hg Hadj Hw Hs Hops. destruct (local_risks_spec set_iter limits base removed added h s) as (T & Q & n & full & H & Hn & HT & HQ & Hall); [done..|].
  exists T, Q, (with_local s n full). cbn. rewrite Hs. by split_all.
Qed.

Module RisksWitness.
(** A hexagon, and the two triangles a switch makes of it *)
Definition hexagon : BitGraph := mkBitGraph 6 [34; 5; 10; 20; 40; 17].
Definition switched : BitGraph := mkBitGraph 6 [48; 12; 10; 6; 33; 17].
Definition base : Features := mkFeatures hexagon (adjacency hexagon) [] [] ∅ [] 0 0 false.
Definition start : Snap := new_snapshot (mkCaches ∅ ∅).

Lemma local_risks_exact_witness :
  exists T Q s', local_risks elements default_limits base [(0, 1); (3, 4)] [(0, 4); (1, 3)] start = Ok ((card T, card Q), s') /\
    local_ops s' <= 2048 /\ caches s' = mkCaches ∅ ∅ /\
    (forall c, c ∈ T -> created switched [(0, 4); (1, 3)] 3 c) /\ (forall c, c ∈ Q -> created switched [(0, 4); (1, 3)] 4 c) /\
    (local_budget_exhausted s' = false ->
      (forall c, created switched [(0, 4); (1, 3)] 3 c -> c ∈ T) /\ forall c, created switched [(0, 4); (1, 3)] 4 c -> c ∈ Q).
Proof.
  apply (local_risks_exact elements default_limits base [(0, 1); (3, 4)] [(0, 4); (1, 3)] switched start).
  - done.
  - apply (from_edges_wf 6 [(0, 1); (1, 2); (2, 3); (3, 4); (4, 5); (0, 5)]). vm_compute. reflexivity.
  - reflexivity.
  - vm_compute. reflexivity.
  - reflexivity.
  - vm_compute. done.
Defined.
End RisksWitness.
