(* ===== verification/Pool.v ===== *)
(** * The proposal pool

    [src/src/sglab/research/proposal_ranking.py]: [PoolLimits], the records of a
    proposal and of a pool, and [KSwitchPoolGenerator]. The generator's cache is
    part of its state. SHA-256 and [random.Random(seed)] are parameters; the
    profile and the measured times are left out. *)

From stdpp Require Import gmap.
From S2P Require Import Prelude Floats Json Convert Bits Model Rng Order Matchings Features.

#[global] Open Scope Z_scope.

(** ** [PoolLimits] *)

Definition SUPPORTED_K_VALUES : list Z := [2; 3; 4].
Definition SUPPORTED_SELECTORS : list string :=
  ["uniform_random"; "sampled_forbidden_cycle_anchored"; "high_sampled_witness_load"; "remote_from_anchor";
   "pairwise_distant_disjoint"; "mixed_exploit_explore"]%string.

Record PoolLimits := mkPoolLimits {
  pool_size : Z;
  k_values : list Z;
  selectors : list string;
  selector_weights : list Z;
  retry_limit : Z;
  matching_limit : Z
}.

Definition default_pool_limits : PoolLimits := mkPoolLimits 12 SUPPORTED_K_VALUES SUPPORTED_SELECTORS [2; 2; 2; 1; 2; 3] 96 105.

(** [any(x not in allowed for x in l) or len(set(l)) != len(l)], with [not l] before it *)
Definition bad_choice {A} `{EqDecision A} (allowed l : list A) : bool :=
  bool_decide (l = []) || existsb (fun x => negb (bool_decide (x ∈ allowed))) l || negb (length (remove_dups l) =? length l)%nat.

Definition check_pool_limits (l : PoolLimits) : res PoolLimits :=
  raise_if (negb ((1 <=? pool_size l) && (pool_size l <=? 64))) (ValueError "pool_size must be in [1,64]") ;;;
  raise_if (bad_choice SUPPORTED_K_VALUES (k_values l)) (ValueError "k_values must be unique values from 2,3,4") ;;;
  raise_if (bad_choice SUPPORTED_SELECTORS (selectors l)) (ValueError "selectors contain unsupported or duplicate values") ;;;
  raise_if (negb (length (selector_weights l) =? length (selectors l))%nat || existsb (fun w => w <=? 0) (selector_weights l))
    (ValueError "selector_weights must align positive values") ;;;
  raise_if (negb ((1 <=? retry_limit l) && (retry_limit l <=? 1024)) || negb ((1 <=? matching_limit l) && (matching_limit l <=? 105)))
    (ValueError "pool budgets out of bounds") ;;;
  Ok l.

(** ** Proposals and pools *)

Record ProposalRewrite := mkRewrite {
  removed_edges : list Edge;
  added_edges : list Edge;
  operator_family : string;
  metadata : list (string * json)
}.

(** [tuple(sorted(e))] *)
Definition sort_edge (e : Edge) : Edge := if e.2 <? e.1 then (e.2, e.1) else e.
Definition new_rewrite (removed added : list Edge) (family : string) (meta : list (string * json)) : ProposalRewrite :=
  mkRewrite (sort_edge <$> removed) (sort_edge <$> added) family meta.

Record ProposalCandidate := mkCandidate { rewrite : ProposalRewrite; proposal : list (string * json) }.

Definition proposal_id (c : ProposalCandidate) : res string := v ← subscript (proposal c) "proposal_id"; py_str v.

Record ProposalPool := mkPool {
  schema_version : string;
  candidates : list ProposalCandidate;
  pool_hash : string;
  attempted : Z;
  rejected : list (string * Z);
  deduplicated : Z;
  retained : Z;
  selector_counts : list (string * Z);
  k_counts : list (string * Z);
  feature_usage : list (string * json)
}.

Definition POOL_SCHEMA_VERSION : string := "stage2b.pool.v1".

(** ** Canonical JSON and hashes *)

(** [ensure_ascii=False]: only quotes, backslashes and control characters are escaped. *)
Definition raw_char (a : Ascii.ascii) : string := if code a <? 127 then dumps_char a else chr (code a).
Definition raw_string (s : string) : string :=
  (chr 34 ++ String.concat "" (raw_char <$> Stdlib.Strings.String.list_ascii_of_string s) ++ chr 34)%string.

(** [allow_nan=False] *)
Definition strict_number (x : float) : res string :=
  if is_finite x then Ok (float_repr x) else Raise (ValueError "Out of range float values are not JSON compliant").

(** [text.encode("utf-8")], of characters up to U+00FF *)
Definition utf8 (s : string) : list Z := c ← codes s; if c <? 128 then [c] else [192 + c / 64; 128 + c mod 64].

Definition canonical_json_bytes (v : json) : res (list Z) := s ← dumps_with raw_string strict_number v; Ok (utf8 s).

(** [int.from_bytes(digest[:8], "big")] *)
Definition from_bytes (l : list Z) : Z := foldl (fun n b => 256 * n + b) 0 l.
Definition hexdigest (digest : list Z) : string := String.concat "" (hex2 <$> digest).

Definition edge_json (e : Edge) : json := JList [JInt e.1; JInt e.2].
Definition edges_json (l : list Edge) : json := JList (edge_json <$> l).

Section Hash.
Context (sha256 : list Z -> list Z).

Definition canonical_json_hash (v : json) : res string := b ← canonical_json_bytes v; Ok (hexdigest (sha256 b)).

Definition _pool_hash (cs : list ProposalCandidate) : res string :=
  canonical_json_hash (JList ((fun c => JObj [("proposal", JObj (proposal c)); ("removed_edges", edges_json (removed_edges (rewrite c)));
    ("added_edges", edges_json (added_edges (rewrite c)))]%string) <$> cs)).
End Hash.

(** ** [KSwitchPoolGenerator] *)

(** [_disjoint_greedy]: the first [k] pairwise disjoint edges *)
Fixpoint disjoint_from (edges : list Edge) (k : Z) (selected : list Edge) (used : list Z) : option (list Edge) :=
  match edges with
  | [] => None
  | e :: edges' =>
      if bool_decide (e.1 ∈ used) || bool_decide (e.2 ∈ used) then disjoint_from edges' k selected used
      else
        let selected := selected ++ [e] in
        if Z.of_nat (length selected) =? k then Some (py_sorted selected)
        else disjoint_from edges' k selected (used ++ [e.1; e.2])
  end.
Definition _disjoint_greedy (edges : list Edge) (k : Z) : option (list Edge) := disjoint_from edges k [] [].

(** [dict(sorted(counter.items()))] *)
Definition sorted_items {V} (d : list (string * V)) : list (string * V) := sorted_by fst d.
Definition bump (d : list (string * Z)) (k : string) : list (string * Z) := dict_set d k (default 0 (dict_get d k) + 1).

Record Generator := mkGenerator {
  cached_graph : option BitGraph;
  cached_features : option (Features * Caches)
}.

Section Generate.
Context `{Rng R} (Random : Z -> R) (sha256 : list Z -> list Z) (set_iter : gset Z -> list Z).
Context (pool_limits : PoolLimits) (feature_limits : FeatureLimits).

Definition new_generator : Generator := mkGenerator None None.
Definition invalidate_cache (s : Generator) : Generator := mkGenerator None None.

(** [self._weighted_selectors]; the limits give every selector a weight *)
Definition weighted_selectors : list string :=
  sw ← zip (selectors pool_limits) (selector_weights pool_limits); replicate (Z.to_nat sw.2) sw.1.

(** [_snapshot]: the features of the graph, with the caches they share *)
Definition _snapshot (s : Generator) (graph : BitGraph) : res (Features * Caches) :=
  if bool_decide (cached_graph s = Some graph) then
    match cached_features s with
    | Some fc => Ok fc
    | None => Raise (BridgeError "graph feature cache is inconsistent")
    end
  else f ← local_features graph feature_limits; Ok (f, mkCaches ∅ ∅).

Definition seed_of (payload : list Z) : Z := from_bytes (take 8 (sha256 payload)).

Definition _seed (graph : BitGraph) (policy_seed step attempt : Z) (selector : string) : res Z :=
  text ← dumps (JList [JInt (gn graph); edges_json (edges graph); JInt policy_seed; JInt step; JInt attempt; JStr selector]);
  Ok (seed_of (codes text)).

Definition seed_prefix (graph : BitGraph) (policy_seed step : Z) : res (list Z) :=
  text ← dumps (JList [JInt (gn graph); edges_json (edges graph); JInt policy_seed; JInt step]); Ok (codes text).

(** [seed_prefix[:-1] + b"," + suffix[1:]] *)
Definition _seed_from_prefix (prefix : list Z) (attempt : Z) (selector : string) : res Z :=
  suffix ← dumps (JList [JInt attempt; JStr selector]);
  Ok (seed_of (take (length prefix - 1) prefix ++ [44] ++ drop 1 (codes suffix))).

Definition _selector (attempt seed : Z) : res string :=
  if (length weighted_selectors =? 0)%nat then Raise ZeroDivisionError
  else py_index weighted_selectors ((attempt + seed) mod Z.of_nat (length weighted_selectors)).

Definition lookup_length {V} (d : list (Z * V)) (l : Z) : res V :=
  match dict_get d l with Some v => Ok v | None => Raise KeyError end.

Definition shuffled {A} (seed : Z) (l : list A) : list A := (shuffle (Random seed) l).1.

(** [(e not in cycle_edges, -loads.get(e, 0), e)] *)
Definition anchored_key (around : list Edge) (total : gmap Edge Z) (e : Edge) : bool * (Z * Edge) :=
  (negb (bool_decide (e ∈ around)), load_key total e).

(** The edges of the anchor cycle *)
Definition ring (cycle : list Z) : res (list Edge) :=
  mapM (fun iv => w ← py_index cycle ((iv.1 + 1) mod Z.of_nat (length cycle)); _edge iv.2 w) (enumerate cycle).

Section Select.
Context (base : Features).
Abbreviation loads := (total_edge_loads base).
Abbreviation loaded := (loaded_edges base).
Abbreviation edge_distance := (edge_distance feature_limits base).

(** [(min(edge_distance(e, prior) for prior in selected), loads.get(e, 0), tuple(-x for x in e))] *)
Definition distant_key (selected : list Edge) (e : Edge) : M ((Z * Z * Edge) * Edge) :=
  ds ← mapM (edge_distance e) selected;
  d ← lift (match py_min ds with Some d => Ok d | None => Raise (ValueError "min() iterable argument is empty") end);
  mret ((d, default 0 (loads !! e), (- e.1, - e.2)), e).

(** [while len(selected) < k] *)
Fixpoint pairwise_distant (fuel : nat) (edges : list Edge) (k : Z) (selected : list Edge) (used : list Z) : M (option (list Edge)) :=
  if k <=? Z.of_nat (length selected) then mret (Some (py_sorted selected))
  else
    match fuel with
    | O => mret None
    | S f =>
        let choices := filter (fun e : Edge => e.1 ∉ used /\ e.2 ∉ used) edges in
        match choices with
        | [] => mret None
        | _ =>
            keyed ← mapM (distant_key selected) choices;
            match max_by fst keyed with
            | Some (_, e) => pairwise_distant f edges k (selected ++ [e]) (used ++ [e.1; e.2])
            | None => mret None
            end
        end
    end.

Definition _select_edges (edges : list Edge) (k : Z) (selector : string) (seed : Z) : M (option (list Edge) * option Z) :=
  let mixed := shuffled seed edges in
  if bool_decide (selector = "uniform_random"%string) then mret (_disjoint_greedy mixed k, None)
  else if bool_decide (selector = "sampled_forbidden_cycle_anchored"%string) then
    available ← lift (foldM (fun acc l => ws ← lookup_length (witnesses base) l;
      Ok (if bool_decide (ws = []) then acc else acc ++ [(l, ws)])) [] (forbidden_lengths feature_limits));
    match available with
    | (anchor_length, ws) :: _ =>
        around ← lift (cycle ← py_index ws (seed mod Z.of_nat (length ws)); ring cycle);
        mret (_disjoint_greedy (sorted_by (anchored_key around loads) edges) k, Some anchor_length)
    | [] => mret (_disjoint_greedy loaded k, None)
    end
  else if bool_decide (selector = "high_sampled_witness_load"%string) then mret (_disjoint_greedy loaded k, None)
  else
    match loaded with
    | [] => mret (None, None)
    | anchor :: _ =>
        if bool_decide (selector = "remote_from_anchor"%string) then
          keyed ← mapM (fun e => d ← edge_distance anchor e; mret (- d, e)) (filter (fun e => e <> anchor) edges);
          mret (_disjoint_greedy (anchor :: (sorted_by id keyed).*2) k, None)
        else if bool_decide (selector = "pairwise_distant_disjoint"%string) then
          s ← pairwise_distant (Z.to_nat k) mixed k [anchor] [anchor.1; anchor.2]; mret (s, None)
        else mret (_disjoint_greedy (if seed mod 2 =? 0 then loaded else mixed) k, None)
    end.

(** *** [generate] *)

(** The local variables of [generate] *)
Record Gen := mkGen {
  g_retained : list ProposalCandidate;
  g_seen : list (list Edge * list Edge);
  g_rejected : list (string * Z);
  g_selectors : list (string * Z);
  g_ks : list (string * Z);
  g_attempted : Z;
  g_deduplicated : Z
}.

Definition reject (s : Gen) (why : string) : Gen :=
  mkGen (g_retained s) (g_seen s) (bump (g_rejected s) why) (g_selectors s) (g_ks s) (g_attempted s) (g_deduplicated s).
Definition attempt_one (s : Gen) : Gen :=
  mkGen (g_retained s) (g_seen s) (g_rejected s) (g_selectors s) (g_ks s) (g_attempted s + 1) (g_deduplicated s).
Definition duplicate (s : Gen) : Gen :=
  mkGen (g_retained s) (g_seen s) (g_rejected s) (g_selectors s) (g_ks s) (g_attempted s) (g_deduplicated s + 1).
Definition see (s : Gen) (key : list Edge * list Edge) : Gen :=
  mkGen (g_retained s) (key :: g_seen s) (g_rejected s) (g_selectors s) (g_ks s) (g_attempted s) (g_deduplicated s).
Definition retain (s : Gen) (c : ProposalCandidate) (selector : string) (k : Z) : Gen :=
  mkGen (g_retained s ++ [c]) (g_seen s) (g_rejected s) (bump (g_selectors s) selector) (bump (g_ks s) (pretty k))
    (g_attempted s) (g_deduplicated s).

Definition full (s : Gen) : bool := pool_size pool_limits <=? Z.of_nat (length (g_retained s)).

(** What one attempt fixes: the removed edges and the ways to pair their ends *)
Record Attempt := mkAttempt {
  a_graph : BitGraph;
  a_edges : list Edge;
  a_selector : string;
  a_k : Z;
  a_seed : Z;
  a_anchor : option Z;
  a_removed : list Edge;
  a_ordered : list Z;
  a_shapes : list (list Edge)
}.

(** The checks of one rewrite, up to [seen]: the reason it is rejected *)
Definition legality (a : Attempt) (added : list Edge) : option string :=
  if bool_decide (list_to_set (C := gset Edge) added = list_to_set (a_removed a)) then Some "original_pairing"%string
  else if existsb (fun e => bool_decide (e ∈ added)) (a_removed a) then Some "original_edge_reused"%string
  else if negb (Z.of_nat (length (remove_dups added)) =? a_k a) || existsb (fun e => e.1 =? e.2) added then Some "loop_or_duplicate"%string
  else if existsb (fun e => bool_decide (e ∉ a_removed a) && bool_decide (e ∈ added)) (a_edges a) then Some "preexisting_edge"%string
  else None.

(** One matching; the flag says that the proposal was retained, which ends the
    loop over the matchings *)
Definition try_matching (a : Attempt) (mi shape_index : Z) (s : Gen) : M (Gen * bool) :=
  let s := attempt_one s in
  matching ← lift (shape ← py_index (a_shapes a) shape_index; place (a_ordered a) shape);
  let added := py_sorted matching in
  match legality a added with
  | Some why => mret (reject s why, false)
  | None =>
      let key := (a_removed a, added) in
      if bool_decide (key ∈ g_seen s) then mret (duplicate s, false)
      else
        let s := see s key in
        text ← lift (dumps (JList [JStr POOL_SCHEMA_VERSION; JInt (a_seed a); JInt mi; edges_json (a_removed a); edges_json added]));
        let pid := hexdigest (sha256 (codes text)) in
        let rw := new_rewrite (a_removed a) added (family_name (a_k a))
          [("k", JInt (a_k a)); ("selector", JStr (a_selector a)); ("proposal_id", JStr pid)]%string in
        match with_edges (a_graph a) added (a_removed a) with
        | Raise (ValueError _) => mret (reject s "host_validation", false)
        | Raise e => lift (Raise e)
        | Ok _ =>
            p ← payload set_iter feature_limits base pid (a_removed a) added (a_selector a) (a_k a) (a_anchor a);
            mret (retain s (mkCandidate rw p) (a_selector a) (a_k a), true)
        end
  end.

(** [for mi, shape_index in enumerate(matching_order[:matching_limit])] *)
Fixpoint try_matchings (a : Attempt) (order : list (Z * Z)) (s : Gen) : M Gen :=
  match order with
  | [] => mret s
  | (mi, shape_index) :: order' =>
      if full s then mret s
      else
        r ← try_matching a mi shape_index s;
        if (r.2 : bool) then mret r.1 else try_matchings a order' r.1
  end.

Definition GOLDEN : Z := 11400714819323198485.

(** One turn of the loop over the attempts *)
Definition try_attempt (graph : BitGraph) (es : list Edge) (prefix : list Z) (policy_seed step attempt : Z) (s : Gen) : M Gen :=
  selector ← lift (_selector attempt policy_seed);
  k ← lift (if (length (k_values pool_limits) =? 0)%nat then Raise ZeroDivisionError
    else py_index (k_values pool_limits) ((attempt + step + policy_seed) mod Z.of_nat (length (k_values pool_limits))));
  seed ← lift (_seed_from_prefix prefix attempt selector);
  choice ← _select_edges es k selector seed;
  match choice.1 with
  | None => mret (reject s "disjoint_selection")
  | Some removed =>
      let ordered := py_sorted (endpoints removed) in
      let shapes := _perfect_matching_shapes (range 0 (Z.of_nat (length ordered))) in
      let order := shuffled (Z.lxor seed GOLDEN) (range 0 (Z.of_nat (length shapes))) in
      try_matchings (mkAttempt graph es selector k seed choice.2 removed ordered shapes)
        (enumerate (take (Z.to_nat (matching_limit pool_limits)) order)) s
  end.

Fixpoint try_attempts (graph : BitGraph) (es : list Edge) (prefix : list Z) (policy_seed step : Z) (attempts : list Z) (s : Gen) : M Gen :=
  match attempts with
  | [] => mret s
  | attempt :: attempts' =>
      if full s then mret s
      else s' ← try_attempt graph es prefix policy_seed step attempt s; try_attempts graph es prefix policy_seed step attempts' s'
  end.
End Select.

Definition usage (base : Features) (s : Snap) : res (list (string * json)) :=
  counts ← mapM (fun l => ws ← lookup_length (witnesses base) l; Ok (JInt (Z.of_nat (length ws)))) (forbidden_lengths feature_limits);
  Ok [("cycle_nodes", JInt (cycle_nodes base)); ("sampled_witnesses", JInt (sampled_witnesses base));
    ("distance_queries", JInt (distance_queries s)); ("distance_cache_hits", JInt (distance_hits s));
    ("local_risk_operations", JInt (local_ops s)); ("cycle_budget_exhausted", JBool (cycle_budget_exhausted base));
    ("distance_budget_exhausted", JBool (distance_budget_exhausted s));
    ("local_risk_budget_exhausted", JBool (local_budget_exhausted s)); ("context_capped_cycle_counts", JList counts)]%string.

Definition generate (st : Generator) (graph : BitGraph) (policy_seed step : Z) : res (ProposalPool * Generator) :=
  let es := edges graph in
  prefix ← seed_prefix graph policy_seed step;
  fc ← _snapshot st graph;
  r ← try_attempts fc.1 graph es prefix policy_seed step (range 0 (retry_limit pool_limits))
    (mkGen [] [] [] [] [] 0 0) (new_snapshot fc.2);
  hash ← _pool_hash sha256 (g_retained r.1);
  use ← usage fc.1 r.2;
  Ok (mkPool POOL_SCHEMA_VERSION (g_retained r.1) hash (g_attempted r.1) (sorted_items (g_rejected r.1)) (g_deduplicated r.1)
    (Z.of_nat (length (g_retained r.1))) (sorted_items (g_selectors r.1)) (sorted_items (g_ks r.1)) use,
    mkGenerator (Some graph) (Some (fc.1, caches r.2))).
End Generate.
