(* ===== verification/Ranking.v ===== *)
(** * Ranking a pool

    [src/src/sglab/research/proposal_ranking.py]: the checks of contexts and
    proposals, [HegPolicyBridge] and the batch protocol of [PolicyWorker]. What
    the worker process does is an input; an operation keeps the changes it made
    before it raised. The profile and the measured times are left out. *)

From stdpp Require Import gmap.
From S2P Require Import Prelude Floats Json Convert Bits Model Rng Order Matchings Features Pool.

#[global] Open Scope Z_scope.

(** ** Numbers of a JSON value *)

(** [value == z] *)
Definition eq_int (v : json) (z : Z) : bool :=
  match v with
  | JInt x => x =? z
  | JBool b => (if b then 1 else 0) =? z
  | JFloat (S754_zero _) => z =? 0
  | JFloat (S754_finite s m e) =>
      let a := if s then - z else z in if 0 <=? e then Z.shiftl (Zpos m) e =? a else Zpos m =? Z.shiftl a (- e)
  | _ => false
  end.

(** [left == right] on numbers *)
Definition num_eq (v w : json) : bool :=
  match v, w with
  | JFloat x, JFloat y => f_eq x y
  | JFloat _, JInt z => eq_int v z
  | JInt z, _ => eq_int w z
  | _, _ => false
  end.

(** [isinstance(x, int) and not isinstance(x, bool) and x >= 0] *)
Definition natural (v : json) : bool := match v with JInt z => 0 <=? z | _ => false end.
Definition is_number (v : json) : bool := match v with JInt _ | JFloat _ => true | _ => false end.

Section Ranking.
Context (parse_float : string -> res float).
Abbreviation to_float := (to_float parse_float).

(** [isinstance(x, (int, float)) and math.isfinite(float(x))], or the error of [float] *)
Definition finite_number (v : json) : res bool := if is_number v then x ← to_float v; Ok (is_finite x) else Ok false.

(** ** Contexts *)

Definition CONTEXT_SCHEMA_VERSION : string := "stage2b.context.v1".

Record Stage2BContext := mkContext {
  order : Z;
  c_lengths : list Z;
  capped_cycle_counts : list Z;
  weighted_penalty : Z;
  step : Z;
  remaining_steps : Z;
  stagnation : Z;
  recent_best_improvement : float;
  recent_acceptance_rate : float;
  recent_duplicate_rate : float
}.

Definition context_dict (c : Stage2BContext) : list (string * json) :=
  [("schema_version", JStr CONTEXT_SCHEMA_VERSION); ("order", JInt (order c)); ("forbidden_lengths", ints (c_lengths c));
   ("capped_cycle_counts", ints (capped_cycle_counts c)); ("weighted_penalty", JInt (weighted_penalty c)); ("step", JInt (step c));
   ("remaining_steps", JInt (remaining_steps c)); ("stagnation", JInt (stagnation c));
   ("recent_best_improvement", JFloat (recent_best_improvement c)); ("recent_acceptance_rate", JFloat (recent_acceptance_rate c));
   ("recent_duplicate_rate", JFloat (recent_duplicate_rate c))]%string.

(** [build_context], with the rates at their defaults *)
Definition build_context (graph : BitGraph) (step_ remaining : Z) (counts : list Z) (penalty stagnation_ : Z) : res Stage2BContext :=
  let counts := if bool_decide (counts = []) then replicate 6 0 else counts in
  raise_if (negb (length counts =? 6)%nat || existsb (fun x => x <? 0) counts)
    (ValueError "capped_cycle_counts must align with forbidden lengths") ;;;
  raise_if (gn graph <? 4) (ValueError "context order must be at least four") ;;;
  Ok (mkContext (gn graph) FROZEN_FORBIDDEN_LENGTHS counts penalty step_ remaining stagnation_ (f_lit 0) (f_lit 0) (f_lit 0)).

(** [_require_exact] *)
Definition require_exact (v : json) (names : list string) (what : string) : res (list (string * json)) :=
  let bad := Raise (ContractViolation (what ++ " fields must exactly match the frozen schema")%string) in
  match v with
  | JObj d => if forallb (fun k => bool_decide (k ∈ names)) (keys d) && forallb (fun k => bool_decide (k ∈ keys d)) names then Ok d else bad
  | _ => bad
  end.

Definition CONTEXT_KEYS : list string :=
  ["schema_version"; "order"; "forbidden_lengths"; "capped_cycle_counts"; "weighted_penalty"; "step"; "remaining_steps"; "stagnation";
   "recent_best_improvement"; "recent_acceptance_rate"; "recent_duplicate_rate"]%string.

Definition validate_context (v : json) : res (list (string * json)) :=
  d ← require_exact v CONTEXT_KEYS "context";
  raise_if (negb (is_text (get d "schema_version") CONTEXT_SCHEMA_VERSION)) (ContractViolation "unsupported Stage 2B context schema") ;;;
  raise_if (match get d "order" with JInt z => z <? 4 | _ => true end) (ContractViolation "context order must be an integer >= 4") ;;;
  let lengths_ok := match get d "forbidden_lengths" with
    | JList l => (length l =? 6)%nat && forallb (fun vz => eq_int vz.1 vz.2) (zip l FROZEN_FORBIDDEN_LENGTHS) | _ => false end in
  raise_if (negb (lengths_ok && match get d "capped_cycle_counts" with JList l => (length l =? 6)%nat | _ => false end))
    (ContractViolation "context lengths/counts do not match the frozen 4..9 contract") ;;;
  raise_if (match get d "capped_cycle_counts" with
    | JList l => existsb (fun x => negb (natural x) || match x with JInt z => FROZEN_WITNESS_SAMPLE_CAP <? z | _ => false end) l | _ => true end)
    (ContractViolation "context cycle counts must be bounded non-negative integers") ;;;
  for_each (fun name => raise_if (negb (natural (get d name))) (ContractViolation ("context." ++ name ++ " must be a non-negative integer")%string))
    ["weighted_penalty"; "step"; "remaining_steps"; "stagnation"]%string ;;;
  for_each (fun name => b ← finite_number (get d name); raise_if (negb b) (ContractViolation ("context." ++ name ++ " must be finite")%string))
    ["recent_best_improvement"; "recent_acceptance_rate"; "recent_duplicate_rate"]%string ;;;
  for_each (fun name => x ← to_float (get d name);
      raise_if (negb (f_le (f_lit 0) x && f_le x (f_lit 1))) (ContractViolation ("context." ++ name ++ " must be in [0,1]")%string))
    ["recent_acceptance_rate"; "recent_duplicate_rate"]%string ;;;
  Ok d.

(** ** Proposals *)

Definition PROPOSAL_KEYS : list string :=
  ["schema_version"; "proposal_id"; "k"; "operator_family"; "selector_tags"; "anchor_forbidden_length";
   "broken_sampled_witnesses_by_length"; "removed_edge_load_sum_by_length"; "removed_edge_load_max_by_length";
   "minimum_distance_between_removed_edges"; "mean_distance_between_removed_edges";
   "minimum_preexisting_distance_for_new_edges"; "mean_preexisting_distance_for_new_edges";
   "local_triangle_risk"; "local_c4_risk"; "reconnection_span"]%string.

Definition is_hex (a : Ascii.ascii) : bool := is_digit a || ((97 <=? code a) && (code a <=? 102)).

Definition validate_proposal (v : json) (lengths : list Z) : res (list (string * json)) :=
  d ← require_exact v PROPOSAL_KEYS "proposal";
  raise_if (negb (is_text (get d "schema_version") PROPOSAL_SCHEMA_VERSION)) (ContractViolation "unsupported Stage 2B proposal schema") ;;;
  raise_if (match get d "proposal_id" with JStr s => negb ((len s =? 64) && all_chars is_hex s) | _ => true end)
    (ContractViolation "proposal_id must be a lowercase SHA-256 digest") ;;;
  raise_if (match get d "k" with JBool _ => true | k => negb (existsb (eq_int k) SUPPORTED_K_VALUES) end)
    (ContractViolation "proposal k must be 2, 3, or 4") ;;;
  ktext ← py_str (get d "k");
  raise_if (negb (is_text (get d "operator_family") ("legal_" ++ ktext ++ "_switch"))) (ContractViolation "proposal operator family does not match k") ;;;
  raise_if (match get d "selector_tags" with
    | JList tags => bool_decide (tags = [] :> list json \/ (8 < length tags)%nat) || existsb (fun t => negb (in_tuple t SUPPORTED_SELECTORS)) tags
    | _ => true end) (ContractViolation "proposal selector tags are not reviewed") ;;;
  raise_if (match get d "anchor_forbidden_length" with JNull => false | a => negb (existsb (eq_int a) lengths) end)
    (ContractViolation "proposal anchor length is outside context lengths") ;;;
  for_each (fun name => raise_if (match get d name with
      | JList l => negb (length l =? length lengths)%nat || existsb (fun x => negb (natural x)) l | _ => true end)
      (ContractViolation ("proposal." ++ name ++ " is not aligned to context lengths")%string))
    ["broken_sampled_witnesses_by_length"; "removed_edge_load_sum_by_length"; "removed_edge_load_max_by_length"]%string ;;;
  for_each (fun name => raise_if (negb (natural (get d name))) (ContractViolation ("proposal." ++ name ++ " must be a non-negative integer")%string))
    ["minimum_distance_between_removed_edges"; "minimum_preexisting_distance_for_new_edges"; "local_triangle_risk"; "local_c4_risk"]%string ;;;
  for_each (fun name => b ← finite_number (get d name); x ← (if b : bool then to_float (get d name) else Ok (f_lit (-1)));
      raise_if (negb b || f_lt x (f_lit 0)) (ContractViolation ("proposal." ++ name ++ " must be a finite non-negative number")%string))
    ["mean_distance_between_removed_edges"; "mean_preexisting_distance_for_new_edges"; "reconnection_span"]%string ;;;
  Ok d.

(** ** The bridge and its worker *)

(** [PolicyWorker]; [w_running] says that [self.process] is set *)
Record PolicyWorker := mkWorker { w_calls : Z; w_failures : Z; w_failed : bool; w_running : bool; w_restarts : Z }.

Record RankingTelemetry := mkTelemetry {
  policy_call_count : Z;
  invalid_result_count : Z;
  tie_count : Z;
  selected_k_counts : list (string * Z);
  selected_tags : list (string * Z)
}.

Record Bridge := mkBridge { worker : PolicyWorker; telemetry : RankingTelemetry; generator : Generator; closed : bool }.

(** Operations on a bridge: the state is kept when an exception is raised. *)
Definition B (A : Type) : Type := Bridge -> res A * Bridge.

#[export] Instance B_ret : MRet B := fun A a b => (Ok a, b).
#[export] Instance B_bind : MBind B := fun A C f m b => match m b with (Ok a, b') => f a b' | (Raise e, b') => (Raise e, b') end.

Definition from_res {A} (r : res A) : B A := fun b => (r, b).
Definition this : B Bridge := fun b => (Ok b, b).
Definition set_worker (w : PolicyWorker) : B unit := fun b => (Ok tt, mkBridge w (telemetry b) (generator b) (closed b)).
Definition set_telemetry (t : RankingTelemetry) : B unit := fun b => (Ok tt, mkBridge (worker b) t (generator b) (closed b)).
Definition set_generator (g : Generator) : B unit := fun b => (Ok tt, mkBridge (worker b) (telemetry b) g (closed b)).

(** [try: m except: handler; raise] *)
Definition on_error {A} (m : B A) (caught : exn -> bool) (handler : B unit) : B A := fun b =>
  match m b with
  | (Ok a, b') => (Ok a, b')
  | (Raise e, b') => if caught e then match handler b' with (Ok _, b'') => (Raise e, b'') | (Raise e', b'') => (Raise e', b'') end else (Raise e, b')
  end.

(** What happens around one batch: whether the process is seen dead before and
    after the renewal, whether its lifetime is nearly over, how a restart goes,
    and the object it answers a request with *)
Record Outside := mkOutside {
  dead_before : bool;
  dead_after : bool;
  lifetime_over : bool;
  restarted : res unit;
  reply : list Z -> res (list (string * json))
}.

Definition REQUEST_BYTES : Z := 65536.

Definition unusable (w : PolicyWorker) (dead : bool) : bool := w_failed w || negb (w_running w) || dead.
Definition check_worker (dead : bool) : B unit :=
  b ← this; from_res (raise_if (unusable (worker b) dead) (BridgeError "failed policy worker cannot be reused")).

(** [self._failed = True; self._terminate()], with one more failure counted *)
Definition fail_worker (failures : Z) : B unit :=
  b ← this; let w := worker b in set_worker (mkWorker (w_calls w) (w_failures w + failures) true false (w_restarts w)).

Definition _renew_before_wall_limit (o : Outside) : B unit :=
  b ← this; let w := worker b in
  if unusable w (dead_before o) then mret tt
  else if negb (lifetime_over o) then mret tt
  else
    set_worker (mkWorker (w_calls w) (w_failures w) false false (w_restarts w + 1)) ;;;
    on_error (from_res (restarted o)) (fun _ => true) (fail_worker 0) ;;;
    set_worker (mkWorker (w_calls w) (w_failures w) false true (w_restarts w + 1)).

(** One row of the answer *)
Definition read_row (by_id : list (string * json)) (row : json) : res (list (string * json)) :=
  match row with
  | JObj d =>
      match get d "proposal_id" with
      | JStr pid =>
          raise_if (bool_decide (pid ∈ keys by_id)) (BridgeError "policy returned an unstable batch proposal ID") ;;;
          match get d "priority" with
          | JInt z => Ok (dict_set by_id pid (JInt z))
          | JFloat x =>
              raise_if (negb (is_finite x)) (BridgeError "policy returned a non-finite batch priority") ;;;
              Ok (dict_set by_id pid (JFloat x))
          | _ => Raise (BridgeError "policy returned a non-finite batch priority")
          end
      | _ => Raise (BridgeError "policy returned an unstable batch proposal ID")
      end
  | _ => Raise (BridgeError "policy returned a malformed batch row")
  end.

(** The priorities of the proposals, from the answer of the worker *)
Definition read_response (proposals : list (list (string * json))) (response : list (string * json)) : res (list json) :=
  raise_if (negb (is_text (get response "type") "batch_result" && is_text (get response "status") "ok"))
    (BridgeError "policy returned an invalid batch result") ;;;
  match get response "results" with
  | JList rows =>
      raise_if (negb (length rows =? length proposals)%nat) (BridgeError "policy returned an invalid batch cardinality") ;;;
      by_id ← foldM read_row [] rows;
      mapM (fun p => pid ← v ← subscript p "proposal_id"; py_str v; subscript by_id pid) proposals
  | _ => Raise (BridgeError "policy returned an invalid batch cardinality")
  end.

Definition call_many (o : Outside) (context : json) (proposals : list (list (string * json))) (prevalidated : bool) : B (list json) :=
  check_worker (dead_before o) ;;;
  from_res (raise_if (bool_decide (proposals = [] \/ (64 < length proposals)%nat)) (BridgeError "policy batch is outside the bounded contract")) ;;;
  _renew_before_wall_limit o ;;;
  check_worker (dead_after o) ;;;
  ctx_props ← from_res (if prevalidated then Ok (context, proposals)
    else ctx ← validate_context context;
         lengths ← match get ctx "forbidden_lengths" with
           | JList l => mapM (fun v => match v with JInt z => Ok z | _ => to_int v end) l | _ => Raise TypeError end;
         props ← mapM (fun p => validate_proposal (JObj p) lengths) proposals; Ok (JObj ctx, props));
  let '(ctx, props) := ctx_props in
  values ← on_error
    (from_res (
      frame ← canonical_json_bytes (JObj [("type", JStr "batch"); ("ctx", ctx); ("proposals", JList (JObj <$> props))]%string);
      raise_if (REQUEST_BYTES <? Z.of_nat (length frame)) (BridgeError "protocol frame exceeds 65536 bytes") ;;;
      response ← reply o frame; read_response props response))
    (fun _ => true) (fail_worker 1);
  b ← this; let w := worker b in
  set_worker (mkWorker (w_calls w + Z.of_nat (length values)) (w_failures w) (w_failed w) (w_running w) (w_restarts w)) ;;;
  mret values.

(** ** [validate_pool] *)

Section Bridge.
Context `{Rng R} (Random : Z -> R) (sha256 : list Z -> list Z) (set_iter : gset Z -> list Z).
Context (pool_limits : PoolLimits) (feature_limits : FeatureLimits).

Definition _ensure_open : B unit := b ← this; from_res (raise_if (closed b) (BridgeError "ranking bridge is closed")).

Definition check_candidate (graph : option BitGraph) (c : ProposalCandidate) : res unit :=
  p ← validate_proposal (JObj (proposal c)) FROZEN_FORBIDDEN_LENGTHS;
  pid ← subscript p "proposal_id"; own ← proposal_id c;
  raise_if (negb (is_text pid own)) (BridgeError "proposal ID is unstable") ;;;
  let rw := rewrite c in
  raise_if (negb (eq_int (get p "k") (Z.of_nat (length (removed_edges rw))) && eq_int (get p "k") (Z.of_nat (length (added_edges rw)))))
    (BridgeError "rewrite k does not match proposal") ;;;
  raise_if (negb (is_text (get p "operator_family") (operator_family rw))) (BridgeError "rewrite family does not match proposal") ;;;
  match graph with
  | None => Ok tt
  | Some g =>
      match with_edges g (added_edges rw) (removed_edges rw) with
      | Ok _ => Ok tt
      | Raise (ValueError _) => Raise (BridgeError "host rejected an illegal proposal")
      | Raise e => Raise e
      end
  end.

Definition check_pool (graph : option BitGraph) (pool : ProposalPool) : res unit :=
  raise_if (negb (bool_decide (schema_version pool = POOL_SCHEMA_VERSION)) || bool_decide (length (candidates pool) = 0%nat) ||
    (64 <? length (candidates pool))%nat) (BridgeError "proposal pool is outside the bounded contract") ;;;
  ids ← mapM proposal_id (candidates pool);
  raise_if (negb (length ids =? length (remove_dups ids))%nat) (BridgeError "proposal pool identity is invalid") ;;;
  hash ← _pool_hash sha256 (candidates pool);
  raise_if (negb (bool_decide (pool_hash pool = hash))) (BridgeError "proposal pool identity is invalid") ;;;
  for_each (check_candidate graph) (candidates pool).

Definition validate_pool (graph : option BitGraph) (pool : ProposalPool) : B unit := _ensure_open ;;; from_res (check_pool graph pool).

Definition generate_pool (graph : BitGraph) (policy_seed step_ : Z) : B ProposalPool :=
  _ensure_open ;;;
  b ← this;
  r ← from_res (generate Random sha256 set_iter pool_limits feature_limits (generator b) graph policy_seed step_);
  set_generator r.2 ;;;
  validate_pool (Some graph) r.1 ;;;
  mret r.1.

(** [context_for_graph], given the witness counts and the penalty of a score *)
Definition context_for_graph (graph : BitGraph) (step_ remaining stagnation_ : Z) (score : option (list (Z * Z) * Z))
    (capped : option (list Z)) : B Stage2BContext :=
  _ensure_open ;;;
  let sampled := b ← this;
    fc ← from_res (_snapshot feature_limits (generator b) graph);
    set_generator (mkGenerator (Some graph) (Some fc)) ;;;
    counts ← from_res (mapM (fun l => ws ← lookup_length (witnesses fc.1) l; Ok (Z.of_nat (length ws))) FROZEN_FORBIDDEN_LENGTHS);
    mret counts in
  match score with
  | None => counts ← sampled; from_res (build_context graph step_ remaining counts 0 stagnation_)
  | Some (witness_counts, penalty) =>
      counts ← match capped with
        | Some counts => mret counts
        | None =>
            let count_map := foldl (fun d lc => dict_set d lc.1 lc.2) [] witness_counts in
            match mapM (dict_get count_map) FROZEN_FORBIDDEN_LENGTHS with
            | Some counts => mret (Z.min FROZEN_WITNESS_SAMPLE_CAP <$> counts)
            | None => sampled
            end
        end;
      from_res (build_context graph step_ remaining counts penalty stagnation_)
  end.

(** ** [select] *)

(** A float as a sort key: its order is the order of floats (lemma [float_key_order]). *)
Definition float_key (x : float) : Z * (Z * Z) :=
  match x with
  | S754_zero _ => (0, (0, 0))
  | S754_finite false m e => (1, (e, Zpos m))
  | S754_finite true m e => (-1, (- e, - Zpos m))
  | S754_infinity s => (if s then -2 else 2, (0, 0))
  | S754_nan => (3, (0, 0))
  end.

(** One entry of [ranked]; the sort key is [(-float(priority), proposal_id)] *)
Record Ranked := mkRanked { r_id : string; r_priority : json; r_value : float; r_candidate : ProposalCandidate }.
Definition rank_key (r : Ranked) : (Z * (Z * Z)) * string := (float_key (SFopp (r_value r)), r_id r).

Definition rank_one (cp : ProposalCandidate * json) : res Ranked :=
  pid ← proposal_id cp.1; x ← to_float cp.2; Ok (mkRanked pid cp.2 x cp.1).

Fixpoint ties (l : list Ranked) : Z :=
  match l with
  | x :: (y :: _) as l' => (if num_eq (r_priority x) (r_priority y) then 1 else 0) + ties l'
  | _ => 0
  end.

Record Selection := mkSelection {
  s_pool_hash : string;
  selected_proposal_id : string;
  selected_k : Z;
  selected_operator_family : string;
  selected_selector_tags : list json;
  rank_order : list string;
  priorities : list (string * json);
  chosen : ProposalCandidate
}.

Definition is_bridge_error (e : exn) : bool := match e with BridgeError _ => true | _ => false end.

(** The counters of a selection, one after another *)
Definition add_ties (n : Z) : B unit :=
  b ← this; let t := telemetry b in
  set_telemetry (mkTelemetry (policy_call_count t) (invalid_result_count t) (tie_count t + n) (selected_k_counts t) (selected_tags t)).
Definition add_selected_k (k : string) : B unit :=
  b ← this; let t := telemetry b in
  set_telemetry (mkTelemetry (policy_call_count t) (invalid_result_count t) (tie_count t) (bump (selected_k_counts t) k) (selected_tags t)).
Fixpoint count_tags (tags : list json) : B unit :=
  match tags with
  | [] => mret tt
  | tag :: tags' =>
      name ← from_res (py_str tag);
      b ← this; let t := telemetry b in
      set_telemetry (mkTelemetry (policy_call_count t) (invalid_result_count t) (tie_count t) (selected_k_counts t) (bump (selected_tags t) name)) ;;;
      count_tags tags'
  end.

(** The context as [select] is given it: built and validated by the bridge, or a value to check *)
Inductive ContextArg := Built (c : Stage2BContext) | Unchecked (v : json).

Definition select (o : Outside) (context : ContextArg) (pool : ProposalPool) (graph : option BitGraph) (apply_selected pool_validated : bool) : B Selection :=
  _ensure_open ;;;
  ctx ← from_res (match context with Built c => Ok (context_dict c) | Unchecked v => validate_context v end);
  match graph with Some g => validate_pool (Some g) pool | None => mret tt end ;;;
  values ← on_error (call_many o (JObj ctx) (proposal <$> candidates pool) pool_validated) is_bridge_error
    (b ← this; let t := telemetry b in
     set_telemetry (mkTelemetry (policy_call_count t) (invalid_result_count t + 1) (tie_count t) (selected_k_counts t) (selected_tags t)));
  b ← this;
  let t := telemetry b in
  set_telemetry (mkTelemetry (policy_call_count t + Z.of_nat (length (candidates pool))) (invalid_result_count t) (tie_count t)
    (selected_k_counts t) (selected_tags t)) ;;;
  entries ← from_res (mapM rank_one (zip (candidates pool) values));
  let ranked := sorted_by rank_key entries in
  match ranked with
  | [] => from_res (Raise IndexError)
  | best :: _ =>
      let p := proposal (r_candidate best) in
      add_ties (ties ranked) ;;;
      ktext ← from_res (v ← subscript p "k"; py_str v);
      add_selected_k ktext ;;;
      tags ← from_res (v ← subscript p "selector_tags"; match v with JList l => Ok l | _ => Raise TypeError end);
      count_tags tags ;;;
      (if apply_selected then
         match graph with
         | None => from_res (Raise (BridgeError "selected application requires a graph"))
         | Some g => from_res (h ← with_edges g (added_edges (rewrite (r_candidate best))) (removed_edges (rewrite (r_candidate best))); Ok tt)
         end
       else mret tt) ;;;
      k ← from_res (v ← subscript p "k"; to_int v);
      family ← from_res (v ← subscript p "operator_family"; py_str v);
      mret (mkSelection (pool_hash pool) (r_id best) k family tags (r_id <$> ranked) ((fun r => (r_id r, r_priority r)) <$> ranked)
        (r_candidate best))
  end.

(** ** [select_for_graph] *)

Definition capped_counts (pool : ProposalPool) : res (option (list Z)) :=
  match dict_get (feature_usage pool) "context_capped_cycle_counts" with
  | Some (JList l) => counts ← mapM to_int l; Ok (Some counts)
  | _ => Ok None
  end.

(** [next(c for c in pool.candidates if c.proposal_id == ...)] *)
Fixpoint find_candidate (cs : list ProposalCandidate) (pid : string) : res (option ProposalCandidate) :=
  match cs with
  | [] => Ok None
  | c :: cs' => own ← proposal_id c; if bool_decide (own = pid) then Ok (Some c) else find_candidate cs' pid
  end.

Definition select_for_graph (o : Outside) (graph : BitGraph) (policy_seed step_ remaining : Z) (apply_selected : bool)
    (score : option (list (Z * Z) * Z)) : B (Selection * BitGraph * ProposalPool) :=
  pool ← generate_pool graph policy_seed step_;
  capped ← from_res (capped_counts pool);
  context ← context_for_graph graph step_ remaining 0 score capped;
  selection ← select o (Built context) pool None false true;
  candidate ← from_res (find_candidate (candidates pool) (selected_proposal_id selection));
  match candidate with
  | None => from_res (Raise (RuntimeError "StopIteration"))
  | Some c =>
      result ← from_res (if apply_selected then with_edges graph (added_edges (rewrite c)) (removed_edges (rewrite c)) else Ok graph);
      mret (selection, result, pool)
  end.

Definition close : B unit :=
  b ← this;
  if closed b then mret tt
  else
    let w := worker b in
    fun b' => (Ok tt, mkBridge (mkWorker (w_calls w) (w_failures w) (w_failed w) false (w_restarts w)) (telemetry b') (generator b') true).
End Bridge.
End Ranking.
