(* ===== verification/Switches.v ===== *)
(** * Switches of any size

    Removing [k] disjoint edges of a graph and joining their ends by [k] new edges
    is accepted by [with_edges] and keeps every degree. The edges a pool proposes
    are of this form: lemmas on the choice of the edges to remove. *)

From stdpp Require Import gmap sorting.
From S2P Require Import Prelude Model Rewiring Rng Order Matchings Features Pool.

#[global] Open Scope Z_scope.

(** The removed edges are disjoint edges of the graph, the added ones pair the
    same vertices and are not edges of the graph. *)
Record switch (g : BitGraph) (removed added : list Edge) : Prop := {
  sw_edges : forall e, e ∈ removed -> e ∈ edges g;
  sw_disjoint : NoDup (endpoints removed);
  sw_ends : endpoints added ≡ₚ endpoints removed;
  sw_ordered : forall e, e ∈ added -> e.1 < e.2;
  sw_new : forall e, e ∈ added -> e ∉ edges g
}.

Lemma endpoints_app l k : endpoints (l ++ k) = endpoints l ++ endpoints k.
Proof. unfold endpoints. apply bind_app. Qed.

Lemma length_endpoints l : length (endpoints l) = (2 * length l)%nat.
Proof. induction l as [|e l IH]; [done|]. rewrite endpoints_cons. cbn [length]. rewrite IH. lia. Qed.

(** Two edges of a matching that share an end are the same. *)
Lemma matching_unique m e f x : NoDup (endpoints m) -> e ∈ m -> f ∈ m -> (x = e.1 \/ x = e.2) -> (x = f.1 \/ x = f.2) -> e = f.
Proof.
  intros Hn He Hf Hxe Hxf. apply list_elem_of_split in He as (l1 & l2 & ->).
  apply elem_of_app in Hf as [Hf|[->|Hf]%elem_of_cons]; [|done|]; exfalso.
  - rewrite endpoints_app in Hn. apply NoDup_app in Hn as (_ & Hd & _). apply (Hd x).
    + apply elem_of_endpoints. eauto.
    + rewrite endpoints_cons. set_solver.
  - rewrite endpoints_app in Hn. apply NoDup_app in Hn as (_ & _ & Hn). rewrite endpoints_cons in Hn.
    assert (x ∈ endpoints l2) as Hx by (apply elem_of_endpoints; eauto).
    apply NoDup_cons in Hn as [H1 Hn]. apply NoDup_cons in Hn as [H2 _].
    destruct Hxe as [-> | ->]; [apply H1; by right|by apply H2].
Qed.

Lemma matching_NoDup m : NoDup (endpoints m) -> NoDup m.
Proof.
  induction m as [|e m IH]; intros Hn; constructor.
  - rewrite endpoints_cons in Hn. apply NoDup_cons in Hn as [H1 _]. intros He. apply H1. right.
    apply elem_of_endpoints. exists e. by split; [|left].
  - apply IH. rewrite endpoints_cons in Hn. by apply NoDup_cons in Hn as [_ [_ ?]%NoDup_cons].
Qed.

Section Switch.
Context (g : BitGraph) (Hg : wf g) (removed added : list Edge) (Hsw : switch g removed added).

Lemma added_disjoint : NoDup (endpoints added).
Proof. rewrite (sw_ends _ _ _ Hsw). apply (sw_disjoint _ _ _ Hsw). Qed.

Lemma added_length : length added = length removed.
Proof. pose proof (Permutation_length (sw_ends _ _ _ Hsw)) as H. rewrite !length_endpoints in H. lia. Qed.

Lemma not_adjacent u v : (u, v) ∈ added \/ (v, u) ∈ added -> adj g u v = false.
Proof.
  intros Hin. destruct (adj g u v) eqn:E; [|done]. exfalso.
  destruct Hin as [Hin|Hin]; apply (sw_new _ _ _ Hsw _ Hin), (elem_of_edges g _ _ Hg).
  - by split; [|apply (sw_ordered _ _ _ Hsw _ Hin)].
  - rewrite (wf_sym g Hg). by split; [|apply (sw_ordered _ _ _ Hsw _ Hin)].
Qed.

Lemma removed_adjacent e : e ∈ removed -> adj g e.1 e.2 = true.
Proof. intros He. destruct e as [u v]. by apply (sw_edges _ _ _ Hsw), (elem_of_edges g _ _ Hg) in He as [? _]. Qed.

Lemma end_vertex x : x ∈ endpoints removed -> vertex g x.
Proof.
  intros (e & He & Hx)%elem_of_endpoints. apply removed_adjacent, (wf_range g Hg) in He as [H1 H2].
  by destruct Hx as [-> | ->].
Qed.

Lemma switch_legal : rewirable g added removed.
Proof.
  split.
  - intros u v Huv. by apply (removed_adjacent (u, v)).
  - intros pre u v post Heq. assert ((u, v) ∈ added) as Huv by (rewrite Heq; set_solver).
    assert (u ∈ endpoints removed /\ v ∈ endpoints removed) as [Hu Hv].
    { rewrite <- (sw_ends _ _ _ Hsw), !elem_of_endpoints. split; exists (u, v); auto. }
    pose proof (sw_ordered _ _ _ Hsw _ Huv) as Hlt. cbn in Hlt.
    split_all; [by apply end_vertex|by apply end_vertex|lia|].
    unfold rewired, Model.removed. rewrite (not_adjacent u v) by by left. cbn [andb orb].
    destruct (edge_in pre u v) eqn:E; [|done]. exfalso. pose proof added_disjoint as Hn. rewrite Heq in Hn.
    rewrite endpoints_app, endpoints_cons in Hn. apply NoDup_app in Hn as (_ & Hd & _).
    apply edge_in_true in E. apply (Hd u); [apply elem_of_endpoints|set_solver].
    destruct E as [E|E]; [exists (u, v)|exists (v, u)]; auto.
Qed.

(** The vertex at the other end of the edge through [x] *)
Lemma matched m x : x ∈ endpoints m -> exists y, (x, y) ∈ m \/ (y, x) ∈ m.
Proof. intros ([u v] & He & [-> | ->])%elem_of_endpoints; cbn; eauto. Qed.

Lemma partner_unique m x y z :
  NoDup (endpoints m) -> (x, y) ∈ m \/ (y, x) ∈ m -> (x, z) ∈ m \/ (z, x) ∈ m -> y = z.
Proof.
  intros Hn Hy Hz. assert (forall e, e ∈ m -> e.1 <> e.2) as Hne.
  { intros e (l1 & l2 & ->)%list_elem_of_split. rewrite endpoints_app, endpoints_cons in Hn.
    apply NoDup_app in Hn as (_ & _ & Hn). apply NoDup_cons in Hn as [Hn _]. set_solver. }
  destruct Hy as [Hy|Hy], Hz as [Hz|Hz]; pose proof (matching_unique _ _ _ x Hn Hy Hz ltac:(cbn; auto) ltac:(cbn; auto)) as E;
    pose proof (Hne _ Hy); injection E; cbn in *; congruence.
Qed.

Lemma switch_correct : exists h, with_edges g added removed = Ok h /\ wf h /\ gn h = gn g /\
  (forall a b, adj h a b = rewired g added removed a b) /\ forall u, vertex g u -> degree h u = degree g u.
Proof.
  destruct (with_edges_total g added removed Hg switch_legal) as (h & Hok & Hh & Hn & Ha).
  exists h. split_all; [done..|]. intros u Hu.
  assert (forall v, adj h u v = true <-> adj g u v = true /\ ~ ((u, v) ∈ removed \/ (v, u) ∈ removed) \/ ((u, v) ∈ added \/ (v, u) ∈ added)) as Hadj.
  { intros v. rewrite Ha. unfold rewired, Model.removed. rewrite orb_true_iff, andb_true_iff, negb_true_iff, <- not_true_iff_false.
    by rewrite !edge_in_true. }
  destruct (decide (u ∈ endpoints removed)) as [Hin|Hout].
  - destruct (matched removed u Hin) as [p Hp].
    assert (u ∈ endpoints added) as Hin' by by rewrite (sw_ends _ _ _ Hsw). destruct (matched added u Hin') as [q Hq].
    apply (degree_exchange g h Hg Hh Hn u p q); [done| |by apply not_adjacent|].
    + destruct Hp as [Hp|Hp]; [by apply (removed_adjacent (u, p))|]. rewrite (wf_sym g Hg). by apply (removed_adjacent (p, u)).
    + intros v. rewrite Hadj. split.
      * intros [[Hv Hr]|Hv]; [left; split; [done|by intros ->]|right]. symmetry. by apply (partner_unique added u q v added_disjoint).
      * intros [[Hv Hne]| ->]; [left; split; [done|]|by right]. intros Hr. apply Hne. symmetry.
        by apply (partner_unique removed u p v (sw_disjoint _ _ _ Hsw)).
  - apply (degree_ext g h Hg Hh Hn); [done|]. intros v. apply eq_true_iff_eq. rewrite Hadj.
    assert (forall m, endpoints m ≡ₚ endpoints removed -> ~ ((u, v) ∈ m \/ (v, u) ∈ m)) as Hno.
    { intros m Hm Hv. apply Hout. rewrite <- Hm. apply elem_of_endpoints. destruct Hv as [Hv|Hv]; eexists; split; eauto. }
    pose proof (Hno removed ltac:(done)). pose proof (Hno added (sw_ends _ _ _ Hsw)). tauto.
Qed.
End Switch.
