(* ===== verification/Choice.v ===== *)
(** * The edges a proposal removes

    Postconditions for the operations of a snapshot, and the choice of the edges
    of a switch: every selector gives disjoint edges of the graph, as many as it
    was asked for, or says that it found none; it never raises. *)

From stdpp Require Import gmap sorting.
From S2P Require Import Prelude Json Bits Model Cycles Rewiring Rng Order Matchings Features Distances Sampling Pool Switches.

#[global] Open Scope Z_scope.

(** ** Postconditions *)

(** The operation returns, and result and state satisfy [Q]. *)
Definition runs_to {A} (m : M A) (s : Snap) (Q : A -> Snap -> Prop) : Prop :=
  exists a s', m s = Ok (a, s') /\ Q a s'.

Lemma runs_to_ret {A} (a : A) s Q : Q a s -> runs_to (mret a) s Q.
Proof. by exists a, s. Qed.

Lemma runs_to_bind {A B} (m : M A) (f : A -> M B) s P Q :
  runs_to m s P -> (forall a s', P a s' -> runs_to (f a) s' Q) -> runs_to (m ≫= f) s Q.
Proof.
  intros (a & s' & Hm & Ha) Hf. destruct (Hf a s' Ha) as (b & s'' & Hb & Hq). exists b, s''. split; [|done].
  unfold mbind, M_bind. rewrite Hm. cbn [mbind res_bind fst snd]. done.
Qed.

Lemma runs_to_lift {A} (r : res A) a s Q : r = Ok a -> Q a s -> runs_to (lift r) s Q.
Proof. intros -> Hq. by exists a, s. Qed.

Lemma runs_to_mono {A} (m : M A) s (P Q : A -> Snap -> Prop) :
  runs_to m s P -> (forall a s', P a s' -> Q a s') -> runs_to m s Q.
Proof. intros (a & s' & Hm & Ha) Hq. exists a, s'. auto. Qed.

(** One operation after another on the items of a list *)
Lemma runs_to_mapM {A B} (f : A -> M B) (I : Snap -> Prop) (P : A -> B -> Prop) l s :
  (forall x s, x ∈ l -> I s -> runs_to (f x) s (fun y s' => I s' /\ P x y)) -> I s ->
  runs_to (mapM f l) s (fun ys s' => I s' /\ Forall2 P l ys).
Proof.
  revert s. induction l as [|x l IH]; intros s Hf Hs; [by exists [], s; split; [|split; [|constructor]]|].
  destruct (Hf x s ltac:(by left) Hs) as (y & s1 & Hy & H1 & HP).
  destruct (IH s1) as (ys & s2 & Hys & H2 & HF); [intros z t Hz; apply Hf; by right|done|].
  exists (y :: ys), s2. split_all; [|done|by constructor]. rewrite mapM_cons, Hy. cbn [mbind res_bind fst snd]. by rewrite Hys.
Qed.

(** ** What a chosen list of edges is *)

Record chosen_from (g : BitGraph) (selected : list Edge) : Prop := {
  ch_edges : forall e, e ∈ selected -> e ∈ edges g;
  ch_disjoint : NoDup (endpoints selected)
}.

Definition chosen (g : BitGraph) (k : Z) (selected : list Edge) : Prop :=
  chosen_from g selected /\ Z.of_nat (length selected) = k.

Lemma edges_distinct g e : wf g -> e ∈ edges g -> e.1 < e.2 /\ vertex g e.1 /\ vertex g e.2.
Proof.
  intros Hg He. destruct e as [u v]. apply (elem_of_edges g _ _ Hg) in He as [Ha Hlt]. cbn.
  pose proof (wf_range g Hg u v Ha). tauto.
Qed.

Lemma chosen_nil g : chosen_from g [].
Proof. split; [by intros e ?%elem_of_nil|constructor]. Qed.

Lemma chosen_sorted g k l : chosen g k l -> chosen g k (py_sorted l).
Proof.
  intros [[He Hd] Hk]. split; [split|].
  - intros e. rewrite py_sorted_perm. apply He.
  - by rewrite py_sorted_perm.
  - by rewrite py_sorted_perm.
Qed.

Lemma chosen_snoc g l e : wf g -> chosen_from g l -> e ∈ edges g -> e.1 ∉ endpoints l -> e.2 ∉ endpoints l -> chosen_from g (l ++ [e]).
Proof.
  intros Hg [Hs Hd] He H1 H2. pose proof (edges_distinct g e Hg He) as [Hlt _]. split.
  - intros f. rewrite elem_of_app, list_elem_of_singleton. intros [Hf| ->]; auto.
  - rewrite endpoints_app. apply NoDup_app. split_all; [done| |].
    + intros x Hx. rewrite endpoints_cons. set_solver.
    + rewrite endpoints_cons. apply NoDup_cons. split; [|apply NoDup_singleton]. cbn. rewrite list_elem_of_singleton. lia.
Qed.

Lemma endpoints_snoc l e : endpoints (l ++ [e]) = endpoints l ++ [e.1; e.2].
Proof. apply endpoints_app. Qed.

(** ** [_disjoint_greedy] *)

Lemma disjoint_from_chosen g es k selected r :
  wf g -> (forall e, e ∈ es -> e ∈ edges g) -> chosen_from g selected ->
  disjoint_from es k selected (endpoints selected) = Some r -> chosen g k r.
Proof.
  intros Hg. revert selected. induction es as [|e es IH]; intros selected Hes Hs; [done|]. cbn [disjoint_from].
  destruct (bool_decide_reflect (e.1 ∈ endpoints selected)) as [|H1]; cbn [orb]; [apply IH; [set_solver|done]|].
  destruct (bool_decide_reflect (e.2 ∈ endpoints selected)) as [|H2]; [apply IH; [set_solver|done]|].
  assert (chosen_from g (selected ++ [e])) as Hs' by (apply chosen_snoc; set_solver).
  destruct (Z.eqb_spec (Z.of_nat (length (selected ++ [e]))) k) as [Hk|Hk].
  - intros [= <-]. by apply chosen_sorted.
  - rewrite <- endpoints_snoc. apply IH; [set_solver|done].
Qed.

Lemma disjoint_greedy_chosen g es k r :
  wf g -> (forall e, e ∈ es -> e ∈ edges g) -> _disjoint_greedy es k = Some r -> chosen g k r.
Proof. intros Hg Hes. by apply (disjoint_from_chosen g es k []); [..|apply chosen_nil]. Qed.

(** It gives up only when no disjoint edge is left to take. *)
Lemma disjoint_from_maximal es k selected used :
  disjoint_from es k selected used = None -> Z.of_nat (length selected) < k ->
  exists taken, (forall e, e ∈ taken -> e ∈ es) /\ Z.of_nat (length selected + length taken) < k /\
    forall e, e ∈ es -> e.1 ∈ used ++ endpoints taken \/ e.2 ∈ used ++ endpoints taken.
Proof.
  revert selected used. induction es as [|e es IH]; intros selected used; cbn [disjoint_from].
  { intros _ Hk. exists []. split_all; [done|cbn; lia|by intros e ?%elem_of_nil]. }
  destruct (bool_decide_reflect (e.1 ∈ used)) as [H1|H1]; cbn [orb].
  { intros Hn Hk. destruct (IH _ _ Hn Hk) as (t & Ht & Hl & Hall). exists t. split_all; [set_solver|done|].
    intros f [->|Hf]%elem_of_cons; [left; set_solver|auto]. }
  destruct (bool_decide_reflect (e.2 ∈ used)) as [H2|H2].
  { intros Hn Hk. destruct (IH _ _ Hn Hk) as (t & Ht & Hl & Hall). exists t. split_all; [set_solver|done|].
    intros f [->|Hf]%elem_of_cons; [right; set_solver|auto]. }
  rewrite length_app. cbn [length]. destruct (Z.eqb_spec (Z.of_nat (length selected + 1)) k) as [Hk|Hk]; [done|].
  intros Hn Hlt. destruct (IH _ _ Hn) as (t & Ht & Hl & Hall); [rewrite length_app; cbn; lia|].
  rewrite length_app in Hl. cbn in Hl. exists (e :: t). rewrite endpoints_cons. split_all; [set_solver|cbn; lia|].
  intros f [->|Hf]%elem_of_cons; [left; set_solver|]. destruct (Hall f Hf); [left|right]; set_solver.
Qed.

(** ** Distances and the state of a snapshot *)

Section Snapshots.
Context (limits : FeatureLimits) (base : Features) (exact_before : Prop).
Abbreviation g := (f_graph base).
Context (Hg : wf g) (Hadj : f_adj base = adjacency g).

(** Every edge distance in the cache is right. *)
Definition exact_edges (c : Caches) : Prop := forall k d, edge_distance_cache c !! k = Some d -> edge_value g k.1 k.2 d.

(** The invariant of a snapshot; [exact_before] says that the caches it started
    from were exact. *)
Record snap_ok (s : Snap) : Prop := {
  so_coherent : coherent base (caches s);
  so_queries : distance_queries s <= distance_query_budget limits;
  so_ops : local_ops s <= local_risk_budget limits;
  so_exact : exact_before -> distance_budget_exhausted s = false -> exact_edges (caches s)
}.

(** [z] is a number in the range of distances, and the distance unless the query
    budget ran out before [s]. *)
Definition measured (P : Z -> Prop) (z : Z) (s : Snap) : Prop :=
  0 <= z <= gn g /\ (exact_before -> distance_budget_exhausted s = false -> P z).

(** A budget that ran out stays so. *)
Definition since (s s' : Snap) : Prop :=
  (distance_budget_exhausted s = true -> distance_budget_exhausted s' = true) /\
  (local_budget_exhausted s = true -> local_budget_exhausted s' = true).

#[export] Instance since_preorder : PreOrder since.
Proof. split; [by intros s|]. intros s1 s2 s3 [H1 H2] [H3 H4]. split; auto. Qed.

Lemma since_false s s' : since s s' ->
  (distance_budget_exhausted s' = false -> distance_budget_exhausted s = false) /\
  (local_budget_exhausted s' = false -> local_budget_exhausted s = false).
Proof. intros [H1 H2]. split; intros Hf; [destruct (distance_budget_exhausted s)|destruct (local_budget_exhausted s)]; naive_solver. Qed.

Lemma later_since s s' : later limits s s' -> since s s'.
Proof. intros Hl. split; [apply Hl|]. by rewrite (later_local _ _ _ Hl). Qed.

Lemma measured_since P z s s' : measured P z s -> since s s' -> measured P z s'.
Proof. intros [Hz Hp] Hs. split; [done|]. intros Hx Hf. by apply Hp, (since_false s s' Hs). Qed.

Lemma edge_value_sym e f z : edge_value g e f z -> edge_value g f e z.
Proof.
  intros [(u & v & Hu & Hv & Hd) Hmin]. split.
  - exists v, u. split_all; [done..|by apply distance_value_sym].
  - intros a b y Ha Hb Hy. apply (Hmin b a y Hb Ha). by apply distance_value_sym.
Qed.

Lemma edge_key_value e f z : edge_value g (edge_key e f).1 (edge_key e f).2 z <-> edge_value g e f z.
Proof. unfold edge_key. destruct (cmp e f); cbn; split; auto using edge_value_sym. Qed.

Lemma snap_ok_step s s' : snap_ok s -> later limits s s' -> coherent base (caches s') ->
  (exact_before -> distance_budget_exhausted s' = false -> exact_edges (caches s) -> exact_edges (caches s')) -> snap_ok s' /\ since s s'.
Proof.
  intros [Hc Hq Ho Hx] Hl Hc' He. split; [|by apply later_since]. split; [done|pose proof (later_queries _ _ _ Hl); lia|by rewrite (later_ops _ _ _ Hl)|].
  intros HX Hf. apply He; [done..|]. apply Hx; [done|]. by apply (since_false s s' (later_since _ _ Hl)).
Qed.

Lemma distance_run u v s : vertex g u -> vertex g v -> snap_ok s ->
  runs_to (distance limits base u v) s (fun z s' => snap_ok s' /\ since s s' /\ measured (distance_value g u v) z s').
Proof.
  intros Hu Hv Hs. destruct (distance_cases limits base Hg Hadj u v s Hu Hv (so_coherent _ Hs)) as (z & s' & H & Hc & Hl & Hz & Hk & Hd).
  exists z, s'. split; [done|]. destruct (snap_ok_step s s') as [H1 H2]; [done..|unfold exact_edges; by rewrite Hk|].
  split_all; [done..|]. split; [done|]. intros _ Hf. destruct Hd as [|[_ Hd]]; [done|]. by rewrite Hd in Hf.
Qed.

Lemma edge_distance_run e f s : edge_vertices base e -> edge_vertices base f -> snap_ok s ->
  runs_to (edge_distance limits base e f) s (fun z s' => snap_ok s' /\ since s s' /\ measured (edge_value g e f) z s').
Proof.
  intros He Hf Hs. destruct (edge_distance_cache (caches s) !! edge_key e f) as [d|] eqn:E.
  - exists d, s. unfold edge_distance. rewrite E. split_all; [done..|]. split; [by apply (cached_range _ _ (so_coherent _ Hs) (edge_key e f))|].
    intros HX Hfl. apply edge_key_value. by apply (so_exact _ Hs).
  - destruct (edge_distance_uncached limits base Hg Hadj e f s He Hf (so_coherent _ Hs) E) as (z & s' & H & Hc & Hl & Hk & Hz & Hex).
    exists z, s'. split; [done|]. destruct (snap_ok_step s s') as [H1 H2]; [done..| |split_all; [done..|by split]].
    intros HX Hfl Hold k d. rewrite Hk, lookup_insert_Some. intros [[<- <-]|[_ Hd]]; [|by apply Hold].
    apply edge_key_value. auto.
Qed.

(** Distances of a list of pairs *)
Lemma measures_run {A} (f : A -> M Z) (P : A -> Z -> Prop) l s :
  (forall x s, x ∈ l -> snap_ok s -> runs_to (f x) s (fun z s' => snap_ok s' /\ since s s' /\ measured (P x) z s')) -> snap_ok s ->
  runs_to (mapM f l) s (fun zs s' => snap_ok s' /\ since s s' /\ Forall2 (fun x z => measured (P x) z s') l zs).
Proof.
  revert s. induction l as [|x l IH]; intros s Hf Hs; [by exists [], s; split_all|].
  destruct (Hf x s ltac:(by left) Hs) as (z & s1 & Hz & H1 & Hs1 & Hm).
  destruct (IH s1) as (zs & s2 & Hzs & H2 & Hs2 & HF); [intros y t Hy; apply Hf; by right|done|].
  exists (z :: zs), s2. split_all; [|done|by etransitivity|constructor; [by apply (measured_since _ _ s1)|done]].
  rewrite mapM_cons, Hz. cbn [mbind res_bind fst snd]. by rewrite Hzs.
Qed.

(** ** [pairwise_distant] *)

Lemma chosen_vertices selected e : chosen_from g selected -> e ∈ selected -> edge_vertices base e.
Proof. intros Hc He. apply (edges_distinct g e Hg), (ch_edges _ _ Hc e He). Qed.

Lemma edge_in_graph e : e ∈ edges g -> edge_vertices base e.
Proof. intros He. by apply (edges_distinct g e Hg). Qed.

Lemma distant_key_run selected e s : chosen_from g selected -> selected <> [] -> e ∈ edges g -> snap_ok s ->
  runs_to (distant_key limits base selected e) s (fun ke s' => (snap_ok s' /\ since s s') /\ ke.2 = e).
Proof.
  intros Hc Hne He Hs. unfold distant_key. eapply runs_to_bind.
  - apply (measures_run _ (edge_value g e)); [|done]. intros f t Hf Ht. apply edge_distance_run; [by apply edge_in_graph| |done].
    by apply (chosen_vertices selected).
  - intros ds s1 (H1 & Hs1 & HF). destruct (py_min ds) as [m|] eqn:Hm.
    + exists (m, default 0 (total_edge_loads base !! e), (- e.1, - e.2), e), s1. by cbn.
    + destruct ds as [|d ds]; [|done]. by apply Forall2_nil_inv_r in HF as ->.
Qed.

Lemma pairwise_distant_run fuel es k selected s :
  (forall e, e ∈ es -> e ∈ edges g) -> chosen_from g selected -> selected <> [] -> Z.of_nat (length selected) <= k -> snap_ok s ->
  runs_to (pairwise_distant limits base fuel es k selected (endpoints selected)) s
    (fun r s' => (snap_ok s' /\ since s s') /\ forall l, r = Some l -> chosen g k l).
Proof.
  intros Hes. revert selected s. induction fuel as [|f IH]; intros selected s Hc Hne Hk Hs; cbn [pairwise_distant];
    destruct (Z.leb_spec k (Z.of_nat (length selected))) as [Hle|Hgt].
  1,3: apply runs_to_ret; split; [by split|]; intros l [= <-]; apply chosen_sorted; split; [done|lia].
  { by apply runs_to_ret. }
  set (choices := filter _ es). destruct choices as [|c choices'] eqn:Ech; [by apply runs_to_ret|]. rewrite <- Ech.
  assert (forall e, e ∈ choices -> (e.1 ∉ endpoints selected /\ e.2 ∉ endpoints selected) /\ e ∈ edges g) as Hch.
  { intros e [He Hin]%list_elem_of_filter. auto. }
  eapply runs_to_bind.
  { apply (runs_to_mapM _ (fun t => snap_ok t /\ since s t) (fun e ke => ke.2 = e)); [|done]. intros e t He [Ht Hst].
    eapply runs_to_mono; [apply (distant_key_run selected e t); try done; by apply Hch|].
    intros ke t' [[H1 H2] H3]. split_all; [done|by etransitivity|done]. }
  intros keyed s1 [[H1 Hs1] HF]. destruct (max_by fst keyed) as [[key e]|] eqn:Hm; [|by apply runs_to_ret].
  apply max_by_in, list_elem_of_lookup in Hm as [i Hi]. destruct (Forall2_lookup_r _ _ _ _ _ HF Hi) as (e' & Hin%list_elem_of_lookup_2 & He').
  cbn in He'. subst e'. destruct (Hch e Hin) as [[Hn1 Hn2] He]. rewrite <- endpoints_snoc.
  eapply runs_to_mono; [apply IH; [by apply chosen_snoc|by destruct selected|rewrite length_app; cbn; lia|done]|].
  intros r s2 [[H2 Hs2] Hr]. split_all; [done|by etransitivity|done].
Qed.

(** [k] turns are enough: more fuel changes nothing. *)
Lemma pairwise_distant_fuel f1 f2 es k selected used s :
  k <= Z.of_nat (length selected + f1) -> k <= Z.of_nat (length selected + f2) ->
  pairwise_distant limits base f1 es k selected used s = pairwise_distant limits base f2 es k selected used s.
Proof.
  revert f2 selected used s. induction f1 as [|f1 IH]; intros [|f2] selected used s H1 H2; cbn [pairwise_distant];
    destruct (Z.leb_spec k (Z.of_nat (length selected))) as [Hle|Hgt]; try done; try lia.
  destruct (filter _ es) as [|c choices]; [done|]. unfold mbind, M_bind.
  destruct ((mapM (distant_key limits base selected) (c :: choices) : M _) s) as [[keyed s1]|]; [|done]. cbn [mbind res_bind fst snd].
  destruct (max_by fst keyed) as [[key e']|]; [|done]. apply IH; rewrite length_app; cbn; lia.
Qed.
End Snapshots.

(** ** [_select_edges] *)

Lemma lookup_length_total {V} (d : list (Z * V)) k : k ∈ d.*1 -> exists v, lookup_length d k = Ok v /\ (k, v) ∈ d.
Proof.
  intros Hk. unfold lookup_length. destruct (dict_get d k) as [v|] eqn:E; [exists v; split; [done|by apply dict_get_elem_of]|].
  apply list_elem_of_fmap in Hk as ([k' v] & -> & Hin). by apply (proj1 (dict_get_None d k') E) in Hin.
Qed.

Lemma ring_total g len c : wf g -> is_cycle g len c -> exists r, ring c = Ok r.
Proof.
  intros Hg Hc. destruct (cycle_length g len c Hc) as [Hl _].
  destruct (mapM_res_total (fun iv => w ← py_index c ((iv.1 + 1) mod Z.of_nat (length c)); _edge iv.2 w) (fun _ _ => True) (enumerate c))
    as (ys & Hys & _); [|by exists ys].
  intros iv Hiv. rewrite (enumerate_cycle g len c Hc) in Hiv. apply list_elem_of_fmap in Hiv as (i & -> & Hi%elem_of_range).
  exists (cycle_edge c i). split; [|done]. cbn [fst snd]. rewrite Hl, (py_next g len c Hc i Hi). cbn [mbind res_bind]. by apply (edge_cell g Hg len c Hc).
Qed.

Section Select.
Context `{RngLaws R} (Random : Z -> R) (limits : FeatureLimits) (base : Features) (exact_before : Prop).
Abbreviation g := (f_graph base).
Context (Hg : wf g) (Hf : features_of g limits base).
Abbreviation ok := (snap_ok limits base exact_before).

Lemma elem_of_loaded e : e ∈ loaded_edges base -> e ∈ edges g.
Proof. rewrite (fo_edges _ _ _ Hf). by rewrite elem_of_sorted_by. Qed.

Lemma elem_of_shuffled {A} seed (l : list A) x : x ∈ shuffled Random seed l <-> x ∈ l.
Proof. unfold shuffled. by rewrite shuffle_perm. Qed.

(** The lengths with a sampled cycle, and their cycles *)
Lemma available_total : exists available,
  foldM (fun acc l => ws ← lookup_length (witnesses base) l;
      Ok (if bool_decide (ws = []) then acc else acc ++ [(l, ws)])) [] (forbidden_lengths limits) = Ok available /\
  forall l ws, (l, ws) ∈ available -> ws <> [] /\ (l, ws) ∈ witnesses base.
Proof.
  apply (foldM_total (fun _ acc => forall l ws, (l, ws) ∈ acc -> ws <> [] /\ (l, ws) ∈ witnesses base)).
  2: by intros l ws ?%elem_of_nil.
  - intros pre x post acc Heq Hacc. assert (x ∈ (witnesses base).*1) as Hx by (rewrite (fo_lengths _ _ _ Hf), Heq; set_solver).
    destruct (lookup_length_total _ _ Hx) as (ws & -> & Hin). cbn [mbind res_bind]. eexists. split; [done|].
    case_bool_decide; [done|]. intros l ws' [?|[= -> ->]%list_elem_of_singleton]%elem_of_app; auto.
Qed.

Lemma anchored_total l ws seed : ws <> [] -> (l, ws) ∈ witnesses base ->
  exists around, (cycle ← py_index ws (seed mod Z.of_nat (length ws)); ring cycle) = Ok around.
Proof.
  intros Hne Hin. assert (0 < Z.of_nat (length ws)) as Hl by (destruct ws; [done|cbn; lia]).
  destruct (py_index_in_range ws (seed mod Z.of_nat (length ws))) as (c & Hc%list_elem_of_lookup_2 & ->); [by apply Z.mod_pos_bound|].
  cbn [mbind res_bind]. apply (ring_total g l); [done|]. by apply (sm_form _ _ _ _ _ (proj2 (fo_sampled _ _ _ Hf l ws Hin))).
Qed.

(** A choice: a list of edges that is a matching of the right size, and a
    forbidden length as the anchor *)
Definition choice_ok (k : Z) (r : option (list Edge) * option Z) : Prop :=
  (forall l, r.1 = Some l -> chosen g k l) /\ forall a, r.2 = Some a -> a ∈ forbidden_lengths limits.

Lemma greedy_ok es k a : (forall e, e ∈ es -> e ∈ edges g) -> (forall x, a = Some x -> x ∈ forbidden_lengths limits) ->
  choice_ok k (_disjoint_greedy es k, a).
Proof. intros He Ha. split; [|done]. intros l. by apply disjoint_greedy_chosen. Qed.

Lemma remote_run anchor es k s : anchor ∈ edges g -> (forall e, e ∈ es -> e ∈ edges g) -> ok s ->
  runs_to (keyed ← mapM (fun e => d ← edge_distance limits base anchor e; mret (- d, e)) (filter (fun e => e <> anchor) es);
      mret (_disjoint_greedy (anchor :: (sorted_by id keyed).*2) k, None)) s (fun r s' => (ok s' /\ since s s') /\ choice_ok k r).
Proof.
  intros Ha Hes Hs. eapply runs_to_bind.
  { apply (runs_to_mapM _ (fun t => ok t /\ since s t) (fun e ke => ke.2 = e)); [|done]. intros e t [_ He]%list_elem_of_filter [Ht Hst]. eapply runs_to_bind.
    - apply (edge_distance_run limits base exact_before Hg (fo_adj _ _ _ Hf)); [by apply edge_in_graph|apply edge_in_graph; auto|exact Ht].
    - intros d s1 (H1 & Hs1 & _). apply runs_to_ret. split_all; [done|by etransitivity|done]. }
  intros keyed s1 [H1 HF]. apply runs_to_ret. split; [done|]. apply greedy_ok; [|done].
  intros e [->|He]%elem_of_cons; [done|]. apply list_elem_of_fmap in He as (ke & -> & Hke). rewrite elem_of_sorted_by in Hke.
  apply list_elem_of_lookup in Hke as [i Hi]. destruct (Forall2_lookup_r _ _ _ _ _ HF Hi) as (e' & He'%list_elem_of_lookup_2 & ->).
  apply list_elem_of_filter in He' as [_ He']. auto.
Qed.

Lemma select_edges_run es k selector seed s : (forall e, e ∈ es -> e ∈ edges g) -> 1 <= k -> ok s ->
  runs_to (_select_edges Random limits base es k selector seed) s (fun r s' => (ok s' /\ since s s') /\ choice_ok k r).
Proof.
  intros Hes Hk Hs. unfold _select_edges.
  assert (forall e, e ∈ shuffled Random seed es -> e ∈ edges g) as Hmixed by (intros e; rewrite elem_of_shuffled; auto).
  pose proof elem_of_loaded as Hld.
  case_bool_decide; [apply runs_to_ret; split; [by split|by apply greedy_ok]|].
  case_bool_decide.
  { destruct available_total as (available & Hav & Hin). eapply runs_to_bind; [by apply (runs_to_lift _ available _ (fun a s' => a = available /\ s' = s))|].
    intros av s' [-> ->]. destruct available as [|[l ws] rest]; [apply runs_to_ret; split; [by split|by apply greedy_ok]|].
    destruct (Hin l ws ltac:(by left)) as [Hne Hw]. destruct (anchored_total l ws seed Hne Hw) as (around & Har).
    eapply runs_to_bind; [by apply (runs_to_lift _ around _ (fun a s' => s' = s))|]. intros a s' ->. apply runs_to_ret. split; [by split|].
    apply greedy_ok; [intros e; rewrite elem_of_sorted_by; auto|]. intros x [= <-]. rewrite <- (fo_lengths _ _ _ Hf).
    apply list_elem_of_fmap. by exists (l, ws). }
  case_bool_decide; [apply runs_to_ret; split; [by split|by apply greedy_ok]|].
  destruct (loaded_edges base) as [|anchor rest] eqn:El; [by apply runs_to_ret|].
  assert (anchor ∈ edges g) as Ha by (apply Hld; by left).
  case_bool_decide; [by apply remote_run|]. case_bool_decide.
  - eapply runs_to_bind.
    + change [anchor.1; anchor.2] with (endpoints [anchor]).
      apply (pairwise_distant_run limits base exact_before Hg (fo_adj _ _ _ Hf)); [done| |done|done|done].
      apply (chosen_snoc g []); [done|apply chosen_nil|done|by intros ?%elem_of_nil..].
    + intros r s' [Hok Hr]. by apply runs_to_ret.
  - apply runs_to_ret. split; [by split|]. apply greedy_ok; [|done]. by destruct (seed mod 2 =? 0).
Qed.
End Select.
