(* ===== verification/Payloads.v ===== *)
(** * What a proposal says of its switch

    [payload] returns for every legal switch; its numbers are the ones their
    names announce, unless a budget ran out, and they are small enough to be
    written as JSON. *)

From stdpp Require Import gmap sorting.
From S2P Require Import Prelude Floats FloatBounds Json Bits Model Cycles Rewiring Rng Order Matchings Features Distances Sampling Risks Pool Switches Choice.

#[global] Open Scope Z_scope.

(** How many of the cycles pass through an edge *)
Definition through (l : list (list Z)) (e : Edge) : Z := count (fun c => e ∈ cycle_edges c) l.

Lemma count_bound {A} (P : A -> Prop) `{forall x, Decision (P x)} (l : list A) : 0 <= count P l <= Z.of_nat (length l).
Proof. unfold count. pose proof (length_filter P l). lia. Qed.

(** ** Sums, minima and maxima of lists of numbers in a range *)

Definition within (hi : Z) (l : list Z) : Prop := forall x, x ∈ l -> 0 <= x <= hi.

Lemma fold_add_init l a : foldl Z.add a l = a + foldl Z.add 0 l.
Proof. revert a. induction l as [|x l IH]; intros a; cbn; [lia|]. rewrite IH, (IH (0 + x)). lia. Qed.

Lemma sum_within hi l : 0 <= hi -> within hi l -> 0 <= sum l <= hi * Z.of_nat (length l).
Proof.
  unfold sum. intros Hhi. induction l as [|x l IH]; intros Hw; cbn [foldl length]; [lia|].
  rewrite fold_add_init. pose proof (Hw x ltac:(by left)). assert (within hi l) as Hl by (intros y Hy; apply Hw; by right). specialize (IH Hl). lia.
Qed.

Lemma max_within hi l : 0 <= hi -> within hi l -> 0 <= max_default l <= hi.
Proof. intros Hhi Hw. unfold max_default. destruct (max_by id l) as [m|] eqn:E; [|cbn; lia]. apply Hw. by apply (max_by_in id). Qed.

Lemma min_within hi l : 0 <= hi -> within hi l -> 0 <= min_default l <= hi.
Proof.
  intros Hhi Hw. unfold min_default. destruct (py_min l) as [m|] eqn:E; [|cbn; lia]. apply Hw. by apply (min_by_spec id) in E as [? _].
Qed.

Lemma mean_total hi l : 0 <= hi < 2 ^ 500 -> within hi l -> (length l <= 64)%nat -> exists x, mean l = Ok x /\ finite_nonneg x.
Proof.
  intros Hhi Hw Hl. destruct l as [|y l']; [by exists (f_lit 0)|]. unfold mean.
  pose proof (sum_within hi (y :: l') ltac:(lia) Hw) as Hs. apply truediv_finite; [|cbn; lia].
  split; [lia|]. apply Z.le_lt_trans with (2 ^ 500 * 64); [nia|]. change 64 with (2 ^ 6). rewrite <- Z.pow_add_r by lia. by apply Z.pow_lt_mono_r.
Qed.

(** ** [payload] *)

Section Payload.
Context (set_iter : gset Z -> list Z) (Hiter : forall X, set_iter X ≡ₚ elements X).
Context (limits : FeatureLimits) (base : Features) (exact_before : Prop).
Abbreviation g := (f_graph base).
Context (Hg : wf g) (Hf : features_of g limits base).
Abbreviation ok := (snap_ok limits base exact_before).
Abbreviation measured := (measured base exact_before).

Lemma local_run removed added h s : with_edges g added removed = Ok h -> ok s ->
  exists T Q s', local_risks set_iter limits base removed added s = Ok ((card T, card Q), s') /\ ok s' /\ since s s' /\
    (forall c, c ∈ T -> created h added 3 c) /\ (forall c, c ∈ Q -> created h added 4 c) /\
    (local_budget_exhausted s' = false -> (forall c, created h added 3 c -> c ∈ T) /\ forall c, created h added 4 c -> c ∈ Q).
Proof.
  intros Hw Hs. destruct (local_budget_exhausted s) eqn:E.
  - exists ∅, ∅, s. unfold local_risks. rewrite E. split_all; [done..|apply since_preorder| | |done]; set_solver.
  - destruct (local_risks_spec set_iter limits base removed added h s) as (T & Q & n & full & H & Hn & HT & HQ & Hall);
      [done..|apply (fo_adj _ _ _ Hf)|done|done|apply (so_ops _ _ _ _ Hs)|].
    exists T, Q, (with_local s n full). split_all; [done| |split; cbn; [done|by rewrite E]|done|done|].
    + destruct Hs as [Hc Hq Ho Hx]. by split.
    + cbn. rewrite E. done.
Qed.

Lemma loads_spec removed :
  ((fun l => loads_at l.2 removed) <$> edge_loads base) = (fun w => through w.2 <$> removed) <$> witnesses base.
Proof.
  pose proof (fo_loads _ _ _ Hf) as HF. induction HF as [|w l ws loads [_ Hl] _ IH]; [done|]. cbn. f_equal; [|done].
  unfold loads_at. apply list_fmap_ext. intros i e _. apply Hl.
Qed.

Lemma broken_spec removed : mapM (broken_count removed) (witnesses base) = Ok ((fun w => count (broken_by removed) w.2) <$> witnesses base).
Proof.
  apply mapM_fmap. intros [len l] Hin. apply (broken_count_spec g Hg len). intros c Hc.
  apply (sm_form _ _ _ _ _ (proj2 (fo_sampled _ _ _ Hf len l Hin)) c Hc).
Qed.

Lemma measured_within {A} (P : A -> Z -> Prop) l zs s : Forall2 (fun x z => measured (P x) z s) l zs -> within (gn g) zs.
Proof.
  intros HF z Hz. apply list_elem_of_lookup in Hz as [i Hi]. by destruct (Forall2_lookup_r _ _ _ _ _ HF Hi) as (x & _ & [Hr _]).
Qed.

Lemma elem_of_combinations2 {A} (l : list A) p : p ∈ combinations2 l -> p.1 ∈ l /\ p.2 ∈ l.
Proof.
  induction l as [|x l IH]; cbn; [by intros ?%elem_of_nil|]. rewrite elem_of_app, list_elem_of_fmap.
  intros [(y & -> & Hy)|Hp]; cbn; [split; [by left|by right]|]. split; right; by apply IH.
Qed.

Lemma length_combinations {A} (l : list A) : (2 * length (combinations2 l) = length l * (length l - 1))%nat.
Proof. induction l as [|x l IH]; [done|]. cbn [combinations2]. rewrite length_app, length_fmap. cbn [length]. nia. Qed.

(** What [payload] measures and counts *)
Record Values := mkValues {
  v_removed : list Z;
  v_added : list Z;
  v_mean_removed : float;
  v_mean_added : float;
  v_triangles : gset (list Z);
  v_squares : gset (list Z)
}.

Definition fields_of (v : Values) (removed : list Edge) (pid : string) (k : Z) (selector : string) (anchor : option Z) : list (string * json) :=
  proposal_fields pid k selector anchor ((fun w => count (broken_by removed) w.2) <$> witnesses base)
    ((fun w => sum (through w.2 <$> removed)) <$> witnesses base) ((fun w => max_default (through w.2 <$> removed)) <$> witnesses base)
    (min_default (v_removed v)) (v_mean_removed v) (min_default (v_added v)) (v_mean_added v) (card (v_triangles v), card (v_squares v)).

Record values_ok (h : BitGraph) (removed added : list Edge) (s : Snap) (v : Values) : Prop := {
  vo_removed : Forall2 (fun ef z => measured (edge_value g ef.1 ef.2) z s) (combinations2 removed) (v_removed v);
  vo_added : Forall2 (fun e z => measured (distance_value g e.1 e.2) z s) added (v_added v);
  vo_mean_removed : mean (v_removed v) = Ok (v_mean_removed v) /\ finite_nonneg (v_mean_removed v);
  vo_mean_added : mean (v_added v) = Ok (v_mean_added v) /\ finite_nonneg (v_mean_added v);
  vo_sound : (forall c, c ∈ v_triangles v -> created h added 3 c) /\ forall c, c ∈ v_squares v -> created h added 4 c;
  vo_complete : local_budget_exhausted s = false ->
    (forall c, created h added 3 c -> c ∈ v_triangles v) /\ forall c, created h added 4 c -> c ∈ v_squares v
}.

Lemma payload_run removed added h pid k selector anchor s :
  gn g < 2 ^ 64 -> with_edges g added removed = Ok h -> (forall e, e ∈ removed -> edge_vertices base e) ->
  (forall e, e ∈ added -> edge_vertices base e) -> (length removed <= 8)%nat -> (length added <= 64)%nat -> ok s ->
  runs_to (payload set_iter limits base pid removed added selector k anchor) s (fun p s' => ok s' /\ since s s' /\
    exists v, p = fields_of v removed pid k selector anchor /\ values_ok h removed added s' v).
Proof.
  intros Hn Hw Hr Ha Hlr Hla Hs. unfold payload.
  eapply runs_to_bind.
  { apply (measures_run limits base exact_before _ (fun ef => edge_value g ef.1 ef.2)); [|exact Hs].
    intros p t [H1 H2]%elem_of_combinations2 Ht. apply edge_distance_run; auto. apply (fo_adj _ _ _ Hf). }
  intros rd s1 (H1 & Hs1 & HF1). eapply runs_to_bind.
  { apply (measures_run limits base exact_before _ (fun e => distance_value g e.1 e.2)); [|exact H1].
    intros e t He Ht. apply distance_run; [done|apply (fo_adj _ _ _ Hf)|apply Ha, He..|done]. }
  intros nd s2 (H2 & Hs2 & HF2).
  destruct (local_run removed added h s2 Hw H2) as (T & Q & s3 & Hrisk & H3 & Hs3 & HT & HQ & Hall).
  eapply runs_to_bind; [exists (card T, card Q), s3; split; [exact Hrisk|exact (conj eq_refl eq_refl : (fun a s' => a = (card T, card Q) /\ s' = s3) _ _)]|].
  intros risks t [-> ->]. eapply runs_to_bind; [eapply (runs_to_lift _ _ _ (fun a s' => a = _ /\ s' = s3)); [apply broken_spec|done]|].
  intros broken t [-> ->].
  assert (0 <= gn g < 2 ^ 500) as Hng by (split; [apply (wf_n g Hg)|eapply Z.lt_trans; [exact Hn|done]]).
  destruct (mean_total (gn g) rd) as (mr & Hmr & Fmr); [done|by apply (measured_within _ _ _ _ HF1)| |].
  { rewrite <- (Forall2_length _ _ _ HF1). pose proof (length_combinations removed). nia. }
  destruct (mean_total (gn g) nd) as (mn & Hmn & Fmn); [done|by apply (measured_within _ _ _ _ HF2)|by rewrite <- (Forall2_length _ _ _ HF2)|].
  eapply runs_to_bind; [eapply (runs_to_lift _ _ _ (fun a s' => a = mr /\ s' = s3)); [exact Hmr|done]|]. intros a t [-> ->].
  eapply runs_to_bind; [eapply (runs_to_lift _ _ _ (fun a s' => a = mn /\ s' = s3)); [exact Hmn|done]|]. intros a t [-> ->].
  apply runs_to_ret. split_all; [done|by do 2 (etransitivity; [eassumption|])|].
  exists (mkValues rd nd mr mn T Q). split.
  - unfold fields_of. rewrite loads_spec, <- !list_fmap_compose. done.
  - split; cbn; try done.
    + eapply Forall2_impl; [exact HF1|]. intros x z Hz. apply (measured_since _ _ _ _ s1 s3 Hz). by etransitivity.
    + eapply Forall2_impl; [exact HF2|]. intros x z Hz. by apply (measured_since _ _ _ _ s2 s3 Hz).
Qed.
End Payload.

Lemma values_ok_since base x h removed added s s' v :
  values_ok base x h removed added s v -> since s s' -> values_ok base x h removed added s' v.
Proof.
  intros [H1 H2 H3 H4 H5 H6] Hs. split; try done.
  - eapply Forall2_impl; [exact H1|]. intros p z Hz. by apply (measured_since _ _ _ _ s s').
  - eapply Forall2_impl; [exact H2|]. intros p z Hz. by apply (measured_since _ _ _ _ s s').
  - intros Hf. apply H6. by apply (since_false s s' Hs).
Qed.

(** ** Values that can be written *)

Definition small (z : Z) : Prop := Z.log2 (Z.abs z) < 14284.

(** Integers that are not too long, and finite floats *)
Inductive plain : json -> Prop :=
  | plain_null : plain JNull
  | plain_bool b : plain (JBool b)
  | plain_int z : small z -> plain (JInt z)
  | plain_float x : is_finite x = true -> plain (JFloat x)
  | plain_str s : plain (JStr s)
  | plain_list l : (forall v, v ∈ l -> plain v) -> plain (JList l)
  | plain_obj d : (forall k v, (k, v) ∈ d -> plain v) -> plain (JObj d).

Section Plain.
Context (text : string -> string) (number : float -> res string).
Abbreviation dumps_with := (dumps_with text number).

Lemma dumps_list l : dumps_with (JList l) = (items ← mapM dumps_with l; Ok ("[" ++ join "," items ++ "]")%string).
Proof. reflexivity. Qed.

Definition dumps_item (kv : string * json) : res (string * string) := s ← dumps_with kv.2; Ok (kv.1, s).

Lemma dumps_obj d : dumps_with (JObj d) =
  (items ← mapM dumps_item d; Ok ("{" ++ join "," ((fun ks => text ks.1 ++ ":" ++ ks.2)%string <$> merge_sort key_le items) ++ "}")%string).
Proof.
  cbn [Json.dumps_with]. set (all := fix all (d : list (string * json)) : res (list (string * string)) := _).
  assert (all d = mapM dumps_item d) as ->; [|done]. induction d as [|[k v] d IH]; [done|].
  rewrite mapM_res_cons, <- IH. unfold dumps_item. cbn [fst snd]. change (all ((k, v) :: d)) with (s ← dumps_with v; ss ← all d; Ok ((k, s) :: ss)).
  by destruct (dumps_with v).
Qed.

Lemma dumps_plain v : (forall x, is_finite x = true -> exists t, number x = Ok t) -> plain v -> exists t, dumps_with v = Ok t.
Proof.
  intros Hnum. induction 1 as [| |z Hz|x Hx|s|l _ IH|d _ IH]; try by eexists.
  - exists (pretty z). cbn. unfold int_text. by rewrite (proj2 (Z.ltb_lt _ _) Hz).
  - destruct (Hnum x Hx) as [t Ht]. by exists t.
  - rewrite dumps_list. destruct (mapM_res_total dumps_with (fun _ _ => True) l) as (ts & -> & _); [|by eexists].
    intros v Hv. destruct (IH v Hv) as [t Ht]. by exists t.
  - rewrite dumps_obj. destruct (mapM_res_total dumps_item (fun _ _ => True) d) as (ts & -> & _); [|by eexists].
    intros [k v] Hv. destruct (IH k v Hv) as [t Ht]. unfold dumps_item. cbn [fst snd]. rewrite Ht. by eexists.
Qed.
End Plain.

Lemma dumps_total v : plain v -> exists t, dumps v = Ok t.
Proof. apply dumps_plain. by eexists. Qed.

Lemma canonical_bytes_total sha256 v : plain v -> exists t, canonical_json_hash sha256 v = Ok t.
Proof.
  intros Hv. destruct (dumps_plain raw_string strict_number v) as [t Ht]; [|done|].
  - intros x Hx. unfold strict_number. rewrite Hx. by eexists.
  - unfold canonical_json_hash, canonical_json_bytes. rewrite Ht. by eexists.
Qed.

Definition bounded (z : Z) : Prop := Z.abs z < 2 ^ 400.

Lemma bounded_small z : bounded z -> small z.
Proof.
  unfold bounded, small. intros H. destruct (decide (Z.abs z = 0)) as [->|]; [done|].
  apply Z.log2_lt_pow2 in H; lia.
Qed.

Lemma plain_int_list l : (forall z, z ∈ l -> bounded z) -> plain (ints l).
Proof. intros Hl. apply plain_list. intros v (z & -> & Hz)%list_elem_of_fmap. apply plain_int, bounded_small. auto. Qed.

Lemma plain_edges l : (forall e, e ∈ l -> bounded e.1 /\ bounded e.2) -> plain (edges_json l).
Proof.
  intros Hl. apply plain_list. intros v (e & -> & He)%list_elem_of_fmap. destruct (Hl e He) as [H1 H2].
  apply plain_list. intros w [->|[->|?%elem_of_nil]%elem_of_cons]%elem_of_cons; [..|done]; by apply plain_int, bounded_small.
Qed.

Lemma finite_nonneg_finite x : finite_nonneg x -> is_finite x = true.
Proof. by destruct x as [[]| | |[]]. Qed.

(** ** The numbers of a proposal are small *)

Definition BIG : Z := 2 ^ 300.

Fixpoint words (n : Z) (len : nat) : list (list Z) :=
  match len with O => [[]] | S l => x ← range 0 n; (cons x) <$> words n l end.

Lemma length_words n len : 0 <= n -> Z.of_nat (length (words n len)) = n ^ Z.of_nat len.
Proof.
  intros Hn. induction len as [|l IH]; [done|]. cbn [words].
  rewrite (length_bind_const _ (length (words n l))) by (intros; apply length_fmap).
  rewrite length_range, Nat2Z.inj_mul, Nat2Z.inj_succ, IH, Z.pow_succ_r by lia. lia.
Qed.

Lemma elem_of_words n c : (forall x, x ∈ c -> 0 <= x < n) -> c ∈ words n (length c).
Proof.
  induction c as [|x c IH]; intros Hc; [by left|]. cbn [words length]. apply list_elem_of_bind. exists x. split.
  - apply list_elem_of_fmap_2. apply IH. intros y Hy. apply Hc. by right.
  - apply elem_of_range, Hc. by left.
Qed.

Lemma created_card h added len T : wf h -> (forall c, c ∈ T -> created h added (Z.of_nat len) c) -> 0 <= card T <= gn h ^ Z.of_nat len.
Proof.
  intros Hh HT. unfold card. rewrite <- length_words by apply (wf_n h Hh). split; [lia|].
  assert (elements T ⊆+ words (gn h) len) as Hsub%submseteq_length.
  { apply NoDup_submseteq; [apply NoDup_elements|]. intros c Hc%elem_of_elements. destruct (HT c Hc) as [[Hcyc _] _]. pose proof Hcyc as (_ & Hl & _).
    replace len with (length c) by lia. apply elem_of_words. intros x Hx. by apply (is_cycle_vertex h (Z.of_nat len) c x Hh Hcyc). }
  unfold stdpp.base.size, set_size, compose. lia.
Qed.

Section Bounds.
Context (limits : FeatureLimits) (base : Features) (exact_before : Prop) (h : BitGraph) (removed added : list Edge) (s : Snap) (v : Values).
Abbreviation g := (f_graph base).
Context (Hf : features_of g limits base) (Hcap : 0 <= witness_sample_cap limits < 2 ^ 64) (Hg : wf g) (Hn : gn g < 2 ^ 64).
Context (Hh : wf h) (Hnh : gn h = gn g) (Hr : (length removed <= 8)%nat).
Context (Hv : values_ok base exact_before h removed added s v).

Lemma through_within w : w ∈ witnesses base -> within (2 ^ 64) (through w.2 <$> removed).
Proof.
  destruct w as [len l]. intros Hw x (e & -> & _)%list_elem_of_fmap. pose proof (sm_cap _ _ _ _ _ (proj2 (fo_sampled _ _ _ Hf len l Hw))) as Hc.
  unfold through. cbn [snd]. pose proof (count_bound (fun c => e ∈ cycle_edges c) l). lia.
Qed.

Lemma numbers_within :
  within BIG ((fun w => count (broken_by removed) w.2) <$> witnesses base) /\
  within BIG ((fun w => sum (through w.2 <$> removed)) <$> witnesses base) /\
  within BIG ((fun w => max_default (through w.2 <$> removed)) <$> witnesses base) /\
  0 <= min_default (v_removed v) <= BIG /\ 0 <= min_default (v_added v) <= BIG /\
  0 <= card (v_triangles v) <= BIG /\ 0 <= card (v_squares v) <= BIG.
Proof.
  assert (2 ^ 64 * 8 <= BIG) as H1 by (unfold BIG; vm_compute; done). assert (2 ^ 64 <= BIG) as H2 by (unfold BIG; vm_compute; done).
  assert (0 <= gn g) as Hng by apply (wf_n g Hg).
  destruct (vo_sound _ _ _ _ _ _ _ Hv) as [HT HQ].
  assert (forall d T, (d <= 4)%nat -> (forall c, c ∈ T -> created h added (Z.of_nat d) c) -> 0 <= card T <= BIG) as Hcard.
  { intros d T Hd HT'. pose proof (created_card h added d T Hh HT') as Hc. rewrite Hnh in Hc. split; [lia|].
    apply Z.le_trans with (gn g ^ Z.of_nat d); [lia|]. apply Z.le_trans with ((2 ^ 64) ^ Z.of_nat d); [apply Z.pow_le_mono_l; lia|].
    rewrite <- Z.pow_mul_r by lia. apply Z.pow_le_mono_r; lia. }
  split_all.
  1-3: intros x ([len l] & -> & Hw)%list_elem_of_fmap; cbn [snd].
  - pose proof (sm_cap _ _ _ _ _ (proj2 (fo_sampled _ _ _ Hf len l Hw))). pose proof (count_bound (broken_by removed) l). lia.
  - pose proof (sum_within (2 ^ 64) _ ltac:(lia) (through_within (len, l) Hw)) as Hs. rewrite length_fmap in Hs. cbn [snd] in Hs. nia.
  - pose proof (max_within (2 ^ 64) _ ltac:(lia) (through_within (len, l) Hw)) as Hm. cbn [snd] in Hm. lia.
  - pose proof (min_within (gn g) _ Hng (measured_within _ _ _ _ _ _ (vo_removed _ _ _ _ _ _ _ Hv))). lia.
  - pose proof (min_within (gn g) _ Hng (measured_within _ _ _ _ _ _ (vo_removed _ _ _ _ _ _ _ Hv))). lia.
  - pose proof (min_within (gn g) _ Hng (measured_within _ _ _ _ _ _ (vo_added _ _ _ _ _ _ _ Hv))). lia.
  - pose proof (min_within (gn g) _ Hng (measured_within _ _ _ _ _ _ (vo_added _ _ _ _ _ _ _ Hv))). lia.
  - by apply (Hcard 3%nat); [lia|].
  - by apply (Hcard 3%nat); [lia|].
  - by apply (Hcard 4%nat); [lia|].
  - by apply (Hcard 4%nat); [lia|].
Qed.

Lemma within_bounded l : within BIG l -> forall z, z ∈ l -> bounded z.
Proof. intros Hw z Hz. specialize (Hw z Hz). unfold bounded. assert (BIG < 2 ^ 400) by by vm_compute. lia. Qed.

Lemma fields_plain pid k selector anchor : bounded k -> (forall a, anchor = Some a -> bounded a) ->
  plain (JObj (fields_of base v removed pid k selector anchor)).
Proof.
  intros Hk Ha. destruct numbers_within as (W1 & W2 & W3 & W4 & W5 & W6 & W7).
  assert (forall z, 0 <= z <= BIG -> plain (JInt z)) as Hint.
  { intros z Hz. apply plain_int, bounded_small, (within_bounded [z]); [|by left]. by intros y ->%list_elem_of_singleton. }
  assert (forall x, finite_nonneg x -> plain (JFloat x)) as Hfl by (intros x Hx; by apply plain_float, finite_nonneg_finite).
  destruct (vo_mean_removed _ _ _ _ _ _ _ Hv) as [_ Fr]. destruct (vo_mean_added _ _ _ _ _ _ _ Hv) as [_ Fa].
  apply plain_obj. intros key w Hin. unfold fields_of, proposal_fields in Hin.
  repeat (apply elem_of_cons in Hin as [[= -> ->]|Hin]; [|]); [..|by apply elem_of_nil in Hin].
  all: cbn [fst snd]; try first [apply plain_str | by apply Hint | by apply Hfl | by apply plain_int_list, within_bounded].
  - by apply plain_int, bounded_small.
  - apply plain_list. intros x ->%list_elem_of_singleton. apply plain_str.
  - destruct anchor as [a|]; [|apply plain_null]. by apply plain_int, bounded_small, Ha.
Qed.
End Bounds.

(** ** The theorem *)

Lemma legal_vertices g added removed h : wf g -> with_edges g added removed = Ok h ->
  (forall e, e ∈ removed -> vertex g e.1 /\ vertex g e.2) /\ forall e, e ∈ added -> vertex g e.1 /\ vertex g e.2.
Proof.
  intros Hg Hw. destruct (with_edges_inv _ _ _ _ Hg Hw) as [H1 H2]. split.
  - intros [u v] He. apply (wf_range g Hg), H1, He.
  - intros [u v] (pre & post & He)%list_elem_of_split. cbn. destruct (H2 pre u v post He) as (Hu & Hv & _). done.
Qed.


Module PayloadsWitness.
Lemma hexagon_wf : wf RisksWitness.hexagon.
Proof. apply (from_edges_wf 6 [(0, 1); (1, 2); (2, 3); (3, 4); (4, 5); (0, 5)]). vm_compute. reflexivity. Qed.

Lemma fresh_snap_ok limits base b : 0 <= distance_query_budget limits -> 0 <= local_risk_budget limits ->
  snap_ok limits base b (new_snapshot (mkCaches ∅ ∅)).
Proof. intros. split; [split; intros k d; cbn; by rewrite lookup_empty|done..|]. intros _ _ k d. cbn. by rewrite lookup_empty. Qed.

End PayloadsWitness.
