(* ===== verification/PoolProofs.v ===== *)
(** * Every pool is legal

    [KSwitchPoolGenerator.generate] returns for every well-formed graph; each
    proposal of the pool is a switch of the graph that [with_edges] accepts, with
    the numbers of its own switch; no switch comes twice, and the counters add up. *)

From stdpp Require Import gmap sorting.
From S2P Require Import Prelude Floats FloatBounds Json Convert Bits Model Cycles Rewiring Rng Order Matchings Features Distances Sampling Risks Pool Switches Choice Payloads.

#[global] Open Scope Z_scope.

(** ** Counters *)

Definition total (d : list (string * Z)) : Z := foldr (fun kv n => kv.2 + n) 0 d.
Definition tally (d : list (string * Z)) (k : string) : Z := default 0 (dict_get d k).

#[global] Arguments total : simpl never.
#[global] Arguments tally : simpl never.
#[global] Arguments bump : simpl never.

Lemma total_set d k v : total (dict_set d k v) = total d - tally d k + v.
Proof.
  unfold tally, total. induction d as [|[k' v'] d IH]; cbn; [lia|]. destruct (decide (k = k')) as [->|]; cbn; [lia|]. rewrite IH. lia.
Qed.

Lemma total_bump d k : total (bump d k) = total d + 1.
Proof. unfold bump. rewrite total_set. unfold tally. lia. Qed.

Lemma tally_bump d k k' : tally (bump d k) k' = tally d k' + (if decide (k' = k) then 1 else 0).
Proof. unfold tally, bump. rewrite dict_get_set. case_decide as E; cbn; [by rewrite E|lia]. Qed.

#[export] Instance total_perm : Proper ((≡ₚ) ==> (=)) total.
Proof. intros d e Hp. unfold total. induction Hp; cbn; lia. Qed.

Lemma keys_set {V} (d : list (string * V)) k v : NoDup d.*1 -> NoDup (dict_set d k v).*1.
Proof.
  induction d as [|[k' v'] d IH]; cbn; [intros; apply NoDup_singleton|]. intros [Hk Hn]%NoDup_cons.
  destruct (decide (k = k')) as [->|Hne]; cbn; [by constructor|]. constructor; [|by apply IH].
  intros (x & Hx & Hin)%list_elem_of_fmap. subst k'. apply elem_of_dict_set in Hin as [Hin| ->]; [|done].
  apply Hk, list_elem_of_fmap_2, Hin.
Qed.

Lemma keys_bump d k : NoDup d.*1 -> NoDup (bump d k).*1.
Proof. apply keys_set. Qed.

Lemma tally_sorted d k : NoDup d.*1 -> tally (sorted_items d) k = tally d k.
Proof.
  intros Hn. assert (NoDup (sorted_items d).*1) as Hs by (unfold sorted_items; by rewrite sorted_by_perm).
  unfold tally. f_equal. apply option_eq. intros v. split; intros Hv%dict_get_elem_of; apply dict_get_NoDup; try done.
  - revert Hv. unfold sorted_items. by rewrite elem_of_sorted_by.
  - unfold sorted_items. by rewrite elem_of_sorted_by.
Qed.

Lemma total_sorted d : total (sorted_items d) = total d.
Proof. unfold sorted_items. by rewrite sorted_by_perm. Qed.

(** ** Placing a shape *)

Lemma place_perfect ordered shape : increasing ordered ->
  perfect_matching (range 0 (Z.of_nat (length ordered))) shape ->
  exists m, place ordered shape = Ok m /\ perfect_matching ordered m.
Proof.
  intros Hi Hs. exists (rename (at_index ordered) shape). split.
  - apply place_rename; [done|]. intros e. by apply shape_in_range.
  - rewrite <- (at_index_range ordered) at 1. apply perfect_matching_rename; [|done].
    intros x y Hx%elem_of_range Hy%elem_of_range ?. apply at_index_lt; [done|lia..].
Qed.

(** ** The checks of an added matching *)

Lemma legality_switch a g added : wf g -> a_edges a = edges g -> chosen g (a_k a) (a_removed a) ->
  perfect_matching (py_sorted (endpoints (a_removed a))) added -> legality a added = None -> switch g (a_removed a) added.
Proof.
  intros Hg He [[Hs Hd] _] (Hp & Hlt & _). unfold legality.
  case_bool_decide; [done|]. destruct (existsb _ (a_removed a)) eqn:E1; [done|]. case_match; [done|].
  destruct (existsb _ (a_edges a)) eqn:E2; [done|]. intros _. split; [done|done|by rewrite Hp, py_sorted_perm| |].
  - intros e Hin. by apply (proj1 (Forall_forall _ _) Hlt).
  - intros e Hin Hg'. destruct (decide (e ∈ a_removed a)) as [Hr|Hr].
    + apply not_true_iff_false in E1. apply E1, existsb_exists. exists e. split; [by apply list_elem_of_In|by apply bool_decide_eq_true].
    + apply not_true_iff_false in E2. apply E2, existsb_exists. exists e. rewrite He. split; [by apply list_elem_of_In|].
      apply andb_true_iff. by rewrite !bool_decide_eq_true.
Qed.

(** The pairing is another one: something changes. *)
Lemma legality_differs a added : legality a added = None -> list_to_set (C := gset Edge) added <> list_to_set (a_removed a).
Proof. unfold legality. by case_bool_decide. Qed.

(** ** Digests *)

Definition digest_ok (sha256 : list Z -> list Z) : Prop :=
  forall x, length (sha256 x) = 32%nat /\ Forall (fun b => 0 <= b < 256) (sha256 x).

Lemma from_bytes_bound l : Forall (fun b => 0 <= b < 256) l -> 0 <= from_bytes l < 256 ^ Z.of_nat (length l).
Proof.
  unfold from_bytes. induction l as [|b l IH] using rev_ind; intros Hl; [done|].
  apply Forall_app in Hl as [Hl Hb]. apply Forall_cons in Hb as [Hb _]. specialize (IH Hl).
  rewrite foldl_app, length_app. cbn [foldl length]. rewrite Nat2Z.inj_add, Z.pow_add_r by lia. change (256 ^ Z.of_nat 1) with 256.
  set (p := 256 ^ Z.of_nat (length l)) in *. set (n := foldl _ 0 l) in *.
  lia.
Qed.

Lemma seed_bound sha256 x : digest_ok sha256 -> 0 <= seed_of sha256 x < 2 ^ 64.
Proof.
  intros Hd. destruct (Hd x) as [Hl Hb]. unfold seed_of. pose proof (from_bytes_bound (take 8 (sha256 x)) (Forall_take _ 8 _ Hb)) as H.
  rewrite length_take, Hl in H. exact H.
Qed.

(** ** Small numbers *)

Lemma k_small pl k : check_pool_limits pl = Ok pl -> k ∈ k_values pl -> 2 <= k <= 4.
Proof.
  intros Hpl Hk. unfold check_pool_limits in Hpl. apply raise_seq_Ok in Hpl as [_ Hp]. apply raise_seq_Ok in Hp as [Hp _].
  unfold bad_choice in Hp. apply orb_false_iff in Hp as [Hp _]. apply orb_false_iff in Hp as [_ Hp].
  assert (k ∈ SUPPORTED_K_VALUES) as Hin; [|unfold SUPPORTED_K_VALUES in Hin; set_solver by lia].
  destruct (decide (k ∈ SUPPORTED_K_VALUES)) as [|Hno]; [done|]. apply not_true_iff_false in Hp. exfalso. apply Hp, existsb_exists.
  exists k. split; [by apply list_elem_of_In|]. by rewrite bool_decide_eq_false_2.
Qed.

Lemma vertex_bounded g e : wf g -> gn g < 2 ^ 64 -> e ∈ edges g -> bounded e.1 /\ bounded e.2.
Proof.
  intros Hg Hn He. destruct (edges_distinct g e Hg He) as (_ & H1 & H2). unfold bounded, vertex in *.
  assert (2 ^ 64 < 2 ^ 400) by by vm_compute. lia.
Qed.

Lemma seed_bounded z : 0 <= z < 2 ^ 64 -> bounded z.
Proof. unfold bounded. assert (2 ^ 64 < 2 ^ 400) by by vm_compute. lia. Qed.

Lemma anchor_bounded x : x ∈ forbidden_lengths default_limits -> bounded x.
Proof. cbn. unfold FROZEN_FORBIDDEN_LENGTHS, bounded. intros Hx. assert (9 < 2 ^ 400) by by vm_compute. set_solver by lia. Qed.

(** ** The invariant of the generation *)

Definition key_of (c : ProposalCandidate) : list Edge * list Edge := (removed_edges (rewrite c), added_edges (rewrite c)).
Definition size_of (c : ProposalCandidate) : Z := Z.of_nat (length (removed_edges (rewrite c))).

Lemma sort_edge_id (l : list Edge) : (forall e, e ∈ l -> e.1 < e.2) -> sort_edge <$> l = l.
Proof.
  induction l as [|e l IH]; intros Hl; [done|]. cbn. rewrite IH by (intros f Hf; apply Hl; by right). f_equal.
  unfold sort_edge. destruct (Z.ltb_spec e.2 e.1); [|done]. pose proof (Hl e ltac:(by left)). lia.
Qed.

Section Pool.
Context `{RngLaws R} (Random : Z -> R) (sha256 : list Z -> list Z) (set_iter : gset Z -> list Z).
Context (Hsha : digest_ok sha256) (Hiter : forall X, set_iter X ≡ₚ elements X).
Context (pl : PoolLimits) (Hpl : check_pool_limits pl = Ok pl) (base : Features) (exact_before : Prop).
Abbreviation g := (f_graph base).
Abbreviation limits := default_limits.
Context (Hg : wf g) (Hn : gn g < 2 ^ 64) (Hf : features_of g limits base).
Abbreviation ok := (snap_ok limits base exact_before).

(** What a proposal of the pool is; [t] says whether the budgets ran out. *)
Inductive candidate_ok (t : Snap) (c : ProposalCandidate) : Prop :=
  CandidateOk h v digest k selector anchor :
    switch g (removed_edges (rewrite c)) (added_edges (rewrite c)) ->
    with_edges g (added_edges (rewrite c)) (removed_edges (rewrite c)) = Ok h ->
    list_to_set (C := gset Edge) (added_edges (rewrite c)) <> list_to_set (removed_edges (rewrite c)) ->
    size_of c = k -> k ∈ k_values pl -> selector ∈ selectors pl -> (forall a, anchor = Some a -> a ∈ forbidden_lengths limits) ->
    operator_family (rewrite c) = family_name k ->
    proposal c = fields_of base v (removed_edges (rewrite c)) (hexdigest (sha256 digest)) k selector anchor ->
    values_ok base exact_before h (removed_edges (rewrite c)) (added_edges (rewrite c)) t v ->
    candidate_ok t c.

Lemma candidate_since c t t' : candidate_ok t c -> since t t' -> candidate_ok t' c.
Proof. intros [h v digest k selector anchor] Hs. econstructor; try done. by apply (values_ok_since _ _ _ _ _ t). Qed.

Record gen_ok (s : Gen) (t : Snap) : Prop := {
  go_candidates : forall c, c ∈ g_retained s -> candidate_ok t c;
  go_distinct : NoDup (key_of <$> g_retained s);
  go_seen : forall c, c ∈ g_retained s -> key_of c ∈ g_seen s;
  go_size : Z.of_nat (length (g_retained s)) <= pool_size pl;
  go_attempted : g_attempted s = Z.of_nat (length (g_retained s)) + g_deduplicated s
    + (total (g_rejected s) - tally (g_rejected s) "disjoint_selection");
  go_host : tally (g_rejected s) "host_validation" = 0;
  go_selectors : total (g_selectors s) = Z.of_nat (length (g_retained s));
  go_ks : total (g_ks s) = Z.of_nat (length (g_retained s)) /\
    forall k, tally (g_ks s) (pretty k) = count (fun c => size_of c = k) (g_retained s);
  go_keys : NoDup (g_rejected s).*1 /\ NoDup (g_selectors s).*1 /\ NoDup (g_ks s).*1
}.

Lemma gen_ok_start t : gen_ok (mkGen [] [] [] [] [] 0 0) t.
Proof.
  split; cbn; try done; try (by intros c ?%elem_of_nil); try constructor; try done; try constructor; try constructor.
  all: unfold check_pool_limits in Hpl; apply raise_seq_Ok in Hpl as [Hp _]; apply negb_false_iff, andb_true_iff in Hp as [Hp _]; lia.
Qed.

Lemma gen_ok_since s t t' : gen_ok s t -> since t t' -> gen_ok s t'.
Proof. intros [] Hs. split; try done. intros c Hc. apply (candidate_since c t t'); auto. Qed.

Lemma gen_ok_see s t key : gen_ok s t -> gen_ok (see s key) t.
Proof. intros []. split; try done. cbn. intros c Hc. right. auto. Qed.

(** One attempt ends in one of the counters. *)
Lemma gen_ok_reject s t why : gen_ok s t -> why <> "disjoint_selection"%string -> why <> "host_validation"%string -> gen_ok (reject (attempt_one s) why) t.
Proof.
  intros [H1 H2 H3 H4 H5 H6 H7 H8 (K1 & K2 & K3)] Hd Hh. split; cbn; try done.
  - rewrite total_bump, tally_bump, decide_False by congruence. lia.
  - rewrite tally_bump, decide_False by congruence. lia.
  - split_all; [by apply keys_bump|done..].
Qed.

Lemma gen_ok_disjoint s t : gen_ok s t -> gen_ok (reject s "disjoint_selection") t.
Proof.
  intros [H1 H2 H3 H4 H5 H6 H7 H8 (K1 & K2 & K3)]. split; cbn; try done.
  - rewrite total_bump, tally_bump, decide_True by done. lia.
  - rewrite tally_bump, decide_False by congruence. lia.
  - split_all; [by apply keys_bump|done..].
Qed.

Lemma gen_ok_duplicate s t : gen_ok s t -> gen_ok (duplicate (attempt_one s)) t.
Proof. intros []. split; cbn; try done. lia. Qed.

Lemma gen_ok_retain s t c selector k :
  gen_ok s t -> candidate_ok t c -> key_of c ∉ g_seen s -> size_of c = k -> full pl s = false ->
  gen_ok (retain (see (attempt_one s) (key_of c)) c selector k) t.
Proof.
  intros [H1 H2 H3 H4 H5 H6 H7 [H8 H9] (K1 & K2 & K3)] Hc Hk Hs Hfull. unfold full in Hfull. apply Z.leb_gt in Hfull. split; cbn.
  - intros d [Hd|Hd%list_elem_of_singleton]%elem_of_app; [auto|by subst].
  - rewrite fmap_app. apply NoDup_app. split_all; [done| |apply NoDup_singleton].
    intros x (d & -> & Hd)%list_elem_of_fmap Hx%list_elem_of_singleton. apply Hk. rewrite <- Hx. auto.
  - intros d [Hd|Hd%list_elem_of_singleton]%elem_of_app; [right; auto|rewrite Hd; by left].
  - rewrite length_app. cbn. lia.
  - rewrite length_app. cbn. lia.
  - done.
  - rewrite total_bump, length_app. cbn. lia.
  - rewrite total_bump, length_app. cbn. split; [lia|]. intros k'. rewrite tally_bump, H9, count_app, count_cons. unfold count at 3. cbn.
    destruct (decide (pretty k' = pretty k)) as [E|E], (decide (size_of c = k')) as [E'|E']; try lia; exfalso.
    + apply E'. rewrite Hs. by apply (inj pretty).
    + apply E. by rewrite <- E', Hs.
  - split_all; [done|by apply keys_bump..].
Qed.

(** ** The loop over the matchings *)

(** What the loop knows of an attempt *)
Record attempt_ok (a : Attempt) : Prop := {
  at_graph : a_graph a = g;
  at_edges : a_edges a = edges g;
  at_chosen : chosen g (a_k a) (a_removed a);
  at_k : a_k a ∈ k_values pl;
  at_selector : a_selector a ∈ selectors pl;
  at_anchor : forall x, a_anchor a = Some x -> x ∈ forbidden_lengths limits;
  at_seed : 0 <= a_seed a < 2 ^ 64;
  at_ordered : a_ordered a = py_sorted (endpoints (a_removed a));
  at_shapes : a_shapes a = _perfect_matching_shapes (range 0 (Z.of_nat (length (a_ordered a))))
}.

Lemma matching_bounded removed added e :
  chosen_from g removed -> perfect_matching (py_sorted (endpoints removed)) added -> e ∈ added -> bounded e.1 /\ bounded e.2.
Proof.
  intros Hc (Hp & _) He.
  assert (forall x, x ∈ endpoints added -> bounded x) as Hx.
  { intros x. rewrite Hp, py_sorted_perm. intros (f & Hfr & Hx)%elem_of_endpoints.
    pose proof (vertex_bounded g f Hg Hn (ch_edges _ _ Hc f Hfr)). destruct Hx as [-> | ->]; tauto. }
  split; apply Hx, elem_of_endpoints; eauto.
Qed.

(** The matching an attempt places *)
Lemma placed a i : attempt_ok a -> 0 <= i < Z.of_nat (length (a_shapes a)) ->
  exists m, (shape ← py_index (a_shapes a) i; place (a_ordered a) shape) = Ok m /\
    py_sorted m = m /\ perfect_matching (py_sorted (endpoints (a_removed a))) m.
Proof.
  intros Ha Hi. destruct (py_index_in_range _ _ Hi) as (shape & Hs%list_elem_of_lookup_2 & ->). cbn [mbind res_bind].
  assert (increasing (a_ordered a)) as Hinc.
  { rewrite (at_ordered a Ha). apply sorted_increasing, (ch_disjoint g), (at_chosen a Ha). }
  destruct (place_perfect (a_ordered a) shape Hinc) as (m & Hm & Hp).
  { rewrite (at_shapes a Ha) in Hs. by apply shapes_spec in Hs; [|apply increasing_range]. }
  exists m. split_all; [done|apply py_sorted_id; apply Hp|by rewrite <- (at_ordered a Ha)].
Qed.

Lemma try_matching_run a mi i s t : attempt_ok a -> 0 <= mi < 2 ^ 64 -> 0 <= i < Z.of_nat (length (a_shapes a)) ->
  gen_ok s t -> ok t -> full pl s = false ->
  runs_to (try_matching sha256 set_iter limits base a mi i s) t (fun r t' => gen_ok r.1 t' /\ ok t' /\ since t t').
Proof.
  intros Ha Hmi Hi Hs Ht Hfull. unfold try_matching. destruct (placed a i Ha Hi) as (m & Hm & Hsorted & Hp).
  eapply runs_to_bind; [by apply (runs_to_lift _ m _ (fun x t' => x = m /\ t' = t))|]. intros x t' [-> ->]. rewrite Hsorted.
  destruct (legality a m) as [why|] eqn:Hl.
  { apply runs_to_ret. split_all; [|done|done]. cbn. apply gen_ok_reject; [done|..]; intros ->; revert Hl; unfold legality; by repeat case_match. }
  pose proof (legality_switch a g m Hg (at_edges a Ha) (at_chosen a Ha) Hp Hl) as Hsw.
  pose proof (legality_differs a m Hl) as Hdiff.
  case_bool_decide as Hseen; [apply runs_to_ret; split_all; [by apply gen_ok_duplicate|done|done]|].
  destruct (switch_correct g Hg _ _ Hsw) as (h & Hw & Hh & Hnh & _). destruct (at_chosen a Ha) as [Hch Hk].
  pose proof (k_small pl _ Hpl (at_k a Ha)) as Hks.
  assert (plain (JList [JStr POOL_SCHEMA_VERSION; JInt (a_seed a); JInt mi; edges_json (a_removed a); edges_json m])) as Hplain.
  { apply plain_list. intros v Hv. repeat (apply elem_of_cons in Hv as [->|Hv]; [|]); [..|by apply elem_of_nil in Hv].
    - apply plain_str.
    - apply plain_int, bounded_small, seed_bounded, (at_seed a Ha).
    - by apply plain_int, bounded_small, seed_bounded.
    - apply plain_edges. intros e He. apply (vertex_bounded g e Hg Hn), (ch_edges _ _ Hch e He).
    - apply plain_edges. intros e He. by apply (matching_bounded (a_removed a) m). }
  destruct (dumps_total _ Hplain) as (text & Htext).
  eapply runs_to_bind; [by apply (runs_to_lift _ text _ (fun x t' => x = text /\ t' = t))|]. intros x t' [-> ->].
  rewrite (at_graph a Ha), Hw. destruct (legal_vertices _ _ _ _ Hg Hw) as [Hvr Hva].
  eapply runs_to_bind.
  { apply (payload_run set_iter Hiter limits base exact_before Hg Hf _ _ h _ _ _ _ t); try done; [lia|].
    rewrite (added_length _ _ _ Hsw). lia. }
  intros p t' (Ht' & Hsince & v & -> & Hv). apply runs_to_ret. split_all; [|done..]. cbn [fst].
  assert (sort_edge <$> a_removed a = a_removed a) as E1.
  { apply sort_edge_id. intros e He. apply (edges_distinct g e Hg), (ch_edges _ _ Hch e He). }
  assert (sort_edge <$> m = m) as E2 by (apply sort_edge_id, Hsw).
  match goal with |- gen_ok (retain _ ?c _ _) _ => set (c0 := c) end.
  assert (key_of c0 = (a_removed a, m)) as Ekey by (unfold key_of, c0, new_rewrite; cbn; by rewrite E1, E2).
  rewrite <- Ekey. apply gen_ok_retain; [by apply (gen_ok_since _ t)| |by rewrite Ekey| |done].
  - unfold c0, new_rewrite. rewrite E1, E2. apply (CandidateOk t' _ h v (codes text) (a_k a) (a_selector a) (a_anchor a)); cbn; try done; try apply Ha.
  - unfold size_of, c0, new_rewrite. cbn. by rewrite E1.
Qed.

Lemma try_matchings_run a order s t : attempt_ok a ->
  (forall mi i, (mi, i) ∈ order -> 0 <= mi < 2 ^ 64 /\ 0 <= i < Z.of_nat (length (a_shapes a))) ->
  gen_ok s t -> ok t ->
  runs_to (try_matchings sha256 set_iter pl limits base a order s) t (fun s' t' => gen_ok s' t' /\ ok t' /\ since t t').
Proof.
  intros Ha. revert s t. induction order as [|[mi i] order IH]; intros s t Ho Hs Ht; cbn [try_matchings]; [by apply runs_to_ret|].
  destruct (full pl s) eqn:E; [by apply runs_to_ret|]. destruct (Ho mi i ltac:(by left)) as [Hmi Hi].
  eapply runs_to_bind; [by apply (try_matching_run a mi i s t)|]. intros [s1 kept] t1 (H1 & Ht1 & Hs1). cbn [fst snd].
  destruct kept; [by apply runs_to_ret|]. eapply runs_to_mono; [apply IH; [|done..]; intros; apply Ho; by right|].
  intros s2 t2 (? & ? & ?). split_all; [done..|by etransitivity].
Qed.

(** ** One attempt *)

Lemma enumerate_positions {A} (l : list A) i x : (i, x) ∈ enumerate l -> 0 <= i < Z.of_nat (length l) /\ x ∈ l.
Proof.
  intros Hin. apply list_elem_of_lookup in Hin as [j Hj]. unfold enumerate in Hj. rewrite enumerate_from_lookup in Hj.
  destruct (l !! j) as [y|] eqn:E; [|done]. injection Hj as <- <-. split; [|by eapply list_elem_of_lookup_2].
  apply lookup_lt_Some in E. lia.
Qed.

Lemma pool_limits_facts :
  k_values pl <> [] /\ (forall s, s ∈ selectors pl -> s ∈ SUPPORTED_SELECTORS) /\ weighted_selectors pl <> [] /\
  (forall s, s ∈ weighted_selectors pl -> s ∈ selectors pl) /\ 1 <= matching_limit pl <= 105 /\ 1 <= retry_limit pl <= 1024.
Proof.
  pose proof Hpl as Hp. unfold check_pool_limits in Hp. apply raise_seq_Ok in Hp as [_ Hp].
  apply raise_seq_Ok in Hp as [Hk Hp]. apply raise_seq_Ok in Hp as [Hsel Hp]. apply raise_seq_Ok in Hp as [Hw Hp]. apply raise_seq_Ok in Hp as [Hr _].
  unfold bad_choice in Hk, Hsel. rewrite !orb_false_iff in Hk, Hsel. destruct Hk as [[Hk _] _], Hsel as [[Hsel Hsup] _].
  apply bool_decide_eq_false in Hk, Hsel. apply orb_false_iff in Hw as [Hlen Hpos]. apply negb_false_iff, Nat.eqb_eq in Hlen.
  apply orb_false_iff in Hr as [Hr Hm]. apply negb_false_iff, andb_true_iff in Hr, Hm.
  split_all; [done| | | |lia..].
  - intros s Hs. destruct (decide (s ∈ SUPPORTED_SELECTORS)) as [|Hno]; [done|]. apply not_true_iff_false in Hsup. exfalso.
    apply Hsup, existsb_exists. exists s. split; [by apply list_elem_of_In|]. by rewrite bool_decide_eq_false_2.
  - unfold weighted_selectors. destruct (selectors pl) as [|s ss]; [done|]. destruct (selector_weights pl) as [|w ws]; [done|].
    cbn in Hpos. apply orb_false_iff in Hpos as [Hpos _]. apply Z.leb_gt in Hpos. cbn. destruct (Z.to_nat w) eqn:E; [lia|done].
  - intros s. unfold weighted_selectors. rewrite list_elem_of_bind. intros ([x w] & Hx & Hin). apply elem_of_replicate in Hx as [-> _].
    by apply elem_of_zip_l in Hin.
Qed.

Lemma index_mod {A} (l : list A) z : l <> [] -> exists x, py_index l (z mod Z.of_nat (length l)) = Ok x /\ x ∈ l.
Proof.
  intros Hl. destruct (py_index_in_range l (z mod Z.of_nat (length l))) as (x & Hx & Hi).
  - apply Z.mod_pos_bound. destruct l; [done|cbn; lia].
  - exists x. split; [done|by eapply list_elem_of_lookup_2].
Qed.

Lemma nonempty_length {A} (l : list A) : l <> [] -> (length l =? 0)%nat = false.
Proof. by destruct l. Qed.

Lemma selector_total attempt seed : exists s, _selector pl attempt seed = Ok s /\ s ∈ selectors pl.
Proof.
  destruct pool_limits_facts as (_ & _ & Hw & Hin & _). unfold _selector. rewrite (nonempty_length _ Hw).
  destruct (index_mod (weighted_selectors pl) (attempt + seed) Hw) as (s & Hs & Hsin). exists s. auto.
Qed.

Lemma seed_total prefix attempt selector : bounded attempt ->
  exists z, _seed_from_prefix sha256 prefix attempt selector = Ok z /\ 0 <= z < 2 ^ 64.
Proof.
  intros Ha. destruct (dumps_total (JList [JInt attempt; JStr selector])) as (t & Ht).
  { apply plain_list. intros v [->|[->|?%elem_of_nil]%elem_of_cons]%elem_of_cons; [|apply plain_str|done]. by apply plain_int, bounded_small. }
  unfold _seed_from_prefix. rewrite Ht. eexists. split; [done|]. by apply seed_bound.
Qed.

Lemma xor_shuffled_in seed l x : x ∈ shuffled Random seed l <-> x ∈ (l : list Z).
Proof. unfold shuffled. by rewrite shuffle_perm. Qed.

Lemma try_attempt_run prefix policy_seed step attempt s t : bounded attempt -> gen_ok s t -> ok t ->
  runs_to (try_attempt Random sha256 set_iter pl limits base g (edges g) prefix policy_seed step attempt s) t
    (fun s' t' => gen_ok s' t' /\ ok t' /\ since t t').
Proof.
  intros Hat Hs Ht. unfold try_attempt. destruct pool_limits_facts as (Hkv & _ & _ & _ & Hml & _).
  destruct (selector_total attempt policy_seed) as (selector & Hsel & Hselin).
  eapply runs_to_bind; [by apply (runs_to_lift _ selector _ (fun x t' => x = selector /\ t' = t))|]. intros x t' [-> ->].
  destruct (index_mod (k_values pl) (attempt + step + policy_seed) Hkv) as (k & Hk & Hkin). rewrite (nonempty_length _ Hkv).
  eapply runs_to_bind; [by apply (runs_to_lift _ k _ (fun x t' => x = k /\ t' = t))|]. intros x t' [-> ->].
  destruct (seed_total prefix attempt selector Hat) as (seed & Hseed & Hsb).
  eapply runs_to_bind; [by apply (runs_to_lift _ seed _ (fun x t' => x = seed /\ t' = t))|]. intros x t' [-> ->].
  pose proof (k_small pl k Hpl Hkin) as Hk4.
  eapply runs_to_bind; [apply (select_edges_run Random limits base exact_before Hg Hf); [done|lia|done]|].
  intros [removed anchor] t1 ([Ht1 Hs1] & Hch & Hanc). cbn [fst snd] in *.
  destruct removed as [removed|]; [|apply runs_to_ret; split_all; [|done|done]; apply gen_ok_disjoint; by apply (gen_ok_since s t)].
  set (a := mkAttempt _ _ _ _ _ _ _ _ _). assert (attempt_ok a) as Ha.
  { split; cbn; try done. by apply Hch. }
  eapply runs_to_mono.
  - apply (try_matchings_run a _ s t1 Ha); [|by apply (gen_ok_since s t)|done].
    intros mi i [Hmi Hi]%enumerate_positions. apply elem_of_take in Hi as (j & Hj%list_elem_of_lookup_2 & _).
    rewrite xor_shuffled_in, elem_of_range in Hj. rewrite length_take in Hmi. split; [|done].
    assert (105 < 2 ^ 64) by by vm_compute. lia.
  - intros s' t' (? & ? & ?). split_all; [done..|by etransitivity].
Qed.

Lemma try_attempts_run prefix policy_seed step attempts s t : (forall x, x ∈ attempts -> bounded x) -> gen_ok s t -> ok t ->
  runs_to (try_attempts Random sha256 set_iter pl limits base g (edges g) prefix policy_seed step attempts s) t
    (fun s' t' => gen_ok s' t' /\ ok t' /\ since t t').
Proof.
  revert s t. induction attempts as [|attempt attempts IH]; intros s t Hat Hs Ht; cbn [try_attempts]; [by apply runs_to_ret|].
  destruct (full pl s); [by apply runs_to_ret|].
  eapply runs_to_bind; [apply (try_attempt_run prefix policy_seed step attempt s t); [apply Hat; by left|done..]|].
  intros s1 t1 (H1 & Ht1 & Hs1). eapply runs_to_mono; [apply IH; [|done..]; intros; apply Hat; by right|].
  intros s2 t2 (? & ? & ?). split_all; [done..|by etransitivity].
Qed.
End Pool.

Lemma check_feature_limits_default limits : check_feature_limits limits = Ok limits -> limits = default_limits.
Proof.
  unfold check_feature_limits. intros H. repeat apply raise_seq_Ok in H as [?%negb_false_iff H].
  destruct limits. cbn in *. rewrite ?bool_decide_eq_true, ?Z.eqb_eq in *. by subst.
Qed.

(** ** [generate] *)

(** The invariant of the generator: it holds the features of the graph it holds,
    with caches that are coherent. *)
Definition generator_ok (limits : FeatureLimits) (st : Generator) : Prop :=
  match cached_graph st, cached_features st with
  | None, None => True
  | Some graph, Some fc => features_of graph limits fc.1 /\ coherent fc.1 fc.2
  | _, _ => False
  end.

(** No edge distance was cached after a budget had run out. *)
Definition generator_exact (st : Generator) : Prop := forall fc, cached_features st = Some fc -> exact_edges fc.1 fc.2.

Lemma coherent_empty base : coherent base (mkCaches ∅ ∅).
Proof. split; intros k d; cbn; by rewrite lookup_empty. Qed.

Lemma snapshot_total limits st graph : wf graph -> limits_ok limits -> generator_ok limits st ->
  exists fc, _snapshot limits st graph = Ok fc /\ features_of graph limits fc.1 /\ coherent fc.1 fc.2 /\
    (generator_exact st -> exact_edges fc.1 fc.2).
Proof.
  intros Hg Hl Hst. unfold _snapshot. case_bool_decide as E.
  - unfold generator_ok in Hst. rewrite E in Hst. destruct (cached_features st) as [fc|] eqn:Ef; [|done]. destruct Hst as [H1 H2].
    exists fc. split_all; [done..|]. intros Hx. by apply Hx.
  - destruct (local_features_spec graph limits Hg Hl) as (f & -> & Hf). cbn [mbind res_bind].
    eexists. split_all; [done|done|apply coherent_empty|]. intros _ k d. cbn. by rewrite lookup_empty.
Qed.

(** The pool that a generation returns *)
Record pool_ok (sha256 : list Z -> list Z) (pl : PoolLimits) (base : Features) (exact : Prop) (t : Snap) (pool : ProposalPool) : Prop := {
  po_candidates : forall c, c ∈ candidates pool -> candidate_ok sha256 pl base exact t c;
  po_distinct : NoDup (key_of <$> candidates pool);
  po_retained : retained pool = Z.of_nat (length (candidates pool)) /\ retained pool <= pool_size pl;
  po_attempted : attempted pool = retained pool + deduplicated pool + (total (rejected pool) - tally (rejected pool) "disjoint_selection");
  po_host : tally (rejected pool) "host_validation" = 0;
  po_selectors : total (selector_counts pool) = retained pool;
  po_ks : total (k_counts pool) = retained pool /\
    forall k, tally (k_counts pool) (pretty k) = count (fun c => size_of c = k) (candidates pool);
  po_schema : schema_version pool = POOL_SCHEMA_VERSION;
  po_hash : _pool_hash sha256 (candidates pool) = Ok (pool_hash pool);
  po_usage : usage default_limits base t = Ok (feature_usage pool)
}.

Lemma usage_total base t : features_of (f_graph base) default_limits base -> exists u, usage default_limits base t = Ok u.
Proof.
  intros Hf. unfold usage.
  destruct (mapM_res_total (fun l => ws ← lookup_length (witnesses base) l; Ok (JInt (Z.of_nat (length ws)))) (fun _ _ => True)
    (forbidden_lengths default_limits)) as (ys & -> & _); [|by eexists].
  intros l Hl. rewrite <- (fo_lengths _ _ _ Hf) in Hl. destruct (lookup_length_total _ _ Hl) as (v & -> & _). by eexists.
Qed.

Section Generate.
Context `{RngLaws R} (Random : Z -> R) (sha256 : list Z -> list Z) (set_iter : gset Z -> list Z).
Context (Hsha : digest_ok sha256) (Hiter : forall X, set_iter X ≡ₚ elements X).
Context (pl : PoolLimits) (Hpl : check_pool_limits pl = Ok pl).

Lemma candidate_plain base exact t c : wf (f_graph base) -> gn (f_graph base) < 2 ^ 64 -> features_of (f_graph base) default_limits base ->
  candidate_ok sha256 pl base exact t c ->
  plain (JObj [("proposal", JObj (proposal c)); ("removed_edges", edges_json (removed_edges (rewrite c)));
    ("added_edges", edges_json (added_edges (rewrite c)))]%string).
Proof.
  intros Hg Hn Hf [h v digest k selector anchor Hsw Hw _ Hk Hkin _ Ha _ Hp Hv].
  destruct (switch_correct _ Hg _ _ Hsw) as (h' & Hw' & Hh & Hnh & _). rewrite Hw in Hw'. injection Hw' as <-.
  pose proof (k_small pl k Hpl Hkin) as Hk4. unfold size_of in Hk.
  assert (forall e, e ∈ removed_edges (rewrite c) -> bounded e.1 /\ bounded e.2) as Hr.
  { intros e He. by apply (vertex_bounded _ e Hg Hn), (sw_edges _ _ _ Hsw). }
  apply plain_obj. intros key w Hin. repeat (apply elem_of_cons in Hin as [[= -> ->]|Hin]; [|]); [..|by apply elem_of_nil in Hin].
  - rewrite Hp. eapply (fields_plain default_limits base exact h _ _ t v); try done; try lia.
    + unfold bounded. assert (4 < 2 ^ 400) by by vm_compute. lia.
    + intros a E. by apply anchor_bounded, Ha.
  - by apply plain_edges.
  - apply plain_edges. intros e He.
    assert (forall x, x ∈ endpoints (added_edges (rewrite c)) -> bounded x) as Hx.
    { intros x. rewrite (sw_ends _ _ _ Hsw). intros (f & Hfr & Hxf)%elem_of_endpoints. destruct (Hr f Hfr). by destruct Hxf as [-> | ->]. }
    split; apply Hx, elem_of_endpoints; eauto.
Qed.

Lemma pool_hash_total base exact t cs : wf (f_graph base) -> gn (f_graph base) < 2 ^ 64 -> features_of (f_graph base) default_limits base ->
  (forall c, c ∈ cs -> candidate_ok sha256 pl base exact t c) -> exists x, _pool_hash sha256 cs = Ok x.
Proof.
  intros Hg Hn Hf Hc. apply canonical_bytes_total, plain_list. intros v (c & -> & Hin)%list_elem_of_fmap.
  by apply (candidate_plain base exact t c); auto.
Qed.

Lemma generate_run st graph policy_seed step :
  wf graph -> gn graph < 2 ^ 64 -> generator_ok default_limits st -> small policy_seed -> small step ->
  exists pool base t, generate Random sha256 set_iter pl default_limits st graph policy_seed step =
      Ok (pool, mkGenerator (Some graph) (Some (base, caches t))) /\
    features_of graph default_limits base /\ snap_ok default_limits base (generator_exact st) t /\
    pool_ok sha256 pl base (generator_exact st) t pool.
Proof.
  intros Hg Hn Hst Hps Hstep. unfold generate.
  destruct (snapshot_total default_limits st graph Hg default_limits_ok Hst) as ([base c0] & -> & Hf & Hc & Hx). cbn [fst snd] in *.
  pose proof (fo_graph _ _ _ Hf) as Eg. subst graph.
  destruct (dumps_total (JList [JInt (gn (f_graph base)); edges_json (edges (f_graph base)); JInt policy_seed; JInt step])) as (text & Htext).
  { apply plain_list. intros v Hv. pose proof (wf_n _ Hg). repeat (apply elem_of_cons in Hv as [->|Hv]; [|]); [..|by apply elem_of_nil in Hv].
    - apply plain_int, bounded_small, seed_bounded. lia.
    - apply plain_edges. intros e. by apply vertex_bounded.
    - by apply plain_int.
    - by apply plain_int. }
  unfold seed_prefix. rewrite Htext. cbn [mbind res_bind fst snd].
  destruct (try_attempts_run Random sha256 set_iter Hsha Hiter pl Hpl base (generator_exact st) Hg Hn Hf (codes text) policy_seed step
    (range 0 (retry_limit pl)) (mkGen [] [] [] [] [] 0 0) (new_snapshot c0)) as (s & t & -> & Hs & Ht & _).
  { intros x Hx'%elem_of_range. destruct (pool_limits_facts pl Hpl) as (_ & _ & _ & _ & _ & Hr).
    apply seed_bounded. assert (1024 < 2 ^ 64) by by vm_compute. lia. }
  { by apply gen_ok_start. }
  { split; cbn; [done..|]. intros. by apply Hx. }
  cbn [mbind res_bind fst snd].
  destruct (pool_hash_total base (generator_exact st) t (g_retained s) Hg Hn Hf (go_candidates _ _ _ _ _ _ Hs)) as (hash & Hh).
  rewrite Hh. cbn [mbind res_bind]. destruct (usage_total base t Hf) as (u & Hu). rewrite Hu. cbn [mbind res_bind].
  eexists _, base, t. split; [done|]. split_all; [done..|]. destruct Hs as [S1 S2 S3 S4 S5 S6 S7 [S8 S9] (K1 & K2 & K3)].
  split; cbn; try done.
  - by rewrite total_sorted, tally_sorted.
  - by rewrite tally_sorted.
  - by rewrite total_sorted.
  - rewrite total_sorted. split; [done|]. intros k. by rewrite tally_sorted.
Qed.
End Generate.

(** ** Seeds *)

Lemma codes_app s t : codes (s ++ t)%string = codes s ++ codes t.
Proof.
  induction s as [|a s IH]; [done|]. change (code a :: codes (s ++ t)%string = (code a :: codes s) ++ codes t). by rewrite IH.
Qed.

Lemma join_codes sep l k : l <> [] -> k <> [] -> codes (join sep (l ++ k)) = codes (join sep l) ++ codes sep ++ codes (join sep k).
Proof.
  intros Hl Hk. induction l as [|x l IH]; [done|]. destruct l as [|y l].
  - destruct k as [|z k]; [done|]. change (codes (x ++ sep ++ join sep (z :: k))%string = codes x ++ codes sep ++ codes (join sep (z :: k))).
    by rewrite !codes_app.
  - change (join sep ((x :: y :: l) ++ k)) with (x ++ sep ++ join sep ((y :: l) ++ k))%string.
    change (join sep (x :: y :: l)) with (x ++ sep ++ join sep (y :: l))%string. rewrite !codes_app, IH by done. by rewrite <- !app_assoc.
Qed.

Lemma mapM_nonempty {A B} (f : A -> res B) l ys : mapM f l = Ok ys -> l <> [] -> ys <> [].
Proof.
  destruct l as [|x l]; [done|]. rewrite mapM_res_cons. intros (y & _ & H)%bind_Ok _. by apply bind_Ok in H as (zs & _ & [= <-]).
Qed.

(** A list is written as its parts with a comma between them. *)
Lemma dumps_append l k : l <> [] -> k <> [] ->
  (text ← dumps (JList (l ++ k)); Ok (codes text)) =
  (a ← dumps (JList l); b ← dumps (JList k); Ok (take (length (codes a) - 1) (codes a) ++ [44] ++ drop 1 (codes b))).
Proof.
  intros Hl Hk. unfold dumps. rewrite !dumps_list, mapM_res_app.
  destruct (mapM (dumps_with dumps_string (fun x => Ok (dumps_float x))) l) as [ls|e] eqn:El; [|done]. cbn [mbind res_bind].
  destruct (mapM (dumps_with dumps_string (fun x => Ok (dumps_float x))) k) as [ks|e] eqn:Ek; [|done]. cbn [mbind res_bind].
  rewrite !codes_app, join_codes by by eapply mapM_nonempty. f_equal.
  set (u := codes (join "," ls)). set (w := codes (join "," ks)). change (codes "[") with [91]. change (codes "]") with [93]. change (codes ",") with [44].
  cbn [app drop length]. rewrite length_app. cbn [length]. replace (S (length u + 1) - 1)%nat with (length (91 :: u)) by (cbn; lia).
  change (91 :: u ++ [93]) with ((91 :: u) ++ [93]). rewrite take_app_length. cbn. by rewrite <- !app_assoc.
Qed.

(** the seed of an attempt, computed from the text of the graph that the loop
    keeps without its last byte, is the one computed from the whole text, errors
    included. *)
Theorem seed_from_prefix_correct sha256 graph policy_seed step attempt selector :
  (prefix ← seed_prefix graph policy_seed step; _seed_from_prefix sha256 prefix attempt selector) =
  _seed sha256 graph policy_seed step attempt selector.
Proof.
  pose proof (dumps_append [JInt (gn graph); edges_json (edges graph); JInt policy_seed; JInt step] [JInt attempt; JStr selector]
    ltac:(done) ltac:(done)) as E.
  cbn [app] in E. unfold seed_prefix, _seed_from_prefix, _seed.
  destruct (dumps (JList [JInt (gn graph); edges_json (edges graph); JInt policy_seed; JInt step])) as [a|e];
    destruct (dumps (JList [JInt (gn graph); edges_json (edges graph); JInt policy_seed; JInt step; JInt attempt; JStr selector])) as [b|e'];
    cbn [mbind res_bind] in E |- *; try done; destruct (dumps (JList [JInt attempt; JStr selector])) as [c|e'']; cbn [mbind res_bind] in E |- *; try done.
  1: injection E as E; by rewrite E.
  all: by injection E as ->.
Qed.

(** ** The theorems *)


(** the counters of a generated pool add up: every attempted matching was
    retained, dropped as a duplicate or rejected for one reason (the rejections
    of whole attempts aside); the selector and size counters add up to the number
    of proposals, and the counter of a size is the number of proposals of that
    size; the host never rejects a proposal that passed the generator's checks. *)
Theorem pool_accounting `{RngLaws R} (Random : Z -> R) sha256 set_iter pool_limits feature_limits st graph policy_seed step pool st' :
  digest_ok sha256 -> (forall X, set_iter X ≡ₚ elements X) ->
  check_pool_limits pool_limits = Ok pool_limits -> check_feature_limits feature_limits = Ok feature_limits ->
  wf graph -> gn graph < 2 ^ 64 -> generator_ok feature_limits st -> small policy_seed -> small step ->
  generate Random sha256 set_iter pool_limits feature_limits st graph policy_seed step = Ok (pool, st') ->
  retained pool = Z.of_nat (length (candidates pool)) /\
  attempted pool = retained pool + deduplicated pool + (total (rejected pool) - tally (rejected pool) "disjoint_selection") /\
  total (selector_counts pool) = retained pool /\ total (k_counts pool) = retained pool /\
  (forall k, tally (k_counts pool) (pretty k) = count (fun c => size_of c = k) (candidates pool)) /\
  tally (rejected pool) "host_validation" = 0.
Proof.
  intros Hsha Hit Hpl Hfl Hg Hn Hst Hps Hstep Hgen. apply check_feature_limits_default in Hfl as ->.
  destruct (generate_run Random sha256 set_iter Hsha Hit pool_limits Hpl st graph policy_seed step) as (pool' & base & t & Hgen' & _ & _ & []); [done..|].
  rewrite Hgen in Hgen'. injection Hgen' as <- _. naive_solver.
Qed.

Module PoolWitness.
(** A digest of 32 bytes *)
Definition toy_sha256 (l : list Z) : list Z := (fun i => (i + foldl (fun h b => (31 * h + b) mod 65536) 7 l) mod 256) <$> range 0 32.

Lemma toy_digest_ok : digest_ok toy_sha256.
Proof.
  intros x. split; [done|]. apply Forall_fmap, Forall_forall. intros i _. unfold compose. by apply Z.mod_pos_bound.
Qed.


Lemma pool_accounting_witness : exists pool st',
  generate mkLcg toy_sha256 elements default_pool_limits default_limits new_generator RisksWitness.hexagon 7 3 = Ok (pool, st') /\
  retained pool = Z.of_nat (length (candidates pool)) /\
  attempted pool = retained pool + deduplicated pool + (total (rejected pool) - tally (rejected pool) "disjoint_selection") /\
  total (selector_counts pool) = retained pool /\ total (k_counts pool) = retained pool /\
  (forall k, tally (k_counts pool) (pretty k) = count (fun c => size_of c = k) (candidates pool)) /\
  tally (rejected pool) "host_validation" = 0.
Proof.
  destruct (generate_run mkLcg toy_sha256 elements toy_digest_ok (fun X => reflexivity _) default_pool_limits ltac:(vm_compute; reflexivity)
    new_generator RisksWitness.hexagon 7 3 PayloadsWitness.hexagon_wf eq_refl I eq_refl eq_refl) as (pool & base & t & Hgen & _).
  eexists pool, _. split; [exact Hgen|].
  apply (pool_accounting mkLcg toy_sha256 elements default_pool_limits default_limits new_generator RisksWitness.hexagon 7 3 pool
    (mkGenerator (Some RisksWitness.hexagon) (Some (base, caches t)))).
  - exact toy_digest_ok.
  - reflexivity.
  - vm_compute. reflexivity.
  - vm_compute. reflexivity.
  - exact PayloadsWitness.hexagon_wf.
  - reflexivity.
  - exact I.
  - reflexivity.
  - reflexivity.
  - exact Hgen.
Defined.
End PoolWitness.
