(* ===== verification/PoolChecks.v ===== *)
(** * The bridge accepts what its generator makes

    [validate_proposal] and [validate_pool] are the checks of a client that does
    not trust the pool; [generate_pool] runs them on every pool it generates.
    They pass, unless the pool is empty or two proposal digests collide. *)

From stdpp Require Import gmap sorting.
From S2P Require Import Prelude Floats FloatBounds Json Convert Bits Model Cycles Rewiring Rng Order Matchings Features Distances Sampling Risks Pool Ranking Switches Choice Payloads PoolProofs.

#[global] Open Scope Z_scope.

(** ** The parts of a record *)

Section Fields.
Context (base : Features) (v : Values) (removed : list Edge) (pid : string) (k : Z) (selector : string) (anchor : option Z).
Abbreviation p := (fields_of base v removed pid k selector anchor).

Lemma fields_exact : require_exact (JObj p) PROPOSAL_KEYS "proposal" = Ok p.
Proof. reflexivity. Qed.

Lemma fields_id : get p "proposal_id" = JStr pid /\ proposal_id (mkCandidate (mkRewrite [] [] "" []) p) = Ok pid.
Proof. by split. Qed.

Lemma fields_tags : get p "k" = JInt k /\ get p "operator_family" = JStr (family_name k) /\
  get p "selector_tags" = JList [JStr selector] /\ get p "anchor_forbidden_length" = opt_int anchor.
Proof. by repeat split. Qed.
End Fields.

Lemma proposal_id_fields c base v removed pid k selector anchor :
  proposal c = fields_of base v removed pid k selector anchor -> proposal_id c = Ok pid /\ subscript (proposal c) "proposal_id" = Ok (JStr pid).
Proof. intros E. unfold proposal_id. rewrite E. by split. Qed.

(** ** Hexadecimal digests *)

Lemma concat_cons s l : String.concat "" (s :: l) = (s ++ String.concat "" l)%string.
Proof.
  destruct l as [|t l]; [|done]. change (s = s ++ "")%string. induction s as [|a s IH]; [done|].
  change (String a s = String a (s ++ "")). by rewrite <- IH.
Qed.

Lemma hex_digit_ok d : 0 <= d < 16 -> is_hex (hex_digit d) = true.
Proof.
  intros Hd. assert (d ∈ range 0 16) as Hin by by apply elem_of_range.
  assert (forallb (fun d => is_hex (hex_digit d)) (range 0 16) = true) as Hall by by vm_compute.
  rewrite forallb_forall in Hall. by apply Hall, list_elem_of_In.
Qed.

Lemma hexdigest_ok l : Forall (fun b => 0 <= b < 256) l -> len (hexdigest l) = 2 * Z.of_nat (length l) /\ all_chars is_hex (hexdigest l) = true.
Proof.
  unfold hexdigest. induction 1 as [|b l Hb _ [IH1 IH2]]; [done|]. cbn [fmap list_fmap]. rewrite concat_cons.
  set (R := String.concat "" (hex2 <$> l)) in *. change (hex2 b ++ R)%string with (String (hex_digit (b / 16)) (String (hex_digit (b mod 16)) R)).
  assert (0 <= b / 16 < 16) by (split; [apply Z.div_pos; lia|apply Z.div_lt_upper_bound; lia]). pose proof (Z.mod_pos_bound b 16 ltac:(lia)).
  split.
  - unfold len in *. cbn [String.length length]. lia.
  - unfold all_chars in *. cbn [Stdlib.Strings.String.list_ascii_of_string forallb]. by rewrite !hex_digit_ok, IH2.
Qed.

(** ** Numbers *)

Lemma eq_int_refl k : eq_int (JInt k) k = true.
Proof. apply Z.eqb_refl. Qed.

Lemma finite_number_nonneg parse x : finite_nonneg x -> finite_number parse (JFloat x) = Ok true /\ f_lt x (f_lit 0) = false.
Proof. destruct x as [[]| | |[] m e]; try done. Qed.

Lemma naturals_ok l : within BIG l -> existsb (fun x => negb (natural x)) (JInt <$> l) = false.
Proof.
  intros Hw. apply not_true_iff_false. rewrite existsb_exists. intros (v & Hv & Hneg). apply list_elem_of_In, list_elem_of_fmap in Hv as (z & -> & Hz).
  specialize (Hw z Hz). cbn in Hneg. apply negb_true_iff, Z.leb_gt in Hneg. lia.
Qed.

(** ** [validate_proposal] *)

Lemma raise_pass {A} c e (m : res A) : c = false -> (raise_if c e ;;; m) = m.
Proof. by intros ->. Qed.

Lemma seq_pass {A} (m : res unit) (k : res A) : m = Ok tt -> (m ;;; k) = k.
Proof. by intros ->. Qed.

Section Validate.
Context (parse_float : string -> res float) (sha256 : list Z -> list Z) (Hsha : digest_ok sha256).
Context (pl : PoolLimits) (Hpl : check_pool_limits pl = Ok pl) (base : Features) (exact : Prop) (t : Snap).
Context (Hg : wf (f_graph base)) (Hn : gn (f_graph base) < 2 ^ 64) (Hf : features_of (f_graph base) default_limits base).

Lemma lists_pass l : length l = length (witnesses base) -> within BIG l ->
  negb (length (JInt <$> l) =? length FROZEN_FORBIDDEN_LENGTHS)%nat || existsb (fun x => negb (natural x)) (JInt <$> l) = false.
Proof.
  intros Hl Hw. rewrite length_fmap, Hl, naturals_ok by done.
  assert (length (witnesses base) = 6%nat) as -> by by rewrite <- (length_fmap fst), (fo_lengths _ _ _ Hf). done.
Qed.

Lemma validate_fields h removed added v digest k selector anchor :
  wf h -> gn h = gn (f_graph base) -> (length removed <= 8)%nat -> values_ok base exact h removed added t v ->
  k ∈ SUPPORTED_K_VALUES -> selector ∈ SUPPORTED_SELECTORS -> (forall a, anchor = Some a -> a ∈ FROZEN_FORBIDDEN_LENGTHS) ->
  let p := fields_of base v removed (hexdigest (sha256 digest)) k selector anchor in
  validate_proposal parse_float (JObj p) FROZEN_FORBIDDEN_LENGTHS = Ok p.
Proof.
  intros Hh Hnh Hr Hv Hk Hsel Hanc p.
  destruct (numbers_within default_limits base exact h removed added t v Hf) as (W1 & W2 & W3 & W4 & W5 & W6 & W7); [done..|].
  destruct (Hsha digest) as [Hlen Hbytes]. destruct (hexdigest_ok _ Hbytes) as [Hhex Hall]. rewrite Hlen in Hhex.
  assert (existsb (eq_int (JInt k)) SUPPORTED_K_VALUES = true /\ int_text k = Ok (pretty k)) as [Hk1 Hk2].
  { unfold SUPPORTED_K_VALUES in Hk. repeat (apply elem_of_cons in Hk as [->|Hk]; [done|]). by apply elem_of_nil in Hk. }
  assert (match opt_int anchor with JNull => false | a => negb (existsb (eq_int a) FROZEN_FORBIDDEN_LENGTHS) end = false) as Hanc'.
  { destruct anchor as [a|]; [|done]. cbn [opt_int]. apply negb_false_iff, existsb_exists. exists a. split; [by apply list_elem_of_In, Hanc|apply eq_int_refl]. }
  unfold validate_proposal. assert (require_exact (JObj p) PROPOSAL_KEYS "proposal" = Ok p) as -> by apply fields_exact. cbn [mbind res_bind].
  change (get p "k") with (JInt k). change (get p "proposal_id") with (JStr (hexdigest (sha256 digest))).
  change (get p "operator_family") with (JStr (family_name k)). change (get p "selector_tags") with (JList [JStr selector]).
  change (get p "anchor_forbidden_length") with (opt_int anchor).
  rewrite raise_pass by done. rewrite raise_pass by by rewrite Hhex, Hall. rewrite raise_pass by by rewrite Hk1.
  cbn [py_str py_repr]. rewrite Hk2. cbn [mbind res_bind]. rewrite raise_pass by by apply negb_false_iff, bool_decide_eq_true.
  rewrite raise_pass; [|cbn [in_tuple existsb]; by rewrite bool_decide_eq_false_2, bool_decide_eq_true_2 by (done || (cbn; intros [?|?]; [done|lia]))].
  rewrite raise_pass by exact Hanc'.
  destruct (vo_mean_removed _ _ _ _ _ _ _ Hv) as [_ Fr]. destruct (vo_mean_added _ _ _ _ _ _ _ Hv) as [_ Fa].
  rewrite seq_pass.
  2: { apply for_each_Ok. intros name Hname.
    repeat (apply elem_of_cons in Hname as [->|Hname]; [|]); [..|by apply elem_of_nil in Hname].
    all: apply raise_if_Ok, lists_pass; [apply length_fmap|done]. }
  rewrite seq_pass.
  2: { apply for_each_Ok. intros name Hname.
    repeat (apply elem_of_cons in Hname as [->|Hname]; [|]); [..|by apply elem_of_nil in Hname].
    all: apply raise_if_Ok, negb_false_iff, Z.leb_le; first [apply W4|apply W5|apply W6|apply W7]. }
  rewrite seq_pass; [done|].
  apply for_each_Ok. intros name Hname.
  assert (exists x, get p name = JFloat x /\ finite_nonneg x) as (x & -> & Hx).
  { repeat (apply elem_of_cons in Hname as [->|Hname]; [eexists; split; [reflexivity|done]|]). by apply elem_of_nil in Hname. }
  destruct (finite_number_nonneg parse_float x Hx) as [-> H2]. cbn [mbind res_bind to_float]. by rewrite H2.
Qed.

Lemma check_candidate_ok c : candidate_ok sha256 pl base exact t c -> check_candidate parse_float (Some (f_graph base)) c = Ok tt.
Proof.
  intros [h v digest k selector anchor Hsw Hw _ Hk Hkin Hsel Hanc Hfam Hp Hv].
  destruct (switch_correct _ Hg _ _ Hsw) as (h' & Hw' & Hh & Hnh & _). rewrite Hw in Hw'. injection Hw' as <-.
  pose proof (added_length _ _ _ Hsw) as Hal. pose proof (k_small pl k Hpl Hkin) as Hk4. unfold size_of in Hk.
  destruct (pool_limits_facts pl Hpl) as (_ & Hsup & _).
  unfold check_candidate. rewrite (proj1 (proposal_id_fields _ _ _ _ _ _ _ _ Hp)), Hp.
  rewrite (validate_fields h) with (added := added_edges (rewrite c)); try done; try lia; [| |by apply Hsup].
  - cbn [mbind res_bind]. set (p := fields_of _ _ _ _ _ _ _).
    change (subscript p "proposal_id") with (Ok (JStr (hexdigest (sha256 digest)))). cbn [mbind res_bind].
    rewrite raise_pass by by apply negb_false_iff, bool_decide_eq_true.
    change (get p "k") with (JInt k). rewrite Hal, Hk, eq_int_refl. rewrite raise_pass by done.
    change (get p "operator_family") with (JStr (family_name k)). rewrite Hfam.
    rewrite raise_pass by by apply negb_false_iff, bool_decide_eq_true. by rewrite Hw.
  - unfold SUPPORTED_K_VALUES. rewrite !elem_of_cons. lia.
Qed.
End Validate.

(** ** [generate_pool] *)

(** What the checks of the bridge say of a pool whose proposals are all right *)
Definition verdict (cs : list ProposalCandidate) (ids : list string) : res unit :=
  if decide (cs = []) then Raise (BridgeError "proposal pool is outside the bounded contract")
  else if decide (NoDup ids) then Ok tt
  else Raise (BridgeError "proposal pool identity is invalid").

Lemma check_pool_verdict parse_float sha256 pl base exact t pool :
  digest_ok sha256 -> check_pool_limits pl = Ok pl -> wf (f_graph base) -> gn (f_graph base) < 2 ^ 64 ->
  features_of (f_graph base) default_limits base -> pool_ok sha256 pl base exact t pool ->
  exists ids, mapM proposal_id (candidates pool) = Ok ids /\
    check_pool parse_float sha256 (Some (f_graph base)) pool = verdict (candidates pool) ids.
Proof.
  intros Hsha Hpl Hg Hn Hf Hp.
  destruct (mapM_res_total proposal_id (fun _ _ => True) (candidates pool)) as (ids & Hids & _).
  { intros c Hc. destruct (po_candidates _ _ _ _ _ _ Hp c Hc) as [h v digest k sel anc _ _ _ _ _ _ _ _ E _].
    eexists. split; [by apply (proposal_id_fields _ _ _ _ _ _ _ _ E)|done]. }
  exists ids. split; [done|]. unfold check_pool, verdict. rewrite (po_schema _ _ _ _ _ _ Hp), Hids, (po_hash _ _ _ _ _ _ Hp).
  destruct (decide (candidates pool = [])) as [->|Hne]; [done|].
  assert ((length (candidates pool) <= 64)%nat /\ length (candidates pool) <> 0%nat) as [H64 H0].
  { split; [|by destruct (candidates pool)]. destruct (po_retained _ _ _ _ _ _ Hp) as [Hr1 Hr2].
    pose proof Hpl as H. unfold check_pool_limits in H. apply raise_seq_Ok in H as [H%negb_false_iff%andb_true_iff _]. lia. }
  rewrite raise_pass.
  2: { rewrite bool_decide_eq_true_2, bool_decide_eq_false_2 by done. cbn [negb orb]. apply Nat.ltb_ge. lia. }
  cbn [mbind res_bind]. destruct (decide (NoDup ids)) as [Hnd|Hnd].
  - rewrite raise_pass by (apply negb_false_iff, Nat.eqb_eq; by rewrite remove_dups_id).
    cbn [mbind res_bind]. rewrite raise_pass by by rewrite bool_decide_eq_true_2.
    apply for_each_Ok. intros c Hc. eapply check_candidate_ok; try done. by apply (po_candidates _ _ _ _ _ _ Hp).
  - destruct (Nat.eqb_spec (length ids) (length (remove_dups ids))) as [E|E]; [|done]. exfalso. apply Hnd, full_NoDup. done.
Qed.

Lemma generate_pool_run `{RngLaws R} parse_float (Random : Z -> R) sha256 set_iter pool_limits b graph policy_seed step :
  digest_ok sha256 -> (forall X, set_iter X ≡ₚ elements X) -> check_pool_limits pool_limits = Ok pool_limits ->
  wf graph -> gn graph < 2 ^ 64 -> generator_ok default_limits (generator b) -> small policy_seed -> small step -> closed b = false ->
  exists pool base t ids, generate Random sha256 set_iter pool_limits default_limits (generator b) graph policy_seed step =
      Ok (pool, mkGenerator (Some graph) (Some (base, caches t))) /\
    features_of graph default_limits base /\ coherent base (caches t) /\
    pool_ok sha256 pool_limits base (generator_exact (generator b)) t pool /\ mapM proposal_id (candidates pool) = Ok ids /\
    generate_pool parse_float Random sha256 set_iter pool_limits default_limits graph policy_seed step b =
      (_ ← verdict (candidates pool) ids; Ok pool, mkBridge (worker b) (telemetry b) (mkGenerator (Some graph) (Some (base, caches t))) false).
Proof.
  intros Hsha Hit Hpl Hg Hn Hst Hps Hstep Hopen.
  destruct (generate_run Random sha256 set_iter Hsha Hit pool_limits Hpl (generator b) graph policy_seed step)
    as (pool & base & t & Hgen & Hf & Ht & Hp); [done..|]. pose proof (fo_graph _ _ _ Hf) as Eg. subst graph.
  destruct (check_pool_verdict parse_float sha256 pool_limits base _ t pool Hsha Hpl Hg Hn Hf Hp) as (ids & Hids & Hchk).
  exists pool, base, t, ids. split_all; [exact Hgen|done|apply Ht|done|done|].
  cbv beta iota zeta delta [generate_pool validate_pool _ensure_open this from_res set_generator mbind B_bind mret B_ret closed generator].
  destruct b as [w tel gen c]. cbn [closed generator] in *. subst c. cbn [raise_if]. rewrite Hgen. cbn [fst snd worker telemetry]. rewrite Hchk.
  by destruct (verdict _ _).
Qed.

(** an open bridge accepts every pool its generator makes, unless the pool is
    empty or two proposal digests collide, which are the two errors; the generator
    keeps the features of the graph in each case, and the next call on the graph
    finds them. *)
Theorem generate_pool_correct `{RngLaws R} parse_float (Random : Z -> R) sha256 set_iter pool_limits feature_limits b graph policy_seed step :
  digest_ok sha256 -> (forall X, set_iter X ≡ₚ elements X) ->
  check_pool_limits pool_limits = Ok pool_limits -> check_feature_limits feature_limits = Ok feature_limits ->
  wf graph -> gn graph < 2 ^ 64 -> generator_ok feature_limits (generator b) -> small policy_seed -> small step -> closed b = false ->
  exists pool st' ids, generate Random sha256 set_iter pool_limits feature_limits (generator b) graph policy_seed step = Ok (pool, st') /\
    cached_graph st' = Some graph /\ generator_ok feature_limits st' /\ mapM proposal_id (candidates pool) = Ok ids /\
    generate_pool parse_float Random sha256 set_iter pool_limits feature_limits graph policy_seed step b =
      (_ ← verdict (candidates pool) ids; Ok pool, mkBridge (worker b) (telemetry b) st' false).
Proof.
  intros Hsha Hit Hpl Hfl Hg Hn Hst Hps Hstep Hopen. apply check_feature_limits_default in Hfl as ->.
  destruct (generate_pool_run parse_float Random sha256 set_iter pool_limits b graph policy_seed step) as (pool & base & t & ids & Hgen & Hf & Hc & _ & Hids & Hrun);
    [done..|].
  pose proof (fo_graph _ _ _ Hf) as Eg. subst graph.
  eexists pool, _, ids. split_all; [exact Hgen|done|unfold generator_ok; cbn; by split|done|exact Hrun].
Qed.

Module PoolChecksWitness.
Definition bridge : Bridge := mkBridge (mkWorker 0 0 false true 0) (mkTelemetry 0 0 0 [] []) new_generator false.

Lemma generate_pool_correct_witness : exists pool st' ids,
  generate mkLcg PoolWitness.toy_sha256 elements default_pool_limits default_limits new_generator RisksWitness.hexagon 7 3 = Ok (pool, st') /\
  cached_graph st' = Some RisksWitness.hexagon /\ generator_ok default_limits st' /\ mapM proposal_id (candidates pool) = Ok ids /\
  generate_pool (fun _ => Ok (f_lit 0)) mkLcg PoolWitness.toy_sha256 elements default_pool_limits default_limits RisksWitness.hexagon 7 3 bridge =
    (_ ← verdict (candidates pool) ids; Ok pool, mkBridge (worker bridge) (telemetry bridge) st' false).
Proof.
  apply (generate_pool_correct (fun _ => Ok (f_lit 0)) mkLcg PoolWitness.toy_sha256 elements default_pool_limits default_limits bridge RisksWitness.hexagon 7 3).
  - exact PoolWitness.toy_digest_ok.
  - reflexivity.
  - vm_compute. reflexivity.
  - vm_compute. reflexivity.
  - exact PayloadsWitness.hexagon_wf.
  - reflexivity.
  - exact I.
  - reflexivity.
  - reflexivity.
  - reflexivity.
Defined.
End PoolChecksWitness.
