(* ===== verification/RankingProofs.v ===== *)
(** * A ranking is what the policy said

    Reading the answer of the worker, its one way to fail, and the order that
    [select] makes of the priorities. *)

From stdpp Require Import gmap sorting.
From S2P Require Import Prelude Floats FloatBounds Json Convert Bits Model Rng Order Matchings Features Distances Sampling Risks Pool Ranking Rewiring Switches Choice Payloads PoolProofs PoolChecks.

#[global] Open Scope Z_scope.

(** ** Priorities *)

(** What [call_many] accepts as a priority *)
Definition priority (v : json) : Prop := match v with JInt _ => True | JFloat x => is_finite x = true | _ => False end.

(** A row of the answer: an object that gives a priority to an ID *)
Definition row_of (row : json) (pid : string) (v : json) : Prop :=
  exists d, row = JObj d /\ get d "proposal_id" = JStr pid /\ get d "priority" = v /\ priority v.

Lemma dict_set_new {V} (d : list (string * V)) k v : k ∉ d.*1 -> dict_set d k v = d ++ [(k, v)].
Proof.
  induction d as [|[k' v'] d IH]; intros Hk; [done|]. cbn in *. rewrite decide_False by set_solver. rewrite IH by set_solver. done.
Qed.

Lemma read_row_Ok by_id row by_id' : read_row by_id row = Ok by_id' <->
  exists pid v, row_of row pid v /\ pid ∉ keys by_id /\ by_id' = by_id ++ [(pid, v)].
Proof.
  unfold read_row, row_of. split.
  - destruct row as [| | | | | |d]; try done. destruct (get d "proposal_id") as [| | | |pid| |] eqn:Eid; try done.
    rewrite raise_seq_Ok, bool_decide_eq_false. intros [Hn Hp]. destruct (get d "priority") as [| |z|x| | |] eqn:Ep; try done.
    + injection Hp as <-. exists pid, (JInt z). split_all; [exists d; by split_all|done|by apply dict_set_new].
    + apply raise_seq_Ok in Hp as [Hf%negb_false_iff [= <-]]. exists pid, (JFloat x). split_all; [exists d; by split_all|done|by apply dict_set_new].
  - intros (pid & v & (d & -> & Eid & Ep & Hv) & Hn & ->). rewrite Eid, raise_seq_Ok, bool_decide_eq_false. split; [done|]. rewrite Ep.
    destruct v as [| |z|x| | |]; try done.
    + by rewrite dict_set_new.
    + rewrite raise_seq_Ok, negb_false_iff. by rewrite dict_set_new.
Qed.

(** The rows that were read, with the IDs kept apart *)
Lemma read_rows_Ok rows by_id0 by_id : foldM read_row by_id0 rows = Ok by_id <->
  exists new, by_id = by_id0 ++ new /\ Forall2 (fun row kv => row_of row kv.1 kv.2) rows new /\ NoDup new.*1 /\
    forall k, k ∈ new.*1 -> k ∉ keys by_id0.
Proof.
  revert by_id0. induction rows as [|row rows IH]; intros by_id0; cbn [foldM].
  - split; [intros [= <-]; exists []|intros (new & -> & HF & _)].
    + rewrite app_nil_r. split_all; [done|constructor|constructor|by intros k ?%elem_of_nil].
    + apply Forall2_nil_inv_l in HF as ->. by rewrite app_nil_r.
  - split.
    + intros (b & (pid & v & Hr & Hn & ->)%read_row_Ok & Hb)%bind_Ok. apply IH in Hb as (new & -> & HF & Hnd & Hdis).
      exists ((pid, v) :: new). unfold keys in *. rewrite <- app_assoc. split_all; [done|by constructor| |].
      * cbn. constructor; [|done]. intros Hin. apply (Hdis pid Hin). rewrite fmap_app. set_solver.
      * intros k [->|Hk]%elem_of_cons; [done|]. specialize (Hdis k Hk). rewrite fmap_app in Hdis. set_solver.
    + intros (new & -> & HF & Hnd & Hdis). apply Forall2_cons_inv_l in HF as ([pid v] & new' & Hr & HF & ->). cbn in *.
      apply NoDup_cons in Hnd as [Hpid Hnd]. apply bind_Ok. exists (by_id0 ++ [(pid, v)]). split.
      * apply read_row_Ok. exists pid, v. split_all; [done|apply Hdis; by left|done].
      * apply IH. exists new'. rewrite <- app_assoc. split_all; [done..|]. intros k Hk. unfold keys. rewrite fmap_app, elem_of_app. cbn.
        intros [Hk'|Hk'%list_elem_of_singleton]; [apply (Hdis k); [by right|done]|by subst].
Qed.

Lemma mapM_Ok_iff {A B} (f : A -> res B) l ys : mapM f l = Ok ys <-> Forall2 (fun x y => f x = Ok y) l ys.
Proof.
  revert ys. induction l as [|x l IH]; intros ys.
  - split; [intros [= <-]; constructor|by intros ->%Forall2_nil_inv_l].
  - rewrite mapM_res_cons. split.
    + intros (y & Hy & (zs & Hzs & [= <-])%bind_Ok)%bind_Ok. constructor; [done|by apply IH].
    + intros (y & zs & Hy & HF & ->)%Forall2_cons_inv_l. rewrite Hy. cbn [mbind res_bind]. apply IH in HF as ->. done.
Qed.

Definition own_id (p : list (string * json)) : res string := v ← subscript p "proposal_id"; py_str v.

(** What an answer must be, and what is read from it *)
Definition answers (proposals : list (list (string * json))) (response : list (string * json)) (values : list json) : Prop :=
  is_text (get response "type") "batch_result" = true /\ is_text (get response "status") "ok" = true /\
  exists rows table, get response "results" = JList rows /\ length rows = length proposals /\
    Forall2 (fun row kv => row_of row kv.1 kv.2) rows table /\ NoDup table.*1 /\
    Forall2 (fun p v => exists pid, own_id p = Ok pid /\ (pid, v) ∈ table) proposals values.

Lemma read_response_iff proposals response values : read_response proposals response = Ok values <-> answers proposals response values.
Proof.
  unfold read_response, answers. rewrite raise_seq_Ok, negb_false_iff, andb_true_iff.
  assert (forall table, NoDup table.*1 -> mapM (fun p => pid ← own_id p; subscript table pid) proposals = Ok values <->
    Forall2 (fun p v => exists pid, own_id p = Ok pid /\ (pid, v) ∈ table) proposals values) as Htab.
  { intros table Hnd. rewrite mapM_Ok_iff.
    assert (forall p v, (pid ← own_id p; subscript table pid) = Ok v <-> exists pid, own_id p = Ok pid /\ (pid, v) ∈ table) as Hone.
    { intros p v. rewrite bind_Ok. unfold subscript. split; intros (pid & Hp & H); exists pid; (split; [done|]).
      - destruct (dict_get table pid) eqn:E; [|done]. injection H as <-. by apply dict_get_elem_of.
      - by rewrite (dict_get_NoDup table pid v Hnd H). }
    split; intros HF; (eapply Forall2_impl; [exact HF|]); intros p v; apply Hone. }
  split.
  - intros [[Ht Hs] H]. destruct (get response "results") as [| | | | |rows|] eqn:Er; try done.
    apply raise_seq_Ok in H as [Hl%negb_false_iff%Nat.eqb_eq (by_id & (table & -> & HF & Hnd & _)%read_rows_Ok & H)%bind_Ok].
    split_all; [done..|]. exists rows, table. split_all; [done..|]. by apply Htab.
  - intros (Ht & Hs & rows & table & Er & Hl & HF & Hnd & H). split; [done|]. rewrite Er, raise_seq_Ok, negb_false_iff, Nat.eqb_eq.
    split; [done|]. apply bind_Ok. exists table. split; [|by apply Htab]. apply read_rows_Ok. exists table. split_all; [done..|].
    by intros k _ ?%elem_of_nil.
Qed.


(** the answer of the worker is accepted exactly when it says so, has as many
    rows as there are proposals, all well formed, with distinct IDs, and has a row
    for each proposal; then each proposal has the priority of the row with its ID,
    in whatever order the rows come. *)
Theorem read_response_correct proposals response values :
  read_response proposals response = Ok values <->
  is_text (get response "type") "batch_result" = true /\ is_text (get response "status") "ok" = true /\
  exists rows table, get response "results" = JList rows /\ length rows = length proposals /\
    Forall2 (fun row kv => row_of row kv.1 kv.2) rows table /\ NoDup table.*1 /\
    Forall2 (fun p v => exists pid, own_id p = Ok pid /\ (pid, v) ∈ table) proposals values.
Proof. apply read_response_iff. Qed.

Lemma answers_priority proposals response values : answers proposals response values ->
  length values = length proposals /\ Forall priority values.
Proof.
  intros (_ & _ & rows & table & _ & _ & HF & _ & HV). split; [symmetry; by eapply Forall2_length|].
  apply Forall_forall. intros v Hv. apply list_elem_of_lookup in Hv as [i Hi].
  destruct (Forall2_lookup_r _ _ _ _ _ HV Hi) as (p & _ & pid & _ & Hin). apply list_elem_of_lookup in Hin as [j Hj].
  destruct (Forall2_lookup_r _ _ _ _ _ HF Hj) as (row & _ & d & _ & _ & _ & Hp). done.
Qed.

(** ** [call_many] *)

Definition with_worker (b : Bridge) (w : PolicyWorker) : Bridge := mkBridge w (telemetry b) (generator b) (closed b).

Lemma with_worker_id b : with_worker b (worker b) = b.
Proof. by destruct b. Qed.

Definition reuse : exn := BridgeError "failed policy worker cannot be reused".
Definition failed (w : PolicyWorker) (failures restarts : Z) : PolicyWorker := mkWorker (w_calls w) failures true false restarts.
Definition renewed (w : PolicyWorker) : PolicyWorker := mkWorker (w_calls w) (w_failures w) false true (w_restarts w + 1).

Lemma check_worker_run dead b : check_worker dead b = (if unusable (worker b) dead then Raise reuse else Ok tt, b).
Proof. unfold check_worker, this, from_res, mbind, B_bind. by destruct (unusable _ _). Qed.

Lemma renew_run o b : _renew_before_wall_limit o b =
  if unusable (worker b) (dead_before o) || negb (lifetime_over o) then (Ok tt, b)
  else match restarted o with
    | Ok _ => (Ok tt, with_worker b (renewed (worker b)))
    | Raise e => (Raise e, with_worker b (failed (worker b) (w_failures (worker b)) (w_restarts (worker b) + 1)))
    end.
Proof.
  unfold _renew_before_wall_limit, this, mbind, B_bind. destruct (unusable (worker b) (dead_before o)); [done|].
  destruct (lifetime_over o); [|done]. cbn. unfold mbind, B_bind, on_error, from_res. destruct (restarted o); [done|].
  unfold fail_worker, this, set_worker, mbind, B_bind. cbn. by rewrite Z.add_0_r.
Qed.

(** The request and the reading of its answer *)
Definition ask (o : Outside) (ctx : json) (props : list (list (string * json))) : res (list json) :=
  frame ← canonical_json_bytes (JObj [("type", JStr "batch"); ("ctx", ctx); ("proposals", JList (JObj <$> props))]%string);
  raise_if (REQUEST_BYTES <? Z.of_nat (length frame)) (BridgeError "protocol frame exceeds 65536 bytes") ;;;
  response ← reply o frame; read_response props response.

Definition prepare (parse_float : string -> res float) (context : json) (proposals : list (list (string * json))) (prevalidated : bool) :
    res (json * list (list (string * json))) :=
  if prevalidated then Ok (context, proposals)
  else ctx ← validate_context parse_float context;
       lengths ← match get ctx "forbidden_lengths" with
         | JList l => mapM (fun v => match v with JInt z => Ok z | _ => to_int v end) l | _ => Raise TypeError end;
       props ← mapM (fun p => validate_proposal parse_float (JObj p) lengths) proposals; Ok (JObj ctx, props).

Lemma call_many_run parse_float o context proposals prevalidated b :
  call_many parse_float o context proposals prevalidated b =
  if unusable (worker b) (dead_before o) then (Raise reuse, b)
  else if bool_decide (proposals = [] \/ (64 < length proposals)%nat) then (Raise (BridgeError "policy batch is outside the bounded contract"), b)
  else match _renew_before_wall_limit o b with
    | (Raise e, b1) => (Raise e, b1)
    | (Ok _, b1) =>
        if unusable (worker b1) (dead_after o) then (Raise reuse, b1)
        else match prepare parse_float context proposals prevalidated with
          | Raise e => (Raise e, b1)
          | Ok (ctx, props) =>
              match ask o ctx props with
              | Raise e => (Raise e, with_worker b1 (failed (worker b1) (w_failures (worker b1) + 1) (w_restarts (worker b1))))
              | Ok values => (Ok values, with_worker b1 (mkWorker (w_calls (worker b1) + Z.of_nat (length values)) (w_failures (worker b1))
                  (w_failed (worker b1)) (w_running (worker b1)) (w_restarts (worker b1))))
              end
          end
    end.
Proof.
  unfold call_many, mbind at 1, B_bind at 1. rewrite check_worker_run. destruct (unusable (worker b) (dead_before o)); [done|].
  unfold mbind at 1, B_bind at 1, from_res at 1. case_bool_decide; [done|]. cbn [raise_if].
  unfold mbind at 1, B_bind at 1. destruct (_renew_before_wall_limit o b) as [[[]|e] b1]; [|done].
  unfold mbind at 1, B_bind at 1. rewrite check_worker_run. destruct (unusable (worker b1) (dead_after o)); [done|].
  unfold mbind at 1, B_bind at 1, from_res at 1. fold (prepare parse_float context proposals prevalidated).
  destruct (prepare _ _ _ _) as [[ctx props]|e]; [|done].
  unfold mbind at 1, B_bind at 1, on_error, from_res. fold (ask o ctx props). by destruct (ask o ctx props).
Qed.

Lemma prepare_length parse_float context proposals prevalidated ctx props :
  prepare parse_float context proposals prevalidated = Ok (ctx, props) -> length props = length proposals.
Proof.
  unfold prepare. destruct prevalidated; [by intros [= _ ->]|].
  intros (d & _ & (lengths & _ & (ps & Hps%mapM_Ok_iff & [= _ <-])%bind_Ok)%bind_Ok)%bind_Ok. symmetry. by eapply Forall2_length.
Qed.

Lemma ask_Ok o ctx props values : ask o ctx props = Ok values -> length values = length props /\ Forall priority values.
Proof.
  unfold ask. intros (frame & _ & H)%bind_Ok. apply raise_seq_Ok in H as [_ (response & _ & H)%bind_Ok].
  by apply read_response_iff, answers_priority in H.
Qed.

Lemma unusable_false w dead : unusable w dead = false -> w_failed w = false /\ w_running w = true.
Proof. unfold unusable. by destruct (w_failed w), (w_running w), dead. Qed.

(** What a batch does to the worker *)
Definition batch_result (w w' : PolicyWorker) (proposals : Z) (r : res (list json)) : Prop :=
  match r with
  | Ok values => w_failed w' = false /\ w_running w' = true /\ w_failures w' = w_failures w /\ w_calls w' = w_calls w + proposals /\
      Z.of_nat (length values) = proposals /\ Forall priority values
  | Raise _ => w_calls w' = w_calls w /\ (w_failed w' = true /\ w_running w' = false \/ w' = w \/ w' = renewed w)
  end.

Lemma call_many_result parse_float o context proposals prevalidated b :
  let rb := call_many parse_float o context proposals prevalidated b in
  rb.2 = with_worker b (worker rb.2) /\ batch_result (worker b) (worker rb.2) (Z.of_nat (length proposals)) rb.1.
Proof.
  cbn zeta. rewrite call_many_run. destruct (unusable (worker b) (dead_before o)) eqn:E0.
  { cbn. rewrite with_worker_id. auto. }
  case_bool_decide; [cbn; rewrite with_worker_id; auto|].
  assert (exists r b1, _renew_before_wall_limit o b = (r, b1) /\ b1 = with_worker b (worker b1) /\ w_calls (worker b1) = w_calls (worker b) /\
    match r with Ok _ => w_failures (worker b1) = w_failures (worker b) /\ (worker b1 = worker b \/ worker b1 = renewed (worker b))
    | Raise _ => w_failed (worker b1) = true /\ w_running (worker b1) = false end) as (r & b1 & -> & Hb1 & Hcalls & Hr).
  { rewrite renew_run, E0. cbn [orb]. destruct (lifetime_over o); cbn [negb].
    - destruct (restarted o); (eexists _, _; split; [done|]); cbn; auto.
    - eexists _, _. split; [done|]. cbn. rewrite with_worker_id. auto. }
  destruct r as [u|e]; [|cbn; auto]. destruct Hr as [Hf Hw].
  destruct (unusable (worker b1) (dead_after o)) eqn:E1; [cbn; auto|]. destruct (unusable_false _ _ E1) as [U1 U2].
  destruct (prepare _ _ _ _) as [[ctx props]|e] eqn:Ep; [|cbn; auto]. apply prepare_length in Ep.
  rewrite Hb1. destruct (ask o ctx props) as [values|e] eqn:Ea; cbn; (split; [done|]).
  - apply ask_Ok in Ea as [Hl Hp]. rewrite Hl, Ep. split_all; [done..|lia|done|done].
  - auto.
Qed.


(** ** Floats as sort keys *)

(** Away from NaN the key orders floats as IEEE 754 does. *)
Lemma float_key_order x y : x <> S754_nan -> y <> S754_nan -> SFcompare x y = Some (cmp (float_key x) (float_key y)).
Proof.
  intros Hx Hy. destruct x as [[]|[]| |[] m e], y as [[]|[]| |[] m' e']; try done.
  - change (SFcompare (S754_finite true m e) (S754_finite true m' e')) with
      (Some match e ?= e' with Eq => CompOpp (Pos.compare m m') | Lt => Gt | Gt => Lt end).
    change (cmp (float_key (S754_finite true m e)) (float_key (S754_finite true m' e'))) with
      (match - e ?= - e' with Eq => CompOpp (Pos.compare m m') | c => c end).
    rewrite Z.compare_opp, (Z.compare_antisym e e'). by destruct (e ?= e').
Qed.

Lemma SFopp_nan x : x <> S754_nan -> SFopp x <> S754_nan.
Proof. by destruct x. Qed.

Lemma SFcompare_opp x y : SFcompare (SFopp x) (SFopp y) = SFcompare y x.
Proof.
  destruct x as [[]|[]| |[] m e], y as [[]|[]| |[] m' e']; try done; cbn [SFopp negb].
  - change (Some match e ?= e' with Eq => Pos.compare m m' | Lt => Lt | Gt => Gt end =
      Some match e' ?= e with Eq => CompOpp (Pos.compare m' m) | Lt => Gt | Gt => Lt end).
    rewrite (Z.compare_antisym e e'), (Pos.compare_antisym m m'). by destruct (e ?= e'), (Pos.compare m m').
  - change (Some match e ?= e' with Eq => CompOpp (Pos.compare m m') | Lt => Gt | Gt => Lt end =
      Some match e' ?= e with Eq => Pos.compare m' m | Lt => Lt | Gt => Gt end).
    rewrite (Z.compare_antisym e e'), (Pos.compare_antisym m m'). by destruct (e ?= e'), (Pos.compare m m').
Qed.

(** A priority becomes a number. *)
Lemma round_aux_number sx m e l : 0 <= m -> binary_round_aux prec emax sx m e l <> S754_nan.
Proof.
  intros Hm. unfold binary_round_aux. set (K := Z.max (digits m + e) (Z.max 53 (e + 53))).
  pose proof (shr_fexp_bound m e l K Hm ltac:(lia) ltac:(lia) ltac:(lia)) as H1. destruct (shr_fexp m e l) as [r1 e1]. cbn in H1.
  destruct H1 as (Hm1 & _). set (m2 := round_nearest_even (shr_m r1) (loc_of_shr_record r1)).
  pose proof (round_even_bound (shr_m r1) (loc_of_shr_record r1) Hm1) as Hm2. fold m2 in Hm2.
  set (K2 := Z.max (digits m2 + e1) (Z.max 53 (e1 + 53))).
  pose proof (shr_fexp_bound m2 e1 loc_Exact K2 ltac:(lia) ltac:(lia) ltac:(lia) ltac:(lia)) as H2.
  destruct (shr_fexp m2 e1 loc_Exact) as [r2 e2]. cbn in H2. destruct H2 as (Hm3 & _).
  destruct (shr_m r2); [done| |lia]. by destruct (_ <=? _).
Qed.

Lemma to_float_number parse_float v x : priority v -> to_float parse_float v = Ok x -> x <> S754_nan.
Proof.
  destruct v as [| |z|y| | |]; try done; cbn; [intros _|by intros Hy [= <-] ->].
  unfold f_of_Z. destruct (is_inf _); [done|]. intros [= <-]. destruct z as [|p|p]; [done|..]; cbn [binary_normalize];
    unfold binary_round; destruct (shl_align _ _ _); by apply round_aux_number.
Qed.

(** ** [select] *)

(** The order of the ranking: a higher priority first, then the ID *)
Definition outranks (r r' : Ranked) : Prop :=
  f_lt (r_value r') (r_value r) = true \/ f_eq (r_value r') (r_value r) = true /\ py_le id (r_id r) (r_id r').

Lemma rank_key_outranks r r' : r_value r <> S754_nan -> r_value r' <> S754_nan -> py_le rank_key r r' -> outranks r r'.
Proof.
  intros Hr Hr'. unfold py_le, rank_key, outranks, f_lt, f_eq, SFltb, SFeqb.
  pose proof (float_key_order (SFopp (r_value r)) (SFopp (r_value r')) (SFopp_nan _ Hr) (SFopp_nan _ Hr')) as E.
  rewrite SFcompare_opp in E. rewrite E.
  change (cmp (float_key (SFopp (r_value r)), r_id r) (float_key (SFopp (r_value r')), r_id r')) with
    (match cmp (float_key (SFopp (r_value r))) (float_key (SFopp (r_value r'))) with Eq => cmp (r_id r) (r_id r') | c => c end).
  destruct (cmp (float_key (SFopp (r_value r))) (float_key (SFopp (r_value r')))); intros Hle; [right|by left|done]. split; [done|exact Hle].
Qed.

Lemma sorted_impl {A} (P Q : A -> A -> Prop) l : (forall x y, x ∈ l -> y ∈ l -> P x y -> Q x y) -> StronglySorted P l -> StronglySorted Q l.
Proof.
  intros Hpq Hs. induction Hs as [|x l Hs IH Hx]; constructor.
  - apply IH. intros y z Hy Hz. apply Hpq; by right.
  - apply Forall_forall. intros y Hy. rewrite Forall_forall in Hx. apply Hpq; [by left|by right|auto].
Qed.

Lemma rank_one_Ok parse_float c v r : rank_one parse_float (c, v) = Ok r ->
  r_candidate r = c /\ r_priority r = v /\ proposal_id c = Ok (r_id r) /\ to_float parse_float v = Ok (r_value r).
Proof. unfold rank_one. cbn [fst snd]. intros (pid & Hp & (x & Hx & [= <-])%bind_Ok)%bind_Ok. by split_all. Qed.

(** The ranking of the proposals with their priorities *)
Lemma ranking parse_float cs values entries :
  Forall priority values -> mapM (rank_one parse_float) (zip cs values) = Ok entries ->
  sorted_by rank_key entries ≡ₚ entries /\ StronglySorted outranks (sorted_by rank_key entries).
Proof.
  intros Hv Hm%mapM_Ok_iff. split; [apply sorted_by_perm|].
  assert (forall r, r ∈ entries -> r_value r <> S754_nan) as Hnum.
  { intros r Hr. apply list_elem_of_lookup in Hr as [i Hi]. destruct (Forall2_lookup_r _ _ _ _ _ Hm Hi) as ([c v] & Hcv & (_ & _ & _ & Hx)%rank_one_Ok).
    apply (to_float_number parse_float v); [|done]. rewrite Forall_forall in Hv. apply Hv.
    apply list_elem_of_lookup_2 in Hcv. by apply elem_of_zip_r in Hcv. }
  apply (sorted_impl (py_le rank_key)); [|apply sorted_by_sorted].
  intros r r'. rewrite !elem_of_sorted_by. intros Hr Hr'. apply rank_key_outranks; auto.
Qed.

Lemma B_bind_Ok {A C} (m : B A) (f : A -> B C) b c b' :
  (m ≫= f) b = (Ok c, b') <-> exists a b1, m b = (Ok a, b1) /\ f a b1 = (Ok c, b').
Proof.
  unfold mbind, B_bind. destruct (m b) as [[a|e] b1]; [|by split; [|intros (?&?&?&?)]].
  split; [intros Hf; by exists a, b1|intros (a' & b1' & [= <- <-] & Hf); done].
Qed.

Lemma from_res_Ok {A} (r : res A) b a b' : from_res r b = (Ok a, b') <-> r = Ok a /\ b' = b.
Proof. unfold from_res. split; [intros [= -> <-]; done|by intros [-> ->]]. Qed.

Lemma on_error_Ok {A} (m : B A) caught handler b a b' : on_error m caught handler b = (Ok a, b') <-> m b = (Ok a, b').
Proof.
  unfold on_error. destruct (m b) as [[x|e] b1]; [done|]. split; [|done]. destruct (caught e); [|done]. by destruct (handler b1) as [[]].
Qed.

(** The counters after a selection *)
Definition counted (t : RankingTelemetry) (pool : ProposalPool) (ranked : list Ranked) (t' : RankingTelemetry) : Prop :=
  policy_call_count t' = policy_call_count t + Z.of_nat (length (candidates pool)) /\
  invalid_result_count t' = invalid_result_count t /\ tie_count t' = tie_count t + ties ranked.

(** Counting the tags changes only their counters. *)
Lemma count_tags_run tags b u b' : count_tags tags b = (Ok u, b') -> exists tagged,
  b' = mkBridge (worker b) (mkTelemetry (policy_call_count (telemetry b)) (invalid_result_count (telemetry b)) (tie_count (telemetry b))
    (selected_k_counts (telemetry b)) tagged) (generator b) (closed b).
Proof.
  revert b. induction tags as [|tag tags IH]; intros b H.
  - injection H as _ <-. exists (selected_tags (telemetry b)). by destruct b as [? [] ? ?].
  - cbn [count_tags] in H. apply B_bind_Ok in H as (name & b1 & (_ & ->)%from_res_Ok & H).
    apply B_bind_Ok in H as (b1 & b2 & Ht & H). injection Ht as <- <-. apply B_bind_Ok in H as (u1 & b3 & Hset & H). injection Hset as _ <-.
    apply IH in H as [tagged ->]. by exists tagged.
Qed.

(** What a selection is *)
Definition selected (parse_float : string -> res float) (o : Outside) (pool : ProposalPool) (validated : bool) (b : Bridge) (s : Selection) (b' : Bridge) : Prop :=
  exists ctx values w entries best rest,
    call_many parse_float o (JObj ctx) (proposal <$> candidates pool) validated b = (Ok values, with_worker b w) /\
    length values = length (candidates pool) /\
    Forall2 (fun cv r => r_candidate r = cv.1 /\ r_priority r = cv.2 /\ proposal_id cv.1 = Ok (r_id r) /\ to_float parse_float cv.2 = Ok (r_value r))
      (zip (candidates pool) values) entries /\
    best :: rest ≡ₚ entries /\ StronglySorted outranks (best :: rest) /\
    rank_order s = r_id <$> best :: rest /\ Ranking.chosen s = r_candidate best /\ selected_proposal_id s = r_id best /\ Ranking.chosen s ∈ candidates pool /\
    worker b' = w /\ generator b' = generator b /\ closed b' = false /\ counted (telemetry b) pool (best :: rest) (telemetry b').

Lemma select_run parse_float sha256 o context pool graph apply_selected validated b s b' :
  select parse_float sha256 o context pool graph apply_selected validated b = (Ok s, b') -> selected parse_float o pool validated b s b'.
Proof.
  unfold select. intros H. apply B_bind_Ok in H as (u0 & b0 & (b0' & b0'' & Hthis & (Hopen & ->)%from_res_Ok)%B_bind_Ok & H).
  injection Hthis as <- <-. apply raise_if_Ok in Hopen.
  apply B_bind_Ok in H as (ctx & b1 & (_ & ->)%from_res_Ok & H).
  apply B_bind_Ok in H as (u1 & b1 & Hv & H). assert (b1 = b) as ->.
  { destruct graph; [|by injection Hv]. unfold validate_pool, _ensure_open, this in Hv.
    apply B_bind_Ok in Hv as (u & b2 & (b3 & b4 & Ht & (_ & ->)%from_res_Ok)%B_bind_Ok & (_ & ->)%from_res_Ok). by injection Ht. }
  apply B_bind_Ok in H as (values & b2 & Hcall%on_error_Ok & H).
  destruct (call_many_result parse_float o (JObj ctx) (proposal <$> candidates pool) validated b) as [Hw Hres].
  rewrite Hcall in Hw, Hres. cbn [fst snd] in Hw, Hres. destruct Hres as (_ & _ & _ & _ & Hlen & Hprio). rewrite length_fmap in Hlen.
  apply B_bind_Ok in H as (b2' & b2'' & Ht & H). injection Ht as <- <-.
  apply B_bind_Ok in H as (u2 & b3 & Hset & H). injection Hset as _ <-.
  apply B_bind_Ok in H as (entries & b3 & (Hent & ->)%from_res_Ok & H).
  destruct (ranking parse_float _ _ _ Hprio Hent) as [Hperm Hsort].
  destruct (sorted_by rank_key entries) as [|best rest]; [by apply from_res_Ok in H as [? _]|].
  apply B_bind_Ok in H as (u3 & b4 & Hties & H). apply B_bind_Ok in Hties as (b3' & b3'' & Ht & Hties). injection Ht as <- <-. injection Hties as _ <-.
  apply B_bind_Ok in H as (ktext & b5 & (_ & ->)%from_res_Ok & H).
  apply B_bind_Ok in H as (u5 & b6 & Hk & H). apply B_bind_Ok in Hk as (b3' & b3'' & Ht & Hk). injection Ht as <- <-. injection Hk as _ <-.
  apply B_bind_Ok in H as (tags & b7 & (_ & ->)%from_res_Ok & H). apply B_bind_Ok in H as (u7 & b8 & Htags & H).
  apply count_tags_run in Htags as [tagged ->].
  apply B_bind_Ok in H as (u4 & b5 & Happ & H).
  match type of Happ with _ ?st = _ => assert (b5 = st) as -> end.
  { destruct apply_selected; [|by injection Happ]. destruct graph; by apply from_res_Ok in Happ as [_ ->]. }
  apply B_bind_Ok in H as (k & b5 & (_ & ->)%from_res_Ok & H). apply B_bind_Ok in H as (family & b5 & (_ & ->)%from_res_Ok & H).
  injection H as <- <-. apply mapM_Ok_iff in Hent.
  exists ctx, values, (worker b2), entries, best, rest. cbn [rank_order Ranking.chosen selected_proposal_id worker generator closed telemetry].
  rewrite Hw. split_all; try done.
  - rewrite Hcall. by f_equal.
  - lia.
  - eapply Forall2_impl; [exact Hent|]. intros [c v] r Hr. by apply rank_one_Ok in Hr.
  - assert (best ∈ entries) as Hb by (rewrite <- Hperm; by left). apply list_elem_of_lookup in Hb as [i Hi].
    destruct (Forall2_lookup_r _ _ _ _ _ Hent Hi) as ([c v] & Hcv%list_elem_of_lookup_2 & Hr). apply rank_one_Ok in Hr as [-> _].
    by apply elem_of_zip_l in Hcv.
Qed.

(** C17: a selection that returns ranks every proposal of the pool once, by the
    number the policy gave it, the highest first and equal ones by ID; the chosen
    proposal is the first of them; the counters grow by this one selection, and
    the generator is left alone. *)
Theorem select_correct parse_float sha256 o context pool graph apply_selected validated b s b' :
  select parse_float sha256 o context pool graph apply_selected validated b = (Ok s, b') ->
  selected parse_float o pool validated b s b'.
Proof. apply select_run. Qed.

(** a policy may answer with an integer of any size: a priority too large for
    a float passes the checks of the batch, and the sort then raises
    [OverflowError], which is no [BridgeError]: the call is counted, the result is
    not counted as invalid, and the worker is not failed. *)
Theorem overflow_escapes parse_float sha256 o c pool apply_selected b values b1 pre cand z post :
  closed b = false ->
  call_many parse_float o (JObj (context_dict c)) (proposal <$> candidates pool) true b = (Ok values, b1) ->
  zip (candidates pool) values = pre ++ (cand, JInt z) :: post ->
  (forall cv, cv ∈ pre -> exists r, rank_one parse_float cv = Ok r) -> (exists pid, proposal_id cand = Ok pid) ->
  f_of_Z z = Raise OverflowError ->
  exists b2, select parse_float sha256 o (Built c) pool None apply_selected true b = (Raise OverflowError, b2) /\
    worker b2 = worker b1 /\ w_failed (worker b2) = false /\
    policy_call_count (telemetry b2) = policy_call_count (telemetry b) + Z.of_nat (length (candidates pool)) /\
    invalid_result_count (telemetry b2) = invalid_result_count (telemetry b).
Proof.
  intros Hopen Hcall Hz Hpre [pid Hpid] Hover.
  destruct (call_many_result parse_float o (JObj (context_dict c)) (proposal <$> candidates pool) true b) as [Hw Hres].
  rewrite Hcall in Hw, Hres. cbn [fst snd] in Hw, Hres. destruct Hres as (Hok & _).
  assert (mapM (rank_one parse_float) (zip (candidates pool) values) = Raise OverflowError) as Hm.
  { rewrite Hz, mapM_res_app. destruct (mapM_res_total (rank_one parse_float) (fun _ _ => True) pre) as (rs & -> & _).
    - intros cv Hcv. destruct (Hpre cv Hcv) as [r Hr]. by exists r.
    - assert (rank_one parse_float (cand, JInt z) = Raise OverflowError) as Hone.
      { unfold rank_one. cbn [fst snd to_float]. rewrite Hpid. cbn [mbind res_bind]. by rewrite Hover. }
      cbn [mbind res_bind]. by rewrite mapM_res_cons, Hone. }
  unfold select, _ensure_open, this, from_res, on_error, set_telemetry, mbind, B_bind, mret, B_ret. rewrite Hopen. cbn [raise_if].
  rewrite Hcall, Hm. eexists. split; [done|]. cbn [worker telemetry policy_call_count invalid_result_count]. rewrite Hw. by split_all.
Qed.

Module RankingWitness.
Definition candidate (pid : string) : ProposalCandidate :=
  mkCandidate (mkRewrite [(0, 1); (2, 3)] [(0, 2); (1, 3)] "legal_2_switch" [])
    [("proposal_id", JStr pid); ("k", JInt 2); ("selector_tags", JList [JStr "uniform_random"]); ("operator_family", JStr "legal_2_switch")]%string.
Definition pool : ProposalPool := mkPool POOL_SCHEMA_VERSION [candidate "a"; candidate "b"; candidate "c"] "h" 3 [] 0 3 [] [] [].
Definition bridge : Bridge := mkBridge (mkWorker 0 0 false true 0) (mkTelemetry 0 0 0 [] []) new_generator false.
Definition row (pid : string) (v : json) : json := JObj [("proposal_id", JStr pid); ("priority", v)]%string.
Definition answer (rows : list json) (frame : list Z) : res (list (string * json)) :=
  Ok [("type", JStr "batch_result"); ("status", JStr "ok"); ("results", JList rows)]%string.
Definition outside (rows : list json) : Outside := mkOutside false false false (Ok tt) (answer rows).
Definition text_float (s : string) : res float := Raise (ValueError "could not convert string to float").
Definition context : Stage2BContext := mkContext 8 FROZEN_FORBIDDEN_LENGTHS [0; 0; 0; 0; 0; 0] 0 0 1 0 (f_lit 0) (f_lit 0) (f_lit 0).
Definition three : list json := [row "c" (JInt 5); row "a" (JFloat (f_lit 5)); row "b" (JInt 2)].
Definition huge : list json := [row "a" (JInt 1); row "b" (JInt (2 ^ 1024)); row "c" (JInt 2)].

Lemma select_correct_witness : exists s b',
  select text_float PoolWitness.toy_sha256 (outside three) (Built context) pool None false true bridge = (Ok s, b') /\
  rank_order s = ["a"; "c"; "b"]%string /\
  selected text_float (outside three) pool true bridge s b'.
Proof.
  eexists _, _. split; [vm_compute; reflexivity|]. split; [reflexivity|].
  apply (select_correct text_float PoolWitness.toy_sha256 (outside three) (Built context) pool None false true bridge).
  vm_compute. reflexivity.
Defined.

Lemma overflow_escapes_witness : exists b2,
  select text_float PoolWitness.toy_sha256 (outside huge) (Built context) pool None false true bridge = (Raise OverflowError, b2) /\
  worker b2 = mkWorker 3 0 false true 0 /\ w_failed (worker b2) = false /\
  policy_call_count (telemetry b2) = 3 /\ invalid_result_count (telemetry b2) = 0.
Proof.
  apply (overflow_escapes text_float PoolWitness.toy_sha256 (outside huge) context pool false bridge [JInt 1; JInt (2 ^ 1024); JInt 2]
    (with_worker bridge (mkWorker 3 0 false true 0)) [(candidate "a", JInt 1)] (candidate "b") (2 ^ 1024) [(candidate "c", JInt 2)]).
  - reflexivity.
  - vm_compute. reflexivity.
  - reflexivity.
  - intros cv ->%list_elem_of_singleton. eexists. vm_compute. reflexivity.
  - eexists. reflexivity.
  - vm_compute. reflexivity.
Defined.
End RankingWitness.

(** ** [select_for_graph] *)

Lemma find_candidate_spec cs pid c : find_candidate cs pid = Ok (Some c) -> c ∈ cs /\ proposal_id c = Ok pid.
Proof.
  induction cs as [|x cs IH]; [done|]. cbn. intros (own & Hown & H)%bind_Ok. case_bool_decide as E.
  - injection H as <-. subst. split; [by left|done].
  - destruct (IH H). split; [by right|done].
Qed.

(** Distinct IDs tell the proposals apart. *)
Lemma id_unique cs ids c d pid : mapM proposal_id cs = Ok ids -> NoDup ids -> c ∈ cs -> d ∈ cs ->
  proposal_id c = Ok pid -> proposal_id d = Ok pid -> c = d.
Proof.
  intros HF%mapM_Ok_iff Hn [i Hi]%list_elem_of_lookup [j Hj]%list_elem_of_lookup Hc Hd.
  destruct (Forall2_lookup_l _ _ _ _ _ HF Hi) as (p & Hp & Ep), (Forall2_lookup_l _ _ _ _ _ HF Hj) as (q & Hq & Eq).
  rewrite Hc in Ep. rewrite Hd in Eq. injection Ep as <-. injection Eq as <-.
  pose proof (NoDup_lookup _ _ _ _ Hn Hp Hq) as ->. congruence.
Qed.

(** A graph with the same degrees, and other edges *)
Definition switched (g h : BitGraph) : Prop := wf h /\ gn h = gn g /\ same_degrees g h /\ edges h <> edges g.

Lemma switch_switched g removed added h : wf g -> switch g removed added -> (0 < length removed)%nat ->
  with_edges g added removed = Ok h -> switched g h.
Proof.
  intros Hg Hsw Hk Hw. destruct (switch_correct g Hg _ _ Hsw) as (h' & Hw' & Hh & Hn & Ha & Hd). rewrite Hw in Hw'. injection Hw' as <-.
  unfold switched. split_all; [done..|]. intros He. pose proof (added_length _ _ _ Hsw) as Hl. destruct added as [|e added]; [cbn in Hl; lia|].
  apply (sw_new _ _ _ Hsw e ltac:(by left)). rewrite <- He. destruct e as [u v]. apply (elem_of_edges h _ _ Hh). split.
  - rewrite Ha. unfold rewired. apply orb_true_iff. right. apply edge_in_true. left. by left.
  - apply (sw_ordered _ _ _ Hsw (u, v)). by left.
Qed.

Lemma selected_best parse_float o pool validated b s b' : selected parse_float o pool validated b s b' ->
  Ranking.chosen s ∈ candidates pool /\ proposal_id (Ranking.chosen s) = Ok (selected_proposal_id s).
Proof.
  intros (_ & values & w & entries & best & rest & _ & _ & HF & Hperm & _ & _ & Hchosen & Hselid & Hin & _). split; [done|].
  assert (best ∈ entries) as Hb by (rewrite <- Hperm; by left). apply list_elem_of_lookup in Hb as [i Hi].
  destruct (Forall2_lookup_r _ _ _ _ _ HF Hi) as (cv & _ & E & _ & Hpid & _). by rewrite Hchosen, Hselid, E.
Qed.

(** *** What every operation keeps, raising or not *)

Definition keeps (I : Bridge -> Prop) {A} (m : B A) : Prop := forall b, I b -> I (m b).2.

Section Keeps.
Context (I : Bridge -> Prop).

Lemma keeps_from_res {A} (r : res A) : keeps I (from_res r).
Proof. by intros b Hb. Qed.

Lemma keeps_this : keeps I this.
Proof. by intros b Hb. Qed.

Lemma bridge_keeps_ret {A} (a : A) : keeps I (mret a).
Proof. by intros b Hb. Qed.

Lemma bridge_keeps_bind {A C} (m : B A) (f : A -> B C) : keeps I m -> (forall a, keeps I (f a)) -> keeps I (m ≫= f).
Proof.
  intros Hm Hf b Hb. unfold mbind, B_bind. specialize (Hm b Hb). destruct (m b) as [[a|e] b1]; [by apply Hf|done].
Qed.

Lemma keeps_on_error {A} (m : B A) caught handler : keeps I m -> keeps I handler -> keeps I (on_error m caught handler).
Proof.
  intros Hm Hh b Hb. unfold on_error. specialize (Hm b Hb). destruct (m b) as [[a|e] b1]; [done|].
  destruct (caught e); [|done]. specialize (Hh b1 Hm). by destruct (handler b1) as [[u|e'] b2].
Qed.
End Keeps.

(** The bridge is open and its generator holds what it should. *)
Definition bridge_ok (b : Bridge) : Prop := generator_ok default_limits (generator b) /\ closed b = false.

Lemma keeps_ensure : keeps bridge_ok _ensure_open.
Proof. apply bridge_keeps_bind; [apply keeps_this|]. intros. apply keeps_from_res. Qed.

Lemma keeps_telemetry t : keeps bridge_ok (set_telemetry t).
Proof. by intros b Hb. Qed.

Lemma keeps_call parse_float o context proposals prevalidated : keeps bridge_ok (call_many parse_float o context proposals prevalidated).
Proof. intros b Hb. destruct (call_many_result parse_float o context proposals prevalidated b) as [-> _]. exact Hb. Qed.

Lemma keeps_ties n : keeps bridge_ok (add_ties n).
Proof. by intros b Hb. Qed.

Lemma keeps_selected_k k : keeps bridge_ok (add_selected_k k).
Proof. by intros b Hb. Qed.

Lemma keeps_tags tags : keeps bridge_ok (count_tags tags).
Proof.
  induction tags as [|tag tags IH]; [apply bridge_keeps_ret|]. cbn [count_tags]. apply bridge_keeps_bind; [apply keeps_from_res|intros name].
  apply bridge_keeps_bind; [apply keeps_this|intros b]. apply bridge_keeps_bind; [apply keeps_telemetry|done].
Qed.

Create HintDb bridge.
#[export] Hint Resolve keeps_from_res keeps_this bridge_keeps_ret keeps_ensure keeps_telemetry keeps_call keeps_on_error
  keeps_ties keeps_selected_k keeps_tags : bridge.
Ltac keeps := repeat (apply bridge_keeps_bind; [|intros ?]); eauto with bridge.

Lemma keeps_select parse_float sha256 o context pool graph apply_selected validated :
  keeps bridge_ok (select parse_float sha256 o context pool graph apply_selected validated).
Proof.
  unfold select. keeps.
  - destruct graph; [|by keeps]. unfold validate_pool. by keeps.
  - destruct (sorted_by rank_key _); keeps. destruct apply_selected; [|by keeps]. destruct graph; by keeps.
Qed.

Lemma keeps_context graph step remaining stagnation score capped : wf graph ->
  keeps bridge_ok (context_for_graph default_limits graph step remaining stagnation score capped).
Proof.
  intros Hg. assert (keeps bridge_ok (b ← this;
    fc ← from_res (_snapshot default_limits (generator b) graph);
    set_generator (mkGenerator (Some graph) (Some fc)) ;;;
    counts ← from_res (mapM (fun l => ws ← lookup_length (witnesses fc.1) l; Ok (Z.of_nat (length ws))) FROZEN_FORBIDDEN_LENGTHS);
    mret counts : B (list Z))) as Hs.
  { intros b [Hb Hopen]. unfold mbind, B_bind, this, from_res, set_generator, mret, B_ret.
    destruct (snapshot_total default_limits (generator b) graph Hg default_limits_ok Hb) as (fc & -> & Hf & Hc & _).
    destruct (mapM _ _); split; done. }
  unfold context_for_graph. apply bridge_keeps_bind; [apply keeps_ensure|intros _].
  destruct score as [[counts penalty]|]; (apply bridge_keeps_bind; [|intros ?; apply keeps_from_res]); [|exact Hs].
  destruct capped; [apply bridge_keeps_ret|]. destruct (mapM _ _); [apply bridge_keeps_ret|exact Hs].
Qed.

Lemma keeps_generate `{RngLaws R} parse_float (Random : Z -> R) sha256 set_iter pool_limits graph policy_seed step :
  digest_ok sha256 -> (forall X, set_iter X ≡ₚ elements X) -> check_pool_limits pool_limits = Ok pool_limits ->
  wf graph -> gn graph < 2 ^ 64 -> small policy_seed -> small step ->
  keeps bridge_ok (generate_pool parse_float Random sha256 set_iter pool_limits default_limits graph policy_seed step).
Proof.
  intros Hsha Hit Hpl Hg Hn Hps Hstep b [Hb Hopen].
  destruct (generate_pool_run parse_float Random sha256 set_iter pool_limits b graph policy_seed step) as (p & base & t & ids & _ & Hf & Hc & _ & _ & ->);
    [done..|]. by split.
Qed.

Lemma matching_distinct m : NoDup (endpoints m) -> distinct_edges m.
Proof.
  intros Hn. apply NoDup_fmap_2_strong; [|by apply matching_NoDup]. intros e f He Hf E.
  apply (matching_unique m e f (sort_ends e).1 Hn He Hf); [|rewrite E]; unfold sort_ends, sort_pair; case_match; cbn; auto.
Qed.

(** A ranked step, on an open bridge and a well-formed graph *)
Lemma select_for_graph_full `{RngLaws R} parse_float (Random : Z -> R) sha256 set_iter pool_limits feature_limits o graph policy_seed step
    remaining apply_selected score b :
  digest_ok sha256 -> (forall X, set_iter X ≡ₚ elements X) ->
  check_pool_limits pool_limits = Ok pool_limits -> check_feature_limits feature_limits = Ok feature_limits ->
  wf graph -> gn graph < 2 ^ 64 -> bridge_ok b -> small policy_seed -> small step ->
  let rb := select_for_graph parse_float Random sha256 set_iter pool_limits feature_limits o graph policy_seed step remaining apply_selected score b in
  bridge_ok rb.2 /\
  match rb.1 with
  | Ok (selection, result, pool) =>
      let rw := rewrite (Ranking.chosen selection) in
      (exists b1 b2, selected parse_float o pool true b1 selection b2) /\
      find_candidate (candidates pool) (selected_proposal_id selection) = Ok (Some (Ranking.chosen selection)) /\
      distinct_edges (removed_edges rw) /\
      if apply_selected then with_edges graph (added_edges rw) (removed_edges rw) = Ok result /\ switched graph result
      else result = graph
  | Raise _ => True
  end.
Proof.
  intros Hsha Hit Hpl Hfl Hg Hn Hb Hps Hstep rb. apply check_feature_limits_default in Hfl as ->.
  destruct (generate_pool_run parse_float Random sha256 set_iter pool_limits b graph policy_seed step) as (p & base & t & ids & _ & Hf & Hcoh & Hp & Hids & Hgen);
    [done..|apply Hb|done|done|apply Hb|].
  split.
  { subst rb. match goal with |- bridge_ok (?m b).2 => assert (keeps bridge_ok m) as Hm; [|by apply Hm] end.
    unfold select_for_graph. apply bridge_keeps_bind; [by apply keeps_generate|intros p'].
    apply bridge_keeps_bind; [apply keeps_from_res|intros capped]. apply bridge_keeps_bind; [by apply keeps_context|intros ctx].
    apply bridge_keeps_bind; [apply keeps_select|intros sel]. apply bridge_keeps_bind; [apply keeps_from_res|intros found]. case_match; by keeps. }
  subst rb. destruct (select_for_graph _ _ _ _ _ _ _ _ _ _ _ _ _ _) as [[[[sel res] pool]|e] b'] eqn:Hrun; [|done]. cbn [fst snd].
  unfold select_for_graph in Hrun. apply B_bind_Ok in Hrun as (p' & b1 & Hgen' & H1). rewrite Hgen in Hgen'.
  destruct (verdict (candidates p) ids) as [u|e] eqn:Ev; [|done]. injection Hgen' as <- <-.
  assert (NoDup ids) as Hnd by (unfold verdict in Ev; by repeat case_decide).
  apply B_bind_Ok in H1 as (capped & b1 & (_ & ->)%from_res_Ok & H1).
  apply B_bind_Ok in H1 as (ctx & b2 & _ & H1). apply B_bind_Ok in H1 as (sel' & b3 & Hsel & H1). apply select_run in Hsel.
  apply B_bind_Ok in H1 as (found & b4 & (Hfound & ->)%from_res_Ok & H1).
  destruct found as [c|]; [|by apply from_res_Ok in H1 as [? _]]. apply B_bind_Ok in H1 as (res' & b4 & (Hres & ->)%from_res_Ok & H1).
  injection H1 as <- <- <- <-. apply find_candidate_spec in Hfound as Hspec. destruct Hspec as [Hc Hcid].
  destruct (selected_best _ _ _ _ _ _ _ Hsel) as [Hin Hbid].
  assert (c = Ranking.chosen sel') as -> by by apply (id_unique (candidates p) ids c _ (selected_proposal_id sel')).
  destruct (po_candidates _ _ _ _ _ _ Hp _ Hin) as [h v digest k selector anchor Hsw Hw _ Hk Hkin _ _ _ _ _].
  rewrite (fo_graph _ _ _ Hf) in Hsw. pose proof (k_small _ _ Hpl Hkin). unfold size_of in Hk.
  split; [by exists b2, b3|]. split; [done|]. split; [apply matching_distinct, (sw_disjoint _ _ _ Hsw)|].
  destruct apply_selected; [|by injection Hres]. split; [done|].
  eapply switch_switched; [done|exact Hsw|lia|exact Hres].
Qed.

Lemma select_for_graph_run `{RngLaws R} parse_float (Random : Z -> R) sha256 set_iter pool_limits feature_limits o graph policy_seed step
    remaining apply_selected score b :
  digest_ok sha256 -> (forall X, set_iter X ≡ₚ elements X) ->
  check_pool_limits pool_limits = Ok pool_limits -> check_feature_limits feature_limits = Ok feature_limits ->
  wf graph -> gn graph < 2 ^ 64 -> bridge_ok b -> small policy_seed -> small step ->
  let rb := select_for_graph parse_float Random sha256 set_iter pool_limits feature_limits o graph policy_seed step remaining apply_selected score b in
  bridge_ok rb.2 /\
  match rb.1 with
  | Ok (selection, result, pool) =>
      (exists b1 b2, selected parse_float o pool true b1 selection b2) /\
      if apply_selected
      then with_edges graph (added_edges (rewrite (Ranking.chosen selection))) (removed_edges (rewrite (Ranking.chosen selection))) = Ok result /\
        switched graph result
      else result = graph
  | Raise _ => True
  end.
Proof.
  intros Hsha Hit Hpl Hfl Hg Hn Hb Hps Hstep rb.
  pose proof (select_for_graph_full parse_float Random sha256 set_iter pool_limits feature_limits o graph policy_seed step remaining apply_selected
    score b Hsha Hit Hpl Hfl Hg Hn Hb Hps Hstep) as [Hb' H1]. split; [done|]. fold rb in H1. destruct rb.1 as [[[selection result] pool]|]; [|done].
  destruct H1 as (Hs & _ & _ & Hr). by split.
Qed.



(** ** Any number of ranked steps *)

(** What the campaign relies on: a graph that moves by switches *)
Definition abstract_step (g h : BitGraph) : Prop := wf g /\ switched g h.

Section Steps.
Context `{RngLaws R} (parse_float : string -> res float) (Random : Z -> R) (sha256 : list Z -> list Z) (set_iter : gset Z -> list Z).
Context (pool_limits : PoolLimits) (feature_limits : FeatureLimits).

(** A call of [select_for_graph] with [apply_selected]: the caller goes on with the
    result, or with its own graph when the call raised. *)
Inductive ranked_step : BitGraph * Bridge -> BitGraph * Bridge -> Prop :=
  | step_returns o g policy_seed step remaining score b selection h pool b' : small policy_seed -> small step ->
      select_for_graph parse_float Random sha256 set_iter pool_limits feature_limits o g policy_seed step remaining true score b =
        (Ok (selection, h, pool), b') -> ranked_step (g, b) (h, b')
  | step_raises o g policy_seed step remaining score b e b' : small policy_seed -> small step ->
      select_for_graph parse_float Random sha256 set_iter pool_limits feature_limits o g policy_seed step remaining true score b =
        (Raise e, b') -> ranked_step (g, b) (g, b').

(** The relation between the two: the graph is the same, and well formed, and the
    bridge is as it should be. *)
Definition represents (g : BitGraph) (gb : BitGraph * Bridge) : Prop :=
  gb.1 = g /\ wf g /\ gn g < 2 ^ 64 /\ bridge_ok gb.2.

Context (Hsha : digest_ok sha256) (Hit : forall X, set_iter X ≡ₚ elements X).
Context (Hpl : check_pool_limits pool_limits = Ok pool_limits) (Hfl : check_feature_limits feature_limits = Ok feature_limits).

Lemma ranked_step_simulated g gb gb' : represents g gb -> ranked_step gb gb' ->
  exists h, represents h gb' /\ (abstract_step g h \/ h = g).
Proof.
  intros (Hg1 & Hg & Hn & Hb) Hstep. destruct Hstep as [o g1 ps st rem score b sel h pool b' Hps Hst Hrun|o g1 ps st rem score b e b' Hps Hst Hrun]; cbn in *; subst g1.
  - destruct (select_for_graph_run parse_float Random sha256 set_iter pool_limits feature_limits o g ps st rem true score b) as [Hb' H1]; try done.
    rewrite Hrun in Hb', H1. cbn in Hb', H1. destruct H1 as (_ & _ & Hsw). exists h. split; [|left; by split].
    pose proof Hsw as (Hh & Hnh & _). unfold represents. cbn [fst snd]. split_all; [done..|lia|done].
  - destruct (select_for_graph_run parse_float Random sha256 set_iter pool_limits feature_limits o g ps st rem true score b) as [Hb' _]; try done.
    rewrite Hrun in Hb'. cbn in Hb'. exists g. split; [unfold represents; cbn [fst snd]; by split_all|by right].
Qed.
End Steps.

Lemma abstract_degrees g h : wf g -> rtc abstract_step g h -> gn h = gn g /\ same_degrees g h.
Proof.
  intros Hg. induction 1 as [g|g h k [_ (Hh & Hn & Hd & _)] _ IH]; [done|]. destruct (IH Hh) as [Hn2 Hd2]. split; [lia|].
  intros u Hu. rewrite Hd2; [by apply Hd|]. unfold vertex in *. lia.
Qed.


Module StepsWitness.
Import RankingWitness RisksWitness.

(** One step, whichever way it ends *)
Lemma one_step : exists h b', ranked_step text_float mkLcg PoolWitness.toy_sha256 elements default_pool_limits default_limits (hexagon, bridge) (h, b').
Proof.
  destruct (select_for_graph text_float mkLcg PoolWitness.toy_sha256 elements default_pool_limits default_limits (outside three) hexagon 7 3 10 true None bridge)
    as [[[[sel h] pool]|e] b'] eqn:E.
  - exists h, b'. by eapply (step_returns _ _ _ _ _ _ (outside three) hexagon 7 3 10 None bridge sel h pool b').
  - exists hexagon, b'. by eapply (step_raises _ _ _ _ _ _ (outside three) hexagon 7 3 10 None bridge e b').
Qed.

End StepsWitness.
