(* ===== verification/SearchKeys.v ===== *)
(** * The keys of searched graphs

    [src/src/sglab/research/lanes.py]: a lane recognises graphs it has seen by a
    key, either the SHA-256 of the graph6 text or a Zobrist hash, an exclusive or
    of one 256-bit token per edge that is updated with the edges a mutation
    changed. SHA-256 is a parameter. *)

From S2P Require Import Prelude Bits Json Convert Model Graph6 Rewiring.

(** ** Tokens *)

Definition UINT64_MASK : Z := Z.shiftl 1 64 - 1.

Definition xorshift (k value : Z) : Z := Z.lxor value (Z.shiftr value k).

Definition _splitmix64 (value : Z) : Z :=
  let value := Z.land (value + 0x9E3779B97F4A7C15) UINT64_MASK in
  let value := Z.land (xorshift 30 value * 0xBF58476D1CE4E5B9) UINT64_MASK in
  let value := Z.land (xorshift 27 value * 0x94D049BB133111EB) UINT64_MASK in
  xorshift 31 value.

Definition token_word (value domain : Z) : Z := _splitmix64 (Z.lxor value (0xD6E8FEB86659FD93 * (domain + 1))).

Definition _zobrist_token (value : Z) : Z :=
  foldl (fun result domain => Z.lor result (Z.shiftl (token_word value domain) (domain * 64))) 0 (range 0 4).

Definition edge_token (e : Z * Z) : Z := _zobrist_token (Z.lor (Z.shiftl e.1 32) e.2).

(** ** Hexadecimal text *)

(** The digits of [value >= 0], most significant first; [value] has at most
    [fuel] of them. *)
Fixpoint hex_digits (fuel : nat) (value : Z) (acc : list Ascii.ascii) : list Ascii.ascii :=
  match fuel with
  | O => acc
  | S fuel' => if value <? 16 then hex_digit value :: acc else hex_digits fuel' (value / 16) (hex_digit (value mod 16) :: acc)
  end.

(** [f"{value:064x}"] *)
Definition hex64 (value : Z) : string :=
  let digits := hex_digits (Z.to_nat (Z.log2 (Z.abs value) / 4 + 1)) (Z.abs value) [] in
  let sign := if value <? 0 then [Ascii.ascii_of_N 45] else [] in
  Stdlib.Strings.String.string_of_list_ascii
    (sign ++ replicate (64 - length sign - length digits) (hex_digit 0) ++ digits).

(** [int(text, 16)]: white space around the number is ignored; a sign and then
    [0x] may come first, and single underscores may separate digits. *)
Definition hex_value (a : Ascii.ascii) : option Z :=
  if is_digit a then Some (code a - 48)
  else if (97 <=? code a) && (code a <=? 102) then Some (code a - 87)
  else if (65 <=? code a) && (code a <=? 70) then Some (code a - 55)
  else None.

(** [fresh] says that the previous character was not a digit. *)
Fixpoint hex_number (l : list Ascii.ascii) (fresh : bool) (acc : Z) : option Z :=
  match l with
  | [] => if fresh then None else Some acc
  | a :: l' =>
      match hex_value a with
      | Some d => hex_number l' false (16 * acc + d)
      | None => if (code a =? 95) && negb fresh then hex_number l' true acc else None
      end
  end.

(** After [0x] one underscore may come. *)
Definition hex_unsigned (l : list Ascii.ascii) : option Z :=
  match l with
  | z :: x :: l' => if (code z =? 48) && ((code x =? 120) || (code x =? 88)) then hex_number l' (bool_decide (l' = [])) 0 else hex_number l true 0
  | _ => hex_number l true 0
  end.

Definition int_of_hex (s : string) : res Z :=
  let bad := Raise (ValueError ("invalid literal for int() with base 16: " ++ str_repr s)%string) in
  match Convert.strip (Stdlib.Strings.String.list_ascii_of_string s) with
  | a :: l' =>
      if code a =? 45 then match hex_unsigned l' with Some z => Ok (- z) | None => bad end
      else if code a =? 43 then match hex_unsigned l' with Some z => Ok z | None => bad end
      else match hex_unsigned (a :: l') with Some z => Ok z | None => bad end
  | [] => bad
  end.

(** ** Keys *)

Definition _zobrist_graph_key (g : BitGraph) : string :=
  hex64 (foldl (fun value e => Z.lxor value (edge_token e)) (_zobrist_token (Z.lor 0x8000000000000000 (gn g))) (edges g)).

Definition _zobrist_update_key (key : string) (removed_edges added_edges : list (Z * Z)) : res string :=
  value ← int_of_hex key;
  Ok (hex64 (foldl (fun value e => Z.lxor value (edge_token (sort_ends e))) value (removed_edges ++ added_edges))).

(** The names of the two schemes, and the ones older checkpoints use *)
Definition LEGACY_GRAPH_KEY_SCHEME : string := "legacy_sha_graph6_v1".
Definition FAST_GRAPH_KEY_SCHEME : string := "delta_local_v2".
Definition _LEGACY_GRAPH_KEY_ALIAS : string := "sha256_graph6_v1".
Definition _FAST_GRAPH_KEY_ALIAS : string := "zobrist256_v1".

Definition _normalize_duplicate_key_scheme (value : json) : res string :=
  scheme ← py_str value;
  if bool_decide (scheme ∈ [LEGACY_GRAPH_KEY_SCHEME; _LEGACY_GRAPH_KEY_ALIAS]) then Ok LEGACY_GRAPH_KEY_SCHEME
  else if bool_decide (scheme ∈ [FAST_GRAPH_KEY_SCHEME; _FAST_GRAPH_KEY_ALIAS]) then Ok FAST_GRAPH_KEY_SCHEME
  else Raise (ValueError ("unsupported duplicate key scheme: " ++ scheme)%string).

Definition _duplicate_key_compatibility_alias (scheme : string) : string :=
  if bool_decide (scheme = FAST_GRAPH_KEY_SCHEME) then _FAST_GRAPH_KEY_ALIAS else _LEGACY_GRAPH_KEY_ALIAS.

(** ** The reference of the SHA-256 key *)

(** [bits[offset + bit] << (5 - bit)], summed over the six bits *)
Definition six_value (bits : list Z) (offset : Z) : res Z :=
  foldM (fun acc bit => b ← py_index bits (offset + bit); Ok (acc + Z.shiftl b (5 - bit))) 0 (range 0 6).

(** [bytes(...)] of integers *)
Definition as_bytes (l : list Z) : res (list Z) :=
  if forallb (fun b => (0 <=? b) && (b <? 256)) l then Ok l else Raise (ValueError "bytes must be in range(0, 256)").

Definition reference_bits (g : BitGraph) : res (list Z) :=
  mapM (fun uv => h ← has_edge g uv.1 uv.2; Ok (if h : bool then 1 else 0)) (triangle (gn g)).

Definition reference_prefix (n : Z) : res (list Z) :=
  if n <=? 62 then as_bytes [n + 63]
  else if n <=? 258047 then
    as_bytes [126; Z.land (Z.shiftr n 12) 63 + 63; Z.land (Z.shiftr n 6) 63 + 63; Z.land n 63 + 63]
  else Raise (ValueError "graph6 export supports at most 258047 vertices").

Section Keys.
Variable sha256 : list Z -> string.

Definition _legacy_graph_key_reference (g : BitGraph) : res string :=
  prefix ← reference_prefix (gn g);
  bits ← reference_bits g;
  let bits := bits ++ replicate (Z.to_nat ((- Z.of_nat (length bits)) mod 6)) 0 in
  sixes ← mapM (fun i => b ← six_value bits (6 * i); Ok (b + 63)) (range 0 (Z.of_nat (length bits) / 6));
  data ← as_bytes sixes;
  Ok (sha256 (prefix ++ data)).

(** [encode("ascii")] fails on other characters. *)
Definition _candidate_id_from_graph_sha256 (campaign_id graph_sha256 : string) : res string :=
  ascii ← encode_ascii (codes (campaign_id ++ ":" ++ graph_sha256)%string);
  Ok ("candidate-" ++ Stdlib.Strings.String.substring 0 24 (sha256 ascii))%string.

Definition _candidate_id (campaign_id : string) (g : BitGraph) : res string :=
  h ← stable_hash sha256 g; _candidate_id_from_graph_sha256 campaign_id h.
End Keys.

Example token_one : _splitmix64 0 = 0xE220A8397B1DCDAF. Proof. vm_compute. reflexivity. Qed.
Example hex_roundtrip : int_of_hex (hex64 0xE220A8397B1DCDAF) = Ok 0xE220A8397B1DCDAF. Proof. vm_compute. reflexivity. Qed.
