(* ===== verification/KeyProofs.v ===== *)
(** * What the keys of graphs guarantee

    Hexadecimal text is read back; the Zobrist key updated with the edges of a
    rewiring is the key of the rewired graph; keys of close graphs differ; the
    optimised SHA-256 key is the reference one. *)

From S2P Require Import Prelude Bits Json Convert Model Graph6 Rewiring SearchKeys.

(** ** Hexadecimal text is read back *)

Definition hex_char (a : Ascii.ascii) : Prop :=
  Convert.is_space a = false /\ code a <> 45 /\ code a <> 43 /\ code a <> 120 /\ code a <> 88.

Lemma hex_digit_value d : 0 <= d < 16 -> hex_value (hex_digit d) = Some d /\ hex_char (hex_digit d).
Proof.
  intros Hd. apply elem_of_range in Hd. unfold hex_char. cbn in Hd.
  repeat (apply elem_of_cons in Hd as [->|Hd]; [vm_compute; repeat split; discriminate|]). by apply elem_of_nil in Hd.
Qed.

Lemma hex_digits_chars fuel value acc : 0 <= value -> Forall hex_char acc -> Forall hex_char (hex_digits fuel value acc).
Proof.
  revert value acc. induction fuel as [|fuel IH]; intros value acc Hv Ha; cbn; [done|].
  destruct (Z.ltb_spec value 16); [constructor; [apply hex_digit_value; lia|done]|].
  apply IH; [apply Z.div_pos; lia|]. constructor; [apply hex_digit_value, Z.mod_pos_bound; lia|done].
Qed.

Lemma hex_digits_number fuel value acc fresh : 0 <= value < 16 ^ Z.of_nat fuel -> (0 < fuel)%nat ->
  hex_number (hex_digits fuel value acc) fresh 0 = hex_number acc false value.
Proof.
  revert value acc. induction fuel as [|fuel IH]; intros value acc Hv Hf; cbn; [lia|].
  destruct (Z.ltb_spec value 16) as [Hlt|Hge].
  - cbn. destruct (hex_digit_value value) as [-> _]; [lia|]. done.
  - pose proof (Z.div_mod value 16 ltac:(done)) as Hdm. pose proof (Z.mod_pos_bound value 16 ltac:(done)) as Hm.
    assert (value < 16 * 16 ^ Z.of_nat fuel) as Hb by (rewrite <- Z.pow_succ_r by lia; replace (Z.succ (Z.of_nat fuel)) with (Z.of_nat (S fuel)) by lia; lia).
    destruct fuel as [|fuel]; [cbn in Hb; lia|].
    rewrite IH; [|split; [apply Z.div_pos; lia|apply Z.div_lt_upper_bound; lia]|lia].
    cbn. destruct (hex_digit_value (value mod 16)) as [-> _]; [lia|]. f_equal. lia.
Qed.

Lemma hex_zeros k l : l <> [] -> hex_number (replicate k (hex_digit 0) ++ l) true 0 = hex_number l (match k with O => true | _ => false end) 0.
Proof.
  intros Hl. destruct k as [|k]; [done|]. cbn. induction k as [|k IH]; [done|]. exact IH.
Qed.

Lemma fuel_enough value : 0 <= value -> value < 16 ^ Z.of_nat (Z.to_nat (Z.log2 value / 4 + 1)).
Proof.
  intros Hv. pose proof (Z.log2_nonneg value). assert (0 <= Z.log2 value / 4) by (apply Z.div_pos; lia). rewrite Z2Nat.id by lia.
  destruct (Z.eq_dec value 0) as [->|Hn]; [done|].
  apply Z.lt_le_trans with (2 ^ Z.succ (Z.log2 value)); [apply Z.log2_spec; lia|].
  replace 16 with (2 ^ 4) by done. rewrite <- Z.pow_mul_r by lia. apply Z.pow_le_mono_r; [lia|].
  pose proof (Z.div_mod (Z.log2 value) 4 ltac:(done)). pose proof (Z.mod_pos_bound (Z.log2 value) 4 ltac:(done)). lia.
Qed.

Lemma strip_hex l : Forall hex_char l -> Convert.strip l = l.
Proof.
  intros Hl. assert (Forall (fun a => Convert.is_space a = false) l) as H by (eapply Forall_impl; [exact Hl|]; by intros a []).
  unfold Convert.strip. rewrite (strip_left_id l H), strip_left_id; [by rewrite reverse_involutive|]. by apply Forall_reverse.
Qed.

Lemma hex_unsigned_plain l : Forall hex_char l -> hex_unsigned l = hex_number l true 0.
Proof.
  intros Hl. destruct Hl as [|z l Hz Hl]; [done|]. destruct Hl as [|x l Hx _]; [done|]. unfold hex_unsigned.
  destruct Hx as (_ & _ & _ & H1 & H2). replace (code x =? 120) with false by lia. replace (code x =? 88) with false by lia.
  by rewrite andb_false_r.
Qed.

Lemma hex64_read value : 0 <= value -> int_of_hex (hex64 value) = Ok value.
Proof.
  intros Hv. unfold int_of_hex, hex64. rewrite Stdlib.Strings.String.list_ascii_of_string_of_list_ascii.
  replace (value <? 0) with false by lia. rewrite Z.abs_eq by done. cbn [app length].
  set (fuel := Z.to_nat (Z.log2 value / 4 + 1)). set (ds := hex_digits fuel value []).
  assert ((0 < fuel)%nat) as Hf by (pose proof (Z.log2_nonneg value); assert (0 <= Z.log2 value / 4) by (apply Z.div_pos; lia); lia).
  assert (Forall hex_char ds) as Hds by by apply hex_digits_chars.
  assert (ds <> []) as Hne.
  { intros E. assert (hex_number ds true 0 = Some value) as Hn by (unfold ds; rewrite hex_digits_number; [done|split; [done|by apply fuel_enough]|done]).
    by rewrite E in Hn. }
  set (k := (64 - 0 - length ds)%nat).
  assert (Forall hex_char (replicate k (hex_digit 0) ++ ds)) as Hall.
  { apply Forall_app_2; [|done]. apply Forall_replicate. by apply hex_digit_value. }
  assert (hex_number (replicate k (hex_digit 0) ++ ds) true 0 = Some value) as Hnum.
  { rewrite hex_zeros by done. unfold ds. rewrite hex_digits_number; [done|split; [done|by apply fuel_enough]|done]. }
  rewrite strip_hex by done. destruct (replicate k (hex_digit 0) ++ ds) as [|a l] eqn:El; [by destruct k|].
  pose proof Hall as [(_ & H1 & H2 & _) _]%Forall_cons.
  replace (code a =? 45) with false by lia. replace (code a =? 43) with false by lia.
  by rewrite hex_unsigned_plain, Hnum by done.
Qed.

Lemma hex64_inj a b : 0 <= a -> 0 <= b -> hex64 a = hex64 b -> a = b.
Proof. intros Ha Hb E. pose proof (hex64_read a Ha) as H. rewrite E, (hex64_read b Hb) in H. by injection H. Qed.

(** ** Words and tokens *)

Definition word (x : Z) : Prop := 0 <= x < 2 ^ 64.

Lemma mask_mod x : Z.land x UINT64_MASK = x mod 2 ^ 64.
Proof. change UINT64_MASK with (Z.ones 64). by rewrite Z.land_ones. Qed.

Lemma mask_word x : word (Z.land x UINT64_MASK).
Proof. rewrite mask_mod. by apply Z.mod_pos_bound. Qed.

Lemma xorshift_word k x : 0 <= k -> word x -> word (xorshift k x).
Proof.
  intros Hk [H1 H2]. unfold xorshift. assert (0 <= Z.shiftr x k) by by apply Z.shiftr_nonneg.
  assert (0 <= Z.lxor x (Z.shiftr x k)) by by apply Z.lxor_nonneg. split; [done|].
  apply testbit_lt_pow2; [done| |done]. intros i Hi. rewrite Z.lxor_spec in Hi. destruct (Z.lt_ge_cases i 64) as [|Hge]; [done|].
  rewrite Z.shiftr_spec, !(testbit_above_pow2 x 64) in Hi by (try split; lia). done.
Qed.

Lemma splitmix_word x : word (_splitmix64 x).
Proof. unfold _splitmix64. apply xorshift_word; [done|]. apply mask_word. Qed.

Lemma fold_nonneg {A} (f : A -> Z) l acc : 0 <= acc -> (forall x, 0 <= f x) -> 0 <= foldl (fun v x => Z.lor v (f x)) acc l.
Proof. intros Ha Hf. revert acc Ha. induction l as [|x l IH]; intros acc Ha; cbn [foldl]; [done|]. apply IH. by apply Z.lor_nonneg. Qed.

Lemma token_nonneg value : 0 <= _zobrist_token value.
Proof. apply fold_nonneg; [done|]. intros d. apply Z.shiftl_nonneg, splitmix_word. Qed.

(** ** Sums of tokens *)

Fixpoint token_sum (es : list (Z * Z)) : Z :=
  match es with
  | [] => 0
  | e :: es' => Z.lxor (edge_token e) (token_sum es')
  end.

Lemma token_sum_app l1 l2 : token_sum (l1 ++ l2) = Z.lxor (token_sum l1) (token_sum l2).
Proof. induction l1 as [|e l1 IH]; cbn [app token_sum]; [done|]. by rewrite IH, Z.lxor_assoc. Qed.

#[export] Instance token_sum_perm : Proper ((≡ₚ) ==> eq) token_sum.
Proof.
  intros l1 l2. induction 1 as [|e l1 l2 _ IH|e1 e2 l|]; cbn [token_sum]; [done|by rewrite IH| |congruence].
  rewrite <- !Z.lxor_assoc. by rewrite (Z.lxor_comm (edge_token e2)).
Qed.

Lemma token_sum_nonneg es : 0 <= token_sum es.
Proof. induction es as [|e es IH]; cbn [token_sum]; [done|]. apply Z.lxor_nonneg. split; [done|]. intros _. apply token_nonneg. Qed.

Lemma fold_tokens {A} (f : A -> Z * Z) v es :
  foldl (fun value e => Z.lxor value (edge_token (f e))) v es = Z.lxor v (token_sum (f <$> es)).
Proof.
  revert v. induction es as [|e es IH]; intros v; cbn [foldl fmap list_fmap token_sum]; [by rewrite Z.lxor_0_r|]. by rewrite IH, Z.lxor_assoc.
Qed.

(** The number a Zobrist key is the text of *)
Definition zobrist (g : BitGraph) : Z := Z.lxor (_zobrist_token (Z.lor 0x8000000000000000 (gn g))) (token_sum (edges g)).

Lemma zobrist_nonneg g : 0 <= zobrist g.
Proof. unfold zobrist. apply Z.lxor_nonneg. split; intros _; [apply token_sum_nonneg|apply token_nonneg]. Qed.

Lemma zobrist_key g : _zobrist_graph_key g = hex64 (zobrist g).
Proof.
  unfold _zobrist_graph_key, zobrist. f_equal. pose proof (fold_tokens (fun e => e) (_zobrist_token (Z.lor 0x8000000000000000 (gn g))) (edges g)) as E.
  rewrite list_fmap_id in E. exact E.
Qed.

(** ** The update *)

Lemma sort_ends_same e f : e.1 < e.2 -> (sort_ends f = e <-> same_edge f.1 f.2 e.1 e.2 = true).
Proof.
  destruct e as [u v], f as [a b]. cbn. intros Hlt. rewrite same_edge_spec. unfold sort_ends, sort_pair. cbn.
  destruct (Z.ltb_spec b a); split; intros H'; first [injection H' as <- <-; auto|destruct H' as [[= -> ->]|[= -> ->]]; lia || done].
Qed.

Lemma elem_of_sort_ends e es : e.1 < e.2 -> e ∈ sort_ends <$> es <-> edge_in es e.1 e.2 = true.
Proof.
  intros Hlt. rewrite list_elem_of_fmap. unfold edge_in. rewrite existsb_exists. split.
  - intros (f & -> & Hf). exists f. split; [by apply list_elem_of_In|]. by apply sort_ends_same.
  - intros (f & Hf%list_elem_of_In & Hs). exists f. split; [|done]. symmetry. by apply sort_ends_same.
Qed.

Lemma sort_ends_ordered g e : wf g -> adj g e.1 e.2 = true -> (sort_ends e).1 < (sort_ends e).2.
Proof.
  intros Hg Ha. assert (e.1 <> e.2) by (intros E; rewrite E, (wf_irrefl g Hg) in Ha; done).
  unfold sort_ends, sort_pair. destruct (Z.ltb_spec e.2 e.1); cbn; lia.
Qed.

Lemma added_ordered g added removed : rewirable g added removed -> forall e, e ∈ added -> (sort_ends e).1 < (sort_ends e).2.
Proof.
  intros [_ Ha] [u v] (pre & post & ->)%list_elem_of_split. destruct (Ha pre u v post eq_refl) as (_ & _ & Hne & _).
  unfold sort_ends, sort_pair. cbn. destruct (Z.ltb_spec v u); cbn; lia.
Qed.

Lemma edge_in_ends es e : edge_in es (sort_ends e).1 (sort_ends e).2 = edge_in es e.1 e.2.
Proof. unfold sort_ends, sort_pair. destruct (e.2 <? e.1); cbn; [apply edge_in_comm|done]. Qed.

Lemma removed_ends g es e : wf g -> removed g es (sort_ends e).1 (sort_ends e).2 = removed g es e.1 e.2.
Proof. intros Hg. unfold removed. rewrite edge_in_ends. f_equal. unfold sort_ends, sort_pair. destruct (e.2 <? e.1); [apply (wf_sym g Hg)|done]. Qed.

(** Each added edge differs from the ones before it and from the edges kept. *)
Lemma added_distinct g added removed : wf g -> rewirable g added removed ->
  distinct_edges added /\ forall e, e ∈ sort_ends <$> added -> Model.removed g removed e.1 e.2 = false.
Proof.
  intros Hg Hr. pose proof (added_ordered g added removed Hr) as Ho. destruct Hr as [_ Ha]. split.
  - unfold distinct_edges. induction added as [|[u v] added IH] using rev_ind; [constructor|].
    rewrite fmap_app. apply NoDup_app. split_all.
    + apply IH; [|intros e He; apply Ho; set_solver]. intros pre a b post E. apply (Ha pre a b (post ++ [(u, v)])). by rewrite E, <- app_assoc.
    + intros e He ->%list_elem_of_singleton. destruct (Ha added u v [] eq_refl) as (_ & _ & _ & Hf).
      unfold rewired in Hf. apply orb_false_iff in Hf as [_ Hf]. apply elem_of_sort_ends in He; [|apply Ho; set_solver].
      rewrite edge_in_ends in He. cbn in He. congruence.
    + apply NoDup_singleton.
  - intros e (f & -> & Hf)%list_elem_of_fmap. apply list_elem_of_split in Hf as (pre & post & E). destruct f as [u v].
    destruct (Ha pre u v post E) as (_ & _ & _ & Hx). unfold rewired in Hx. apply orb_false_iff in Hx as [Hx _].
    by rewrite removed_ends.
Qed.

(** The edges before and after a rewiring: those kept, with the removed ones and
    with the added ones *)
Lemma rewired_edges g h added removed : wf g -> with_edges g added removed = Ok h -> distinct_edges removed ->
  exists kept, edges g ≡ₚ (sort_ends <$> removed) ++ kept /\ edges h ≡ₚ (sort_ends <$> added) ++ kept.
Proof.
  intros Hg Hw Hd. pose proof (with_edges_inv g _ _ _ Hg Hw) as Hr. destruct (with_edges_total g added removed Hg Hr) as (h' & Hw' & Hh & _ & Hadj).
  rewrite Hw in Hw'. injection Hw' as <-. destruct (added_distinct g added removed Hg Hr) as [Hda Hnot].
  exists (filter (fun e => edge_in removed e.1 e.2 = false) (edges g)).
  assert (forall e, e ∈ edges g <-> adj g e.1 e.2 = true /\ e.1 < e.2) as Hin by (intros [u v]; by apply elem_of_edges).
  assert (forall e, e ∈ edges h <-> adj h e.1 e.2 = true /\ e.1 < e.2) as Hin' by (intros [u v]; by apply elem_of_edges).
  assert (forall e, e ∈ sort_ends <$> removed -> adj g e.1 e.2 = true /\ e.1 < e.2) as Hrem.
  { intros e (f & -> & Hf)%list_elem_of_fmap. assert (adj g f.1 f.2 = true) as Ha by (destruct f; by apply (proj1 Hr)).
    split; [|by apply (sort_ends_ordered g)]. unfold sort_ends, sort_pair. destruct (f.2 <? f.1); [by rewrite (wf_sym g Hg)|done]. }
  split; apply NoDup_Permutation; try by apply NoDup_edges.
  - apply NoDup_app. split_all; [done| |by apply NoDup_filter, NoDup_edges]. intros e He [Hf _]%list_elem_of_filter.
    apply elem_of_sort_ends in He; [congruence|by apply Hrem].
  - intros e. rewrite elem_of_app, list_elem_of_filter. destruct (edge_in removed e.1 e.2) eqn:E; split.
    + intros [_ Hlt]%Hin. left. by apply elem_of_sort_ends.
    + intros [He|[? _]]; [|done]. apply Hin. by apply Hrem.
    + intros He. by right.
    + intros [He|[_ He]]; [apply Hin; by apply Hrem|done].
  - apply NoDup_app. split_all; [done| |by apply NoDup_filter, NoDup_edges]. intros e He [Hf Hg']%list_elem_of_filter.
    apply Hin in Hg' as [Ha _]. pose proof (Hnot e He) as Hx. unfold Model.removed in Hx. by rewrite Ha, Hf in Hx.
  - intros e. rewrite elem_of_app, list_elem_of_filter, Hin', Hin, Hadj. unfold rewired, Model.removed.
    assert (e ∈ sort_ends <$> added -> e.1 < e.2) as Hao.
    { intros (f & -> & Hf)%list_elem_of_fmap. by apply (added_ordered g added removed). }
    split.
    + intros [[[Ha Hne%negb_true_iff]%andb_true_iff|Ha]%orb_true_iff Hlt]; [right; by split_all|]. left. by apply elem_of_sort_ends.
    + intros [He|(He & Ha & Hlt)]; [|split; [by rewrite Ha, He|done]]. pose proof (Hao He). split; [|done].
      apply elem_of_sort_ends in He; [|done]. by rewrite He, orb_true_r.
Qed.

Lemma rewired_zobrist g h added removed : wf g -> with_edges g added removed = Ok h -> distinct_edges removed ->
  zobrist h = Z.lxor (zobrist g) (token_sum (sort_ends <$> removed ++ added)).
Proof.
  intros Hg Hw Hd. destruct (rewired_edges g h added removed Hg Hw Hd) as (kept & Eg & Eh).
  pose proof (with_edges_inv g _ _ _ Hg Hw) as Hr. destruct (with_edges_total g added removed Hg Hr) as (h' & Hw' & _ & Hn & _).
  rewrite Hw in Hw'. injection Hw' as <-. unfold zobrist. rewrite Hn, Eg, Eh, fmap_app, !token_sum_app.
  set (r := token_sum (sort_ends <$> removed)). set (a := token_sum (sort_ends <$> added)).
  rewrite !Z.lxor_assoc. f_equal. rewrite (Z.lxor_comm a), <- !Z.lxor_assoc. f_equal.
  rewrite (Z.lxor_comm r), Z.lxor_assoc, Z.lxor_nilpotent. by rewrite Z.lxor_0_r.
Qed.

Lemma update_key g h added removed : wf g -> with_edges g added removed = Ok h -> distinct_edges removed ->
  _zobrist_update_key (_zobrist_graph_key g) removed added = Ok (_zobrist_graph_key h).
Proof.
  intros Hg Hw Hd. unfold _zobrist_update_key. rewrite !zobrist_key, hex64_read by apply zobrist_nonneg. cbn [mbind res_bind].
  by rewrite fold_tokens, (rewired_zobrist g h added removed).
Qed.

(** C23: the Zobrist key of a graph, updated with the edges a rewiring removed and
    added, is the key computed from the rewired graph. *)
Theorem zobrist_update_correct g h added removed :
  wf g -> with_edges g added removed = Ok h -> distinct_edges removed ->
  _zobrist_update_key (_zobrist_graph_key g) removed added = Ok (_zobrist_graph_key h).
Proof. apply update_key. Qed.

(** ** Different tokens *)

Lemma xorshift_inj k x y : 0 < k -> 0 <= x -> 0 <= y -> xorshift k x = xorshift k y -> x = y.
Proof.
  intros Hk Hx Hy E. unfold xorshift in E. apply Z.lxor_eq.
  assert (Z.lxor x y = Z.shiftr (Z.lxor x y) k) as H.
  { rewrite Z.shiftr_lxor. apply Z.bits_inj'. intros i _. apply (f_equal (fun z => Z.testbit z i)) in E. rewrite !Z.lxor_spec in *.
    destruct (Z.testbit x i), (Z.testbit y i), (Z.testbit (Z.shiftr x k) i), (Z.testbit (Z.shiftr y k) i); done. }
  assert (0 <= Z.lxor x y) as Hz by by apply Z.lxor_nonneg. rewrite Z.shiftr_div_pow2 in H by lia.
  destruct (Z.eq_dec (Z.lxor x y) 0) as [|Hn]; [done|]. exfalso.
  assert (Z.lxor x y / 2 ^ k < Z.lxor x y) by (apply Z.div_lt; [lia|]; apply Z.pow_gt_1; lia). lia.
Qed.

Lemma mul_mask_inj m inverse x y : word x -> word y -> (m * inverse) mod 2 ^ 64 = 1 ->
  Z.land (x * m) UINT64_MASK = Z.land (y * m) UINT64_MASK -> x = y.
Proof.
  intros Hx Hy Hm E. rewrite !mask_mod in E.
  assert (forall z, word z -> ((z * m) mod 2 ^ 64 * inverse) mod 2 ^ 64 = z) as H.
  { intros z Hz. rewrite Z.mul_mod_idemp_l, <- Z.mul_assoc, <- Z.mul_mod_idemp_r, Hm, Z.mul_1_r by done. by apply Z.mod_small. }
  by rewrite <- (H x Hx), <- (H y Hy), E.
Qed.

Lemma splitmix_inj x y : _splitmix64 x = _splitmix64 y -> x mod 2 ^ 64 = y mod 2 ^ 64.
Proof.
  unfold _splitmix64. intros E. pose proof (mask_word (x + 0x9E3779B97F4A7C15)) as Hx. pose proof (mask_word (y + 0x9E3779B97F4A7C15)) as Hy.
  apply xorshift_inj in E; [|done|apply mask_word|apply mask_word].
  apply (mul_mask_inj _ 0x319642b2d24d8ec3) in E; [|apply xorshift_word; [done|apply mask_word]..|by vm_compute].
  apply xorshift_inj in E; [|done|apply mask_word|apply mask_word].
  apply (mul_mask_inj _ 0x96de1b173f119089) in E; [|apply xorshift_word; done..|by vm_compute].
  apply xorshift_inj in E; [|done|apply Hx|apply Hy]. rewrite !mask_mod in E.
  replace x with (x + 0x9E3779B97F4A7C15 - 0x9E3779B97F4A7C15) by lia. replace y with (y + 0x9E3779B97F4A7C15 - 0x9E3779B97F4A7C15) by lia.
  by rewrite <- Zminus_mod_idemp_l, E, Zminus_mod_idemp_l.
Qed.

(** The words of a token are its digits in base [2^64]. *)
Lemma token_bits value i : 0 <= i < 64 ->
  Z.testbit (_zobrist_token value) i = Z.testbit (token_word value 0) i /\
  Z.testbit (_zobrist_token value) (64 + i) = Z.testbit (token_word value 1) i.
Proof.
  intros Hi. pose proof (fun d => splitmix_word (Z.lxor value (0xD6E8FEB86659FD93 * (d + 1)))) as Hw.
  assert (forall d j, 64 <= j -> Z.testbit (token_word value d) j = false) as Hhigh.
  { intros d j Hj. apply (testbit_above_pow2 _ 64); [apply Hw|done]. }
  unfold _zobrist_token. change (range 0 4) with [0; 1; 2; 3]. cbn [foldl]. rewrite !Z.lor_spec, !Z.shiftl_spec, !Z.bits_0 by lia.
  cbn [orb Z.mul]. split.
  - rewrite Z.sub_0_r, (Z.testbit_neg_r _ (i - 1 * 64)), (Z.testbit_neg_r _ (i - 2 * 64)), (Z.testbit_neg_r _ (i - 3 * 64)) by lia.
    by rewrite !orb_false_r.
  - rewrite Z.sub_0_r, (Hhigh 0), (Z.testbit_neg_r _ (64 + i - 2 * 64)), (Z.testbit_neg_r _ (64 + i - 3 * 64)) by lia.
    rewrite !orb_false_r. cbn [orb]. f_equal. lia.
Qed.

Lemma word_ext x y : word x -> word y -> (forall i, 0 <= i < 64 -> Z.testbit x i = Z.testbit y i) -> x = y.
Proof.
  intros Hx Hy H. apply Z.bits_inj'. intros i Hi. destruct (Z.lt_ge_cases i 64) as [|Hge]; [by apply H|].
  by rewrite !(testbit_above_pow2 _ 64) by done.
Qed.

Lemma lxor_word x y : word x -> word y -> word (Z.lxor x y).
Proof.
  intros [Hx Hx'] [Hy Hy']. assert (0 <= Z.lxor x y) by by apply Z.lxor_nonneg. split; [done|].
  apply testbit_lt_pow2; [done| |done]. intros i Hi. rewrite Z.lxor_spec in Hi. destruct (Z.lt_ge_cases i 64) as [|Hge]; [done|].
  by rewrite !(testbit_above_pow2 _ 64) in Hi by done.
Qed.

Lemma lxor_cancel a b c : Z.lxor a c = Z.lxor b c -> a = b.
Proof.
  intros E. apply (f_equal (fun z => Z.lxor z c)) in E. by rewrite !Z.lxor_assoc, !Z.lxor_nilpotent, !Z.lxor_0_r in E.
Qed.

Lemma token_inj a b : word a -> word b -> _zobrist_token a = _zobrist_token b -> a = b.
Proof.
  intros Ha Hb E. assert (token_word a 0 = token_word b 0) as H.
  { apply word_ext; [apply splitmix_word..|]. intros i Hi. rewrite <- !(proj1 (token_bits _ i Hi)). by rewrite E. }
  apply splitmix_inj in H. assert (word 0xD6E8FEB86659FD93) as Hc by done.
  change (0xD6E8FEB86659FD93 * (0 + 1)) with 0xD6E8FEB86659FD93 in H.
  rewrite !Z.mod_small in H by by apply lxor_word. by apply lxor_cancel in H.
Qed.

Lemma token_nonzero a : _zobrist_token a <> 0.
Proof.
  intros E. assert (token_word a 0 = token_word a 1) as H.
  { apply word_ext; [apply splitmix_word..|]. intros i Hi. destruct (token_bits a i Hi) as [H0 H1]. by rewrite <- H0, <- H1, E, !Z.bits_0. }
  apply splitmix_inj in H. change (0xD6E8FEB86659FD93 * (0 + 1)) with 0xD6E8FEB86659FD93 in H. change (0xD6E8FEB86659FD93 * (1 + 1)) with (2 * 0xD6E8FEB86659FD93) in H.
  apply (f_equal (fun z => Z.testbit z 0)) in H. rewrite !(Z.mod_pow2_bits_low _ 64) in H by lia. rewrite !Z.lxor_spec in H.
  change (Z.testbit 0xD6E8FEB86659FD93 0) with true in H. change (Z.testbit (2 * 0xD6E8FEB86659FD93) 0) with false in H.
  by destruct (Z.testbit a 0).
Qed.

(** An edge of a graph with at most [2^32] vertices *)
Definition short_edge (e : Z * Z) : Prop := 0 <= e.1 < 2 ^ 32 /\ 0 <= e.2 < 2 ^ 32.

Lemma edge_code e : short_edge e -> Z.lor (Z.shiftl e.1 32) e.2 = e.1 * 2 ^ 32 + e.2.
Proof.
  intros [H1 H2]. rewrite Z.shiftl_mul_pow2 by done. symmetry. apply Z.add_nocarry_lor. apply Z.bits_inj'. intros i Hi.
  rewrite Z.land_spec, Z.bits_0, <- Z.shiftl_mul_pow2, Z.shiftl_spec by done. destruct (Z.lt_ge_cases i 32).
  - by rewrite Z.testbit_neg_r by lia.
  - by rewrite (testbit_above_pow2 e.2 32), andb_false_r by done.
Qed.

Lemma edge_token_inj e f : short_edge e -> short_edge f -> edge_token e = edge_token f -> e = f.
Proof.
  intros He Hf. unfold edge_token. rewrite !edge_code by done. destruct e as [a b], f as [c d], He, Hf. cbn [fst snd] in *.
  change (2 ^ 32) with 4294967296 in *. intros E. apply token_inj in E; [f_equal; lia|..]; unfold word; change (2 ^ 64) with 18446744073709551616; lia.
Qed.

Lemma ends_short g e : wf g -> gn g <= 2 ^ 32 -> e ∈ edges g -> short_edge e.
Proof.
  intros Hg Hn He. destruct e as [u v]. apply elem_of_edges in He as [Ha _]; [|done]. destruct (wf_range g Hg u v Ha) as [[? ?] [? ?]].
  unfold short_edge. cbn. lia.
Qed.

Lemma same_edges g h : wf g -> wf h -> gn g = gn h -> edges g ≡ₚ edges h -> g = h.
Proof.
  intros Hg Hh Hn He. apply graph_ext; [done..|]. intros u v. rewrite <- (edge_in_edges g), <- (edge_in_edges h) by done.
  apply eq_true_iff_eq. rewrite !edge_in_true. by setoid_rewrite He.
Qed.

Lemma few_tokens l : (length l <= 2)%nat -> (forall e, e ∈ l -> short_edge e) -> token_sum l = 0 ->
  l = [] \/ exists e, l = [e; e].
Proof.
  intros Hl Hs H. destruct l as [|e [|f [|]]]; [by left| | |cbn in Hl; lia]; cbn [token_sum] in H.
  - rewrite Z.lxor_0_r in H. by apply token_nonzero in H.
  - right. exists e. rewrite Z.lxor_0_r in H. apply Z.lxor_eq, edge_token_inj in H; [by subst f|apply Hs; set_solver..].
Qed.

(** the Zobrist keys of two graphs that differ in one or two edges differ:
    no collision hides such a change. *)
Theorem near_keys_differ g h added removed :
  wf g -> gn g <= 2 ^ 32 -> with_edges g added removed = Ok h -> distinct_edges removed ->
  (length removed + length added <= 2)%nat -> h <> g -> _zobrist_graph_key h <> _zobrist_graph_key g.
Proof.
  intros Hg Hn Hw Hd Hl Hne E. rewrite !zobrist_key in E. apply hex64_inj in E; [|apply zobrist_nonneg..].
  rewrite (rewired_zobrist g h added removed) in E by done.
  assert (token_sum (sort_ends <$> removed ++ added) = 0) as H0 by (apply (lxor_cancel _ _ (zobrist g)); by rewrite Z.lxor_comm, E, Z.lxor_0_l).
  destruct (rewired_edges g h added removed Hg Hw Hd) as (kept & Eg & Eh).
  pose proof (with_edges_inv g _ _ _ Hg Hw) as Hr. destruct (with_edges_total g added removed Hg Hr) as (h' & Hw' & Hh & Hnn & _).
  rewrite Hw in Hw'. injection Hw' as <-.
  assert (forall e, e ∈ sort_ends <$> removed ++ added -> short_edge e) as Hs.
  { intros e He. rewrite fmap_app in He. apply elem_of_app in He as [He|He].
    - apply (ends_short g); [done..|]. rewrite Eg. apply elem_of_app. by left.
    - apply (ends_short h); [done|lia|]. rewrite Eh. apply elem_of_app. by left. }
  apply few_tokens in H0; [|rewrite length_fmap, length_app; lia|done]. rewrite fmap_app in H0.
  apply Hne. symmetry. apply same_edges; [done..|]. rewrite Eg, Eh.
  destruct H0 as [H0|(e & H0)]; [by apply app_eq_nil in H0 as [-> ->]|].
  destruct (added_distinct g added removed Hg Hr) as [Hda _]. unfold distinct_edges in *.
  destruct (sort_ends <$> removed) as [|x [|y l]]; cbn in H0.
  - rewrite H0 in Hda. apply NoDup_cons in Hda as [[] _]. by left.
  - injection H0 as -> ->. done.
  - injection H0 as -> -> _. apply NoDup_cons in Hd as [[] _]. by left.
Qed.

(** ** The optimised SHA-256 key *)

Definition zbit (b : bool) : Z := if b then 1 else 0.

Definition six (bs : list bool) (i : Z) : Z :=
  foldl (fun acc j => acc + Z.shiftl (zbit (bit_at bs (6 * i + j))) (5 - j)) 0 (range 0 6).

Lemma six_bits b0 b1 b2 b3 b4 b5 : let v := zbit b0 * 32 + zbit b1 * 16 + zbit b2 * 8 + zbit b3 * 4 + zbit b4 * 2 + zbit b5 in
  0 <= v < 64 /\ Z.testbit v 5 = b0 /\ Z.testbit v 4 = b1 /\ Z.testbit v 3 = b2 /\ Z.testbit v 2 = b3 /\ Z.testbit v 1 = b4 /\ Z.testbit v 0 = b5.
Proof. destruct b0, b1, b2, b3, b4, b5; vm_compute; repeat split; discriminate. Qed.

Lemma six_spec bs i : 0 <= six bs i < 64 /\ forall j, 0 <= j < 6 -> Z.testbit (six bs i) (5 - j) = bit_at bs (6 * i + j).
Proof.
  assert (six bs i = zbit (bit_at bs (6 * i + 0)) * 32 + zbit (bit_at bs (6 * i + 1)) * 16 + zbit (bit_at bs (6 * i + 2)) * 8 +
    zbit (bit_at bs (6 * i + 3)) * 4 + zbit (bit_at bs (6 * i + 4)) * 2 + zbit (bit_at bs (6 * i + 5))) as E.
  { unfold six. change (range 0 6) with [0; 1; 2; 3; 4; 5]. cbn [foldl]. rewrite !Z.shiftl_mul_pow2 by done. cbn. lia. }
  rewrite E. pose proof (six_bits (bit_at bs (6 * i + 0)) (bit_at bs (6 * i + 1)) (bit_at bs (6 * i + 2)) (bit_at bs (6 * i + 3))
    (bit_at bs (6 * i + 4)) (bit_at bs (6 * i + 5))) as (Hv & H5 & H4 & H3 & H2 & H1 & H0). split; [exact Hv|].
  intros j Hj. apply elem_of_range in Hj. change (range 0 6) with [0; 1; 2; 3; 4; 5] in Hj.
  repeat (apply elem_of_cons in Hj as [->|Hj]; [done|]). by apply elem_of_nil in Hj.
Qed.

Lemma stream_byte enc i j : 0 <= i -> 0 <= j < 6 -> stream_bit enc (6 * i + j) = Z.testbit (cell enc i - 63) (5 - j).
Proof.
  intros Hi Hj. unfold stream_bit. replace ((6 * i + j) / 6) with i by (apply (Z.div_unique_pos _ _ _ j); lia).
  by replace ((6 * i + j) mod 6) with j by (apply (Z.mod_unique_pos _ _ i); lia).
Qed.

Lemma packs_unique bs e1 e2 : packs bs e1 -> packs bs e2 -> e1 = e2.
Proof.
  intros [L1 B1 S1 P1] [L2 B2 S2 P2]. apply list_eq_same_length with (n := length e1); [lia|done|].
  intros i x y Hi Hx Hy. rewrite Forall_forall in B1, B2.
  pose proof (B1 x (list_elem_of_lookup_2 _ _ _ Hx)) as Bx. pose proof (B2 y (list_elem_of_lookup_2 _ _ _ Hy)) as By. unfold sixbit in *.
  enough (x - 63 = y - 63) by lia. apply Z.bits_inj'. intros k Hk. destruct (Z.lt_ge_cases k 6) as [Hk6|Hk6].
  2: { by rewrite !(testbit_above_pow2 _ 6) by (change (2 ^ 6) with 64; lia). }
  assert (forall e z, e !! i = Some z -> stream_bit e (6 * Z.of_nat i + (5 - k)) = Z.testbit (z - 63) k) as H.
  { intros e z Hz. rewrite stream_byte by lia. rewrite (cell_lookup e (Z.of_nat i) z) by by rewrite Nat2Z.id. f_equal. lia. }
  rewrite <- (H e1 x Hx), <- (H e2 y Hy). set (q := 6 * Z.of_nat i + (5 - k)).
  destruct (Z.lt_ge_cases q (Z.of_nat (length bs))); [by rewrite S1, S2 by lia|]. by rewrite P1, P2 by lia.
Qed.

Lemma as_bytes_ok l : Forall (fun b => 0 <= b < 256) l -> as_bytes l = Ok l.
Proof.
  intros Hl. unfold as_bytes. replace (forallb _ l) with true; [done|]. symmetry. apply forallb_forall.
  intros b Hb%list_elem_of_In. rewrite Forall_forall in Hl. specialize (Hl b Hb). lia.
Qed.

Lemma reference_prefix_order n : 0 <= n -> reference_prefix n = enc_order n.
Proof.
  intros Hn. unfold reference_prefix, enc_order. destruct (Z.leb_spec n 62); [apply as_bytes_ok; repeat constructor; lia|].
  destruct (n <=? 258047); [|done]. apply as_bytes_ok.
  pose proof (land_63 (Z.shiftr n 12)). pose proof (land_63 (Z.shiftr n 6)). pose proof (land_63 n).
  repeat (apply Forall_cons; split; [lia|]). apply Forall_nil_2.
Qed.

Lemma reference_bits_run g : wf g -> reference_bits g = Ok (zbit <$> triangle_bits g).
Proof.
  intros Hg. unfold reference_bits, triangle_bits. rewrite <- list_fmap_compose. apply mapM_fmap. intros [u v] Huv.
  apply elem_of_triangle in Huv as [Hu Hv]. by rewrite has_edge_adj by (done || unfold vertex; cbn; lia).
Qed.

Lemma six_value_run bs i : 0 <= i -> 6 * i + 6 <= Z.of_nat (length bs) -> six_value (zbit <$> bs) (6 * i) = Ok (six bs i).
Proof.
  intros Hi Hl. unfold six_value, six.
  assert (forall j, 0 <= j < 6 -> py_index (zbit <$> bs) (6 * i + j) = Ok (zbit (bit_at bs (6 * i + j)))) as H.
  { intros j Hj. destruct (py_index_in_range (zbit <$> bs) (6 * i + j)) as (x & Hx & ->); [rewrite length_fmap; lia|].
    rewrite list_lookup_fmap in Hx. unfold bit_at. by destruct (bs !! _); [injection Hx as <-|]. }
  change (range 0 6) with [0; 1; 2; 3; 4; 5]. cbn [foldM foldl]. by rewrite !H by lia.
Qed.

Definition padding (n : nat) : nat := Z.to_nat ((- Z.of_nat n) mod 6).

Lemma padded_packs bs : packs bs ((fun i => six (bs ++ replicate (padding (length bs)) false) i + 63) <$>
  range 0 ((Z.of_nat (length bs) + Z.of_nat (padding (length bs))) / 6)).
Proof.
  pose proof (Z.mod_pos_bound (- Z.of_nat (length bs)) 6 ltac:(done)) as Hp. unfold padding at 2. rewrite Z2Nat.id by lia.
  set (p := (- Z.of_nat (length bs)) mod 6) in *. set (n := Z.of_nat (length bs)) in *.
  pose proof (Z.div_mod (- n) 6 ltac:(done)) as Hdm. fold p in Hdm. set (m := (n + p) / 6).
  assert (6 * m = n + p) as Hm.
  { unfold m. replace (n + p) with ((- (- n / 6)) * 6) by lia. rewrite Z.div_mul by done. lia. }
  set (pb := bs ++ replicate (padding (length bs)) false).
  assert (forall i, 0 <= i < n -> bit_at pb i = bit_at bs i) as Hin by (intros; unfold bit_at, pb; by rewrite lookup_app_l by lia).
  assert (forall i, n <= i -> bit_at pb i = false) as Hout.
  { intros i Hi. unfold bit_at, pb. rewrite lookup_app_r by lia. destruct (replicate _ _ !! _) as [x|] eqn:E; [|done].
    by apply lookup_replicate in E as [-> _]. }
  assert (forall i, 0 <= i < 6 * m -> stream_bit ((fun i => six pb i + 63) <$> range 0 m) i = bit_at pb i) as Hs.
  { intros i Hi. pose proof (Z.div_mod i 6 ltac:(done)) as E. pose proof (Z.mod_pos_bound i 6 ltac:(done)) as Hj.
    assert (0 <= i / 6 < m) as Hd by (split; [apply Z.div_pos; lia|apply Z.div_lt_upper_bound; lia]).
    rewrite E at 1. rewrite stream_byte by lia. rewrite (cell_lookup _ _ (six pb (i / 6) + 63)).
    - replace (six pb (i / 6) + 63 - 63) with (six pb (i / 6)) by lia. rewrite (proj2 (six_spec pb (i / 6))) by done. f_equal. lia.
    - rewrite list_lookup_fmap. unfold range. rewrite lookup_seqZ_lt by lia. cbn. repeat f_equal; lia. }
  split; rewrite ?length_fmap, ?length_range.
  - unfold n in *. rewrite Z2Nat.id by lia. rewrite Z.sub_0_r. apply (Z.div_unique_pos _ _ _ (5 - p)); lia.
  - apply Forall_fmap, Forall_true. intros i. pose proof (proj1 (six_spec pb i)). cbn. unfold sixbit. lia.
  - intros i Hi. rewrite Hs by lia. by apply Hin.
  - intros i Hi. rewrite Hs by lia. apply Hout. lia.
Qed.

(** the optimised SHA-256 key of a graph is the reference one, which builds
    the bit string and its bytes anew: same text, same errors. *)
Theorem legacy_key_correct sha256 g : wf g -> _legacy_graph_key_reference sha256 g = stable_hash sha256 g.
Proof.
  intros Hg. unfold _legacy_graph_key_reference, stable_hash. rewrite reference_prefix_order by apply (wf_n g Hg).
  destruct (Z.leb_spec (gn g) 258047) as [Hn|Hn].
  2: { unfold encode_graph6_into, enc_order. replace (gn g <=? 62) with false by lia. by replace (gn g <=? 258047) with false by lia. }
  destruct (encode_packs g Hn) as (order & enc & -> & -> & Hp). cbn [mbind res_bind]. rewrite reference_bits_run by done. cbn [mbind res_bind].
  rewrite length_fmap. fold (padding (length (triangle_bits g))). set (bs := triangle_bits g) in *.
  assert ((zbit <$> bs) ++ replicate (padding (length bs)) 0 = zbit <$> bs ++ replicate (padding (length bs)) false) as ->
    by by rewrite fmap_app, fmap_replicate.
  rewrite length_fmap, length_app, length_replicate, Nat2Z.inj_add. pose proof (padded_packs bs) as Hp'.
  set (m := (Z.of_nat (length bs) + Z.of_nat (padding (length bs))) / 6) in *. set (pb := bs ++ replicate _ false) in *.
  rewrite (mapM_fmap _ (fun i => six pb i + 63)).
  - cbn [mbind res_bind]. rewrite as_bytes_ok.
    + cbn [mbind res_bind]. by rewrite (packs_unique bs _ _ Hp' Hp).
    + apply Forall_fmap, Forall_true. intros i. pose proof (proj1 (six_spec pb i)). cbn. lia.
  - intros i [H0 Hi]%elem_of_range. rewrite six_value_run; [done|done|]. unfold pb. rewrite length_app, length_replicate.
    pose proof (Z.mul_div_le (Z.of_nat (length bs) + Z.of_nat (padding (length bs))) 6 ltac:(done)). fold m in H. lia.
Qed.

(** The older names of a scheme are read as the scheme. *)
Lemma scheme_alias scheme : scheme = LEGACY_GRAPH_KEY_SCHEME \/ scheme = FAST_GRAPH_KEY_SCHEME ->
  _normalize_duplicate_key_scheme (JStr (_duplicate_key_compatibility_alias scheme)) = Ok scheme /\
  _normalize_duplicate_key_scheme (JStr scheme) = Ok scheme.
Proof. by intros [->| ->]. Qed.

Module KeyWitness.
(** The complete graph on four vertices, and what is left without one edge *)
Definition diamond : BitGraph := mkBitGraph 4 [12; 12; 11; 7].

Lemma diamond_rewired : with_edges K4 [] [(1, 0)] = Ok diamond.
Proof. reflexivity. Qed.

Lemma zobrist_update_correct_witness : _zobrist_update_key (_zobrist_graph_key K4) [(1, 0)] [] = Ok (_zobrist_graph_key diamond).
Proof. apply zobrist_update_correct; [apply K4_wf|reflexivity|apply (bool_decide_unpack (NoDup [(0, 1)])); reflexivity]. Defined.

Lemma near_keys_differ_witness : _zobrist_graph_key diamond <> _zobrist_graph_key K4.
Proof.
  apply (near_keys_differ K4 diamond [] [(1, 0)]); [apply K4_wf|cbn; lia|reflexivity| |cbn; lia|discriminate].
  apply (bool_decide_unpack (NoDup [(0, 1)])). reflexivity.
Defined.

Lemma legacy_key_correct_witness : _legacy_graph_key_reference text_of K4 = stable_hash text_of K4.
Proof. apply legacy_key_correct, K4_wf. Defined.
End KeyWitness.
