(* ===== verification/SeedMetrics.v ===== *)
(** * Counters of seed generation

    [src/src/sglab/research/lanes.py]: [SeedMetricCounters] with its bounded
    histograms and percentiles, and [SeedGenerationAccumulator], which keeps them
    for each source of seeds and in total; their payloads and how a lane reads
    them back from a checkpoint. Elapsed times are arguments. *)

From S2P Require Import Prelude Floats FloatBounds Json Convert Bits Model Rng Rewiring Seed.

#[global] Open Scope Z_scope.

(** ** Histograms *)

Definition SEED_GENERATION_SOURCES : list string :=
  ["initial_lane_seed"; "automatic_algorithm_restart"; "explicit_director_restart"; "random_restart_candidate"]%string.
Definition SEED_ATTEMPT_BUCKET_UPPER_BOUNDS : list Z := [1; 2; 4; 8; 16; 32; 64; 128; 256; 512; 1024; 2048].
Definition SEED_ELAPSED_NS_BUCKET_UPPER_BOUNDS : list Z :=
  [10000; 50000; 100000; 500000; 1000000; 5000000; 10000000; 50000000; 100000000; 500000000; 1000000000; 5000000000].
Definition SEED_FAILURE_CATEGORIES : list string :=
  ["cubic_matching_construction_exhaustion"; "mixed_degree_stub_construction_exhaustion"; "invalid_generator_configuration";
   "other_implementation_failure"]%string.

(** The first bucket whose bound is not exceeded, else one past the last *)
Fixpoint bucket_from (i value : Z) (upper_bounds : list Z) : Z :=
  match upper_bounds with
  | [] => i
  | b :: bs => if value <=? b then i else bucket_from (i + 1) value bs
  end.
Definition _bounded_histogram_index (value : Z) (upper_bounds : list Z) : Z := bucket_from 0 value upper_bounds.

(** The loop: [upper_bounds[-1] + 1] stands for the last bucket and past the end *)
Fixpoint percentile_from (target observed last : Z) (counts upper_bounds : list Z) : Z :=
  match counts with
  | [] => last + 1
  | c :: counts' =>
      let observed := observed + c in
      if target <=? observed then match upper_bounds with b :: _ => b | [] => last + 1 end
      else percentile_from target observed last counts' (tail upper_bounds)
  end.

Definition _histogram_percentile (counts upper_bounds : list Z) (percentile : float) : res Z :=
  let total := foldl Z.add 0 counts in
  if total =? 0 then Ok 0
  else
    x ← f_of_Z total; c ← py_ceil (f_mul x percentile);
    last ← py_index upper_bounds (-1);
    Ok (percentile_from (Z.max 1 c) 0 last counts upper_bounds).

Definition p50 : float := f_ratio 50 100.
Definition p95 : float := f_ratio 95 100.
Definition p99 : float := f_ratio 99 100.

(** ** [SeedMetricCounters] *)

Record SeedMetricCounters := mkCounters {
  calls : Z;
  successes : Z;
  failures : Z;
  attempts_total : Z;
  attempts_max : Z;
  retry_budget_total : Z;
  retry_budget_max : Z;
  retry_budget_exhaustions : Z;
  elapsed_ns_total : Z;
  elapsed_ns_max : Z;
  search_loop_elapsed_ns : Z;
  attempt_histogram : list Z;
  elapsed_ns_histogram : list Z;
  failure_categories : list (string * Z)
}.

Definition new_counters : SeedMetricCounters :=
  mkCounters 0 0 0 0 0 0 0 0 0 0 0
    (replicate (length SEED_ATTEMPT_BUCKET_UPPER_BOUNDS + 1) 0) (replicate (length SEED_ELAPSED_NS_BUCKET_UPPER_BOUNDS + 1) 0)
    ((fun c => (c, 0)) <$> SEED_FAILURE_CATEGORIES).

(** One observation: attempts, retry budget, elapsed time, failure, and whether
    it was made in the search loop *)
Record Observation := mkObservation {
  o_attempts : Z; o_retry_budget : Z; o_elapsed_ns : Z; o_failure : option string; o_in_search_loop : bool
}.

(** [self.failure_categories[category] += 1] *)
Definition add_failure (d : list (string * Z)) (category : string) : list (string * Z) :=
  dict_set d category (default 0 (dict_get d category) + 1).
Definition category_of (d : list (string * Z)) (failure_category : string) : string :=
  match dict_get d failure_category with Some _ => failure_category | None => "other_implementation_failure" end.

Definition record (o : Observation) (c : SeedMetricCounters) : res SeedMetricCounters :=
  ah ← incr (attempt_histogram c) (_bounded_histogram_index (o_attempts o) SEED_ATTEMPT_BUCKET_UPPER_BOUNDS) 1;
  eh ← incr (elapsed_ns_histogram c) (_bounded_histogram_index (o_elapsed_ns o) SEED_ELAPSED_NS_BUCKET_UPPER_BOUNDS) 1;
  let failed := match o_failure o with None => false | Some _ => true end in
  Ok (mkCounters (calls c + 1) (if failed then successes c else successes c + 1) (if failed then failures c + 1 else failures c)
    (attempts_total c + o_attempts o) (Z.max (attempts_max c) (o_attempts o))
    (retry_budget_total c + o_retry_budget o) (Z.max (retry_budget_max c) (o_retry_budget o))
    (if failed && (0 <? o_retry_budget o) && (o_retry_budget o <=? o_attempts o) then retry_budget_exhaustions c + 1 else retry_budget_exhaustions c)
    (elapsed_ns_total c + o_elapsed_ns o) (Z.max (elapsed_ns_max c) (o_elapsed_ns o))
    (if o_in_search_loop o then search_loop_elapsed_ns c + o_elapsed_ns o else search_loop_elapsed_ns c)
    ah eh
    (match o_failure o with
     | None => failure_categories c
     | Some f => add_failure (failure_categories c) (category_of (failure_categories c) f)
     end)).

(** [a / b if b else 0.0] *)
Definition ratio_or_zero (a b : Z) : res float := if b =? 0 then Ok (S754_zero false) else py_truediv a b.

Definition percentiles (counts bounds : list Z) : res json :=
  a ← _histogram_percentile counts bounds p50;
  b ← _histogram_percentile counts bounds p95;
  c ← _histogram_percentile counts bounds p99;
  Ok (JObj [("p50", JInt a); ("p95", JInt b); ("p99", JInt c)]%string).

Definition counters_payload (c : SeedMetricCounters) : res (list (string * json)) :=
  am ← ratio_or_zero (attempts_total c) (calls c);
  ap ← percentiles (attempt_histogram c) SEED_ATTEMPT_BUCKET_UPPER_BOUNDS;
  rm ← ratio_or_zero (retry_budget_total c) (calls c);
  mf ← ratio_or_zero (attempts_max c) (retry_budget_max c);
  em ← ratio_or_zero (elapsed_ns_total c) (calls c);
  ep ← percentiles (elapsed_ns_histogram c) SEED_ELAPSED_NS_BUCKET_UPPER_BOUNDS;
  Ok [("calls", JInt (calls c)); ("successes", JInt (successes c)); ("failures", JInt (failures c));
      ("attempts_total", JInt (attempts_total c)); ("attempts_mean", JFloat am); ("attempts_max", JInt (attempts_max c));
      ("attempt_percentiles", ap); ("retry_budget_total", JInt (retry_budget_total c)); ("retry_budget_mean", JFloat rm);
      ("retry_budget_max", JInt (retry_budget_max c)); ("maximum_retry_budget_fraction", JFloat mf);
      ("retry_budget_exhaustions", JInt (retry_budget_exhaustions c)); ("elapsed_ns_total", JInt (elapsed_ns_total c));
      ("elapsed_ns_mean", JFloat em); ("elapsed_ns_max", JInt (elapsed_ns_max c)); ("elapsed_ns_percentiles", ep);
      ("search_loop_elapsed_ns", JInt (search_loop_elapsed_ns c)); ("attempt_histogram", JList (JInt <$> attempt_histogram c));
      ("elapsed_ns_histogram", JList (JInt <$> elapsed_ns_histogram c));
      ("failure_categories", JObj ((fun kv => (kv.1, JInt kv.2)) <$> failure_categories c))]%string.

(** [int(payload.get(name, 0))] *)
Definition int_field (d : list (string * json)) (name : string) : res Z := to_int (get_or d name (JInt 0)).

(** A histogram of the payload, when it is a list of the right length *)
Definition read_histogram (v : json) (fresh : list Z) : res (list Z) :=
  match v with
  | JList l => if (length l =? length fresh)%nat then mapM to_int l else Ok fresh
  | _ => Ok fresh
  end.

Definition counters_from_payload (d : list (string * json)) : res SeedMetricCounters :=
  c ← int_field d "calls"; s ← int_field d "successes"; f ← int_field d "failures";
  at' ← int_field d "attempts_total"; am ← int_field d "attempts_max";
  rt ← int_field d "retry_budget_total"; rm ← int_field d "retry_budget_max"; re ← int_field d "retry_budget_exhaustions";
  et ← int_field d "elapsed_ns_total"; em ← int_field d "elapsed_ns_max"; sl ← int_field d "search_loop_elapsed_ns";
  ah ← read_histogram (get_or d "attempt_histogram" (JList [])) (attempt_histogram new_counters);
  eh ← read_histogram (get_or d "elapsed_ns_histogram" (JList [])) (elapsed_ns_histogram new_counters);
  fc ← match get_or d "failure_categories" (JObj []) with
       | JObj cats => mapM (fun category => n ← int_field cats category; Ok (category, n)) SEED_FAILURE_CATEGORIES
       | _ => Ok (failure_categories new_counters)
       end;
  Ok (mkCounters c s f at' am rt rm re et em sl ah eh fc).

(** ** [SeedGenerationAccumulator] *)

Record SeedGenerationAccumulator := mkAccumulator {
  total : SeedMetricCounters;
  sources : list (string * SeedMetricCounters);
  measured_search_loop_ns : Z
}.

Definition new_accumulator : SeedGenerationAccumulator :=
  mkAccumulator new_counters ((fun s => (s, new_counters)) <$> SEED_GENERATION_SOURCES) 0.

(** The observation of a trace *)
Definition observed (t : Trace) (elapsed_ns : Z) (in_search_loop : bool) : Observation :=
  mkObservation (attempts t) (retry_budget t) elapsed_ns (failure_category t) in_search_loop.

Definition accumulate (source : string) (o : Observation) (a : SeedGenerationAccumulator) : res SeedGenerationAccumulator :=
  match dict_get (sources a) source with
  | None => Raise (ValueError ("unsupported seed generation source: " ++ source)%string)
  | Some c =>
      t ← record o (total a);
      c ← record o c;
      Ok (mkAccumulator t (dict_set (sources a) source c) (measured_search_loop_ns a))
  end.

Definition add_loop_ns (ns : Z) (a : SeedGenerationAccumulator) : SeedGenerationAccumulator :=
  mkAccumulator (total a) (sources a) (measured_search_loop_ns a + ns).

(** [self.sources[source].payload()] *)
Definition source_payload (a : SeedGenerationAccumulator) (source : string) : res (string * json) :=
  match dict_get (sources a) source with
  | Some c => p ← counters_payload c; Ok (source, JObj p)
  | None => Raise KeyError
  end.

Definition accumulator_payload (a : SeedGenerationAccumulator) (graph_family : string) (graph_order : Z) (generator_mode : string)
  : res (list (string * json)) :=
  t ← counters_payload (total a);
  share ← ratio_or_zero (search_loop_elapsed_ns (total a)) (measured_search_loop_ns a);
  ss ← mapM (source_payload a) SEED_GENERATION_SOURCES;
  Ok [("schema_version", JInt 1); ("graph_family", JStr graph_family); ("graph_order", JInt graph_order);
      ("generator_mode", JStr generator_mode); ("attempt_bucket_upper_bounds", JList (JInt <$> SEED_ATTEMPT_BUCKET_UPPER_BOUNDS));
      ("elapsed_ns_bucket_upper_bounds", JList (JInt <$> SEED_ELAPSED_NS_BUCKET_UPPER_BOUNDS));
      ("measured_search_loop_ns", JInt (measured_search_loop_ns a)); ("generator_time_share", JFloat share);
      ("total", JObj t); ("sources", JObj ss)]%string.

Definition accumulator_from_payload (d : list (string * json)) : res SeedGenerationAccumulator :=
  t ← match get d "total" with JObj t => counters_from_payload t | _ => Ok new_counters end;
  ss ← match get d "sources" with
       | JObj sd => mapM (fun source => c ← counters_from_payload (match get sd source with JObj c => c | _ => [] end); Ok (source, c))
                      SEED_GENERATION_SOURCES
       | _ => Ok (sources new_accumulator)
       end;
  ns ← int_field d "measured_search_loop_ns";
  Ok (mkAccumulator t ss ns).

Definition sample : Observation := mkObservation 3 64 20000 None true.
Example sample_recorded : attempt_histogram <$> record sample new_counters = Ok [0; 0; 1; 0; 0; 0; 0; 0; 0; 0; 0; 0; 0].
Proof. vm_compute. reflexivity. Qed.
Example sample_percentile : _histogram_percentile [0; 5; 93; 2; 0] [1; 2; 4; 8] p95 = Ok 4.
Proof. vm_compute. reflexivity. Qed.
