(* ===== verification/SeedMetricsProofs.v ===== *)
(** * What the counters of seed generation say

    The bounded counters are a summary of the whole log of observations; the
    percentiles are quantiles of that log up to the bounds of the buckets; a
    checkpoint gives the counters back. *)

From stdpp Require Import sorting.
From S2P Require Import Prelude Floats FloatBounds Json Convert Bits Model Rng Rewiring Seed SeedMetrics.

#[global] Open Scope Z_scope.

(** ** The summary of a log *)

Section Summary.
Context {A : Type}.
Implicit Types (p q r : A -> bool) (f : A -> Z).

Fixpoint sum_by (f : A -> Z) (l : list A) : Z :=
  match l with [] => 0 | x :: l' => f x + sum_by f l' end.
Definition count_by (p : A -> bool) : list A -> Z := sum_by (fun x => if p x then 1 else 0).
Definition max_by (f : A -> Z) (l : list A) : Z := foldl (fun m x => Z.max m (f x)) 0 l.

Lemma sum_by_app f l k : sum_by f (l ++ k) = sum_by f l + sum_by f k.
Proof. induction l as [|x l IH]; cbn; [done|]. rewrite IH. lia. Qed.

Lemma sum_by_snoc f l x : sum_by f (l ++ [x]) = sum_by f l + f x.
Proof. rewrite sum_by_app. cbn. lia. Qed.

Lemma max_by_snoc f l x : max_by f (l ++ [x]) = Z.max (max_by f l) (f x).
Proof. unfold max_by. by rewrite foldl_app. Qed.

Lemma count_by_snoc p l x : count_by p (l ++ [x]) = count_by p l + (if p x then 1 else 0).
Proof. apply sum_by_snoc. Qed.

Lemma count_by_nonneg p l : 0 <= count_by p l.
Proof. unfold count_by. induction l as [|x l IH]; cbn; [done|]. destruct (p x); lia. Qed.

Lemma count_by_all l : count_by (fun _ => true) l = Z.of_nat (length l).
Proof. unfold count_by. induction l as [|x l IH]; [done|]. cbn [sum_by length]. rewrite IH. lia. Qed.

Lemma count_by_ext p q l : (forall x, p x = q x) -> count_by p l = count_by q l.
Proof. intros E. unfold count_by. induction l as [|x l IH]; cbn; [done|]. by rewrite IH, E. Qed.

Lemma count_by_split p q r l : (forall x, (if p x then 1 else 0) = (if q x then 1 else 0) + (if r x then 1 else 0)) ->
  count_by p l = count_by q l + count_by r l.
Proof. intros E. unfold count_by. induction l as [|x l IH]; cbn; [done|]. specialize (E x). lia. Qed.
End Summary.

Definition failed (o : Observation) : bool := match o_failure o with None => false | Some _ => true end.
Definition succeeded (o : Observation) : bool := negb (failed o).
Definition exhausted (o : Observation) : bool := failed o && (0 <? o_retry_budget o) && (o_retry_budget o <=? o_attempts o).
(** The category an observation is counted under *)
Definition counted_as (category : string) (o : Observation) : bool :=
  match o_failure o with
  | None => false
  | Some f => bool_decide ((if bool_decide (f ∈ SEED_FAILURE_CATEGORIES) then f else "other_implementation_failure"%string) = category)
  end.
Definition in_bucket (value : Observation -> Z) (bounds : list Z) (i : Z) (o : Observation) : bool :=
  _bounded_histogram_index (value o) bounds =? i.
Definition histogram (value : Observation -> Z) (bounds : list Z) (log : list Observation) : list Z :=
  (fun i => count_by (in_bucket value bounds i) log) <$> range 0 (Z.of_nat (length bounds) + 1).

Definition summary (log : list Observation) : SeedMetricCounters :=
  mkCounters (Z.of_nat (length log)) (count_by succeeded log) (count_by failed log)
    (sum_by o_attempts log) (max_by o_attempts log) (sum_by o_retry_budget log) (max_by o_retry_budget log)
    (count_by exhausted log) (sum_by o_elapsed_ns log) (max_by o_elapsed_ns log)
    (sum_by (fun o => if o_in_search_loop o then o_elapsed_ns o else 0) log)
    (histogram o_attempts SEED_ATTEMPT_BUCKET_UPPER_BOUNDS log) (histogram o_elapsed_ns SEED_ELAPSED_NS_BUCKET_UPPER_BOUNDS log)
    ((fun category => (category, count_by (counted_as category) log)) <$> SEED_FAILURE_CATEGORIES).

(** ** Buckets *)

Lemma bucket_from_range i value bounds : i <= bucket_from i value bounds <= i + Z.of_nat (length bounds).
Proof. revert i. induction bounds as [|b bs IH]; intros i; cbn [bucket_from length]; [lia|]. destruct (value <=? b); [lia|]. specialize (IH (i + 1)). lia. Qed.

Lemma bucket_range value bounds : 0 <= _bounded_histogram_index value bounds < Z.of_nat (length bounds) + 1.
Proof. pose proof (bucket_from_range 0 value bounds). unfold _bounded_histogram_index. lia. Qed.

Lemma incr_histogram value bounds log o :
  incr (histogram value bounds log) (_bounded_histogram_index (value o) bounds) 1 = Ok (histogram value bounds (log ++ [o])).
Proof.
  pose proof (bucket_range (value o) bounds) as Hi. set (i := _bounded_histogram_index (value o) bounds) in *.
  assert (length (histogram value bounds log) = S (length bounds)) as Hl by (unfold histogram; rewrite length_fmap, length_range; lia).
  unfold incr. destruct (py_index_in_range (histogram value bounds log) i) as (x & Hx & ->); [lia|]. cbn [mbind res_bind].
  rewrite py_store_in_range by lia. f_equal. apply list_eq. intros j.
  assert (forall l k, histogram value bounds l !! k = if (k <? S (length bounds))%nat then Some (count_by (in_bucket value bounds (Z.of_nat k)) l) else None) as Hh.
  { intros l k. unfold histogram. rewrite list_lookup_fmap. unfold range. destruct (Nat.ltb_spec k (S (length bounds))).
    - rewrite lookup_seqZ_lt by lia. cbn. by rewrite Z.add_0_l.
    - by rewrite lookup_seqZ_ge by lia. }
  rewrite Hh in Hx. destruct (Nat.ltb_spec (Z.to_nat i) (S (length bounds))) as [Hlt|]; [|done]. injection Hx as <-.
  destruct (decide (j = Z.to_nat i)) as [->|Hne].
  - rewrite list_lookup_insert_eq by lia. rewrite Hh, (proj2 (Nat.ltb_lt _ _) Hlt).
    f_equal. rewrite count_by_snoc. unfold in_bucket at 3. fold i. rewrite Z2Nat.id by lia. by rewrite Z.eqb_refl.
  - rewrite list_lookup_insert_ne by done. rewrite !Hh. destruct (Nat.ltb_spec j (S (length bounds))); [|done].
    f_equal. rewrite count_by_snoc. unfold in_bucket at 3. fold i. replace (i =? Z.of_nat j) with false by lia. lia.
Qed.

Lemma set_category {V} (h : string -> V) cats k v : NoDup cats -> k ∈ cats ->
  dict_set ((fun c => (c, h c)) <$> cats) k v = (fun c => (c, if bool_decide (k = c) then v else h c)) <$> cats.
Proof.
  induction cats as [|c cats IH]; cbn; [by intros _ ?%elem_of_nil|]. intros [Hc Hn]%NoDup_cons [->|Hk]%elem_of_cons.
  - rewrite decide_True, bool_decide_true by done. f_equal. apply list_fmap_ext. intros i x Hx.
    rewrite bool_decide_false; [done|]. intros ->. by apply Hc, list_elem_of_lookup_2 with i.
  - assert (c <> k) by (intros ->; done). rewrite decide_False, bool_decide_false by done. by rewrite IH.
Qed.

Lemma get_category {V} (h : string -> V) cats k :
  dict_get ((fun c => (c, h c)) <$> cats) k = if bool_decide (k ∈ cats) then Some (h k) else None.
Proof.
  induction cats as [|c cats IH]; cbn; [done|]. destruct (decide (k = c)) as [<-|Hne].
  - by rewrite bool_decide_true by by left.
  - rewrite IH. rewrite (bool_decide_ext (k ∈ c :: cats) (k ∈ cats)); [done|]. rewrite elem_of_cons. naive_solver.
Qed.

Lemma record_summary log o : record o (summary log) = Ok (summary (log ++ [o])).
Proof.
  unfold record. cbn [attempt_histogram elapsed_ns_histogram summary]. rewrite !incr_histogram. cbn [mbind res_bind]. f_equal.
  unfold summary. cbn [calls successes failures attempts_total attempts_max retry_budget_total retry_budget_max retry_budget_exhaustions
    elapsed_ns_total elapsed_ns_max search_loop_elapsed_ns failure_categories].
  rewrite length_app, !count_by_snoc, !sum_by_snoc, !max_by_snoc.
  generalize (count_by succeeded log) (count_by failed log) (count_by exhausted log). intros cs cf ce. unfold exhausted, succeeded, failed.
  f_equal; try (cbn [length]; lia); try (destruct (o_failure o); cbn; lia).
  - destruct (o_failure o); cbn; [|lia]. destruct (_ && _); lia.
  - destruct (o_in_search_loop o); lia.
  - destruct (o_failure o) as [f|] eqn:Ef.
    + unfold category_of, add_failure. rewrite get_category.
      set (k := if bool_decide (f ∈ SEED_FAILURE_CATEGORIES) then f else "other_implementation_failure"%string).
      assert (k ∈ SEED_FAILURE_CATEGORIES) as Hk by (unfold k; case_bool_decide; [done|]; cbn; set_solver).
      assert (forall b : bool, match (if b then Some (count_by (counted_as f) log) else None) with Some _ => f | None => "other_implementation_failure"%string end
        = if b then f else "other_implementation_failure"%string) as -> by by intros [].
      fold k. rewrite set_category, get_category, bool_decide_true by (done || apply (bool_decide_unpack _); vm_compute; done).
      apply list_fmap_ext. intros i c Hc. f_equal. rewrite count_by_snoc.
      assert (counted_as c o = bool_decide (k = c)) as -> by (unfold counted_as; by rewrite Ef). case_bool_decide as E; [by subst|lia].
    + apply list_fmap_ext. intros i c Hc. f_equal. rewrite count_by_snoc.
      assert (counted_as c o = false) as -> by (unfold counted_as; by rewrite Ef). lia.
Qed.

Lemma summary_nil : summary [] = new_counters.
Proof. reflexivity. Qed.

Lemma record_all log log' : foldM (fun c o => record o c) (summary log) log' = Ok (summary (log ++ log')).
Proof.
  revert log. induction log' as [|o log' IH]; intros log; cbn [foldM]; [by rewrite app_nil_r|].
  rewrite record_summary. cbn [mbind res_bind]. by rewrite IH, <- app_assoc.
Qed.

(** ** The log of a lane, by source *)

Definition of_source (source : string) (log : list (string * Observation)) : list Observation :=
  snd <$> filter (fun e => e.1 = source) log.
Definition digest (log : list (string * Observation)) (ns : Z) : SeedGenerationAccumulator :=
  mkAccumulator (summary (snd <$> log)) ((fun s => (s, summary (of_source s log))) <$> SEED_GENERATION_SOURCES) ns.

Lemma of_source_snoc s log e : of_source s (log ++ [e]) = of_source s log ++ (if bool_decide (e.1 = s) then [e.2] else []).
Proof.
  unfold of_source. rewrite filter_app, fmap_app. f_equal. cbn. case_decide; [by rewrite bool_decide_true|by rewrite bool_decide_false].
Qed.

Lemma accumulate_digest source o log ns : source ∈ SEED_GENERATION_SOURCES ->
  accumulate source o (digest log ns) = Ok (digest (log ++ [(source, o)]) ns).
Proof.
  intros Hs. unfold accumulate. cbn [sources digest]. rewrite get_category, bool_decide_true by done. cbn [total digest].
  rewrite !record_summary. cbn [mbind res_bind measured_search_loop_ns digest]. f_equal. unfold digest. f_equal.
  - by rewrite fmap_app.
  - rewrite set_category by (done || apply (bool_decide_unpack _); vm_compute; done). apply list_fmap_ext. intros i s Hin. f_equal.
    rewrite of_source_snoc. cbn [fst snd]. case_bool_decide as E; [by subst|by rewrite app_nil_r].
Qed.

Lemma digest_nil : digest [] 0 = new_accumulator.
Proof. reflexivity. Qed.

(** the bounded counters of a lane are a summary of the whole log of its seed
    generations, in total and for each source: numbers of calls, successes,
    failures by category and exhausted budgets, sums, maxima and histograms. An
    unknown source raises and leaves the counters alone. *)
Theorem seed_metrics_summarise log :
  Forall (fun e => e.1 ∈ SEED_GENERATION_SOURCES) log ->
  foldM (fun a e => accumulate e.1 e.2 a) new_accumulator log = Ok (digest log 0) /\
  forall source o, source ∉ SEED_GENERATION_SOURCES ->
    accumulate source o (digest log 0) = Raise (ValueError ("unsupported seed generation source: " ++ source)%string).
Proof.
  intros Hl. split.
  - rewrite <- digest_nil. change log with ([] ++ log) at 2. generalize (@nil (string * Observation)).
    induction Hl as [|[s o] log Hs _ IH]; intros pre; [by rewrite app_nil_r|]. cbn [foldM fst snd].
    rewrite accumulate_digest by done. cbn [mbind res_bind]. rewrite IH. by rewrite <- app_assoc.
  - intros source o Hs. unfold accumulate. cbn [sources digest]. by rewrite get_category, bool_decide_false.
Qed.

(** ** Percentiles *)

Definition sum_upto (counts : list Z) (i : nat) : Z := foldr Z.add 0 (take (S i) counts).

Lemma percentile_first target observed last counts bounds :
  (exists i b, bounds !! i = Some b /\ (i < length counts)%nat /\ percentile_from target observed last counts bounds = b /\
     target <= observed + sum_upto counts i /\ forall j, (j < i)%nat -> observed + sum_upto counts j < target) \/
  (percentile_from target observed last counts bounds = last + 1 /\
   forall j, (j < length counts)%nat -> (j < length bounds)%nat -> observed + sum_upto counts j < target).
Proof.
  revert observed bounds. induction counts as [|c counts IH]; intros observed bounds; cbn [percentile_from].
  { right. split; [done|]. cbn. lia. }
  assert (sum_upto (c :: counts) 0 = c) as H0 by (unfold sum_upto; cbn; rewrite take_0; cbn; lia).
  assert (forall j, sum_upto (c :: counts) (S j) = c + sum_upto counts j) as HS by done.
  destruct (Z.leb_spec target (observed + c)) as [Hle|Hgt].
  - destruct bounds as [|b bounds]; [right; split; [done|cbn; lia]|]. left. exists 0%nat, b. split_all; [done|cbn; lia|done|lia|lia].
  - destruct (IH (observed + c) (tail bounds)) as [(i & b & Hb & Hi & Hr & Ht & Hj)|[Hr Hj]].
    + left. exists (S i), b. destruct bounds as [|b0 bounds]; [done|]. split_all; [done|cbn; lia|done|rewrite HS; lia|].
      intros [|j] Hlt; [rewrite H0; lia|]. rewrite HS. specialize (Hj j ltac:(lia)). lia.
    + right. split; [done|]. intros [|j] Hlt Hb; [rewrite H0; lia|]. rewrite HS. destruct bounds as [|b0 bounds]; cbn in Hb; [lia|].
      specialize (Hj j). cbn in *. lia.
Qed.

(** Observations with a value of at most [b] *)
Definition at_most (value : Observation -> Z) (b : Z) (log : list Observation) : Z := count_by (fun o => value o <=? b) log.

Lemma bucket_from_le k value bounds i b : StronglySorted Z.lt bounds -> bounds !! i = Some b ->
  bucket_from k value bounds <= k + Z.of_nat i <-> value <= b.
Proof.
  intros Hs. revert k i. induction Hs as [|c bounds Hs IH Hf]; intros k i Hi; [done|]. cbn [bucket_from].
  destruct i as [|i]; cbn in Hi.
  - injection Hi as ->. destruct (Z.leb_spec value b); [lia|]. pose proof (bucket_from_range (k + 1) value bounds). lia.
  - destruct (Z.leb_spec value c) as [Hle|Hgt].
    + rewrite Forall_forall in Hf. pose proof (Hf b (list_elem_of_lookup_2 _ _ _ Hi)). lia.
    + rewrite <- (IH (k + 1) i Hi). lia.
Qed.

Lemma foldr_add z l : foldr Z.add z l = foldr Z.add 0 l + z.
Proof. induction l as [|y l IH]; cbn; [lia|]. rewrite IH. lia. Qed.

Lemma foldl_add z l : foldl Z.add z l = z + foldr Z.add 0 l.
Proof. revert z. induction l as [|y l IH]; intros z; cbn; [lia|]. rewrite IH. lia. Qed.

Lemma histogram_prefix value bounds log n : (n <= S (length bounds))%nat ->
  foldr Z.add 0 (take n (histogram value bounds log)) = count_by (fun o => _bounded_histogram_index (value o) bounds <? Z.of_nat n) log.
Proof.
  induction n as [|n IH]; intros Hn.
  - rewrite take_0. cbn [foldr]. symmetry. clear. change (Z.of_nat 0) with 0. unfold count_by. induction log as [|o log IH]; [done|].
    cbn [sum_by]. rewrite IH. pose proof (bucket_range (value o) bounds). by replace (_bounded_histogram_index (value o) bounds <? 0) with false by lia.
  - assert (histogram value bounds log !! n = Some (count_by (in_bucket value bounds (Z.of_nat n)) log)) as Hx.
    { unfold histogram, range. rewrite list_lookup_fmap, lookup_seqZ_lt by lia. cbn. by rewrite Z.add_0_l. }
    rewrite (take_S_r _ _ _ Hx), foldr_app. cbn [foldr]. rewrite Z.add_0_r, foldr_add, IH by lia. symmetry.
    apply count_by_split. intros o. unfold in_bucket.
    destruct (Z.ltb_spec (_bounded_histogram_index (value o) bounds) (Z.of_nat (S n))), (Z.ltb_spec (_bounded_histogram_index (value o) bounds) (Z.of_nat n)),
      (Z.eqb_spec (_bounded_histogram_index (value o) bounds) (Z.of_nat n)); lia.
Qed.

Lemma histogram_sum value bounds log i b : StronglySorted Z.lt bounds -> bounds !! i = Some b ->
  sum_upto (histogram value bounds log) i = at_most value b log.
Proof.
  intros Hs Hi. pose proof (lookup_lt_Some _ _ _ Hi) as Hlt. unfold sum_upto. rewrite histogram_prefix by lia.
  apply count_by_ext. intros o. apply eq_true_iff_eq. rewrite Z.ltb_lt, Z.leb_le.
  rewrite <- (bucket_from_le 0 (value o) bounds i b Hs Hi). unfold _bounded_histogram_index. lia.
Qed.

Lemma length_histogram value bounds log : length (histogram value bounds log) = S (length bounds).
Proof. unfold histogram. rewrite length_fmap, length_range. lia. Qed.

Lemma histogram_total value bounds log : foldl Z.add 0 (histogram value bounds log) = Z.of_nat (length log).
Proof.
  rewrite foldl_add. pose proof (histogram_prefix value bounds log (S (length bounds)) ltac:(lia)) as H.
  rewrite take_ge in H by (rewrite length_histogram; lia). rewrite H, <- count_by_all. apply count_by_ext. intros o.
  pose proof (bucket_range (value o) bounds). apply Z.ltb_lt. lia.
Qed.

Lemma sorted_before (bounds : list Z) i j b c : StronglySorted Z.lt bounds -> bounds !! i = Some b -> bounds !! j = Some c -> c < b -> (j < i)%nat.
Proof.
  intros Hs. revert i j. induction Hs as [|x bounds Hs IH Hf]; intros i j Hi Hj Hlt; [done|]. rewrite Forall_forall in Hf.
  destruct i as [|i], j as [|j]; cbn in *; [| |lia|].
  - injection Hi as ->. injection Hj as ->. lia.
  - injection Hi as ->. specialize (Hf c (list_elem_of_lookup_2 _ _ _ Hj)). lia.
  - specialize (IH i j Hi Hj Hlt). lia.
Qed.

(** a percentile of a histogram is the quantile of the whole log up to the
    bounds of the buckets: it is the least bound with at least the target number
    of observations at or below it, or one more than the last bound when too many
    observations exceed that; the target is the share of all observations,
    rounded up, and at least one. Without observations it is 0. *)
Theorem percentile_correct value bounds last log p r :
  StronglySorted Z.lt bounds -> py_index bounds (-1) = Ok last ->
  _histogram_percentile (histogram value bounds log) bounds p = Ok r ->
  (log = [] -> r = 0) /\
  (log <> [] -> exists x c, f_of_Z (Z.of_nat (length log)) = Ok x /\ py_ceil (f_mul x p) = Ok c /\
     (r ∈ bounds /\ Z.max 1 c <= at_most value r log \/ r = last + 1) /\
     forall b, b ∈ bounds -> b < r -> at_most value b log < Z.max 1 c).
Proof.
  intros Hs Hlast H. unfold _histogram_percentile in H. rewrite histogram_total in H. split.
  - intros ->. by injection H.
  - intros Hne. replace (Z.of_nat (length log) =? 0) with false in H by (destruct log; cbn; done || lia).
    apply bind_Ok in H as (x & Hx & H). apply bind_Ok in H as (c & Hc & H). rewrite Hlast in H. injection H as <-.
    exists x, c. split; [done|]. split; [done|].
    destruct (percentile_first (Z.max 1 c) 0 last (histogram value bounds log) bounds) as [(i & b & Hb & Hi & -> & Ht & Hj)|[-> Hj]].
    + rewrite (histogram_sum _ _ _ _ b) in Ht by done. split.
      * left. split; [by eapply list_elem_of_lookup_2|lia].
      * intros b' (j & Hb')%list_elem_of_lookup Hlt. pose proof (sorted_before bounds i j b b' Hs Hb Hb' Hlt).
        specialize (Hj j ltac:(lia)). rewrite (histogram_sum _ _ _ _ b') in Hj by done. lia.
    + split; [by right|]. intros b' (j & Hb')%list_elem_of_lookup _. pose proof (lookup_lt_Some _ _ _ Hb').
      specialize (Hj j). rewrite length_histogram, (histogram_sum _ _ _ _ b') in Hj by done. lia.
Qed.

(** ** A checkpoint gives the counters back *)

Definition shaped (c : SeedMetricCounters) : Prop :=
  length (attempt_histogram c) = 13%nat /\ length (elapsed_ns_histogram c) = 13%nat /\ (failure_categories c).*1 = SEED_FAILURE_CATEGORIES.

Lemma read_ints l : mapM to_int (JInt <$> l) = Ok l.
Proof. induction l as [|x l IH]; [done|]. cbn [fmap list_fmap]. rewrite mapM_res_cons. cbn [to_int mbind res_bind]. by rewrite IH. Qed.

Lemma read_categories d : NoDup d.*1 ->
  mapM (fun category => n ← int_field ((fun kv => (kv.1, JInt kv.2)) <$> d) category; Ok (category, n)) d.*1 = Ok d.
Proof.
  intros Hn. assert (forall k n, (k, n) ∈ d -> int_field ((fun kv => (kv.1, JInt kv.2)) <$> d) k = Ok n) as Hget.
  { intros k n Hin. unfold int_field, get_or. rewrite (dict_get_NoDup _ k (JInt n)); [done| |].
    - rewrite <- list_fmap_compose. exact Hn.
    - apply list_elem_of_fmap. by exists (k, n). }
  assert (forall l, (forall e, e ∈ l -> e ∈ d) ->
    mapM (fun category => n ← int_field ((fun kv => (kv.1, JInt kv.2)) <$> d) category; Ok (category, n)) l.*1 = Ok l) as H; [|by apply H].
  induction l as [|[k n] l IH]; intros Hl; [done|]. cbn [fmap list_fmap fst]. rewrite mapM_res_cons, (Hget k n) by (apply Hl; by left).
  cbn [mbind res_bind]. rewrite IH; [done|]. intros e He. apply Hl. by right.
Qed.

Lemma int_field_get d name z : dict_get d name = Some (JInt z) -> int_field d name = Ok z.
Proof. intros H. unfold int_field, get_or. by rewrite H. Qed.

Lemma read_histogram_ints l fresh : length l = length fresh -> read_histogram (JList (JInt <$> l)) fresh = Ok l.
Proof. intros H. unfold read_histogram. by rewrite length_fmap, H, Nat.eqb_refl, read_ints. Qed.

Lemma counters_read c d : shaped c -> counters_payload c = Ok d -> counters_from_payload d = Ok c.
Proof.
  intros (Ha & He & Hf) H. unfold counters_payload in H.
  apply bind_Ok in H as (am & _ & H). apply bind_Ok in H as (ap & _ & H). apply bind_Ok in H as (rm & _ & H).
  apply bind_Ok in H as (mf & _ & H). apply bind_Ok in H as (em & _ & H). apply bind_Ok in H as (ep & _ & H). injection H as <-.
  unfold counters_from_payload.
  erewrite (int_field_get _ "calls"), (int_field_get _ "successes"), (int_field_get _ "failures"), (int_field_get _ "attempts_total"),
    (int_field_get _ "attempts_max"), (int_field_get _ "retry_budget_total"), (int_field_get _ "retry_budget_max"),
    (int_field_get _ "retry_budget_exhaustions"), (int_field_get _ "elapsed_ns_total"), (int_field_get _ "elapsed_ns_max"),
    (int_field_get _ "search_loop_elapsed_ns") by reflexivity.
  cbn [mbind res_bind]. unfold get_or.
  match goal with |- context [read_histogram ?v (attempt_histogram new_counters)] =>
    change v with (JList (JInt <$> attempt_histogram c)) end.
  match goal with |- context [read_histogram ?v (elapsed_ns_histogram new_counters)] =>
    change v with (JList (JInt <$> elapsed_ns_histogram c)) end.
  rewrite !read_histogram_ints by done. cbn [mbind res_bind].
  match goal with |- context [match ?v with JObj _ => _ | _ => _ end] =>
    change v with (JObj ((fun kv => (kv.1, JInt kv.2)) <$> failure_categories c)) end.
  rewrite <- Hf, read_categories; [by destruct c|]. rewrite Hf. apply (bool_decide_unpack _). vm_compute. done.
Qed.

Definition accumulator_shaped (a : SeedGenerationAccumulator) : Prop :=
  shaped (total a) /\ (sources a).*1 = SEED_GENERATION_SOURCES /\ Forall (fun e => shaped e.2) (sources a).

Lemma read_sources l ss : NoDup l.*1 -> Forall (fun e => shaped e.2) l ->
  Forall2 (fun e kv => kv.1 = e.1 /\ exists d, kv.2 = JObj d /\ counters_payload e.2 = Ok d) l ss ->
  mapM (fun source => c ← counters_from_payload (match get ss source with JObj c => c | _ => [] end); Ok (source, c)) l.*1 = Ok l.
Proof.
  intros Hn Hs Hf. assert (ss.*1 = l.*1) as Hk by (clear - Hf; induction Hf as [|e kv l ss [H _] _ IH]; cbn; congruence).
  assert (forall e, e ∈ l -> exists d, get ss e.1 = JObj d /\ counters_payload e.2 = Ok d) as Hget.
  { intros e (i & Hi)%list_elem_of_lookup. destruct (Forall2_lookup_l _ _ _ _ _ Hf Hi) as ([k v] & Hv & Hkv & d & E & Hd).
    cbn in E. subst v.
    exists d. split; [|done]. cbn in Hkv. subst k. unfold get. rewrite (dict_get_NoDup ss e.1 (JObj d)); [done|by rewrite Hk|].
    by eapply list_elem_of_lookup_2. }
  clear Hf Hk Hn. revert Hget. generalize ss. clear ss. intros ss Hget. induction Hs as [|[s c] l Hc _ IH]; [done|]. cbn [fmap list_fmap fst].
  rewrite mapM_res_cons. destruct (Hget (s, c)) as (d & E & Hd); [by left|]. cbn [fst snd] in *. rewrite E.
  rewrite (counters_read c d) by done.
  cbn [mbind res_bind]. rewrite IH; [done|]. intros e He. apply Hget. by right.
Qed.

Lemma sources_written a l ss : (forall e, e ∈ l -> dict_get (sources a) e.1 = Some e.2) -> mapM (source_payload a) l.*1 = Ok ss ->
  Forall2 (fun e kv => kv.1 = e.1 /\ exists d, kv.2 = JObj d /\ counters_payload e.2 = Ok d) l ss.
Proof.
  revert ss. induction l as [|e l IH]; intros ss Hget; cbn [fmap list_fmap].
  { intros [= <-]. constructor. }
  rewrite mapM_res_cons. intros (kv & Hkv & H)%bind_Ok. apply bind_Ok in H as (ss' & H & [= <-]). constructor.
  - unfold source_payload in Hkv. rewrite Hget in Hkv by by left. apply bind_Ok in Hkv as (d & Hd & [= <-]). cbn. eauto.
  - apply IH; [|done]. intros e' He'. apply Hget. by right.
Qed.

Lemma accumulator_read a family order mode d : accumulator_shaped a -> accumulator_payload a family order mode = Ok d ->
  accumulator_from_payload d = Ok a.
Proof.
  intros (Ht & Hk & Hs) H. unfold accumulator_payload in H.
  apply bind_Ok in H as (t & Ht' & H). apply bind_Ok in H as (share & _ & H). apply bind_Ok in H as (ss & Hss & H). injection H as <-.
  unfold accumulator_from_payload.
  match goal with |- context [match ?v with JObj t => counters_from_payload t | _ => _ end] => change v with (JObj t) end. cbv match.
  rewrite (counters_read _ _ Ht Ht'). cbn [mbind res_bind].
  match goal with |- context [match ?v with JObj sd => mapM _ _ | _ => _ end] => change v with (JObj ss) end. cbv match.
  assert (NoDup (sources a).*1) as Hn by (rewrite Hk; apply (bool_decide_unpack _); vm_compute; done).
  rewrite <- Hk, read_sources; [|done|done|].
  - cbn [mbind res_bind]. erewrite int_field_get by reflexivity. by destruct a.
  - rewrite <- Hk in Hss. apply (sources_written a); [|done]. intros [s c] He. by apply dict_get_NoDup.
Qed.

Lemma summary_shaped log : shaped (summary log).
Proof. split; [apply length_histogram|]. split; [apply length_histogram|]. reflexivity. Qed.

Lemma digest_shaped log ns : accumulator_shaped (digest log ns).
Proof.
  split; [apply summary_shaped|]. split; [reflexivity|]. apply Forall_fmap, Forall_true. intros s. apply summary_shaped.
Qed.

(** a checkpoint written with the counters of a lane gives all of them back;
    the means, shares and percentiles in it are not read. *)
Theorem seed_metrics_roundtrip log ns family order mode d :
  accumulator_payload (digest log ns) family order mode = Ok d -> accumulator_from_payload d = Ok (digest log ns).
Proof. apply accumulator_read, digest_shaped. Qed.

Module SeedMetricsWitness.
Definition first : string * Observation := ("initial_lane_seed"%string, mkObservation 3 64 20000 None false).
Definition second : string * Observation :=
  ("random_restart_candidate"%string, mkObservation 64 64 7000000 (Some "cubic_matching_construction_exhaustion"%string) true).

Lemma seed_metrics_summarise_witness :
  foldM (fun a e => accumulate e.1 e.2 a) new_accumulator [first; second] = Ok (digest [first; second] 0) /\
  forall source o, source ∉ SEED_GENERATION_SOURCES ->
    accumulate source o (digest [first; second] 0) = Raise (ValueError ("unsupported seed generation source: " ++ source)%string).
Proof. apply seed_metrics_summarise. repeat constructor; apply (bool_decide_unpack _); reflexivity. Defined.

Lemma percentile_correct_witness : exists x c, f_of_Z 2 = Ok x /\ py_ceil (f_mul x p95) = Ok c /\
  (64 ∈ SEED_ATTEMPT_BUCKET_UPPER_BOUNDS /\ Z.max 1 c <= at_most o_attempts 64 [first.2; second.2] \/ 64 = 2049) /\
  forall b, b ∈ SEED_ATTEMPT_BUCKET_UPPER_BOUNDS -> b < 64 -> at_most o_attempts b [first.2; second.2] < Z.max 1 c.
Proof.
  apply (percentile_correct o_attempts SEED_ATTEMPT_BUCKET_UPPER_BOUNDS 2048 [first.2; second.2] p95 64); [|reflexivity|vm_compute; reflexivity|discriminate].
  repeat constructor; reflexivity.
Defined.

Lemma seed_metrics_roundtrip_witness : exists d, accumulator_payload (digest [first; second] 9000000) "cubic" 20 "cubic_first" = Ok d /\
  accumulator_from_payload d = Ok (digest [first; second] 9000000).
Proof.
  destruct (accumulator_payload (digest [first; second] 9000000) "cubic" 20 "cubic_first") as [d|e] eqn:E.
  - exists d. split; [reflexivity|]. by apply (seed_metrics_roundtrip _ _ "cubic"%string 20 "cubic_first"%string).
  - vm_compute in E. discriminate.
Defined.
End SeedMetricsWitness.
