(* ===== verification/Lane.v ===== *)
(** * The specification of a research lane

    [src/src/sglab/research/lanes.py]: [LaneSpec] and [LaneSpec.validate], the
    last test between an accepted decision and a running search, and the
    parameters as the search reads them. *)

From S2P Require Import Prelude Floats Json Convert Catalog.

#[global] Open Scope Z_scope.

Definition TARGETS : list string := ["erdos_gyarfas"; "m6_hidden_witness_control_v1"]%string.

(** [seed_lineage] is a tuple of integers, and [None] is the absent text. *)
Record LaneSpec := mkLaneSpec {
  lane_id : string;
  campaign_id : string;
  target : string;
  lane_algorithm : string;
  graph_family : string;
  lane_seed : Z;
  parameters : list (string * json);
  resource_share : float;
  lane_version : Z;
  parent_lane_id : option string;
  created_by_action_id : option string;
  parent_checkpoint_id : option string;
  seed_lineage : list Z
}.

(** ** Numbers *)

(** [x <= z] and [z <= x], which Python compares exactly *)
Definition f_le_Z (x : float) (z : Z) : bool :=
  match x with
  | S754_zero _ => 0 <=? z
  | S754_infinity s => s
  | S754_nan => false
  | S754_finite s m e =>
      let m := if s then Zneg m else Zpos m in
      if 0 <=? e then Z.shiftl m e <=? z else m <=? Z.shiftl z (- e)
  end.
Definition Z_le_f (z : Z) (x : float) : bool :=
  match x with
  | S754_zero _ => z <=? 0
  | S754_infinity s => negb s
  | S754_nan => false
  | S754_finite s m e =>
      let m := if s then Zneg m else Zpos m in
      if 0 <=? e then z <=? Z.shiftl m e else Z.shiftl z (- e) <=? m
  end.

(** [isinstance(value, (int, float)) and not isinstance(value, bool)] *)
Definition numeric (v : json) : bool := match v with JInt _ | JFloat _ => true | _ => false end.

(** [value < 0] on numbers *)
Definition negative (v : json) : bool :=
  match v with JInt z => z <? 0 | JFloat x => f_lt x (f_lit 0) | _ => false end.

(** [domain["minimum"] <= value <= domain["maximum"]] on numbers *)
Definition in_domain (d : Domain) (v : json) : bool :=
  match d, v with
  | IntegerDomain lo hi, JInt z => (lo <=? z) && (z <=? hi)
  | IntegerDomain lo hi, JFloat x => Z_le_f lo x && f_le_Z x hi
  | NumberDomain lo hi, JInt z => f_le_Z lo z && Z_le_f z hi
  | NumberDomain lo hi, JFloat x => f_le lo x && f_le x hi
  | _, _ => false
  end.

Definition is_integer (v : json) : bool := match v with JInt _ => true | _ => false end.
Definition integral (d : Domain) : bool := match d with IntegerDomain _ _ => true | _ => false end.

(** [math.isclose(total, 1.0, rel_tol=0, abs_tol=1e-9)] *)
Definition billionth : float := f_ratio 1 1000000000.
Definition is_close (total : float) : bool :=
  f_eq total (f_lit 1) ||
  (negb (is_inf total) &&
   (let difference := f_absolute (f_sub (f_lit 1) total) in f_le difference (f_lit 0) || f_le difference billionth)).

Section Validate.
Variable parse_float : string -> res float.

(** ** [LaneSpec.validate] *)

(** [set(value) != set(MUTATION_OPERATORS)] *)
Definition other_operators (d : list (string * json)) : bool :=
  negb (forallb (fun k => bool_decide (k ∈ MUTATION_OPERATORS)) (keys d) &&
        forallb (fun k => bool_decide (k ∈ keys d)) MUTATION_OPERATORS).

(** [sum] adds the floats to the integer [0] from the left; the sum of two floats
    needs no compensation. *)
Definition weight_sum (d : list (string * json)) : res float :=
  foldM (fun total kv => w ← to_float parse_float kv.2; Ok (f_add total w)) (f_lit 0) d.

Definition validate_weights (value : json) : res unit :=
  match value with
  | JObj d =>
      raise_if (other_operators d) (ValueError "mutation_weights must contain every reviewed operator") ;;;
      raise_if (existsb (fun kv => negb (numeric kv.2) || negative kv.2) d) (ValueError "mutation weights must be non-negative") ;;;
      total ← weight_sum d;
      raise_if (negb (is_close total)) (ValueError "mutation weights must be normalized")
  | _ => Raise (ValueError "mutation_weights must contain every reviewed operator")
  end.

Definition validate_parameter (nv : string * json) : res unit :=
  let '(name, value) := nv in
  if bool_decide (name = MUTATION_WEIGHTS_PARAMETER) then validate_weights value
  else
    match dict_get PARAMETER_DOMAINS name with
    | None => Raise KeyError
    | Some domain =>
        if bool_decide (name = "proposal_ranking"%string) then
          raise_if (negb (is_text value REVIEWED_PROPOSAL_RANKING_CATALOG_ID))
            (ValueError "proposal_ranking must use the reviewed catalog ID")
        else
          raise_if (negb (numeric value)) (ValueError ("lane parameter must be numeric: " ++ name)%string) ;;;
          raise_if (integral domain && negb (is_integer value)) (ValueError ("lane parameter must be an integer: " ++ name)%string) ;;;
          raise_if (negb (in_domain domain value)) (ValueError ("lane parameter outside reviewed domain: " ++ name)%string)
    end.

Definition validate (s : LaneSpec) : res unit :=
  raise_if (negb (bool_decide (target s ∈ TARGETS))) (ValueError ("unsupported lane target: " ++ target s)%string) ;;;
  raise_if (negb (bool_decide (lane_algorithm s ∈ ALGORITHMS))) (ValueError ("unsupported lane algorithm: " ++ lane_algorithm s)%string) ;;;
  raise_if (negb (bool_decide (graph_family s ∈ GRAPH_FAMILIES.*1))) (ValueError ("unsupported graph family: " ++ graph_family s)%string) ;;;
  raise_if (negb (f_lt (f_lit 0) (resource_share s) && f_le (resource_share s) (f_lit 1)))
    (ValueError "resource_share must be in (0, 1]") ;;;
  raise_if (lane_version s <? 0) (ValueError "lane_version cannot be negative") ;;;
  allowed ← match dict_get ALGORITHM_PARAMETERS (lane_algorithm s) with Some l => Ok l | None => Raise KeyError end;
  raise_if (existsb (fun k => negb (bool_decide (k ∈ allowed))) (keys (parameters s)))
    (ValueError "lane has parameters outside its algorithm domain") ;;;
  for_each (fun required => raise_if (negb (bool_decide (required ∈ keys (parameters s))))
      (ValueError ("lane parameter is required: " ++ required)%string)) ["order"; "batch_candidates"; "witness_cap"]%string ;;;
  for_each validate_parameter (parameters s) ;;;
  cubic_odd ← (if bool_decide (graph_family s = "connected_cubic"%string)
               then v ← subscript (parameters s) "order"; n ← to_int v; Ok (negb (n mod 2 =? 0)) else Ok false);
  raise_if cubic_odd (ValueError "connected_cubic requires even order") ;;;
  raise_if (bool_decide ("proposal_ranking"%string ∈ keys (parameters s)) && bool_decide (lane_algorithm s = "random_restart"%string))
    (ValueError "reviewed proposal ranking requires a mutation lane").

(** ** Parameters as the search reads them *)

(** [int(parameters[name])] *)
Definition int_param (d : list (string * json)) (name : string) : res Z := v ← subscript d name; to_int v.
(** [int(parameters.get(name, default))] and [float(parameters.get(name, default))] *)
Definition int_param_or (d : list (string * json)) (name : string) (other : Z) : res Z := to_int (get_or d name (JInt other)).
Definition float_param_or (d : list (string * json)) (name : string) (other : float) : res float :=
  to_float parse_float (get_or d name (JFloat other)).
End Validate.

(** ** What a validated lane may rely on *)

Lemma parameter_valid parse_float d name v : for_each (validate_parameter parse_float) d = Ok tt -> dict_get d name = Some v ->
  validate_parameter parse_float (name, v) = Ok tt.
Proof. intros Hall Hv%dict_get_elem_of. by eapply for_each_Ok in Hv. Qed.

Lemma integer_parameter parse_float d name lo hi v : for_each (validate_parameter parse_float) d = Ok tt -> dict_get d name = Some v ->
  dict_get PARAMETER_DOMAINS name = Some (IntegerDomain lo hi) -> name <> MUTATION_WEIGHTS_PARAMETER -> name <> "proposal_ranking"%string ->
  exists z, v = JInt z /\ lo <= z <= hi.
Proof.
  intros Hall Hv Hd Hw Hp. pose proof (parameter_valid _ _ _ _ Hall Hv) as H. unfold validate_parameter in H.
  rewrite bool_decide_eq_false_2, Hd, bool_decide_eq_false_2 in H by done.
  rewrite !raise_seq_Ok in H. destruct H as (_ & Hi & H). apply raise_if_Ok in H. destruct v; try done. exists z. split; [done|].
  cbn in H. lia.
Qed.
