(* ===== verification/LaneKernel.v ===== *)
(** * The search engine of a lane

    [src/src/sglab/research/lanes.py], [_LaneKernel]: its state, the keys that
    recognise graphs, scoring with one restart of the score worker, seeds,
    mutation, acceptance, restarts and patches. An operation keeps the changes it
    made before it raised. The target is the Erdos-Gyarfas target; clocks, timing
    counters and profiles are left out. *)

From stdpp Require Import sorting gmap.
From S2P Require Import Features Pool Ranking Prelude Floats Json Convert Model Graph6 Verification Score Rng Rewiring Mutation Seed Search Catalog SearchKeys SeedMetrics Lane.

#[global] Open Scope Z_scope.

(** ** Constants *)

Definition ANCESTRY_LIMIT : Z := 64.
Definition PROVENANCE_SCHEMA_VERSION : Z := 2.
Definition MUTATION_CHAIN_PROVENANCE : string := "mutation_chain".
Definition INDEPENDENT_SAMPLE_PROVENANCE : string := "independent_sample".
Definition GENERATOR_VERSION : string := "erdos_gyarfas.generate_seed_v1".
Definition HASH_LIMIT : Z := 4096.

(** The switches of the constructor *)
Record Options := mkOptions {
  instrumentation_enabled : bool;
  optimized_legacy_key : bool;
  independent_sample_provenance : bool;
  mutation_witness_cache_enabled : bool;
  score_early_exit_enabled : bool;
  fast_duplicate_key_enabled : bool
}.
Definition default_options : Options := mkOptions true true true true true true.

(** ** The score worker, as the lane uses it

    [lane_ask]: one [score] call with its cutoff; [lane_restart]; [lane_close]. *)

Record Answer := mkAnswer { answer_results : list CycleCountResult; answer_dominated : bool }.

Class LaneScorer (S : Type) := {
  lane_ask : S -> BitGraph -> list Z -> Z -> Z -> option (Z * Z * Z) -> bool -> res Answer * S;
  lane_restart : S -> res unit * S;
  lane_close : S -> S
}.

(** ** The state *)

(** A record of the ancestry or of provenance, as the code keeps it *)
Abbreviation dict := (list (string * json)).

(** The attributes that describe the current graph; [graph_object] is the identity
    of the graph object. *)
Record Current := mkCurrent {
  graph : BitGraph;
  graph_object : nat;
  score : ScoreResult;
  current_graph_key : string;
  current_candidate_id : option string;
  current_provenance : option dict;
  current_evaluation_index : Z;
  accepted_ancestry : list dict
}.

Record Best := mkBest {
  best_graph : BitGraph;
  best_score : ScoreResult;
  best_candidate_id : string;
  best_provenance : option dict;
  best_evaluation_index : Z;
  best_ancestry : list dict
}.

(** Graphs seen before; [tabu] and [recent_hashes] are bounded deques, and
    [recent_hash_set] a set. *)
Record Memory := mkMemory {
  tabu_key_scheme : string;
  tabu : list string;
  tabu_maxlen : Z;
  recent_hashes : list string;
  recent_hash_set : list string
}.

Record Counts := mkCounts {
  algorithm_evaluated : Z;
  stagnation : Z;
  high_water : Z;
  total_accepted : Z;
  total_improvements : Z;
  actual_restarts : Z
}.

Record Services (R S : Type) := mkServices {
  rng : R;
  score_worker : S;
  cpp_requests : Z;
  worker_restarts : Z;
  mutation_context : ForbiddenWitnessContext;
  proposal_ranking : option Bridge;
  seed_generation_batch : SeedGenerationAccumulator;
  seed_generation_cumulative : SeedGenerationAccumulator
}.
Arguments mkServices {R S}. Arguments rng {R S}. Arguments score_worker {R S}. Arguments cpp_requests {R S}.
Arguments worker_restarts {R S}. Arguments mutation_context {R S}. Arguments proposal_ranking {R S}.
Arguments seed_generation_batch {R S}. Arguments seed_generation_cumulative {R S}.

(** [live_frontier_state] *)
Record Frontier := mkFrontier { f_graph : BitGraph; f_score : ScoreResult; f_candidate : option string; f_high_water : Z }.

Record Kernel (R S : Type) := mkKernel {
  k_parameters : dict;
  current : Current;
  best : Best;
  memory : Memory;
  counts : Counts;
  services : Services R S;
  batch_source_checkpoint_id : option string;
  live_frontier_state : Frontier
}.
Arguments mkKernel {R S}. Arguments k_parameters {R S}. Arguments current {R S}. Arguments best {R S}. Arguments memory {R S}.
Arguments counts {R S}. Arguments services {R S}. Arguments batch_source_checkpoint_id {R S}. Arguments live_frontier_state {R S}.

(** ** Operations on the state *)

Definition K (R S A : Type) : Type := Kernel R S -> res A * Kernel R S.

#[export] Instance K_ret R S : MRet (K R S) := fun A a k => (Ok a, k).
#[export] Instance K_bind R S : MBind (K R S) := fun A B f m k =>
  match m k with (Ok a, k') => f a k' | (Raise e, k') => (Raise e, k') end.

(** ** Bounded deques and sets *)

(** A deque of at most [n] items: appending drops the oldest ones. *)
Definition newest {A} (n : Z) (l : list A) : list A := drop (length l - Z.to_nat n) l.
Definition deque_append {A} (n : Z) (l : list A) (x : A) : list A := newest n (l ++ [x]).
(** [deque(l, maxlen=n)] *)
Definition new_deque {A} (n : Z) (l : list A) : res (list A) :=
  raise_if (n <? 0) (ValueError "maxlen must be non-negative") ;;; Ok (newest n l).

Definition set_insert (x : string) (s : list string) : list string := if decide (x ∈ s) then s else s ++ [x].
Definition set_discard (x : string) (s : list string) : list string := filter (fun y => y <> x) s.

(** [a % b] *)
Definition py_mod (a b : Z) : res Z := if b =? 0 then Raise ZeroDivisionError else Ok (a mod b).

(** [_remember_hash] *)
Definition remember_hash (m : Memory) (key : string) : Memory :=
  let full := Z.of_nat (length (recent_hashes m)) =? HASH_LIMIT in
  let '(hashes, known) :=
    match recent_hashes m with
    | removed :: rest => if full then (rest, if decide (removed ∈ rest) then recent_hash_set m else set_discard removed (recent_hash_set m))
                         else (recent_hashes m, recent_hash_set m)
    | [] => ([], recent_hash_set m)
    end in
  mkMemory (tabu_key_scheme m) (tabu m) (tabu_maxlen m) (hashes ++ [key]) (set_insert key known).

Definition with_tabu (m : Memory) (l : list string) (n : Z) : Memory :=
  mkMemory (tabu_key_scheme m) l n (recent_hashes m) (recent_hash_set m).

(** The memory of a fresh start: [tabu] keeps its bound. *)
Definition forget (m : Memory) (key : string) : Memory :=
  mkMemory (tabu_key_scheme m) (deque_append (tabu_maxlen m) [] key) (tabu_maxlen m) [] [].

(** ** Scores *)

(** Tuples of two integers in Python's order *)
Definition pair_le (x y : Z * Z) : Prop := tuple_le [x.1; x.2] [y.1; y.2] = true.
#[export] Instance pair_le_dec : RelDecision pair_le.
Proof. intros x y. unfold pair_le. apply _. Defined.

(** [_score_payload]: the same dict as in [search.py] *)
Definition lane_score_payload (s : ScoreResult) : res dict := _score_payload s.

Section ReadScore.
Variable parse_float : string -> res float.

Definition lane_score_from_payload (payload : dict) : res ScoreResult :=
  v ← subscript payload "valid";
  wc ← subscript payload "witness_counts";
  items ← match wc with JObj d => Ok d | _ => Raise AttributeError end;
  counts ← foldM read_count [] items;
  w ← subscript payload "weighted_penalty"; penalty ← to_int w;
  c ← subscript payload "complete";
  nov ← to_float parse_float (get_or payload "novelty" (JInt 0));
  simp ← to_int (get_or payload "simplicity" (JInt 0));
  Ok (mkScore (truthy v) (merge_sort pair_le counts) penalty (truthy c) nov simp).
End ReadScore.

(** [_score_scalar] *)
Definition _score_scalar (s : ScoreResult) : res float :=
  key ← ordering_key s;
  match key with
  | [invalid; total; weighted; nov; simp] =>
      base ← f_of_Z (invalid * 2000000 + total);
      w ← py_truediv weighted 2000000;
      n ← py_truediv nov 4000000000000;
      m ← py_truediv simp 80000000000000000;
      Ok (f_add (f_add (f_add base w) n) m)
  | _ => Raise AssertionError
  end.

Section Kernel.
Context {R S : Type} `{Rng R} `{RngState R} `{LaneScorer S}.
Context (parse_float : string -> res float) (sha256 : list Z -> list Z) (Random : Z -> R) (set_iter : gset Z -> list Z).
(** [x ** k] and [math.exp] of the C library *)
Context (f_pow : float -> Z -> float) (f_exp : float -> float).
Context (spec : LaneSpec) (opts : Options).

Abbreviation Kernel := (Kernel R S).
Abbreviation K := (K R S).

Definition digest_text (l : list Z) : string := hexdigest (sha256 l).

Definition run {A} (r : res A) : K A := fun k => (r, k).
Definition this_kernel : K Kernel := fun k => (Ok k, k).

Definition set_parameters (d : dict) : K unit := fun k =>
  (Ok tt, mkKernel d (current k) (best k) (memory k) (counts k) (services k) (batch_source_checkpoint_id k) (live_frontier_state k)).
Definition set_current (c : Current) : K unit := fun k =>
  (Ok tt, mkKernel (k_parameters k) c (best k) (memory k) (counts k) (services k) (batch_source_checkpoint_id k) (live_frontier_state k)).
Definition set_best (b : Best) : K unit := fun k =>
  (Ok tt, mkKernel (k_parameters k) (current k) b (memory k) (counts k) (services k) (batch_source_checkpoint_id k) (live_frontier_state k)).
Definition set_memory (m : Memory) : K unit := fun k =>
  (Ok tt, mkKernel (k_parameters k) (current k) (best k) m (counts k) (services k) (batch_source_checkpoint_id k) (live_frontier_state k)).
Definition set_counts (c : Counts) : K unit := fun k =>
  (Ok tt, mkKernel (k_parameters k) (current k) (best k) (memory k) c (services k) (batch_source_checkpoint_id k) (live_frontier_state k)).
Definition set_services (s : Services R S) : K unit := fun k =>
  (Ok tt, mkKernel (k_parameters k) (current k) (best k) (memory k) (counts k) s (batch_source_checkpoint_id k) (live_frontier_state k)).
Definition set_source (c : option string) : K unit := fun k =>
  (Ok tt, mkKernel (k_parameters k) (current k) (best k) (memory k) (counts k) (services k) c (live_frontier_state k)).
Definition set_frontier (f : Frontier) : K unit := fun k =>
  (Ok tt, mkKernel (k_parameters k) (current k) (best k) (memory k) (counts k) (services k) (batch_source_checkpoint_id k) f).

Definition with_rng_state (r : R) (s : Services R S) : Services R S :=
  mkServices r (score_worker s) (cpp_requests s) (worker_restarts s) (mutation_context s) (proposal_ranking s)
    (seed_generation_batch s) (seed_generation_cumulative s).
Definition with_worker (w : S) (requests restarts : Z) (s : Services R S) : Services R S :=
  mkServices (rng s) w requests restarts (mutation_context s) (proposal_ranking s) (seed_generation_batch s) (seed_generation_cumulative s).
Definition with_context (c : ForbiddenWitnessContext) (s : Services R S) : Services R S :=
  mkServices (rng s) (score_worker s) (cpp_requests s) (worker_restarts s) c (proposal_ranking s)
    (seed_generation_batch s) (seed_generation_cumulative s).
Definition with_bridge (b : option Bridge) (s : Services R S) : Services R S :=
  mkServices (rng s) (score_worker s) (cpp_requests s) (worker_restarts s) (mutation_context s) b
    (seed_generation_batch s) (seed_generation_cumulative s).
Definition with_seeds (batch cumulative : SeedGenerationAccumulator) (s : Services R S) : Services R S :=
  mkServices (rng s) (score_worker s) (cpp_requests s) (worker_restarts s) (mutation_context s) (proposal_ranking s) batch cumulative.

(** [self.mode] *)
Definition lane_mode : res string := match dict_get GRAPH_FAMILIES (graph_family spec) with Some m => Ok m | None => Raise KeyError end.
Definition algorithm : string := lane_algorithm spec.
Definition samples_independently : bool := bool_decide (algorithm = "random_restart"%string) && independent_sample_provenance opts.

(** ** Keys *)

Definition _graph_sha256 (g : BitGraph) : res string :=
  if optimized_legacy_key opts then stable_hash digest_text g else _legacy_graph_key_reference digest_text g.

Definition _full_search_key (scheme : string) (g : BitGraph) : res string :=
  if bool_decide (scheme = FAST_GRAPH_KEY_SCHEME) then Ok (_zobrist_graph_key g) else _graph_sha256 g.

(** The change a mutation reports, when it reports one *)
Definition _candidate_search_key (scheme key : string) (g : BitGraph) (delta : option MutationResult) : res string :=
  if negb (bool_decide (scheme = FAST_GRAPH_KEY_SCHEME)) then _graph_sha256 g
  else
    match delta with
    | Some d =>
        if bool_decide (mutated d = g) && negb (bool_decide (Mutation.removed_edges d = []) && bool_decide (Mutation.added_edges d = []))
        then _zobrist_update_key key (Mutation.removed_edges d) (Mutation.added_edges d)
        else Ok (_zobrist_graph_key g)
    | None => Ok (_zobrist_graph_key g)
    end.

Definition lane_candidate_id (g : BitGraph) : res string :=
  h ← _graph_sha256 g; _candidate_id_from_graph_sha256 digest_text (campaign_id spec) h.

(** ** Scoring *)

(** The key a candidate must beat, and whether an equal one is beaten *)
Abbreviation cutoff := (option (list Z * bool)).

Definition cutoff_fields (c : cutoff) : res (option (Z * Z * Z)) :=
  match c with
  | None => Ok None
  | Some (key, _) => t ← py_index key 1; w ← py_index key 2; s ← py_index key 4; Ok (Some (t, w, s))
  end.

Definition score_once (g : BitGraph) (cap : Z) (c : cutoff) : K (option ScoreResult) :=
  fields ← run (cutoff_fields c);
  k ← this_kernel;
  let sv := services k in
  let '(answer, w) := lane_ask (score_worker sv) g (forbidden_lengths (gn g)) (cap + 1) (node_budget cap) fields
    (match c with Some (_, inclusive) => inclusive | None => false end) in
  set_services (with_worker w (cpp_requests sv) (worker_restarts sv) sv) ;;;
  a ← run answer;
  set_services (with_worker w (cpp_requests sv + 1) (worker_restarts sv) sv) ;;;
  if answer_dominated a then mret None
  else s ← run (score_from_cycle_counts 0 0 g cap (answer_results a) None None); mret (Some s.1).

Definition close_worker : K unit :=
  k ← this_kernel; let sv := services k in
  set_services (with_worker (lane_close (score_worker sv)) (cpp_requests sv) (worker_restarts sv) sv).

Definition restart_worker : K unit :=
  k ← this_kernel; let sv := services k in
  let '(r, w) := lane_restart (score_worker sv) in
  set_services (with_worker w (cpp_requests sv) (worker_restarts sv + 1) sv) ;;; run r.

Definition worker_lost {A} : K A := close_worker ;;; run (Raise score_failed).

(** Two attempts, with a restart of the worker between them *)
Definition with_one_restart {A} (attempt : K A) : K A := fun k =>
  match attempt k with
  | (Ok a, k) => (Ok a, k)
  | (Raise e, k) =>
      if negb (caught e) then (Raise e, k)
      else
        match restart_worker k with
        | (Raise (ScoreWorkerError _), k) => worker_lost k
        | (Raise e, k) => (Raise e, k)
        | (Ok _, k) =>
            match attempt k with
            | (Ok a, k) => (Ok a, k)
            | (Raise e, k) => if caught e then worker_lost k else (Raise e, k)
            end
        end
  end.

Definition _cpp_score (g : BitGraph) (c : cutoff) : K (option ScoreResult) :=
  k ← this_kernel;
  cap ← run (int_param (k_parameters k) "witness_cap");
  with_one_restart (score_once g cap c).

(** A score without a cutoff. A worker that says [dominated] to such a request
    would leave [None] as the score, which the next use of it rejects. *)
Definition full_score (g : BitGraph) : K ScoreResult :=
  s ← _cpp_score g None; match s with Some s => mret s | None => run (Raise AttributeError) end.

(** ** Seeds *)

Definition _generate_seed (elapsed_ns : Z) (source : string) (in_search_loop : bool) : K BitGraph :=
  k ← this_kernel;
  order ← run (int_param (k_parameters k) "order");
  mode ← run lane_mode;
  let sv := services k in
  let fresh_trace := if instrumentation_enabled opts then Some (mkTrace mode 0 0 None) else None in
  let '(result, trace, r) := generate_seed (Some order) (Some mode) fresh_trace (rng sv) in
  set_services (with_rng_state r sv) ;;;
  let trace := match result with Ok _ => trace | Raise _ => default_failure "other_implementation_failure" trace end in
  match trace with
  | None => run result
  | Some t =>
      let o := observed t elapsed_ns in_search_loop in
      batch ← run (accumulate source o (seed_generation_batch sv));
      set_services (with_seeds batch (seed_generation_cumulative sv) (with_rng_state r sv)) ;;;
      cumulative ← run (accumulate source o (seed_generation_cumulative sv));
      set_services (with_seeds batch cumulative (with_rng_state r sv)) ;;;
      run result
  end.

Definition _effective_seed_generator_mode (d : dict) : res string :=
  mode ← lane_mode;
  if bool_decide (mode = "unrestricted_min_degree_3"%string) then
    order ← int_param d "order"; Ok (if order mod 2 =? 0 then mode else "minimal_structure_mixed_degree"%string)
  else Ok mode.

(** [self.graph = graph]: another object; the witness cache and the cache of the
    ranking bridge are emptied. *)
Definition with_graph (g : BitGraph) (c : Current) : Current :=
  mkCurrent g (Datatypes.S (graph_object c)) (score c) (current_graph_key c) (current_candidate_id c) (current_provenance c)
    (current_evaluation_index c) (accepted_ancestry c).
Definition with_score (s : ScoreResult) (c : Current) : Current :=
  mkCurrent (graph c) (graph_object c) s (current_graph_key c) (current_candidate_id c) (current_provenance c)
    (current_evaluation_index c) (accepted_ancestry c).
Definition with_key (key : string) (c : Current) : Current :=
  mkCurrent (graph c) (graph_object c) (score c) key (current_candidate_id c) (current_provenance c)
    (current_evaluation_index c) (accepted_ancestry c).

Definition set_graph (g : BitGraph) : K unit := k ← this_kernel; set_current (with_graph g (current k)).

Definition _invalidate_mutation_witness_cache : K unit :=
  k ← this_kernel; let sv := services k in set_services (with_context (invalidate (mutation_context sv)) sv).
Definition invalidate_graph_cache : K unit :=
  k ← this_kernel; let sv := services k in
  set_services (with_bridge ((fun b => mkBridge (worker b) (telemetry b) (invalidate_cache (generator b)) (closed b)) <$> proposal_ranking sv) sv).
Definition invalidate_caches : K unit := _invalidate_mutation_witness_cache ;;; invalidate_graph_cache.

Definition fresh_scheme : string := if fast_duplicate_key_enabled opts then FAST_GRAPH_KEY_SCHEME else LEGACY_GRAPH_KEY_SCHEME.
Definition set_scheme (scheme : string) : K unit :=
  k ← this_kernel; let m := memory k in set_memory (mkMemory scheme (tabu m) (tabu_maxlen m) (recent_hashes m) (recent_hash_set m)).

(** [self.live_frontier_state = ...] *)
Definition publish (high : Z) : K unit :=
  k ← this_kernel; let c := current k in set_frontier (mkFrontier (graph c) (score c) (current_candidate_id c) high).

(** Counters of a fresh start *)
Definition reset_counts : K unit :=
  k ← this_kernel; let n := counts k in set_counts (mkCounts 0 0 (high_water n) (total_accepted n) (total_improvements n) (actual_restarts n)).

Definition _new_seed (elapsed_ns seed : Z) (source : string) : K unit :=
  k ← this_kernel;
  set_services (with_rng_state (Random seed) (services k)) ;;;
  set_scheme fresh_scheme ;;;
  g ← _generate_seed elapsed_ns source (bool_decide (source = "automatic_algorithm_restart"%string));
  set_graph g ;;;
  invalidate_caches ;;;
  s ← full_score g;
  k ← this_kernel;
  set_current (with_score s (current k)) ;;;
  let b := best k in
  set_best (mkBest g s (best_candidate_id b) (best_provenance b) (best_evaluation_index b) (best_ancestry b)) ;;;
  id ← run (lane_candidate_id g);
  k ← this_kernel;
  let c := current k in
  set_current (mkCurrent (graph c) (graph_object c) s (current_graph_key c) (Some id) None 0 []) ;;;
  set_best (mkBest g s id None 0 []) ;;;
  set_source None ;;;
  reset_counts ;;;
  k ← this_kernel;
  set_memory (with_tabu (memory k) [] (tabu_maxlen (memory k))) ;;;
  key ← run (_full_search_key (tabu_key_scheme (memory k)) g);
  k ← this_kernel;
  set_current (with_key key (current k)) ;;;
  set_memory (forget (memory k) key) ;;;
  publish (high_water (counts k)).

Definition restart (elapsed_ns seed : Z) : K unit := _new_seed elapsed_ns seed "explicit_director_restart".

(** ** Checkpoints as a source of a restart *)

Definition decode_graph6 (v : json) : res BitGraph := t ← py_str v; from_graph6 (Text (codes t)).
Definition read_lane_score (v : json) : res ScoreResult :=
  match v with JObj d => lane_score_from_payload parse_float d | _ => Raise TypeError end.

(** [dict(value)] of every item; the items of a checkpoint are dicts, and a
    sequence of pairs instead of one is not read. *)
Definition read_record (v : json) : res dict := match v with JObj d => Ok d | JList [] => Ok [] | _ => Raise TypeError end.
Definition read_ancestry (checkpoint : dict) (name : string) : res (list dict) :=
  items ← iterate (get_or checkpoint name (JList [])); mapM read_record items.

Definition with_ancestry (l : list dict) (c : Current) : Current :=
  mkCurrent (graph c) (graph_object c) (score c) (current_graph_key c) (current_candidate_id c) (current_provenance c)
    (current_evaluation_index c) l.
Definition with_best_ancestry (l : list dict) (b : Best) : Best :=
  mkBest (best_graph b) (best_score b) (best_candidate_id b) (best_provenance b) (best_evaluation_index b) l.

(** [accepted_ancestry] and [best_ancestry] *)
Definition restore_ancestry (checkpoint : dict) : K unit :=
  k ← this_kernel;
  if samples_independently then
    set_current (with_ancestry [] (current k)) ;;; set_best (with_best_ancestry [] (best k))
  else
    a ← run (read_ancestry checkpoint "accepted_ancestry");
    set_current (with_ancestry (newest ANCESTRY_LIMIT a) (current k)) ;;;
    b ← run (read_ancestry checkpoint "best_ancestry");
    set_best (with_best_ancestry (newest ANCESTRY_LIMIT b) (best k)).

Definition with_candidate_id (id : option string) (c : Current) : Current :=
  mkCurrent (graph c) (graph_object c) (score c) (current_graph_key c) id (current_provenance c) (current_evaluation_index c) (accepted_ancestry c).

Definition restored_best_id (checkpoint : dict) (best : BitGraph) : res string :=
  own ← lane_candidate_id best; py_str (get_or checkpoint "best_candidate_id" (JStr own)).

(** The graphs and scores of a checkpoint, stored one after another *)
Definition restore_best (checkpoint : dict) (g6 score_value : json) : K unit :=
  bg ← run (decode_graph6 (get_or checkpoint "best_graph6" g6));
  k ← this_kernel;
  let b := best k in
  set_best (mkBest bg (best_score b) (best_candidate_id b) (best_provenance b) (best_evaluation_index b) (best_ancestry b)) ;;;
  bs ← run (read_lane_score (get_or checkpoint "best_score" score_value));
  set_best (mkBest bg bs (best_candidate_id b) (best_provenance b) (best_evaluation_index b) (best_ancestry b)).

Definition restart_from_checkpoint (checkpoint : dict) (seed : Z) : K unit :=
  g6 ← run (subscript checkpoint "graph6");
  g ← run (decode_graph6 g6);
  set_graph g ;;;
  invalidate_caches ;;;
  set_scheme fresh_scheme ;;;
  key ← run (_full_search_key fresh_scheme g);
  k ← this_kernel;
  set_current (with_key key (current k)) ;;;
  sv ← run (subscript checkpoint "score");
  s ← run (read_lane_score sv);
  k ← this_kernel;
  set_current (with_score s (current k)) ;;;
  restore_best checkpoint g6 sv ;;;
  restore_ancestry checkpoint ;;;
  id ← run (match get checkpoint "current_candidate_id" with JNull => lane_candidate_id g | v => py_str v end);
  k ← this_kernel;
  set_current (with_candidate_id (Some id) (current k)) ;;;
  best_id ← run (restored_best_id checkpoint (best_graph (best k)));
  k ← this_kernel;
  let c := current k in let b := best k in
  set_current (mkCurrent (graph c) (graph_object c) (score c) (current_graph_key c) (current_candidate_id c) None 0 (accepted_ancestry c)) ;;;
  set_best (mkBest (best_graph b) (best_score b) best_id None 0 (best_ancestry b)) ;;;
  set_source None ;;;
  set_services (with_rng_state (Random seed) (services k)) ;;;
  reset_counts ;;;
  set_memory (forget (memory k) (current_graph_key c)) ;;;
  publish (high_water (counts k)).

(** [self.parameters.update(patch)] and the new bound of the tabu list *)
Definition patch (changes : dict) : K unit :=
  k ← this_kernel;
  moved ← run (match dict_get changes "order" with
               | None => Ok false
               | Some v => n ← to_int v; Ok (negb (n =? gn (graph (current k))))
               end);
  run (raise_if moved (ValueError "running lane order can change only through restart")) ;;;
  let d := foldl (fun d kv => dict_set d kv.1 kv.2) (k_parameters k) changes in
  set_parameters d ;;;
  tenure ← run (int_param_or d "tabu_tenure" 128);
  l ← run (new_deque tenure (tabu (memory k)));
  set_memory (with_tabu (memory k) l tenure).
End Kernel.
