(* ===== verification/LaneBatch.v ===== *)
(** * A batch of a lane

    [src/src/sglab/research/lanes.py], [_LaneKernel.run_batch] and what it calls:
    the choice of a mutation, ranked proposals, the cutoff of a score, the
    acceptance test, mutation records, provenance and the metrics. *)

From stdpp Require Import sorting gmap.
From S2P Require Import ScoreWorker Features Pool Ranking Prelude Floats Json Convert Model Graph6 Verification Score Rng Rewiring Mutation Seed Search Catalog SearchKeys SeedMetrics Lane LaneKernel.

#[global] Open Scope Z_scope.

(** What the flags, the clock and the policy worker show one turn of the loop *)
Record Turn := mkTurn {
  stop_set : bool;
  past_deadline : bool;
  restart_ns : Z;
  seed_ns : Z;
  policy : Outside
}.

(** The local variables of [run_batch] *)
Record Batch := mkBatch {
  evaluated : Z;
  accepted : Z;
  legal : Z;
  improvements : Z;
  duplicates : Z;
  early_rejected : Z;
  accepted_at_last_record : Z;
  score_counts_truncated : bool;
  trajectory : list (Z * list Z);
  global_records : list dict;
  ancestry_operator_statistics : list (string * (Z * Z * Z))
}.

(** [uses], [accepted] and [global_records] of an operator *)
Definition add_use (d : list (string * (Z * Z * Z))) (operator : string) : list (string * (Z * Z * Z)) :=
  let '(u, a, g) := default (0, 0, 0) (dict_get d operator) in dict_set d operator (u + 1, a, g).
Definition add_outcome (d : list (string * (Z * Z * Z))) (operator : string) (accept record : bool) : list (string * (Z * Z * Z)) :=
  let '(u, a, g) := default (0, 0, 0) (dict_get d operator) in
  dict_set d operator (u, a + (if accept then 1 else 0), g + (if record then 1 else 0)).

Definition new_batch (truncated : bool) : Batch := mkBatch 0 0 0 0 0 0 0 truncated [] [] [].

Definition batch_use (operator : string) (b : Batch) : Batch :=
  mkBatch (evaluated b) (accepted b) (legal b) (improvements b) (duplicates b) (early_rejected b) (accepted_at_last_record b)
    (score_counts_truncated b) (trajectory b) (global_records b) (add_use (ancestry_operator_statistics b) operator).
Definition batch_evaluated (b : Batch) : Batch :=
  mkBatch (evaluated b + 1) (accepted b) (legal b) (improvements b) (duplicates b) (early_rejected b) (accepted_at_last_record b)
    (score_counts_truncated b) (trajectory b) (global_records b) (ancestry_operator_statistics b).
Definition batch_legal (duplicate : bool) (b : Batch) : Batch :=
  mkBatch (evaluated b) (accepted b) (legal b + 1) (improvements b) (if duplicate then duplicates b + 1 else duplicates b) (early_rejected b)
    (accepted_at_last_record b) (score_counts_truncated b) (trajectory b) (global_records b) (ancestry_operator_statistics b).
Definition batch_rejected (b : Batch) : Batch :=
  mkBatch (evaluated b) (accepted b) (legal b) (improvements b) (duplicates b) (early_rejected b + 1) (accepted_at_last_record b)
    (score_counts_truncated b) (trajectory b) (global_records b) (ancestry_operator_statistics b).
(** A scored candidate: truncated counts, and the outcome for its operator *)
Definition batch_scored (complete accept record : bool) (operator : string) (b : Batch) : Batch :=
  mkBatch (evaluated b) (if accept then accepted b + 1 else accepted b) (legal b) (improvements b) (duplicates b) (early_rejected b)
    (accepted_at_last_record b) (score_counts_truncated b || negb complete) (trajectory b) (global_records b)
    (add_outcome (ancestry_operator_statistics b) operator accept record).
(** A global record, with its mutation record when there is one *)
Definition batch_record (key : list Z) (record : option dict) (b : Batch) : Batch :=
  mkBatch (evaluated b) (accepted b) (legal b) (improvements b + 1) (duplicates b) (early_rejected b) (accepted b)
    (score_counts_truncated b)
    (if (length (trajectory b) <? 64)%nat then trajectory b ++ [(evaluated b, key)] else trajectory b)
    (global_records b ++ option_list record) (ancestry_operator_statistics b).

(** ** Records *)

(** [sorted(set)] of pairs *)
Definition sorted_pairs (l : list (Z * Z)) : list (Z * Z) := merge_sort pair_le (remove_dups l).
Definition sorted_ints (l : list Z) : list Z := merge_sort Z.le (remove_dups l).
Definition pair_json (e : Z * Z) : json := JList [JInt e.1; JInt e.2].
Definition ints_json (l : list Z) : json := JList (JInt <$> l).

(** The edges of [g] that are not edges of [h] *)
Definition edges_lost (g h : BitGraph) : list (Z * Z) := sorted_pairs (filter (fun e => e ∉ edges h) (edges g)).

Section Records.
Context (sha256 : list Z -> list Z).

Definition _mutation_record (campaign : string) (parent child : BitGraph) (parent_candidate_id : string) (before after : ScoreResult)
  (evaluation : Z) (accept record : bool) (operator : string) (child_graph_sha256 : option string) : res dict :=
  let removed := edges_lost parent child in
  let added := edges_lost child parent in
  let vertices := sorted_ints ((removed ++ added) ≫= (fun e => [e.1; e.2])) in
  id ← match child_graph_sha256 with
       | Some h => _candidate_id_from_graph_sha256 (digest_text sha256) campaign h
       | None => _candidate_id (digest_text sha256) campaign child
       end;
  kb ← ordering_key before; ka ← ordering_key after;
  cb ← foldM add_count [] (witness_counts before); ca ← foldM add_count [] (witness_counts after);
  Ok [("candidate_id", JStr id); ("parent_candidate_id", JStr parent_candidate_id); ("mutation_operator", JStr operator);
      ("mutated_vertices", ints_json vertices);
      ("mutated_edges", JObj [("removed", JList (pair_json <$> removed)); ("added", JList (pair_json <$> added))]);
      ("score_before", ints_json kb); ("score_after", ints_json ka); ("witness_counts_before", JObj cb); ("witness_counts_after", JObj ca);
      ("evaluation", JInt evaluation); ("accepted", JBool accept); ("global_record", JBool record)]%string.
End Records.

Section Batches.
Context {R S : Type} `{Rng R} `{RngState R} `{LaneScorer S}.
Context (parse_float : string -> res float) (sha256 : list Z -> list Z) (Random : Z -> R) (set_iter : gset Z -> list Z).
Context (f_pow : float -> Z -> float) (f_exp : float -> float).
Context (spec : LaneSpec) (opts : Options).

Abbreviation Kernel := (Kernel R S).
Abbreviation K := (K R S).
Abbreviation algorithm := (algorithm spec).
Abbreviation samples_independently := (samples_independently spec opts).

(** [str(self.current_candidate_id)] *)
Definition current_id_text (id : option string) : string := default "None"%string id.
Definition optional_text (s : option string) : json := match s with Some s => JStr s | None => JNull end.

Definition _independent_sample_provenance (source : option string) (graph_sha256 : string) (s : ScoreResult) (evaluation_index : Z)
  (record_status : string) : res dict :=
  p ← lane_score_payload s;
  Ok [("schema_version", JInt PROVENANCE_SCHEMA_VERSION); ("provenance_kind", JStr INDEPENDENT_SAMPLE_PROVENANCE);
      ("lane_id", JStr (lane_id spec)); ("source_checkpoint_id", optional_text source); ("retaining_checkpoint_id", JNull);
      ("seed_lineage", ints_json (match seed_lineage spec with [] => [lane_seed spec] | l => l end));
      ("evaluation_index", JInt evaluation_index); ("generator_version", JStr GENERATOR_VERSION);
      ("graph_sha256", JStr graph_sha256); ("score", JObj p); ("record_status", JStr record_status)]%string.

(** ** Mutations *)

(** An operation of the mutation code, on the random source and the witness cache
    of the kernel; its counters are not kept. When it raises, the batch raises and
    the lane ends, so what it left behind is not looked at. *)
Definition run_mutation {A} (m : M R A) : K A := fun k =>
  let sv := services k in
  match m (mkWorld (rng sv) O new_mutation_profile (mutation_context sv)) with
  | Ok (a, w) => (Ok a, (set_services (with_context (w_context w) (with_rng_state (w_rng w) sv)) k).2)
  | Raise e => (Raise e, k)
  end.

(** An operation of the ranking bridge, on the bridge of the kernel *)
Definition run_bridge {A} (m : B A) : K A := fun k =>
  match proposal_ranking (services k) with
  | None => (Raise (RuntimeError "proposal-ranking capability is disabled"), k)
  | Some b => let '(r, b) := m b in (r, (set_services (with_bridge (Some b) (services k)) k).2)
  end.

Definition _choose_mutation_operator : K string :=
  k ← this_kernel;
  match get (k_parameters k) MUTATION_WEIGHTS_PARAMETER with
  | JObj weights =>
      let '(draw, r) := random (rng (services k)) in
      set_services (with_rng_state r (services k)) ;;;
      run (found ← foldM (fun (acc : float * option string) name =>
             match acc.2 with
             | Some _ => Ok acc
             | None =>
                 v ← subscript weights name; w ← to_float parse_float v;
                 let cumulative := f_add acc.1 w in
                 Ok (cumulative, if f_le draw cumulative then Some name else None)
             end) (f_lit 0, None) MUTATION_OPERATORS;
           Ok (default "forbidden_cycle_break_switch"%string found.2))
  | _ => mret "uniform_two_edge_switch"%string
  end.

(** [int.from_bytes(sha256(canonical_json(...)).digest()[:8], "big")] *)
Definition policy_seed (d : dict) (step : Z) : res Z :=
  text ← canonical_json (JObj [("lane_id", JStr (lane_id spec)); ("lane_version", JInt (lane_version spec)); ("step", JInt step);
    ("catalog_id", get d "proposal_ranking")]%string) 4096;
  Ok (from_bytes (take 8 (sha256 (codes text)))).

Definition _policy_mutation (o : Outside) (step : Z) : K MutationResult :=
  k ← this_kernel;
  seed ← run (policy_seed (parameters spec) step);
  budget ← run (int_param (k_parameters k) "batch_candidates");
  let g := graph (current k) in let s := score (current k) in
  r ← run_bridge (select_for_graph parse_float Random sha256 set_iter default_pool_limits default_limits o g seed step
    (Z.max 0 (budget - algorithm_evaluated (counts k))) true (Some (witness_counts s, weighted_penalty s)));
  let '(selection, selected_graph, pool) := r in
  selected ← run (find_candidate (candidates pool) (selected_proposal_id selection));
  match selected with
  | None => run (Raise (RuntimeError "StopIteration"))
  | Some c =>
      run (raise_if (bool_decide (selected_graph = g)) (RuntimeError "reviewed policy selected a no-op proposal")) ;;;
      mret (mkMutation selected_graph (Pool.removed_edges (rewrite c)) (Pool.added_edges (rewrite c)))
  end.

(** The mutation without ranking; its profile is left out. *)
Definition plain_mutation (mode operator : string) : K MutationResult :=
  k ← this_kernel;
  let g := graph (current k) in let object := graph_object (current k) in
  choices ← (if bool_decide (operator = "forbidden_cycle_break_switch"%string)
             then c ← run_mutation (forbidden_witness_edge_choices (fun _ => 0) false true object g); mret (Some c)
             else mret None);
  run_mutation (mutate_with_delta (fun _ => 0) (mkConfig mode operator Missing choices Missing) object g).

(** The operator of a turn *)
Definition turn_operator : K string :=
  if bool_decide (algorithm = "random_restart"%string) then mret "random_restart_seed"%string
  else
    k ← this_kernel;
    match proposal_ranking (services k) with
    | Some _ => mret "reviewed_proposal_ranking"%string
    | None => _choose_mutation_operator
    end.

(** The candidate, and the change that leads to it when it is a mutation *)
Definition propose (t : Turn) (operator : string) (done_ : Z) : K (BitGraph * option MutationResult) :=
  k ← this_kernel;
  match proposal_ranking (services k) with
  | Some _ => d ← _policy_mutation (policy t) (high_water (counts k) + done_); mret (mutated d, Some d)
  | None =>
      if bool_decide (algorithm = "random_restart"%string) then
        g ← _generate_seed spec opts (seed_ns t) "random_restart_candidate" true; mret (g, None)
      else
        mode ← run (lane_mode spec);
        d ← plain_mutation mode operator; mret (mutated d, Some d)
  end.

(** ** Acceptance *)

Definition tabu_search : bool := bool_decide (algorithm ∈ ["iterated_local_search"; "iterated_local_search_tabu"]%string).

Definition _score_cutoff (key : string) : K (option (list Z * bool)) :=
  if negb (score_early_exit_enabled opts) || negb tabu_search then mret None
  else
    k ← this_kernel;
    perturb ← run (int_param_or (k_parameters k) "perturbation_interval" 64);
    phase ← run (py_mod (algorithm_evaluated (counts k)) perturb);
    if phase =? 0 then mret None
    else if bool_decide (key ∈ tabu (memory k)) then
      b ← run (ordering_key (best_score (best k))); mret (Some (b, true))
    else s ← run (ordering_key (score (current k))); mret (Some (s, false)).

Definition f_thousandth : float := f_ratio 1 1000.

Definition anneal (candidate_score : ScoreResult) : K bool :=
  k ← this_kernel;
  let d := k_parameters k in
  initial ← run (float_param_or parse_float d "temperature" (f_lit 8));
  cooling ← run (float_param_or parse_float d "cooling" f_decay);
  threshold ← run (int_param_or d "restart_threshold" 50000);
  age ← run (py_mod (algorithm_evaluated (counts k)) threshold);
  let temperature := f_max f_thousandth (f_mul initial (f_pow cooling age)) in
  c ← run (_score_scalar candidate_score); s ← run (_score_scalar (score (current k)));
  let delta := f_sub c s in
  if f_le delta (f_lit 0) then mret true
  else
    let '(x, r) := random (rng (services k)) in
    set_services (with_rng_state r (services k)) ;;;
    mret (f_lt x (f_exp (f_div (SFopp (f_min delta (f_lit 700))) temperature))).

Definition tabu_accept (candidate_score : ScoreResult) (key : string) : K bool :=
  k ← this_kernel;
  tenure ← run (int_param_or (k_parameters k) "tabu_tenure" 128);
  l ← run (if tabu_maxlen (memory k) =? tenure then Ok (tabu (memory k)) else new_deque tenure (tabu (memory k)));
  set_memory (with_tabu (memory k) l tenure) ;;;
  perturb ← run (int_param_or (k_parameters k) "perturbation_interval" 64);
  improves ← run (if bool_decide (key ∈ l) then Ok false
                  else c ← ordering_key candidate_score; s ← ordering_key (score (current k)); Ok (tuple_le c s));
  accept ← run (if improves : bool then Ok true else phase ← py_mod (algorithm_evaluated (counts k)) perturb; Ok (phase =? 0));
  (if accept : bool then set_memory (with_tabu (memory k) (deque_append tenure l key) tenure) else mret tt) ;;;
  mret accept.

Definition _accept (candidate_score : ScoreResult) (key : string) : K bool :=
  if bool_decide (algorithm = "simulated_annealing"%string) then anneal candidate_score else tabu_accept candidate_score key.
(** ** One turn *)

(** Simulated annealing starts again after a number of evaluations. *)
Definition restart_due : K bool :=
  if negb (bool_decide (algorithm = "simulated_annealing"%string)) then mret false
  else
    k ← this_kernel;
    if algorithm_evaluated (counts k) <=? 0 then mret false
    else
      threshold ← run (int_param_or (k_parameters k) "restart_threshold" 50000);
      age ← run (py_mod (algorithm_evaluated (counts k)) threshold);
      mret (age =? 0).

Definition automatic_restart (t : Turn) : K unit :=
  k ← this_kernel;
  let '(seed, r) := randrange (rng (services k)) (2 ^ 63) in
  set_services (with_rng_state r (services k)) ;;;
  _new_seed sha256 Random spec opts (restart_ns t) seed "automatic_algorithm_restart" ;;;
  k ← this_kernel;
  let n := counts k in
  set_counts (mkCounts (algorithm_evaluated n) (stagnation n) (high_water n) (total_accepted n) (total_improvements n) (actual_restarts n + 1)).

Definition count_evaluation : K unit :=
  k ← this_kernel; let n := counts k in
  set_counts (mkCounts (algorithm_evaluated n + 1) (stagnation n) (high_water n) (total_accepted n) (total_improvements n) (actual_restarts n)).
Definition set_stagnation (z : Z) : K unit :=
  k ← this_kernel; let n := counts k in
  set_counts (mkCounts (algorithm_evaluated n) z (high_water n) (total_accepted n) (total_improvements n) (actual_restarts n)).

(** The preview of the current graph, after [done_] evaluations of the batch *)
Definition publish_turn (done_ : Z) : K unit := k ← this_kernel; publish (high_water (counts k) + done_).

Definition record_candidate_id (record : dict) : res string := v ← subscript record "candidate_id"; py_str v.

(** The candidate becomes the current graph. *)
Definition accept_candidate (candidate : BitGraph) (s : ScoreResult) (key : string) (index : Z) (record : option dict) : K unit :=
  set_graph candidate ;;;
  invalidate_caches ;;;
  k ← this_kernel;
  let c := current k in
  let c := mkCurrent (graph c) (graph_object c) s key (current_candidate_id c) (current_provenance c) index (accepted_ancestry c) in
  (match record with
   | Some r =>
       id ← run (record_candidate_id r);
       set_current (with_candidate_id (Some id) (with_ancestry (deque_append ANCESTRY_LIMIT (accepted_ancestry c) r) c))
   | None =>
       set_current (if samples_independently
                    then mkCurrent (graph c) (graph_object c) s key None None index (accepted_ancestry c) else c)
   end) ;;;
  k ← this_kernel; let n := counts k in
  set_counts (mkCounts (algorithm_evaluated n) (stagnation n) (high_water n) (total_accepted n + 1) (total_improvements n) (actual_restarts n)).

(** The candidate becomes the best graph. *)
Definition record_candidate (candidate : BitGraph) (s : ScoreResult) (index : Z) (accept : bool) (record : option dict) : K unit :=
  k ← this_kernel;
  let b := best k in
  set_best (mkBest candidate s (best_candidate_id b) (best_provenance b) index (best_ancestry b)) ;;;
  (if samples_independently then
     h ← run (_graph_sha256 sha256 opts candidate);
     id ← run (_candidate_id_from_graph_sha256 (digest_text sha256) (campaign_id spec) h);
     p ← run (_independent_sample_provenance (batch_source_checkpoint_id k) h s index "global_record");
     set_best (mkBest candidate s id (Some p) index (best_ancestry b)) ;;;
     (if accept then
        k ← this_kernel; let c := current k in
        set_current (mkCurrent (graph c) (graph_object c) (score c) (current_graph_key c) (Some id) (Some p) (current_evaluation_index c)
          (accepted_ancestry c))
      else mret tt)
   else
     id ← run (match record with Some r => record_candidate_id r | None => lane_candidate_id sha256 spec opts candidate end);
     set_best (mkBest candidate s id (best_provenance b) index (best_ancestry b))) ;;;
  (match record with
   | Some r =>
       k ← this_kernel;
       let line := accepted_ancestry (current k) in
       set_best (with_best_ancestry (if accept then line else newest (ANCESTRY_LIMIT - 1) line ++ [r]) (best k))
   | None => mret tt
   end) ;;;
  k ← this_kernel; let n := counts k in
  set_counts (mkCounts (algorithm_evaluated n) 0 (high_water n) (total_accepted n) (total_improvements n + 1) (actual_restarts n)).

(** The part of a turn after the candidate got a score *)
Definition settle (candidate : BitGraph) (s : ScoreResult) (key operator : string) (b : Batch) : K Batch :=
  k ← this_kernel;
  c ← run (ordering_key s); bk ← run (ordering_key (best_score (best k)));
  let record := tuple_lt c bk in
  accept ← (if bool_decide (algorithm = "random_restart"%string) then mret true else _accept s key);
  k ← this_kernel;
  mutation_record ←
    (if instrumentation_enabled opts && negb samples_independently && (accept || record) then
       r ← run (_mutation_record sha256 (campaign_id spec) (graph (current k)) candidate (current_id_text (current_candidate_id (current k)))
                  (score (current k)) s (evaluated b) accept record operator
                  (if bool_decide (tabu_key_scheme (memory k) = LEGACY_GRAPH_KEY_SCHEME) then Some key else None));
       mret (Some r)
     else mret None);
  let b := batch_scored (score_complete s) accept record operator b in
  let index := high_water (counts k) + evaluated b in
  (if accept then accept_candidate candidate s key index mutation_record else mret tt) ;;;
  (if record then record_candidate candidate s index accept mutation_record else set_stagnation (stagnation (counts k) + 1)) ;;;
  k ← this_kernel;
  id ← (if instrumentation_enabled opts then mret (current_candidate_id (current k))
        else i ← run (lane_candidate_id sha256 spec opts (graph (current k))); mret (Some i));
  set_frontier (mkFrontier (graph (current k)) (score (current k)) id index) ;;;
  mret (if record then batch_record c mutation_record b else b).

(** A proposed candidate: an evaluation, which is no move when it is the current
    graph; otherwise its key is remembered and it gets a score, unless the score
    worker says that it cannot pass the test. *)
Definition judge (candidate : BitGraph) (delta : option MutationResult) (operator : string) (b : Batch) : K Batch :=
  let b := batch_evaluated b in
  count_evaluation ;;;
  k ← this_kernel;
  if bool_decide (candidate = graph (current k)) then publish_turn (evaluated b) ;;; mret b
  else
    key ← run (_candidate_search_key sha256 opts (tabu_key_scheme (memory k)) (current_graph_key (current k)) candidate delta);
    let b := batch_legal (bool_decide (key ∈ recent_hash_set (memory k))) b in
    set_memory (remember_hash (memory k) key) ;;;
    cutoff ← _score_cutoff key;
    s ← _cpp_score candidate cutoff;
    match s with
    | None =>
        k ← this_kernel;
        set_stagnation (stagnation (counts k) + 1) ;;;
        publish_turn (evaluated b) ;;;
        mret (batch_rejected b)
    | Some s => settle candidate s key operator b
    end.

Definition turn (t : Turn) (b : Batch) : K Batch :=
  due ← restart_due;
  (if due : bool then automatic_restart t else mret tt) ;;;
  operator ← turn_operator;
  let b := batch_use operator b in
  candidate_delta ← propose t operator (evaluated b);
  judge candidate_delta.1 candidate_delta.2 operator b.

(** ** The loop *)

(** [for _ in range(target)]; [turns i] is what turn [i] sees. The loop stops at the
    flag or at the deadline. *)
Fixpoint loop (turns : nat -> Turn) (left : nat) (i : nat) (b : Batch) : K Batch :=
  match left with
  | O => mret b
  | Datatypes.S left' =>
      if stop_set (turns i) || past_deadline (turns i) then mret b
      else b ← turn (turns i) b; loop turns left' (Datatypes.S i) b
  end.
(** ** Metrics *)

(** What is seen after the loop: the flag, whether a deadline has passed, and the
    seconds the loop took *)
Record Ending := mkEnding { stopped_at_end : bool; deadline_at_end : bool; loop_seconds : float; binary_sha256 : string }.

Definition elapsed_of (e : Ending) : float := f_max (loop_seconds e) billionth.
Definition elapsed_ns_of (e : Ending) : res Z := n ← py_round (f_mul (elapsed_of e) (f_lit 1000000000)); Ok (Z.max 1 n).

Definition termination_reason (target : Z) (e : Ending) (b : Batch) : string :=
  if stopped_at_end e then "stop_requested"
  else if deadline_at_end e && (evaluated b <? target) then "wall_time_limit" else "evaluation_limit".

Definition rate (a b : Z) : res float := py_truediv a (Z.max 1 b).
Definition diversity (b : Batch) : res float := r ← rate (duplicates b) (legal b); Ok (f_sub (f_lit 1) r).

Definition operator_json (entry : string * (Z * Z * Z)) : res (string * json) :=
  let '(name, (u, a, g)) := entry in
  y ← rate g u; r ← rate a u;
  Ok (name, JObj [("uses", JInt u); ("accepted", JInt a); ("global_records", JInt g); ("yield", JFloat y); ("acceptance_rate", JFloat r)]%string).

Definition last_evaluation (b : Batch) : Z := match last (trajectory b) with Some (e, _) => e | None => 0 end.
Definition plateau_evaluations (b : Batch) : Z := evaluated b - last_evaluation b.
Definition plateau_threshold (target : Z) : Z := Z.max 25 (Z.min 250 (target / 3)).
Definition f_quarter : float := f_ratio 1 4.

Definition plateau_signal (target : Z) (b : Batch) : res json :=
  d ← diversity b;
  let since := accepted b - accepted_at_last_record b in
  let remaining := Z.max 0 (target - evaluated b) in
  let active := (plateau_threshold target <=? plateau_evaluations b) && (0 <? since) && f_le f_quarter d && (0 <? remaining) in
  Ok (JObj [("active", JBool active);
    ("evaluations_since_last_global_record", JInt (plateau_evaluations b)); ("accepted_moves_since_last_global_record", JInt since);
    ("diversity", JFloat d); ("remaining_evaluation_budget", JInt remaining); ("evaluation_threshold", JInt (plateau_threshold target));
    ("telemetry_only", JBool true)]%string).

Definition dicts_json (l : list dict) : json := JList (JObj <$> l).

Definition _ancestry_payload (records final_best current_accepted : list dict) (maximum_evaluations : Z) : res json :=
  let all := records ++ final_best ++ current_accepted in
  sizes ← mapM (fun r => t ← dumps (JObj r); Ok (len t)) all;
  let largest := foldl Z.max 0 sizes in
  let most := maximum_evaluations + 2 * ANCESTRY_LIMIT in
  let bytes := most * largest * 2 in
  Ok (JObj [("limit_per_retained_candidate", JInt ANCESTRY_LIMIT); ("global_record_improvements", dicts_json records);
    ("final_best_ancestry", dicts_json (newest ANCESTRY_LIMIT final_best)); ("global_record_count", JInt (Z.of_nat (length records)));
    ("final_best_ancestry_length", JInt (Z.min (Z.of_nat (length final_best)) ANCESTRY_LIMIT));
    ("rejected_non_record_candidates_stored", JInt 0);
    ("memory_estimate", JObj [("live_record_count", JInt (Z.of_nat (length all))); ("maximum_live_records", JInt most);
      ("largest_observed_record_bytes", JInt largest); ("conservative_maximum_bytes", JInt bytes);
      ("note", JStr "The factor of two covers Python container and object overhead beyond compact JSON size.")])]%string).

Definition score_backend (k : Kernel) (e : Ending) : json :=
  JObj [("implementation", JStr "cpp"); ("early_exit_enabled", JBool (score_early_exit_enabled opts));
    ("duplicate_key_scheme", JStr (tabu_key_scheme (memory k))); ("score_worker_protocol_version", JInt PROTOCOL_VERSION);
    ("mutation_witness_cache_enabled", JBool (mutation_witness_cache_enabled opts)); ("score_worker_sha256", JStr (binary_sha256 e));
    ("cpp_requests", JInt (cpp_requests (services k))); ("worker_restarts", JInt (worker_restarts (services k)))]%string.

(** The result of a batch, without the payload of the ranking bridge and without
    timings *)
Definition batch_metrics (target : Z) (initial : ScoreResult) (e : Ending) (k : Kernel) (b : Batch) : res dict :=
  per_second ← (n ← f_of_Z (evaluated b); Ok (f_div n (elapsed_of e)));
  acceptance ← rate (accepted b) (legal b); duplicate_rate ← rate (duplicates b) (legal b);
  d ← diversity b; yield_ ← rate (improvements b) (legal b);
  best_key ← ordering_key (best_score (best k)); scalar ← _score_scalar (best_score (best k));
  first ← lane_score_payload initial; final ← lane_score_payload (score (current k));
  first_key ← ordering_key initial; final_key ← ordering_key (score (current k));
  operators ← mapM operator_json (ancestry_operator_statistics b);
  plateau ← plateau_signal target b;
  ancestry ← _ancestry_payload (global_records b) (best_ancestry (best k)) (accepted_ancestry (current k)) target;
  let truncated := Z.of_nat (length (trajectory b)) <? improvements b in
  let restarted := 0 <? actual_restarts (counts k) in
  let samples := JList ((fun ek => JObj [("evaluation", JInt ek.1); ("score", ints_json ek.2)]%string) <$> trajectory b) in
  Ok [("evaluated", JInt (evaluated b)); ("accepted", JInt (accepted b)); ("legal", JInt (legal b)); ("improvements", JInt (improvements b));
      ("duplicates", JInt (duplicates b)); ("early_rejected", JInt (early_rejected b)); ("elapsed_seconds", JFloat (elapsed_of e));
      ("candidates_per_second", JFloat per_second); ("acceptance_rate", JFloat acceptance); ("duplicate_rate", JFloat duplicate_rate);
      ("diversity", JFloat d); ("operator_yield", JFloat yield_); ("best_score", ints_json best_key); ("best_scalar", JFloat scalar);
      ("initial_score", JObj first); ("final_score", JObj final);
      ("score_trajectory_summary", JObj [("initial", ints_json first_key); ("final", ints_json final_key); ("best", ints_json best_key);
        ("improvement_count", JInt (improvements b)); ("improvement_samples", samples);
        ("samples_truncated", JBool truncated)]);
      ("operator_statistics", JObj [("accepted", JInt (accepted b)); ("legal", JInt (legal b)); ("improvements", JInt (improvements b));
        ("duplicates", JInt (duplicates b)); ("acceptance_rate", JFloat acceptance); ("duplicate_rate", JFloat duplicate_rate);
        ("operator_yield", JFloat yield_); ("mutation_operators", JObj operators)]);
      ("best_evaluation", JInt (last_evaluation b)); ("plateau_evaluations", JInt (plateau_evaluations b)); ("plateau_signal", plateau);
      ("global_record_count", JInt (improvements b)); ("actual_restart_occurred", JBool restarted);
      ("actual_restart_count", JInt (actual_restarts (counts k)));
      ("score_counts_truncated_by_witness_cap", JBool (score_counts_truncated b)); ("mutation_ancestry", ancestry);
      ("candidate_provenance", match best_provenance (best k) with Some p => JObj p | None => JNull end);
      ("termination_reason", JStr (termination_reason target e b)); ("end_high_water", JInt (high_water (counts k)));
      ("score_backend", score_backend k e)]%string.

Definition seed_metrics (k : Kernel) : res json :=
  let sv := services k in let d := k_parameters k in
  order ← int_param d "order"; mode ← _effective_seed_generator_mode spec d;
  batch ← accumulator_payload (seed_generation_batch sv) (graph_family spec) order mode;
  cumulative ← accumulator_payload (seed_generation_cumulative sv) (graph_family spec) order mode;
  Ok (JObj [("schema_version", JInt 1); ("batch", JObj batch); ("cumulative", JObj cumulative)]%string).

(** ** [run_batch] *)

Definition batch_target (k : Kernel) (max_evaluations : option Z) : res Z :=
  n ← int_param (k_parameters k) "batch_candidates"; Ok (Z.min n (default n max_evaluations)).

(** The batch counters of the score worker start at zero. *)
Definition start_batch (source : option string) : K ScoreResult :=
  k ← this_kernel;
  set_source source ;;;
  set_services (with_worker (score_worker (services k)) 0 0 (services k)) ;;;
  mret (score (current k)).

Definition add_high_water (n : Z) : K unit :=
  k ← this_kernel; let c := counts k in
  set_counts (mkCounts (algorithm_evaluated c) (stagnation c) (high_water c + n) (total_accepted c) (total_improvements c) (actual_restarts c)).

Definition add_loop_time (e : Ending) : K unit :=
  if instrumentation_enabled opts then
    ns ← run (elapsed_ns_of e);
    k ← this_kernel; let sv := services k in
    set_services (with_seeds (add_loop_ns ns (seed_generation_batch sv)) (add_loop_ns ns (seed_generation_cumulative sv)) sv)
  else mret tt.

Definition run_batch (turns : nat -> Turn) (e : Ending) (max_evaluations : option Z) (wall_limit : option float) (source : option string)
  : K (Batch * dict) :=
  k ← this_kernel;
  target ← run (batch_target k max_evaluations);
  run (raise_if (target <? 1) (ValueError "batch evaluation limit must be positive")) ;;;
  run (raise_if (match wall_limit with Some w => f_le w (f_lit 0) | None => false end) (ValueError "batch wall limit must be positive")) ;;;
  initial ← start_batch source;
  b ← loop turns (Z.to_nat target) 0 (new_batch (negb (score_complete initial)));
  add_high_water (evaluated b) ;;;
  add_loop_time e ;;;
  k ← this_kernel;
  metrics ← run (batch_metrics target initial e k b);
  if instrumentation_enabled opts then
    seeds ← run (seed_metrics k);
    set_services (with_seeds new_accumulator (seed_generation_cumulative (services k)) (services k)) ;;;
    mret (b, metrics ++ [("seed_generation"%string, seeds)])
  else mret (b, metrics).
End Batches.
