(* ===== verification/LaneCheckpoint.v ===== *)
(** * Checkpoints of a lane

    [src/src/sglab/research/lanes.py]: the constructor of [_LaneKernel], from
    nothing or from a checkpoint, [checkpoint] and its digests, previews; and from
    [research/proposal_ranking.py] the identity of the ranking policy that a
    checkpoint carries. *)

From stdpp Require Import sorting gmap.
From S2P Require Import Features Pool Ranking Prelude Floats Json Convert Model Graph6 Verification Score Rng Rewiring Mutation Seed Search Catalog SearchKeys SeedMetrics Lane LaneKernel LaneBatch.

#[global] Open Scope Z_scope.

(** ** The identity of the ranking policy ([proposal_ranking.py]) *)

Definition POLICY_ID : string := "program-d5ad1c8203e0d9f25f03aabd".
Definition POLICY_SOURCE_SHA256 : string := "e444562c1b308e3b23cb732be5f769ea1923ac1809501cea8571318c4aff0a7b".
Definition POLICY_AST_SHA256 : string := "2243214df58c805e9a9343dc31ed082279e1c2ac31b21243bf889dbc9a19e165".
Definition POLICY_BEHAVIOR_SHA256 : string := "8c2bdaa213f11b253d3ffcae1653bd01536879bb5c254a1586ded9ae522a868e".
Definition VALIDATOR_VERSION : string := "stage2a.validator.v2".
Definition RUNTIME_PROTOCOL_VERSION : string := "stage2a.worker.v1".
Definition BATCH_PROTOCOL_VERSION : string := "stage2a.worker.batch.v1".
Definition TIE_BREAKING_RULE : string := "descending_priority_then_lexicographic_proposal_id".
Definition FAILURE_POLICY : string := "fail_closed_no_silent_fallback".

(** [FROZEN_IDENTITY.as_dict()] *)
Definition frozen_identity : list (string * string) :=
  [("catalog_id", REVIEWED_PROPOSAL_RANKING_CATALOG_ID); ("policy_id", POLICY_ID); ("source_sha256", POLICY_SOURCE_SHA256);
   ("normalized_ast_sha256", POLICY_AST_SHA256); ("behavior_signature_sha256", POLICY_BEHAVIOR_SHA256);
   ("validator_version", VALIDATOR_VERSION); ("runtime_protocol_version", RUNTIME_PROTOCOL_VERSION)]%string.

Definition policy_identity : list (string * string) :=
  frozen_identity ++
  [("context_schema_version", CONTEXT_SCHEMA_VERSION); ("proposal_schema_version", PROPOSAL_SCHEMA_VERSION);
   ("pool_schema_version", POOL_SCHEMA_VERSION); ("tie_breaking_version", TIE_BREAKING_RULE);
   ("failure_policy_version", FAILURE_POLICY); ("batch_protocol_version", BATCH_PROTOCOL_VERSION)]%string.

Definition text_dict (l : list (string * string)) : dict := (fun kv => (kv.1, JStr kv.2)) <$> l.

(** [stored == {...}] for a dict of texts: the same keys with the same values *)
Definition same_texts (v : json) (l : list (string * string)) : bool :=
  match v with
  | JObj d => forallb (fun kv => match dict_get d kv.1 with Some w => is_text w kv.2 | None => false end) l &&
              forallb (fun k => bool_decide (k ∈ l.*1)) (keys d)
  | _ => false
  end.

Section Identity.
Context (sha256 : list Z -> list Z).

Definition identity_hash (identity : dict) : res string := canonical_json_hash sha256 (JObj identity).

Definition checkpoint_policy_identity : res (list (string * string)) :=
  h ← identity_hash (text_dict policy_identity); Ok (policy_identity ++ [("identity_sha256"%string, h)]).

Definition require_checkpoint_identity (payload : dict) (enabled : bool) : res unit :=
  let stored := get payload "proposal_ranking_identity" in
  if enabled then
    identity ← checkpoint_policy_identity;
    raise_if (negb (same_texts stored identity)) (ContractViolation "checkpoint proposal-ranking identity mismatch")
  else raise_if (match stored with JNull => false | _ => true end) (ContractViolation "policy checkpoint cannot resume into a disabled lane").
End Identity.

(** What the constructor meets outside: the policy worker and the score worker as
    they start, and the time the first seed takes *)
Record Boot (S : Type) := mkBoot { boot_policy : res unit; boot_worker : S; boot_start : res unit; boot_ns : Z }.
Arguments mkBoot {S}. Arguments boot_policy {S}. Arguments boot_worker {S}. Arguments boot_start {S}. Arguments boot_ns {S}.

Section Checkpoints.
Context {R S : Type} `{Rng R} `{RngState R} `{LaneScorer S}.
Context (parse_float : string -> res float) (sha256 : list Z -> list Z) (Random : Z -> R).
Context (spec : LaneSpec) (opts : Options).

Abbreviation Kernel := (Kernel R S).
Abbreviation algorithm := (algorithm spec).
Abbreviation samples_independently := (samples_independently spec opts).
Abbreviation full_key := (_full_search_key sha256 opts).
Abbreviation candidate_id := (lane_candidate_id sha256 spec opts).

(** ** [checkpoint] *)

Definition lane_graph6 (g : BitGraph) : res string := t ← to_graph6 g; Ok (text_of t).

Definition chain_provenance (index : Z) (id : string) (field : string) : dict :=
  [("schema_version", JInt PROVENANCE_SCHEMA_VERSION); ("provenance_kind", JStr MUTATION_CHAIN_PROVENANCE); ("lane_id", JStr (lane_id spec));
   ("evaluation_index", JInt index); ("candidate_id", JStr id); ("ancestry_field", JStr field)]%string.

(** The current candidate's id, its provenance and the best one's *)
Definition checkpoint_provenance (k : Kernel) : res (string * dict * dict) :=
  let c := current k in let b := best k in
  if samples_independently then
    h ← _graph_sha256 sha256 opts (graph c);
    id ← _candidate_id_from_graph_sha256 (digest_text sha256) (campaign_id spec) h;
    here ← _independent_sample_provenance spec (batch_source_checkpoint_id k) h (score c) (current_evaluation_index c) "checkpoint_current";
    there ← match best_provenance b with
            | Some p => Ok p
            | None =>
                bh ← (if bool_decide (best_graph b = graph c) then Ok h else _graph_sha256 sha256 opts (best_graph b));
                _independent_sample_provenance spec (batch_source_checkpoint_id k) bh (best_score b) (best_evaluation_index b) "checkpoint_best"
            end;
    Ok (id, here, there)
  else
    id ← match current_candidate_id c with Some id => Ok id | None => candidate_id (graph c) end;
    Ok (id, chain_provenance (current_evaluation_index c) id "accepted_ancestry",
        chain_provenance (best_evaluation_index b) (best_candidate_id b) "best_ancestry").

Definition text_list (l : list string) : json := JList (JStr <$> l).

(** The entries every checkpoint has *)
Definition checkpoint_core (k : Kernel) (lane_version : Z) : res dict :=
  let c := current k in let b := best k in let m := memory k in let n := counts k in
  provenance ← checkpoint_provenance k;
  let '(id, here, there) := provenance in
  g6 ← lane_graph6 (graph c); s ← lane_score_payload (score c);
  bg6 ← lane_graph6 (best_graph b); bs ← lane_score_payload (best_score b);
  bid ← (if instrumentation_enabled opts then Ok (best_candidate_id b) else candidate_id (best_graph b));
  Ok [("lane_id", JStr (lane_id spec)); ("lane_version", JInt lane_version); ("graph6", JStr g6); ("score", JObj s);
      ("best_graph6", JStr bg6); ("best_score", JObj bs); ("rng_state", JStr (getstate (rng (services k))));
      ("algorithm_evaluated", JInt (algorithm_evaluated n)); ("stagnation", JInt (stagnation n)); ("tabu", text_list (tabu m));
      ("duplicate_key_scheme", JStr (tabu_key_scheme m));
      ("tabu_key_scheme", JStr (_duplicate_key_compatibility_alias (tabu_key_scheme m)));
      ("parameters", JObj (k_parameters k)); ("high_water", JInt (high_water n));
      ("accepted_ancestry", dicts_json (accepted_ancestry c)); ("best_ancestry", dicts_json (best_ancestry b));
      ("current_candidate_id", JStr id); ("best_candidate_id", JStr bid);
      ("current_evaluation_index", JInt (current_evaluation_index c)); ("best_evaluation_index", JInt (best_evaluation_index b));
      ("current_provenance", JObj here); ("best_provenance", JObj there)]%string.

Definition seed_telemetry_hash (v : json) : res string := t ← canonical_json v (256 * 1024); Ok (digest_text sha256 (codes t)).

Definition checkpoint_seeds (k : Kernel) : res dict :=
  if instrumentation_enabled opts then
    order ← int_param (k_parameters k) "order";
    mode ← _effective_seed_generator_mode spec (k_parameters k);
    p ← accumulator_payload (seed_generation_cumulative (services k)) (graph_family spec) order mode;
    h ← seed_telemetry_hash (JObj p);
    Ok [("seed_generation", JObj p); ("seed_generation_sha256", JStr h)]%string
  else Ok [].

Definition checkpoint_identity : res dict :=
  match get (parameters spec) "proposal_ranking" with
  | JNull => Ok []
  | _ => identity ← checkpoint_policy_identity sha256; Ok [("proposal_ranking_identity"%string, JObj (text_dict identity))]
  end.

(** Measured times do not enter the digest. *)
Definition scientific (payload : dict) : dict :=
  dict_pop (dict_pop (dict_pop (dict_pop payload "checkpoint_id") "sha256") "seed_generation") "seed_generation_sha256".
Definition checkpoint_scientific_sha256 (payload : dict) : res string :=
  t ← canonical_json (JObj (scientific payload)) (1024 * 1024); Ok (digest_text sha256 (codes t)).

Definition checkpoint_seed_generation_sha256 (payload : dict) : res (option string) :=
  match get payload "seed_generation", get payload "seed_generation_sha256" with
  | JNull, JNull => Ok None
  | JObj d, JStr _ => h ← seed_telemetry_hash (JObj d); Ok (Some h)
  | _, _ => Raise (ValueError "checkpoint seed telemetry envelope is incomplete")
  end.

Definition checkpoint (k : Kernel) (lane_version : Z) : res dict :=
  core ← checkpoint_core k lane_version;
  seeds ← checkpoint_seeds k;
  identity ← checkpoint_identity;
  let payload := core ++ seeds ++ identity in
  digest ← checkpoint_scientific_sha256 payload;
  let id := ("checkpoint-" ++ Stdlib.Strings.String.substring 0 24 digest)%string in
  Ok (payload ++ [("checkpoint_id"%string, JStr id); ("sha256"%string, JStr digest)]).

Definition retained_best_provenance (k : Kernel) (retaining_checkpoint_id : string) : res dict :=
  let b := best k in
  match best_provenance b with
  | Some p => Ok (dict_set p "retaining_checkpoint_id" (JStr retaining_checkpoint_id))
  | None =>
      h ← _graph_sha256 sha256 opts (best_graph b); s ← lane_score_payload (best_score b);
      Ok [("schema_version", JInt PROVENANCE_SCHEMA_VERSION); ("provenance_kind", JStr MUTATION_CHAIN_PROVENANCE); ("lane_id", JStr (lane_id spec));
          ("source_checkpoint_id", optional_text (batch_source_checkpoint_id k)); ("retaining_checkpoint_id", JStr retaining_checkpoint_id);
          ("seed_lineage", ints_json (match seed_lineage spec with [] => [lane_seed spec] | l => l end));
          ("evaluation_index", JInt (best_evaluation_index b)); ("generator_version", JStr GENERATOR_VERSION); ("graph_sha256", JStr h);
          ("score", JObj s); ("record_status", JStr "global_record"); ("mutation_ancestry", dicts_json (best_ancestry b))]%string
  end.

(** [_live_frontier_payload], at the time [published_at] *)
Definition _live_frontier_payload (f : Frontier) (lane_version : Z) (published_at : string) : res dict :=
  g6 ← lane_graph6 (f_graph f); s ← lane_score_payload (f_score f);
  let payload := [("schema_version", JInt 1); ("lane_id", JStr (lane_id spec)); ("lane_version", JInt lane_version); ("graph6", JStr g6);
    ("score", JObj s); ("current_candidate_id", optional_text (f_candidate f)); ("high_water", JInt (f_high_water f));
    ("published_at", JStr published_at); ("transient", JBool true)]%string in
  t ← canonical_json (JObj payload) (64 * 1024);
  let digest := digest_text sha256 (codes t) in
  let id := ("live-frontier-" ++ Stdlib.Strings.String.substring 0 24 digest)%string in
  Ok (payload ++ [("preview_id"%string, JStr id); ("sha256"%string, JStr digest)]).
(** ** The constructor *)

(** [HegPolicyBridge(catalog_id=str(catalog_id))], with its worker started *)
Definition open_bridge (boot : Boot S) (catalog_id : json) : res Bridge :=
  id ← py_str catalog_id;
  raise_if (negb (bool_decide (id = REVIEWED_PROPOSAL_RANKING_CATALOG_ID))) (ContractViolation "only the reviewed catalog ID may be activated") ;;;
  boot_policy boot ;;;
  Ok (mkBridge (Ranking.mkWorker 0 0 false true 0) (mkTelemetry 0 0 0 [] []) new_generator false).

Definition bridge_of (boot : Boot S) (saved : option dict) : res (option Bridge) :=
  match get (parameters spec) "proposal_ranking" with
  | JNull =>
      match saved with Some c => require_checkpoint_identity sha256 c false | None => Ok tt end ;;; Ok None
  | id =>
      match saved with Some c => require_checkpoint_identity sha256 c true | None => Ok tt end ;;;
      b ← open_bridge boot id; Ok (Some b)
  end.

Definition restored_seeds (saved : option dict) (fork_seed : option Z) : res SeedGenerationAccumulator :=
  match saved, fork_seed with
  | Some c, None =>
      if instrumentation_enabled opts then
        match get c "seed_generation" with JObj d => accumulator_from_payload d | _ => Ok new_accumulator end
      else Ok new_accumulator
  | _, _ => Ok new_accumulator
  end.

Definition saved_scheme (c : dict) : res string :=
  _normalize_duplicate_key_scheme (get_or c "duplicate_key_scheme" (get_or c "tabu_key_scheme" (JStr _LEGACY_GRAPH_KEY_ALIAS))).

(** The services of a new kernel *)
Definition new_services (boot : Boot S) (r : R) (bridge : option Bridge) (seeds : SeedGenerationAccumulator) : Services R S :=
  mkServices r (boot_worker boot) 0 0 (new_mutation_context (mutation_witness_cache_enabled opts)) bridge new_accumulator seeds.

(** The kernel before its first seed. Its graph and scores are not there yet: what
    stands for them is replaced before anything reads it, or the constructor
    raises. *)
Definition no_graph : BitGraph := mkBitGraph 0 [].
Definition no_score : ScoreResult := mkScore false [] 0 false (f_lit 0) 0.
Definition unseeded (sv : Services R S) : Kernel :=
  mkKernel (parameters spec) (mkCurrent no_graph 0 no_score "" None None 0 []) (mkBest no_graph no_score "" None 0 [])
    (mkMemory (fresh_scheme opts) [] HASH_LIMIT [] []) (mkCounts 0 0 0 0 0 0) sv None (mkFrontier no_graph no_score None 0).

(** [checkpoint.get(name)] when it is a dict *)
Definition saved_dict (c : dict) (name : string) : option dict := match get c name with JObj d => Some d | _ => None end.

(** [rng], [algorithm_evaluated], [stagnation] and [high_water]; a fork starts its
    own. *)
Definition saved_progress (c : dict) (fork_seed : option Z) : res (R * Z * Z * Z) :=
  match fork_seed with
  | None =>
      v ← subscript c "rng_state"; t ← py_str v; r ← setstate t;
      ae ← to_int (get_or c "algorithm_evaluated" (JInt 0)); st ← to_int (get_or c "stagnation" (JInt 0));
      hw ← to_int (get_or c "high_water" (JInt 0));
      Ok (r, ae, st, hw)
  | Some seed => Ok (Random seed, 0, 0, 0)
  end.

Definition saved_tabu (c : dict) (fork_seed : option Z) (own : string) (tenure : Z) : res (list string) :=
  texts ← match fork_seed with
          | None => items ← iterate (get_or c "tabu" (JList [])); foldM add_text [] items
          | Some _ => Ok [own]
          end;
  l ← new_deque tenure texts;
  Ok (match l with [] => deque_append tenure [] own | l => l end).

Definition saved_ancestry (c : dict) : res (list dict * list dict) :=
  if samples_independently then Ok ([], [])
  else
    a ← read_ancestry c "accepted_ancestry"; b ← read_ancestry c "best_ancestry";
    Ok (newest ANCESTRY_LIMIT a, newest ANCESTRY_LIMIT b).

Definition saved_current_id (c : dict) (g : BitGraph) : res (option string) :=
  match get c "current_candidate_id" with
  | JNull => if samples_independently then Ok None else id ← candidate_id g; Ok (Some id)
  | v => t ← py_str v; Ok (Some t)
  end.

Definition resume_kernel (sv : R -> Services R S) (c : dict) (fork_seed : option Z) : res Kernel :=
  scheme ← saved_scheme c;
  g6 ← subscript c "graph6"; g ← decode_graph6 g6;
  sc ← subscript c "score"; s ← read_lane_score parse_float sc;
  bg ← decode_graph6 (get_or c "best_graph6" g6);
  bs ← read_lane_score parse_float (get_or c "best_score" sc);
  progress ← saved_progress c fork_seed;
  let '(r, ae, st, hw) := progress in
  tenure ← int_param_or (parameters spec) "tabu_tenure" 128;
  own ← full_key scheme g;
  tb ← saved_tabu c fork_seed own tenure;
  ancestry ← saved_ancestry c;
  id ← saved_current_id c g;
  bid ← restored_best_id sha256 spec opts c bg;
  ci ← to_int (get_or c "current_evaluation_index" (JInt hw));
  bi ← to_int (get_or c "best_evaluation_index" (JInt hw));
  Ok (mkKernel (parameters spec)
        (mkCurrent g 0 s own id (saved_dict c "current_provenance") ci ancestry.1)
        (mkBest bg bs bid (saved_dict c "best_provenance") bi ancestry.2)
        (mkMemory scheme tb tenure [] []) (mkCounts ae st hw 0 0 0) (sv r) None (mkFrontier g s id hw)).

Definition new_kernel (boot : Boot S) (saved : option dict) (fork_seed : option Z) : res Kernel :=
  _ ← lane_mode spec;
  bridge ← bridge_of boot saved;
  boot_start boot ;;;
  seeds ← restored_seeds saved fork_seed;
  match saved with
  | None =>
      let k := unseeded (new_services boot (Random (lane_seed spec)) bridge seeds) in
      match _new_seed sha256 Random spec opts (boot_ns boot) (lane_seed spec) "initial_lane_seed" k with
      | (Ok _, k) => Ok k
      | (Raise e, _) => Raise e
      end
  | Some c => resume_kernel (fun r => new_services boot r bridge seeds) c fork_seed
  end.

(** ** [replay_micro_batches] *)

Record Replay := mkReplay { replay_turns : nat -> Turn; replay_ending : Ending }.
Context (set_iter : gset Z -> list Z) (f_pow : float -> Z -> float) (f_exp : float -> float).

Fixpoint replay_batches (l : list Replay) (k : Kernel) : res (list dict * Kernel) :=
  match l with
  | [] => Ok ([], k)
  | b :: l' =>
      match run_batch parse_float sha256 Random set_iter f_pow f_exp spec opts (replay_turns b) (replay_ending b) None None None k with
      | (Ok (_, m), k) => r ← replay_batches l' k; Ok (m :: r.1, r.2)
      | (Raise e, _) => Raise e
      end
  end.

(** As many batches as there are entries in [l] *)
Definition replay_micro_batches (boot : Boot S) (saved : dict) (l : list Replay) : res (list dict * dict) :=
  let batches := Z.of_nat (length l) in
  raise_if (negb ((1 <=? batches) && (batches <=? 100))) (ValueError "replay batches must be between 1 and 100") ;;;
  Lane.validate parse_float spec ;;;
  raise_if (negb (is_text (get saved "lane_id") (lane_id spec))) (ValueError "replay checkpoint belongs to another lane") ;;;
  k ← new_kernel boot (Some saved) None;
  r ← replay_batches l k;
  c ← checkpoint r.2 (lane_version spec);
  Ok (r.1, c).
End Checkpoints.
