(* ===== verification/LaneWorker.v ===== *)
(** * The process of a lane

    [src/src/sglab/research/lanes.py]: [_emit], [_apply_commands] and the loop of
    [_lane_worker]. The queues are lists: the commands that are waiting, and the
    events that were put. Time stamps, the preview thread and memory limits are
    left out. *)

From stdpp Require Import sorting gmap.
From S2P Require Import Features Pool Ranking Prelude Floats Json Convert Model Graph6 Verification Score Rng Rewiring Mutation Seed Search Catalog SearchKeys SeedMetrics Lane LaneKernel LaneBatch LaneCheckpoint.

#[global] Open Scope Z_scope.

(** ** Events *)

(** The events that went through, and the number of calls of [put] so far *)
Record Channel := mkChannel { events : list dict; puts : nat }.

(** The local state of [_lane_worker] *)
Record LaneState (R S : Type) := mkLaneState {
  kernel : Kernel R S;
  version : Z;
  share : float;
  current_checkpoint : dict;
  channel : Channel;
  stop_event : bool
}.
Arguments mkLaneState {R S}. Arguments kernel {R S}. Arguments version {R S}. Arguments share {R S}.
Arguments current_checkpoint {R S}. Arguments channel {R S}. Arguments stop_event {R S}.

Definition W (R S A : Type) : Type := LaneState R S -> res A * LaneState R S.

#[export] Instance W_ret R S : MRet (W R S) := fun A a s => (Ok a, s).
#[export] Instance W_bind R S : MBind (W R S) := fun A B f m s =>
  match m s with (Ok a, s') => f a s' | (Raise e, s') => (Raise e, s') end.

Section Worker.
Context {R S : Type} `{Rng R} `{RngState R} `{LaneScorer S}.
Context (parse_float : string -> res float) (sha256 : list Z -> list Z) (Random : Z -> R) (set_iter : gset Z -> list Z).
Context (f_pow : float -> Z -> float) (f_exp : float -> float).
Context (spec : LaneSpec) (opts : Options).
(** [room i]: the [i]th call of [put] finds room in the queue before its timeout;
    [describe] is the text of an exception. *)
Context (room : nat -> bool) (describe : exn -> string).

Abbreviation LaneState := (LaneState R S).
Abbreviation W := (W R S).

Definition from {A} (r : res A) : W A := fun s => (r, s).
Definition state : W LaneState := fun s => (Ok s, s).

Definition on_kernel {A} (m : K R S A) : W A := fun s =>
  let '(r, k) := m (kernel s) in (r, mkLaneState k (version s) (share s) (current_checkpoint s) (channel s) (stop_event s)).
Definition set_version (v : Z) : W unit := fun s =>
  (Ok tt, mkLaneState (kernel s) v (share s) (current_checkpoint s) (channel s) (stop_event s)).
Definition set_share (x : float) : W unit := fun s =>
  (Ok tt, mkLaneState (kernel s) (version s) x (current_checkpoint s) (channel s) (stop_event s)).
Definition set_checkpoint (c : dict) : W unit := fun s =>
  (Ok tt, mkLaneState (kernel s) (version s) (share s) c (channel s) (stop_event s)).
Definition set_channel (c : Channel) : W unit := fun s =>
  (Ok tt, mkLaneState (kernel s) (version s) (share s) (current_checkpoint s) c (stop_event s)).
Definition set_stop : W unit := fun s =>
  (Ok tt, mkLaneState (kernel s) (version s) (share s) (current_checkpoint s) (channel s) true).

(** [try: m except BaseException as error: handler(error)] *)
Definition try_all {A} (m : W A) (handler : exn -> W A) : W A := fun s =>
  match m s with (Ok a, s') => (Ok a, s') | (Raise e, s') => handler e s' end.

(** An important event is put a second time when the queue is full, and then
    [Full] is raised; another one is dropped. *)
Definition _emit (value : dict) (important : bool) : W unit :=
  s ← state;
  let c := channel s in
  if room (puts c) then set_channel (mkChannel (events c ++ [value]) (Datatypes.S (puts c)))
  else if negb important then set_channel (mkChannel (events c) (Datatypes.S (puts c)))
  else if room (Datatypes.S (puts c)) then set_channel (mkChannel (events c ++ [value]) (2 + puts c)%nat)
  else set_channel (mkChannel (events c) (2 + puts c)%nat) ;;; from (Raise QueueFull).

(** ** Commands *)

Definition outcome (action_id status : string) (v : Z) (checkpoint_id : json) (more : dict) : dict :=
  [("kind", JStr "action_outcome"); ("lane_id", JStr (lane_id spec)); ("action_id", JStr action_id); ("status", JStr status);
   ("resulting_lane_version", JInt v); ("checkpoint_id", checkpoint_id)]%string ++ more.
Definition checkpoint_event (c : dict) : dict :=
  [("kind", JStr "checkpoint"); ("lane_id", JStr (lane_id spec)); ("checkpoint", JObj c)]%string.

(** The effect of a command; [ns] is the time a new seed takes. *)
Definition execute (ns : Z) (kind : json) (command : dict) : W unit :=
  if is_text kind "patch" then
    v ← from (subscript command "patch");
    d ← from (match v with JObj d => Ok d | _ => Raise TypeError end);
    on_kernel (patch d)
  else if is_text kind "restart" then
    match get command "checkpoint" with
    | JObj source =>
        v ← from (subscript command "seed"); seed ← from (to_int v);
        on_kernel (restart_from_checkpoint parse_float sha256 Random spec opts source seed)
    | _ =>
        v ← from (subscript command "seed"); seed ← from (to_int v);
        on_kernel (restart sha256 Random spec opts ns seed)
    end
  else if is_text kind "reallocate" then
    v ← from (subscript command "resource_share"); x ← from (to_float parse_float v); set_share x
  else if is_text kind "stop" then set_stop
  else t ← from (py_str kind); from (Raise (ValueError ("unsupported lane command: " ++ t)%string)).

(** The body of the [try] block *)
Definition perform (ns : Z) (action_id : string) (kind : json) (command : dict) : W unit :=
  execute ns kind command ;;;
  s ← state;
  set_version (version s + 1) ;;;
  c ← from (checkpoint sha256 spec opts (kernel s) (version s + 1));
  set_checkpoint c ;;;
  _emit (checkpoint_event c) true ;;;
  id ← from (subscript c "checkpoint_id");
  _emit (outcome action_id "applied" (version s + 1) id
           [("command_kind"%string, kind); ("parameters"%string, JObj (k_parameters (kernel s))); ("resource_share"%string, JFloat (share s))]) true.

Definition report_failure (action_id : string) (e : exn) : W unit :=
  s ← state;
  id ← from (subscript (current_checkpoint s) "checkpoint_id");
  _emit (outcome action_id "failed" (version s) id [("failure"%string, JStr (describe e))]) true.

Definition apply_command (ns : Z) (command : dict) : W unit :=
  v ← from (subscript command "action_id"); action_id ← from (py_str v);
  w ← from (subscript command "expected_lane_version"); expected ← from (to_int w);
  s ← state;
  if negb (expected =? version s) then
    id ← from (subscript (current_checkpoint s) "checkpoint_id");
    _emit (outcome action_id "rejected_stale_state" (version s) id []) true
  else
    kind ← from (subscript command "kind");
    try_all (perform ns action_id kind command) (report_failure action_id).

(** The commands that are waiting, with the time a seed would take *)
Fixpoint _apply_commands (inbox : list (Z * dict)) : W unit :=
  match inbox with
  | [] => mret tt
  | (ns, command) :: inbox' => apply_command ns command ;;; _apply_commands inbox'
  end.

(** ** The loop of [_lane_worker] *)

(** What one round meets: the flag before it and after the commands, whether the
    lane is paused, the commands, and the batch *)
Record Round := mkRound {
  stop_before : bool;
  inbox : list (Z * dict);
  stop_after : bool;
  paused : bool;
  batch_turns : nat -> Turn;
  batch_ending : Ending
}.

Definition improvement_event (st : LaneState) (c : dict) : res dict :=
  g6 ← lane_graph6 (best_graph (best (kernel st))); s ← lane_score_payload (best_score (best (kernel st)));
  id ← subscript c "checkpoint_id"; text ← py_str id;
  p ← retained_best_provenance sha256 spec opts (kernel st) text;
  Ok [("kind", JStr "improvement"); ("lane_id", JStr (lane_id spec)); ("lane_version", JInt (version st)); ("graph6", JStr g6);
      ("score", JObj s); ("checkpoint_id", id); ("provenance", JObj p)]%string.

(** A batch with its events *)
Definition work (r : Round) : W unit :=
  s ← state;
  id ← from (subscript (current_checkpoint s) "checkpoint_id"); source ← from (py_str id);
  result ← on_kernel (run_batch parse_float sha256 Random set_iter f_pow f_exp spec opts (batch_turns r) (batch_ending r) None None (Some source));
  s ← state;
  c ← from (checkpoint sha256 spec opts (kernel s) (version s));
  set_checkpoint c ;;;
  _emit (checkpoint_event c) true ;;;
  _emit [("kind", JStr "telemetry"); ("lane_id", JStr (lane_id spec)); ("lane_version", JInt (version s)); ("metrics", JObj result.2)]%string false ;;;
  if improvements result.1 =? 0 then mret tt
  else e ← from (improvement_event s c); _emit e true.

(** Whether the loop goes on *)
Definition round (r : Round) : W bool :=
  s ← state;
  if stop_before r || stop_event s then mret false
  else
    _apply_commands (inbox r) ;;;
    s ← state;
    if stop_after r || stop_event s then mret false
    else if paused r || f_le (share s) (f_lit 0) then mret true
    else work r ;;; mret true.

(** The rounds seen so far: whether the loop has ended *)
Fixpoint rounds (l : list Round) : W bool :=
  match l with
  | [] => mret false
  | r :: l' => go ← round r; if go : bool then rounds l' else mret true
  end.

Definition exit_event (reason : string) (more : dict) : dict :=
  [("kind", JStr "exit"); ("lane_id", JStr (lane_id spec)); ("reason", JStr reason)]%string ++ more.

(** Before the loop: the first checkpoint and the lane's parameters *)
Definition announce : W unit :=
  s ← state;
  c ← from (checkpoint sha256 spec opts (kernel s) (version s));
  set_checkpoint c ;;;
  _emit (checkpoint_event c) true ;;;
  _emit [("kind", JStr "ready"); ("lane_id", JStr (lane_id spec)); ("lane_version", JInt (version s));
         ("parameters", JObj (k_parameters (kernel s))); ("resource_share", JFloat (share s))]%string true.

Definition first_state (k : Kernel R S) : LaneState := mkLaneState k (lane_version spec) (resource_share spec) [] (mkChannel [] 0) false.

(** [_lane_worker], once its kernel is there; an exception is reported and goes on. *)
Definition lane_worker (l : list Round) : W bool :=
  try_all
    (announce ;;;
     ended ← rounds l;
     s ← state;
     (if ended : bool then _emit (exit_event "stopped" [("lane_version"%string, JInt (version s)); ("checkpoint"%string, JObj (current_checkpoint s))]) true
      else mret tt) ;;;
     mret ended)
    (fun e => _emit (exit_event "failure" [("error"%string, JStr (describe e))]) true ;;; from (Raise e)).
End Worker.
