(* ===== verification/LaneProofs.v ===== *)
(** * Operations of the search engine

    Proofs about [LaneKernel] and [LaneBatch]: how operations are taken apart, what
    the services of a kernel keep, and the postconditions of scoring, seeds and
    mutations. *)

From stdpp Require Import sorting gmap.
From S2P Require Import Features Pool PoolProofs Payloads PoolChecks Ranking RankingProofs Prelude Floats Json Convert Model Cycles Graph6 Verification Score Rng Rewiring Mutation Seed Search SearchProofs Catalog SearchKeys KeyProofs SeedMetrics Lane LaneKernel LaneBatch.

#[global] Open Scope Z_scope.

(** ** Taking an operation apart *)

Section Monad.
Context {R S : Type}.

Lemma K_bind_Ok {A B} (m : K R S A) (f : A -> K R S B) k b k'' :
  (m ≫= f) k = (Ok b, k'') <-> exists a k', m k = (Ok a, k') /\ f a k' = (Ok b, k'').
Proof.
  unfold mbind, K_bind. destruct (m k) as [[a|e] k']; [|split; [done|by intros (? & ? & ? & ?)]].
  split; [by intros H; exists a, k'|by intros (? & ? & [= <- <-] & H)].
Qed.

Lemma run_Ok {A} (r : res A) k a k' : run (R := R) (S := S) r k = (Ok a, k') <-> r = Ok a /\ k' = k.
Proof. unfold run. split; [by intros [= -> ->]|by intros [-> ->]]. Qed.

Lemma this_kernel_Ok k a k' : this_kernel (R := R) (S := S) k = (Ok a, k') <-> a = k /\ k' = k.
Proof. unfold this_kernel. split; [by intros [= -> ->]|by intros [-> ->]]. Qed.

Lemma K_ret_Ok {A} (a : A) k b k' : mret (M := K R S) a k = (Ok b, k') <-> b = a /\ k' = k.
Proof. unfold mret, K_ret. split; [by intros [= -> ->]|by intros [-> ->]]. Qed.
End Monad.

(** [ktake H]: the first operation of [H], with its state *)
Ltac ktake H a k H1 := apply K_bind_Ok in H as (a & k & H1 & H).
Ltac kthis H := let a := fresh in let k := fresh in ktake H a k H; first [apply this_kernel_Ok in H as [-> ->]|idtac].

(** One step of a run: a read of the state, a result, an assignment *)
Ltac kstep :=
  match goal with
  | H : (_ ≫= _) _ = (Ok _, _) |- _ => apply K_bind_Ok in H as (? & ? & ? & H)
  | H : this_kernel _ = (Ok _, _) |- _ => apply this_kernel_Ok in H as [-> ->]
  | H : run _ _ = (Ok _, _) |- _ => apply run_Ok in H as [? ->]
  | H : mret _ _ = (Ok _, _) |- _ => first [apply K_ret_Ok in H as [-> ->]|apply K_ret_Ok in H as [? ->]]
  | H : set_current _ _ = (Ok _, _) |- _ => first [injection H as <- <-|injection H as <-]
  | H : set_best _ _ = (Ok _, _) |- _ => first [injection H as <- <-|injection H as <-]
  | H : set_memory _ _ = (Ok _, _) |- _ => first [injection H as <- <-|injection H as <-]
  | H : set_counts _ _ = (Ok _, _) |- _ => first [injection H as <- <-|injection H as <-]
  | H : set_services _ _ = (Ok _, _) |- _ => first [injection H as <- <-|injection H as <-]
  | H : set_source _ _ = (Ok _, _) |- _ => first [injection H as <- <-|injection H as <-]
  | H : set_frontier _ _ = (Ok _, _) |- _ => first [injection H as <- <-|injection H as <-]
  | H : set_parameters _ _ = (Ok _, _) |- _ => first [injection H as <- <-|injection H as <-]
  end.
Ltac ksteps := repeat (kstep; cbn [current best memory counts services k_parameters batch_source_checkpoint_id live_frontier_state] in * ).

(** Two results of the same computation are one. *)
Ltac same_results := repeat match goal with H1 : ?a = Ok ?x, H2 : ?a = Ok ?y |- _ => rewrite H1 in H2; injection H2 as ?; subst end.

(** ** Only the services change *)

Section Calm.
Context {R S : Type}.
Abbreviation Kernel := (Kernel R S).

Definition with_services (k : Kernel) (sv : Services R S) : Kernel :=
  mkKernel (k_parameters k) (current k) (best k) (memory k) (counts k) sv (batch_source_checkpoint_id k) (live_frontier_state k).

Lemma with_services_id (k : Kernel) : with_services k (services k) = k.
Proof. by destruct k. Qed.

Context (ok : BitGraph -> Services R S -> Prop).

(** From [k], the operation changes the services only, whether it returns or
    raises, and keeps them [ok] for the current graph; what it returns has [Q]. *)
Definition calm {A} (m : K R S A) (k : Kernel) (Q : A -> Prop) : Prop :=
  forall sv, ok (graph (current k)) sv ->
  exists sv', (m (with_services k sv)).2 = with_services k sv' /\ ok (graph (current k)) sv' /\
    forall a, (m (with_services k sv)).1 = Ok a -> Q a.

Lemma calm_ret {A} (a : A) k (Q : A -> Prop) : Q a -> calm (mret a) k Q.
Proof. intros HQ sv Hok. exists sv. split_all; [done..|]. by intros b [= <-]. Qed.

Lemma calm_run {A} (r : res A) k (Q : A -> Prop) : (forall a, r = Ok a -> Q a) -> calm (run r) k Q.
Proof. intros HQ sv Hok. by exists sv. Qed.

Lemma calm_bind {A B} (m : K R S A) (f : A -> K R S B) k P Q :
  calm m k P -> (forall a, P a -> calm (f a) k Q) -> calm (m ≫= f) k Q.
Proof.
  intros Hm Hf sv Hok. destruct (Hm sv Hok) as (sv1 & E & Hok1 & HP). unfold mbind, K_bind.
  destruct (m (with_services k sv)) as [[a|e] k1]; cbn in E, HP; subst k1; [|by exists sv1]. exact (Hf a (HP a eq_refl) sv1 Hok1).
Qed.

(** An operation whose result does not matter *)
Lemma calm_seq {A B} (m : K R S A) (f : A -> K R S B) k Q :
  calm m k (fun _ => True) -> (forall a, calm (f a) k Q) -> calm (m ≫= f) k Q.
Proof. intros Hm Hf. eapply calm_bind; [exact Hm|auto]. Qed.

(** Reading the state *)
Lemma calm_this {A} (f : Kernel -> K R S A) k Q :
  (forall sv, ok (graph (current k)) sv -> calm (f (with_services k sv)) k Q) -> calm (this_kernel ≫= f) k Q.
Proof. intros Hf sv Hok. exact (Hf sv Hok sv Hok). Qed.

Lemma calm_set sv k (Q : unit -> Prop) : ok (graph (current k)) sv -> Q tt -> calm (set_services sv) k Q.
Proof. intros Hok HQ sv' _. exists sv. split_all; [done..|]. by intros [] _. Qed.

Lemma calm_mono {A} (m : K R S A) k (P Q : A -> Prop) : calm m k P -> (forall a, P a -> Q a) -> calm m k Q.
Proof. intros Hm HPQ sv Hok. destruct (Hm sv Hok) as (sv' & ? & ? & ?). exists sv'. auto. Qed.

(** The operation on the kernel itself *)
Lemma calm_on {A} (m : K R S A) k Q r k' :
  calm m k Q -> ok (graph (current k)) (services k) -> m k = (r, k') ->
  exists sv', k' = with_services k sv' /\ ok (graph (current k)) sv' /\ forall a, r = Ok a -> Q a.
Proof.
  intros Hm Hok H. destruct (Hm _ Hok) as (sv' & E & ?). rewrite with_services_id, H in E. rewrite with_services_id, H in *. cbn in *. by exists sv'.
Qed.
End Calm.

(** ** The operations *)

Section Operations.
Context {R S : Type} `{Hrng : Rng R} `{!RngLaws R} `{Hstate : RngState R} `{Hscorer : LaneScorer S}.
Context (parse_float : string -> res float) (sha256 : list Z -> list Z) (Random : Z -> R) (set_iter : gset Z -> list Z).
Context (f_pow : float -> Z -> float) (f_exp : float -> float).
Context (spec : LaneSpec) (opts : Options) (mode : string) (order0 : Z).
Context (Hmode : lane_mode spec = Ok mode) (Horder : 4 <= order0 <= 128).
Context (Hsha : digest_ok sha256) (Hset : forall X, set_iter X ≡ₚ elements X).

Abbreviation Kernel := (Kernel R S).
Abbreviation K := (K R S).

(** The lane ranks its proposals. *)
Definition ranked : Prop := get (parameters spec) "proposal_ranking" <> JNull.

(** A graph the lane may hold: of its order, of minimum degree three, cubic in the
    cubic family; without ranking also connected, and of its family. *)
Record placed (g : BitGraph) : Prop := {
  placed_wf : wf g;
  placed_order : gn g = order0;
  placed_degree : forall u, vertex g u -> 3 <= degree g u;
  placed_cubic : mode = "cubic_first"%string -> forall u, vertex g u -> degree g u = 3;
  placed_minimal : ~ ranked -> minimal_candidate g;
  placed_mixed : ~ ranked -> mode = "minimal_structure_mixed_degree"%string -> _minimal_structure_valid g = true
}.

(** A score computed from cycle counts of the graph *)
Definition scored_by (g : BitGraph) (s : ScoreResult) : Prop :=
  exists cap results p, score_from_cycle_counts 0 0 g cap results None None = Ok (s, p).

(** What the services know of the current graph is right. *)
Record services_ok (g : BitGraph) (sv : Services R S) : Prop := {
  so_context : forall i, _graph (mutation_context sv) = Some i -> _choices (mutation_context sv) = forbidden_choices g;
  so_bridge : match proposal_ranking sv with Some b => ranked /\ bridge_ok b | None => ~ ranked end
}.

Abbreviation calm := (calm services_ok).

(** *** Scoring *)

Lemma services_ok_worker g w n m sv : services_ok g sv -> services_ok g (with_worker w n m sv).
Proof. intros []. by split. Qed.

Lemma score_once_calm g cap c k : calm (score_once g cap c) k (fun o => forall s, o = Some s -> scored_by g s).
Proof.
  unfold score_once. apply calm_seq; [by apply calm_run|]. intros fields. apply calm_this. intros sv Hsv. cbn.
  destruct (lane_ask _ _ _ _ _ _ _) as [answer w].
  apply calm_seq; [by apply calm_set; [apply services_ok_worker|]|]. intros _.
  apply calm_seq; [by apply calm_run|]. intros a.
  apply calm_seq; [by apply calm_set; [apply services_ok_worker|]|]. intros _.
  destruct (answer_dominated a); [by apply calm_ret|].
  apply (calm_bind _ _ _ _ (fun sp => score_from_cycle_counts 0 0 g cap (answer_results a) None None = Ok sp)); [by apply calm_run|].
  intros [s p] E. apply calm_ret. intros s' [= <-]. by exists cap, (answer_results a), p.
Qed.

Lemma close_calm k : calm close_worker k (fun _ => True).
Proof. apply calm_this. intros sv Hsv. by apply calm_set; [apply services_ok_worker|]. Qed.

Lemma restart_calm k : calm restart_worker k (fun _ => True).
Proof.
  apply calm_this. intros sv Hsv. cbn. destruct (lane_restart _) as [r w].
  apply calm_seq; [by apply calm_set; [apply services_ok_worker|]|]. intros _. by apply calm_run.
Qed.

Lemma with_one_restart_calm {A} (m : K A) k Q : calm m k Q -> calm (with_one_restart m) k Q.
Proof.
  intros Hm sv Hok. unfold with_one_restart.
  assert (forall sv, services_ok (graph (current k)) sv -> exists sv', (worker_lost (A := A) (with_services k sv)).2 = with_services k sv' /\
    services_ok (graph (current k)) sv' /\ forall a, (worker_lost (A := A) (with_services k sv)).1 = Ok a -> Q a) as Hlost.
  { intros sv0 H0. assert (calm (worker_lost (A := A)) k Q) as Hc; [|by apply Hc].
    apply calm_seq; [apply close_calm|]. intros _. by apply calm_run. }
  destruct (Hm sv Hok) as (sv1 & E1 & Hok1 & HQ1). destruct (m (with_services k sv)) as [[a|e] k1]; cbn in E1; subst k1; [by exists sv1|].
  destruct (negb (caught e)); [by exists sv1|].
  destruct (restart_calm k sv1 Hok1) as (sv2 & E2 & Hok2 & _). destruct (restart_worker (with_services k sv1)) as [[u|e2] k2]; cbn in E2; subst k2.
  - destruct (Hm sv2 Hok2) as (sv3 & E3 & Hok3 & HQ3). destruct (m (with_services k sv2)) as [[a|e3] k3]; cbn in E3; subst k3; [by exists sv3|].
    destruct (caught e3); [by apply Hlost|by exists sv3].
  - destruct e2; first [by apply Hlost|by exists sv2].
Qed.

Lemma cpp_score_calm g c k : calm (_cpp_score g c) k (fun o => forall s, o = Some s -> scored_by g s).
Proof.
  apply calm_this. intros sv Hsv. apply calm_seq; [by apply calm_run|]. intros cap. apply with_one_restart_calm, score_once_calm.
Qed.

Lemma full_score_calm g k : calm (full_score g) k (scored_by g).
Proof.
  eapply calm_bind; [apply cpp_score_calm|]. intros [s|] Hs; [by apply calm_ret, Hs|by apply calm_run].
Qed.

(** *** Seeds *)

Lemma services_ok_rng g r sv : services_ok g sv -> services_ok g (with_rng_state r sv).
Proof. intros []. by split. Qed.

Lemma services_ok_seeds g a b sv : services_ok g sv -> services_ok g (with_seeds a b sv).
Proof. intros []. by split. Qed.
Hint Resolve services_ok_worker services_ok_rng services_ok_seeds : core.

Lemma seed_placed (r r' : R) t t' g : generate_seed (Some order0) (Some mode) t r = (Ok g, t', r') -> placed g.
Proof.
  intros E. pose proof (generate_seed_spec (Some order0) (Some mode) t r) as Hs.
  rewrite E in Hs. cbn [default from_option] in Hs. destruct Hs as (n & Hc & Hg & Hn & Hm & Hmix & Hcub).
  apply check_config_Ok in Hc as ([= <-] & _). split; [done..|apply Hm| |done|].
  - intros Hm'. apply Hcub. unfold uses_mixed. rewrite Hm'. by intros [?|[? _]].
  - intros _ Hm'. apply Hmix. by left.
Qed.

Lemma generate_seed_calm ns source inside k : int_param (k_parameters k) "order" = Ok order0 ->
  calm (_generate_seed spec opts ns source inside) k placed.
Proof.
  intros Ho. apply calm_this. intros sv Hsv. cbn [k_parameters services with_services].
  eapply calm_bind; [by apply (calm_run _ _ _ (fun n => n = order0)); rewrite Ho; intros ? [= <-]|]. intros ? ->. rewrite Hmode.
  eapply calm_bind; [by apply (calm_run _ _ _ (fun n => n = mode)); intros ? [= <-]|]. intros ? ->.
  destruct (generate_seed _ _ _ _) as [[result trace] r] eqn:E.
  apply calm_seq; [by apply calm_set; auto|]. intros _.
  assert (calm (run result) k placed) as Hr by (apply calm_run; intros g ->; by eapply seed_placed).
  destruct (match result with Ok _ => trace | Raise _ => default_failure _ trace end) as [t|]; [|done].
  apply calm_seq; [by apply calm_run|]. intros batch. apply calm_seq; [by apply calm_set; auto|]. intros _.
  apply calm_seq; [by apply calm_run|]. intros cumulative. apply calm_seq; [by apply calm_set; auto|]. by intros _.
Qed.

(** *** Mutations *)

Lemma run_mutation_calm {A} (m : Mutation.M R A) k (Q : A -> Prop) :
  (forall w a w', world_ok (fun _ => graph (current k)) w -> m w = Ok (a, w') -> world_ok (fun _ => graph (current k)) w' /\ Q a) ->
  calm (run_mutation m) k Q.
Proof.
  intros Hm sv Hsv. unfold run_mutation. cbn [services with_services]. destruct (m _) as [[a w]|e] eqn:E; [|by exists sv].
  destruct Hsv as [Hc Hb]. apply Hm in E as [[_ Hw] HQ]; [|split; [by split_all|exact Hc]].
  eexists. split; [reflexivity|]. split; [by split|]. by intros b [= <-].
Qed.

Lemma plain_mutation_calm operator k : placed (graph (current k)) -> ~ ranked ->
  operator = "uniform_two_edge_switch"%string \/ operator = "forbidden_cycle_break_switch"%string ->
  calm (plain_mutation mode operator) k (mutation_ok mode (graph (current k))).
Proof.
  intros Hg Hr Hop. pose proof (placed_wf _ Hg) as Hwf. apply calm_this. intros sv Hsv. cbn [current with_services].
  set (g := graph (current k)). set (i := graph_object (current k)).
  apply (calm_bind _ _ _ _ (fun c => forall choices, c = Some choices -> choices = forbidden_choices g)).
  - case_bool_decide; [|by apply calm_ret]. apply (calm_bind _ _ _ _ (fun c => c = forbidden_choices g)); [|intros c ->; apply calm_ret; by intros ? [= <-]].
    apply run_mutation_calm. intros w a w' Hw E.
    destruct (silent_forbidden (fun _ => 0) (fun _ => g) g Hwf i eq_refl false true ltac:(done) w Hw) as (b & w1 & E1 & Hw1 & _ & ->).
    rewrite E in E1. injection E1 as -> ->. done.
  - intros choices Hch. apply run_mutation_calm. intros w a w' Hw E.
    set (cfg := mkConfig mode operator Missing choices Missing) in *.
    assert (config_ok g cfg) as Hcfg.
    { unfold config_ok. cbn. split_all; [done..|]. intros l Hl es e Hes He. rewrite (Hch l Hl) in Hes. by eapply (forbidden_choices_usable g Hwf). }
    destruct (sim_mutate (fun _ => 0) (fun _ => g) i g Hwf eq_refl cfg cfg Hcfg Hcfg) with (w1 := w) (w2 := w)
      as (mr & w1 & w2 & E1 & _ & Hw1 & _ & _ & Hmr); [done..|]. rewrite E in E1. injection E1 as -> ->. done.
Qed.

Definition mutation_operator_ok (operator : string) : Prop :=
  operator = "uniform_two_edge_switch"%string \/ operator = "forbidden_cycle_break_switch"%string.

Lemma choose_calm k : calm (_choose_mutation_operator parse_float) k mutation_operator_ok.
Proof.
  apply calm_this. intros sv Hsv. cbn [k_parameters with_services services].
  destruct (get _ _); try (apply calm_ret; by left). destruct (random (rng sv)) as [draw r].
  apply calm_seq; [by apply calm_set; auto|]. intros _. apply calm_run. intros a (found & E & [= <-])%bind_Ok.
  assert (forall x, found.2 = Some x -> mutation_operator_ok x) as Hf.
  { assert (forall names acc, (forall x, x ∈ names -> mutation_operator_ok x) -> (forall x, acc.2 = Some x -> mutation_operator_ok x) ->
      foldM (fun (acc : float * option string) name =>
             match acc.2 with
             | Some _ => Ok acc
             | None =>
                 v ← subscript d name; w ← to_float parse_float v;
                 let cumulative := f_add acc.1 w in
                 Ok (cumulative, if f_le draw cumulative then Some name else None)
             end) acc names = Ok found -> forall x, found.2 = Some x -> mutation_operator_ok x) as Hall.
    { clear E. induction names as [|name names IH]; intros acc Hn Ha; cbn [foldM]; [by intros [= <-]|].
      destruct acc.2 as [y|] eqn:Ey.
      - intros E. apply (IH acc); [intros; apply Hn; by right|by rewrite Ey|exact E].
      - intros (acc' & (v & _ & (w & _ & [= <-])%bind_Ok)%bind_Ok & E)%bind_Ok. eapply IH; [|..|exact E]; [intros; apply Hn; by right|].
        cbn. case_match; [|done]. intros x [= <-]. apply Hn. by left. }
    eapply Hall; [..|exact E]; [|done]. intros x. unfold MUTATION_OPERATORS. rewrite !elem_of_cons, elem_of_nil. unfold mutation_operator_ok. tauto. }
  destruct found.2 as [x|]; [by apply Hf|by right].
Qed.

(** *** Ranked proposals *)

Lemma small_word z : 0 <= z < 2 ^ 64 -> small z.
Proof.
  intros Hz. unfold small. rewrite Z.abs_eq by lia. destruct (Z.eq_dec z 0) as [->|]; [done|].
  apply Z.lt_trans with 64; [|done]. apply Z.log2_lt_pow2; lia.
Qed.

Lemma policy_seed_word d step seed : policy_seed sha256 spec d step = Ok seed -> 0 <= seed < 2 ^ 64.
Proof.
  unfold policy_seed. intros (text & _ & [= <-])%bind_Ok. destruct (Hsha (codes text)) as [Hl Hb].
  pose proof (from_bytes_bound (take 8 (sha256 (codes text))) (Forall_take _ _ _ Hb)) as H.
  rewrite length_take, Hl in H. exact H.
Qed.

(** The change explains the new graph. *)
Definition explains (g : BitGraph) (d : MutationResult) : Prop :=
  with_edges g (Mutation.added_edges d) (Mutation.removed_edges d) = Ok (mutated d) /\ distinct_edges (Mutation.removed_edges d).

Lemma policy_mutation_calm o step k : placed (graph (current k)) -> 0 <= step < 2 ^ 64 -> ranked ->
  calm (_policy_mutation parse_float sha256 Random set_iter spec o step) k
    (fun d => explains (graph (current k)) d /\ switched (graph (current k)) (mutated d)).
Proof.
  intros Hg Hstep Hr. pose proof (placed_wf _ Hg) as Hwf. apply calm_this. intros sv Hsv. cbn [k_parameters current counts with_services].
  set (g := graph (current k)). set (s := score (current k)).
  eapply calm_bind; [by apply (calm_run _ _ _ (fun z => 0 <= z < 2 ^ 64)), policy_seed_word|]. intros seed Hseed.
  apply calm_seq; [by apply calm_run|]. intros budget.
  match goal with |- calm (mbind _ (run_bridge ?m)) _ _ => set (action := m) end.
  eapply (calm_bind _ _ _ _ (fun r => find_candidate (candidates r.2) (selected_proposal_id r.1.1) = Ok (Some (Ranking.chosen r.1.1)) /\
    distinct_edges (Pool.removed_edges (rewrite (Ranking.chosen r.1.1))) /\
    with_edges g (Pool.added_edges (rewrite (Ranking.chosen r.1.1))) (Pool.removed_edges (rewrite (Ranking.chosen r.1.1))) = Ok r.1.2 /\ switched g r.1.2)).
  - intros sv1 [Hc1 Hb1]. unfold run_bridge. cbn [services with_services]. destruct (proposal_ranking sv1) as [b|] eqn:Eb.
    2: { exists sv1. split_all; [done|split; [done|by rewrite Eb]|done]. }
    pose proof (select_for_graph_full parse_float Random sha256 set_iter default_pool_limits default_limits o g seed step
      (Z.max 0 (budget - algorithm_evaluated (counts k))) true (Some (witness_counts s, weighted_penalty s)) b Hsha Hset eq_refl eq_refl Hwf) as Hrun.
    assert (gn g < 2 ^ 64) as Hn by (pose proof (placed_order _ Hg); change (gn g) with (gn (graph (current k))); lia).
    destruct (Hrun Hn (proj2 Hb1) (small_word _ Hseed) (small_word _ Hstep)) as [Hb2 H2]. fold action in Hb2, H2.
    destruct (action b) as [r b2]. cbn [fst snd] in *. eexists. split; [reflexivity|]. split; [split; [done|by split]|].
    intros [[sel res] pool] ->. cbn in *. tauto.
  - intros [[sel res] pool] (Hf & Hd & Hw & Hsw). cbn in Hf, Hd, Hw, Hsw. rewrite Hf.
    eapply calm_bind; [by apply (calm_run _ _ _ (fun x => x = Some (Ranking.chosen sel))); intros x [= <-]|]. intros x ->.
    apply calm_seq; [by apply calm_run|]. intros _. apply calm_ret. by split.
Qed.

(** *** What is proposed *)

Lemma mutated_placed g d : placed g -> ~ ranked -> mutation_ok mode g d -> placed (mutated d) /\ explains g d.
Proof.
  intros [Hw Ho Hd Hcub Hm Hmix] Hr (Hwh & Hn & He & _ & Hmin & Hdeg & Hv & Hdist). split; [|by split].
  pose proof (Hmin (Hm Hr)) as Hmh. split; [done|congruence|apply Hmh| |done|].
  - intros Hmode' u Hu. assert (vertex g u) by (unfold vertex in *; congruence). rewrite Hdeg; [by apply Hcub|congruence|done].
  - intros _ Hmode'. destruct (Hv Hmode') as [->|]; auto.
Qed.

Lemma switched_placed g h : placed g -> ranked -> switched g h -> placed h.
Proof.
  intros [Hw Ho Hd Hcub _ _] Hr (Hwh & Hn & Hs & _). assert (forall u, vertex h u -> vertex g u) as Hv by (unfold vertex; intros; lia).
  split; [done|lia|intros u Hu; rewrite Hs; auto|intros Hm u Hu; rewrite Hs; auto|done|done].
Qed.

(** A candidate of a turn, and the change that leads to it from [g] *)
Definition proposal_ok (g : BitGraph) (cd : BitGraph * option MutationResult) : Prop :=
  placed cd.1 /\ forall d, cd.2 = Some d -> mutated d = cd.1 /\ explains g d.

Lemma operator_calm k : calm (turn_operator parse_float spec) k
  (fun operator => ~ ranked -> algorithm spec = "random_restart"%string \/ mutation_operator_ok operator).
Proof.
  unfold turn_operator. case_bool_decide; [apply calm_ret; auto|]. apply calm_this. intros sv Hsv. cbn [services with_services].
  destruct Hsv as [_ Hb]. destruct (proposal_ranking sv) as [b|]; [destruct Hb as [Hr _]; by apply calm_ret; intros Hn|].
  eapply calm_mono; [apply choose_calm|auto].
Qed.

Lemma propose_calm t operator done_ k : placed (graph (current k)) -> int_param (k_parameters k) "order" = Ok order0 ->
  0 <= high_water (counts k) + done_ < 2 ^ 64 ->
  (~ ranked -> algorithm spec = "random_restart"%string \/ mutation_operator_ok operator) ->
  calm (propose parse_float sha256 Random set_iter spec opts t operator done_) k (proposal_ok (graph (current k))).
Proof.
  intros Hg Ho Hstep Hop. apply calm_this. intros sv Hsv. cbn [services counts with_services]. pose proof (so_bridge _ _ Hsv) as Hb.
  destruct (proposal_ranking sv) as [b|].
  - destruct Hb as [Hr _]. eapply calm_bind; [by apply policy_mutation_calm|]. intros d [He Hsw]. apply calm_ret.
    split; [by eapply switched_placed|]. intros d' [= <-]. done.
  - case_bool_decide as Ha.
    + eapply calm_bind; [by apply generate_seed_calm|]. intros g Hgp. apply calm_ret. by split.
    + rewrite Hmode. eapply calm_bind; [by apply (calm_run _ _ _ (fun n => n = mode)); intros ? [= <-]|]. intros ? ->.
      eapply calm_bind; [apply plain_mutation_calm; [done|exact Hb|by destruct (Hop Hb)]|]. intros d Hd. apply calm_ret.
      destruct (mutated_placed _ _ Hg Hb Hd). split; [done|]. intros d' [= <-]. done.
Qed.
End Operations.
