(* ===== verification/LaneInvariant.v ===== *)
(** * The invariant of a lane

    What holds of every kernel of [LaneKernel] between batches, and that turns,
    batches, restarts and patches keep it. *)

From stdpp Require Import sorting gmap.
From S2P Require Import Features Pool PoolProofs Payloads PoolChecks Ranking RankingProofs Prelude Floats Json Convert Model Cycles Graph6 Verification Score Rng Rewiring Mutation Seed Search SearchProofs Catalog SearchKeys KeyProofs SeedMetrics Lane LaneKernel LaneBatch LaneProofs.

#[global] Open Scope Z_scope.

(** ** Bounded memory *)

Lemma newest_length {A} n (l : list A) : 0 <= n -> Z.of_nat (length (newest n l)) <= n.
Proof. intros Hn. unfold newest. rewrite length_drop. lia. Qed.

Lemma newest_short {A} n (l : list A) : Z.of_nat (length l) <= n -> newest n l = l.
Proof. intros Hl. unfold newest. by replace (length l - Z.to_nat n)%nat with O by lia. Qed.

Lemma new_deque_Ok {A} n (l l' : list A) : new_deque n l = Ok l' -> 0 <= n /\ l' = newest n l.
Proof. unfold new_deque. intros [Hn H]%raise_seq_Ok. injection H as <-. split; [lia|done]. Qed.

Record memory_ok (m : Memory) : Prop := {
  mo_scheme : tabu_key_scheme m = LEGACY_GRAPH_KEY_SCHEME \/ tabu_key_scheme m = FAST_GRAPH_KEY_SCHEME;
  mo_recent : Z.of_nat (length (recent_hashes m)) <= HASH_LIMIT;
  mo_set : NoDup (recent_hash_set m) /\ forall x, x ∈ recent_hash_set m <-> x ∈ recent_hashes m;
  mo_tabu : Z.of_nat (length (tabu m)) <= tabu_maxlen m
}.

Lemma set_insert_spec x s : NoDup s -> NoDup (set_insert x s) /\ forall y, y ∈ set_insert x s <-> y = x \/ y ∈ s.
Proof.
  intros Hs. unfold set_insert. case_decide as Hx.
  - split; [done|]. intros y. split; [auto|]. by intros [->|].
  - split; [apply NoDup_app; split_all; [done| |apply NoDup_singleton]; intros y Hy ->%list_elem_of_singleton; done|].
    intros y. rewrite elem_of_app, list_elem_of_singleton. tauto.
Qed.

Lemma set_discard_spec x s : NoDup s -> NoDup (set_discard x s) /\ forall y, y ∈ set_discard x s <-> y <> x /\ y ∈ s.
Proof. intros Hs. split; [by apply NoDup_filter|]. intros y. unfold set_discard. by rewrite list_elem_of_filter. Qed.

Lemma remember_ok m key : memory_ok m -> memory_ok (remember_hash m key).
Proof.
  intros [Hsch Hr [Hn Hset] Ht]. unfold remember_hash. destruct (recent_hashes m) as [|removed rest] eqn:E.
  - destruct (set_insert_spec key _ Hn) as [Hn' Hi]. split; cbn; [done|done|split; [done|]|done].
    intros y. rewrite Hi, Hset. rewrite elem_of_nil, list_elem_of_singleton. tauto.
  - destruct (Z.eqb_spec (Z.of_nat (length (removed :: rest))) HASH_LIMIT) as [Hf|Hf]; cbn in Hf.
    + case_decide as Hin.
      * destruct (set_insert_spec key _ Hn) as [Hn' Hi]. split; cbn; [done|rewrite length_app; cbn in *; lia|split; [done|]|done].
        intros y. rewrite Hi, Hset, elem_of_cons, elem_of_app, list_elem_of_singleton. split; [intros [->|[->|]]; auto|tauto].
      * destruct (set_discard_spec removed _ Hn) as [Hn1 Hd]. destruct (set_insert_spec key _ Hn1) as [Hn' Hi].
        split; cbn; [done|rewrite length_app; cbn in *; lia|split; [done|]|done].
        intros y. rewrite Hi, Hd, Hset, elem_of_cons, elem_of_app, list_elem_of_singleton. split; [intros [->|[? [->|]]]; auto; done|].
        intros [Hy| ->]; [|auto]. right. split; [by intros ->|auto].
    + destruct (set_insert_spec key _ Hn) as [Hn' Hi].
      split; cbn; [done|rewrite length_app; unfold HASH_LIMIT in *; cbn [length] in *; lia|split; [done|]|done].
      intros y. rewrite Hi, Hset, elem_of_cons, elem_of_cons, elem_of_app, list_elem_of_singleton. tauto.
Qed.

Lemma with_tabu_ok m l n : memory_ok m -> Z.of_nat (length l) <= n -> memory_ok (with_tabu m l n).
Proof. intros [] Hl. by split. Qed.

(** ** The invariant *)

Section Invariant.
Context {R S : Type} `{Hrng : Rng R} `{!RngLaws R} `{Hstate : RngState R} `{Hscorer : LaneScorer S}.
Context (parse_float : string -> res float) (sha256 : list Z -> list Z) (Random : Z -> R) (set_iter : gset Z -> list Z).
Context (f_pow : float -> Z -> float) (f_exp : float -> float).
Context (spec : LaneSpec) (opts : Options) (mode : string) (order0 : Z).
Context (Hmode : lane_mode spec = Ok mode) (Horder : 4 <= order0 <= 128).
Context (Hsha : digest_ok sha256) (Hset : forall X, set_iter X ≡ₚ elements X).

Abbreviation Kernel := (Kernel R S).
Abbreviation placed := (placed spec mode order0).
Abbreviation services_ok := (services_ok (R := R) (S := S) spec).
Abbreviation full_key := (_full_search_key sha256 opts).

(** A preview belongs to one graph. *)
Definition frontier_ok (f : Frontier) : Prop := placed (f_graph f) /\ scored_by (f_graph f) (f_score f).

(** What holds at every moment of a turn *)
Record kernel_held (k : Kernel) : Prop := {
  ko_order : int_param (k_parameters k) "order" = Ok order0;
  ko_services : services_ok (graph (current k)) (services k);
  ko_graph : placed (graph (current k));
  ko_score : scored_by (graph (current k)) (score (current k));
  ko_best_graph : placed (best_graph (best k));
  ko_best_score : scored_by (best_graph (best k)) (best_score (best k));
  ko_memory : memory_ok (memory k);
  ko_key : full_key (tabu_key_scheme (memory k)) (graph (current k)) = Ok (current_graph_key (current k));
  ko_line : Z.of_nat (length (accepted_ancestry (current k))) <= ANCESTRY_LIMIT /\ Z.of_nat (length (best_ancestry (best k))) <= ANCESTRY_LIMIT;
  ko_frontier : frontier_ok (live_frontier_state k);
  ko_high_water : 0 <= high_water (counts k)
}.

(** Between turns the current score is also never below the best one. *)
Record kernel_ok (k : Kernel) : Prop := {
  ko_held : kernel_held k;
  ko_least : tuple_lt (key_of (score (current k))) (key_of (best_score (best k))) = false
}.

(** Every score a kernel holds has a key, of five numbers. *)
Lemma scored_key g s : scored_by g s -> exists key, ordering_key s = Ok key /\ length key = 5%nat.
Proof.
  intros (cap & rs & p & H). unfold score_from_cycle_counts in H. apply raise_seq_Ok in H as [_ H].
  destruct (negb (valid _)); [injection H as <- _; by eexists|].
  apply raise_seq_Ok in H as [_ H]. apply bind_Ok in H as (t & _ & [= <- _]). by eexists.
Qed.

(** The key of a candidate, from the change or from the graph, is the key of the
    graph. *)
Lemma candidate_key scheme key g cd key' : wf g -> scheme = LEGACY_GRAPH_KEY_SCHEME \/ scheme = FAST_GRAPH_KEY_SCHEME ->
  full_key scheme g = Ok key -> proposal_ok spec mode order0 g cd ->
  _candidate_search_key sha256 opts scheme key cd.1 cd.2 = Ok key' -> full_key scheme cd.1 = Ok key'.
Proof.
  intros Hg Hs Hk [Hc Hd] H. unfold _candidate_search_key in H. unfold _full_search_key in *. destruct Hs as [->| ->]; cbn [negb] in *.
  { exact H. }
  change (bool_decide (FAST_GRAPH_KEY_SCHEME = FAST_GRAPH_KEY_SCHEME)) with true in *. cbn [negb] in *. injection Hk as <-.
  destruct cd.2 as [d|]; [|exact H]. destruct (Hd d eq_refl) as (Hm & He & Hdist). rewrite Hm in He.
  destruct (bool_decide (mutated d = cd.1) && _); [|exact H]. rewrite (update_key g cd.1) in H; [exact H|done..].
Qed.

(** *** Assignments of a turn *)

(** What the outcome of a test adds to the counters *)
Definition counted (accept record : bool) (n n' : Counts) : Prop :=
  total_accepted n' = total_accepted n + (if accept then 1 else 0) /\ total_improvements n' = total_improvements n + (if record then 1 else 0) /\
  high_water n' = high_water n /\ algorithm_evaluated n' = algorithm_evaluated n.

Lemma services_ok_empty g h sv : services_ok g sv ->
  services_ok h (with_bridge ((fun b => mkBridge (worker b) (telemetry b) (invalidate_cache (generator b)) (closed b)) <$> proposal_ranking sv)
    (with_context (invalidate (mutation_context sv)) sv)).
Proof.
  intros [_ Hb]. split; cbn; [done|]. destruct (proposal_ranking sv) as [b|]; [|done]. destruct Hb as [Hr [_ Hc]]. by split_all.
Qed.

Lemma accept_candidate_run candidate s key index record (k : Kernel) k' :
  services_ok (graph (current k)) (services k) -> Z.of_nat (length (accepted_ancestry (current k))) <= ANCESTRY_LIMIT ->
  accept_candidate spec opts candidate s key index record k = (Ok tt, k') ->
  exists id prov line n sv,
    k' = mkKernel (k_parameters k) (mkCurrent candidate (Datatypes.S (graph_object (current k))) s key id prov index line) (best k) (memory k) n sv
           (batch_source_checkpoint_id k) (live_frontier_state k) /\
    services_ok candidate sv /\ Z.of_nat (length line) <= ANCESTRY_LIMIT /\ counted true false (counts k) n.
Proof.
  intros Hsv Hline H. apply (services_ok_empty _ candidate) in Hsv.
  unfold accept_candidate, set_graph, invalidate_caches, _invalidate_mutation_witness_cache, invalidate_graph_cache in H.
  destruct record as [r|]; ksteps; [|destruct (samples_independently spec opts)];
    eexists _, _, _, _, _; (split; [reflexivity|]); split_all; try done; [by apply newest_length|..]; split; cbn; lia.
Qed.

Lemma record_candidate_run candidate s index accept record (k : Kernel) k' :
  Z.of_nat (length (accepted_ancestry (current k))) <= ANCESTRY_LIMIT -> Z.of_nat (length (best_ancestry (best k))) <= ANCESTRY_LIMIT ->
  record_candidate sha256 spec opts candidate s index accept record k = (Ok tt, k') ->
  exists id prov bid bprov line n,
    let c := current k in
    k' = mkKernel (k_parameters k) (mkCurrent (graph c) (graph_object c) (score c) (current_graph_key c) id prov (current_evaluation_index c) (accepted_ancestry c))
           (mkBest candidate s bid bprov index line) (memory k) n (services k) (batch_source_checkpoint_id k) (live_frontier_state k) /\
    Z.of_nat (length line) <= ANCESTRY_LIMIT /\ counted false true (counts k) n.
Proof.
  intros Hline Hbest H. unfold record_candidate in H.
  destruct k as [d [g i sc old id prov ix line] [bg bs bid bprov bix bline] m n sv src f]; cbn in *.
  assert (forall r, Z.of_nat (length (newest (ANCESTRY_LIMIT - 1) line ++ [r])) <= ANCESTRY_LIMIT) as Hl.
  { intros r. rewrite length_app. cbn [length]. pose proof (newest_length (ANCESTRY_LIMIT - 1) line ltac:(done)). lia. }
  destruct (samples_independently spec opts), record as [r|], accept; ksteps; cbn in *; eexists _, _, _, _, _, _; (split; [reflexivity|]); (split; [auto|]); split; cbn; lia.
Qed.

(** The acceptance test: it may draw a number, bound the tabu list, and add to it. *)
Lemma accept_run s key (k : Kernel) b k' :
  services_ok (graph (current k)) (services k) -> Z.of_nat (length (tabu (memory k))) <= tabu_maxlen (memory k) ->
  _accept parse_float f_pow f_exp spec s key k = (Ok b, k') ->
  exists sv l n,
    k' = mkKernel (k_parameters k) (current k) (best k) (with_tabu (memory k) l n) (counts k) sv (batch_source_checkpoint_id k) (live_frontier_state k) /\
    services_ok (graph (current k)) sv /\ Z.of_nat (length l) <= n.
Proof.
  intros Hsv Ht H. destruct k as [d c bst [sch tb n hs st] cn sv src f]; cbn in *. unfold _accept in H. case_bool_decide.
  - exists (services k'), tb, n. unfold anneal in H. ksteps. destruct (f_le _ _); [ksteps; cbn; by split_all|].
    destruct (random _) as [x r]. ksteps. cbn. split_all; [done|by apply services_ok_rng|done].
  - unfold tabu_accept in H. ksteps. cbn [tabu tabu_maxlen tabu_key_scheme recent_hashes recent_hash_set with_tabu] in *.
    match goal with H : (if n =? _ then _ else _) = Ok ?l |- _ => rename H into Hl; rename l into l0 end.
    match goal with H : int_param_or d "tabu_tenure" 128 = Ok ?t |- _ => rename t into tenure end.
    assert (Z.of_nat (length l0) <= tenure) as Hl0.
    { destruct (Z.eqb_spec n tenure) as [->|]; [by injection Hl as <-|]. apply new_deque_Ok in Hl as [? ->]. by apply newest_length. }
    match goal with H : (if ?a then _ else _) _ = (Ok _, _) |- _ => destruct a end; ksteps; cbn.
    + eexists sv, _, tenure. split; [reflexivity|]. split; [done|]. apply newest_length. lia.
    + by exists sv, l0, tenure.
Qed.

(** *** The counters of a batch *)

Definition sum_by (f : Z * Z * Z -> Z) (d : list (string * (Z * Z * Z))) : Z := foldr Z.add 0 ((fun kv => f kv.2) <$> d).

Definition operator_totals (d : list (string * (Z * Z * Z))) : Z * Z * Z :=
  (sum_by (fun v => v.1.1) d, sum_by (fun v => v.1.2) d, sum_by (fun v => v.2) d).

Lemma sum_by_set (f : Z * Z * Z -> Z) d k v : f (0, 0, 0) = 0 ->
  sum_by f (dict_set d k v) = sum_by f d - f (default (0, 0, 0) (dict_get d k)) + f v.
Proof.
  unfold sum_by. intros Hf. induction d as [|[k' v'] d IH]; [cbn; lia|]. cbn [dict_set dict_get]. destruct (decide (k = k')) as [->|]; cbn in *; lia.
Qed.

Lemma totals_use d operator u a g : operator_totals d = (u, a, g) -> operator_totals (add_use d operator) = (u + 1, a, g).
Proof.
  unfold operator_totals, add_use. destruct (default _ _) as [[x y] z] eqn:E. intros [= <- <- <-].
  rewrite !sum_by_set, E by done. cbn. f_equal; [f_equal|]; lia.
Qed.

Lemma totals_outcome d operator accept record u a g : operator_totals d = (u, a, g) ->
  operator_totals (add_outcome d operator accept record) = (u, a + (if accept then 1 else 0), g + (if record then 1 else 0)).
Proof.
  unfold operator_totals, add_outcome. destruct (default _ _) as [[x y] z] eqn:E. intros [= <- <- <-].
  rewrite !sum_by_set, E by done. cbn. f_equal; [f_equal|]; lia.
Qed.

(** The counters of a batch agree with each other and with what it added to the
    counters of the kernel, which were [n0] at its start. *)
Record batch_ok (n0 n : Counts) (b : Batch) : Prop := {
  bo_legal : 0 <= duplicates b <= legal b /\ legal b <= evaluated b;
  bo_scored : 0 <= early_rejected b /\ 0 <= accepted b /\ 0 <= improvements b;
  bo_rejected : accepted b + early_rejected b <= legal b /\ improvements b + early_rejected b <= legal b;
  bo_totals : total_accepted n = total_accepted n0 + accepted b /\ total_improvements n = total_improvements n0 + improvements b;
  bo_high_water : high_water n = high_water n0;
  bo_operators : operator_totals (ancestry_operator_statistics b) = (evaluated b, accepted b, improvements b);
  bo_samples : Z.of_nat (length (trajectory b)) = Z.min 64 (improvements b) /\ Z.of_nat (length (global_records b)) <= improvements b;
  bo_last_record : accepted_at_last_record b <= accepted b /\ Forall (fun ek => 0 < ek.1 <= evaluated b) (trajectory b)
}.

Lemma new_batch_ok n truncated : batch_ok n n (new_batch truncated).
Proof. split; cbn; try lia; [done|]. split; [done|constructor]. Qed.

(** What a turn adds to the counters of the batch and of the kernel *)
Lemma batch_ok_scored n0 n n' (complete accept record : bool) operator key mr b :
  batch_ok n0 n (batch_rejected b) -> 0 <= early_rejected b -> 0 < evaluated b ->
  total_accepted n' = total_accepted n + (if accept then 1 else 0) -> total_improvements n' = total_improvements n + (if record then 1 else 0) ->
  high_water n' = high_water n ->
  batch_ok n0 n' (let b := batch_scored complete accept record operator b in if record : bool then batch_record key mr b else b).
Proof.
  intros [Hl Hs Hr Ht Hh Ho Hx Hy] Hj He Ha Hi Hw. cbn in Hl, Hs, Hr, Ht, Hh, Ho, Hx, Hy.
  apply (totals_outcome _ operator accept record) in Ho. destruct accept, record; split; cbn; rewrite ?Ho; repeat split; try lia.
  all: rewrite ?Z.add_0_r; try done; try (destruct Hy; done).
  all: try (destruct (Nat.leb_spec (length (trajectory b)) 63); rewrite ?length_app; cbn; lia).
  all: try (rewrite length_app; destruct mr; cbn; lia).
  all: destruct Hy as [_ Hy], (_ <=? _)%nat; [apply Forall_app; split; [done|]; repeat constructor; cbn; lia|done].
Qed.

(** The test of a turn; a random restart accepts everything. *)
Lemma tested_run s key (k : Kernel) b k' : kernel_held k ->
  (if bool_decide (algorithm spec = "random_restart"%string) then mret true else _accept parse_float f_pow f_exp spec s key) k = (Ok b, k') ->
  kernel_held k' /\ (k_parameters k', current k', best k', counts k', tabu_key_scheme (memory k')) = (k_parameters k, current k, best k, counts k, tabu_key_scheme (memory k)).
Proof.
  intros Hk H. case_bool_decide; [by apply K_ret_Ok in H as [_ ->]|]. pose proof (ko_memory _ Hk) as Hm.
  apply accept_run in H as (sv & l & n & -> & Hs & Hl); [|apply Hk|apply Hm]. split; [|done].
  destruct Hk. split; try done. by apply with_tabu_ok.
Qed.

Lemma accepted_ok candidate s key index (accept : bool) mr (k k' : Kernel) :
  kernel_held k -> placed candidate -> scored_by candidate s -> full_key (tabu_key_scheme (memory k)) candidate = Ok key ->
  (if accept then accept_candidate spec opts candidate s key index mr else mret tt) k = (Ok tt, k') ->
  kernel_held k' /\ (graph (current k'), score (current k')) = (if accept then (candidate, s) else (graph (current k), score (current k))) /\
  (k_parameters k', best k', memory k') = (k_parameters k, best k, memory k) /\ counted accept false (counts k) (counts k').
Proof.
  intros Hk Hc Hs Hkey H. destruct accept; [|apply K_ret_Ok in H as [_ ->]; split_all; try done; split; cbn; lia].
  pose proof Hk as []. apply accept_candidate_run in H as (id & prov & line & n & sv & -> & Hsv & Hl & Hn); [|done|tauto].
  cbn in *. split_all; try done. split; cbn; try done; [tauto|destruct Hn as (_ & _ & -> & _); done].
Qed.

Lemma recorded_ok candidate s index (accept record : bool) mr (k k' : Kernel) z :
  kernel_held k -> placed candidate -> scored_by candidate s ->
  (if record then record_candidate sha256 spec opts candidate s index accept mr else set_stagnation z) k = (Ok tt, k') ->
  kernel_held k' /\ (best_graph (best k'), best_score (best k')) = (if record then (candidate, s) else (best_graph (best k), best_score (best k))) /\
  (k_parameters k', graph (current k'), score (current k')) = (k_parameters k, graph (current k), score (current k)) /\
  counted false record (counts k) (counts k').
Proof.
  intros Hk Hc Hs H. pose proof Hk as []. destruct record.
  - apply record_candidate_run in H as (id & prov & bid & bprov & line & n & -> & Hl & Hn); [|tauto..].
    cbn in *. split_all; try done. split; cbn; try done; [tauto|destruct Hn as (_ & _ & -> & _); done].
  - unfold set_stagnation in H. ksteps. split_all; try done; split; cbn; try done; lia.
Qed.

(** What a turn does with a candidate and its score *)
Record settled (k : Kernel) (candidate : BitGraph) (s : ScoreResult) (accept record : bool) (k' : Kernel) : Prop := {
  st_current : (graph (current k'), score (current k')) = if accept then (candidate, s) else (graph (current k), score (current k));
  st_best : (best_graph (best k'), best_score (best k')) = if record then (candidate, s) else (best_graph (best k), best_score (best k));
  st_record : record = tuple_lt (key_of s) (key_of (best_score (best k)));
  st_counted : counted accept record (counts k) (counts k');
  st_parameters : k_parameters k' = k_parameters k
}.

Lemma key_of_scored g s c : scored_by g s -> ordering_key s = Ok c -> key_of s = c /\ length c = 5%nat.
Proof. intros Hs Hc. destruct (scored_key _ _ Hs) as (c' & Hc' & Hl). rewrite Hc in Hc'. injection Hc' as <-. split; [by apply key_of_Ok|done]. Qed.

Lemma key_of_length g s : scored_by g s -> length (key_of s) = 5%nat.
Proof. intros Hs. destruct (scored_key _ _ Hs) as (c & Hc & Hl). by rewrite (key_of_Ok _ _ Hc). Qed.

(** The best score stays the least. *)
Lemma settled_least candidate s accept record (k k' : Kernel) :
  kernel_ok k -> scored_by candidate s -> kernel_held k' -> settled k candidate s accept record k' -> kernel_ok k'.
Proof.
  intros [Hh Hle] Hs Hh' [Hc Hb Hr _ _]. split; [done|].
  destruct accept; injection Hc as _ ->; destruct record; injection Hb as _ ->; try done; [by apply tuple_lt_irrefl|].
  apply not_true_iff_false. intros Hlt. symmetry in Hr. assert (tuple_lt (key_of (score (current k))) (key_of (best_score (best k))) = true); [|congruence].
  by apply (tuple_lt_trans _ (key_of s)).
Qed.

(** After the test, the rest of a turn keeps the invariant. *)
Lemma lane_settle_ok candidate s key operator b (k : Kernel) b' k' :
  kernel_ok k -> placed candidate -> scored_by candidate s -> full_key (tabu_key_scheme (memory k)) candidate = Ok key ->
  settle parse_float sha256 f_pow f_exp spec opts candidate s key operator b k = (Ok b', k') ->
  exists accept record c mr, kernel_ok k' /\ settled k candidate s accept record k' /\
    b' = (let b := batch_scored (score_complete s) accept record operator b in if record then batch_record c mr b else b).
Proof.
  intros Hk Hc Hcs Hck H. pose proof (ko_held _ Hk) as Hh. unfold settle in H. ksteps.
  match goal with H : ordering_key s = Ok ?c |- _ => rename c into ck; destruct (key_of_scored _ _ _ Hcs H) as [Eck _] end.
  match goal with H : ordering_key (best_score (best k)) = Ok ?c |- _ => destruct (key_of_scored _ _ _ (ko_best_score _ Hh) H) as [Ebk _] end.
  rewrite <- Eck, <- Ebk in *. set (record := tuple_lt _ _) in *.
  match goal with H : (if bool_decide _ then _ else _) k = (Ok ?a, ?k1) |- _ =>
    rename a into accept; rename k1 into k1'; apply tested_run in H as [Hh1 [= Ep1 Ec1 Eb1 En1 Em1]]; [|done] end.
  match goal with H : (if _ then _ else mret None) _ = (Ok ?r, ?k2) |- _ =>
    rename r into mr; assert (k2 = k1') as -> by (destruct (instrumentation_enabled opts && _ && _); ksteps; done); clear H end.
  match goal with H : (if accept then _ else _) _ = (Ok ?u, ?k2) |- _ =>
    destruct u; rename k2 into k2'; apply accepted_ok in H as (Hh2 & Hcur & [= Ep2 Eb2 Em2] & Hn2); [|first [done|by rewrite Em1]..] end.
  match goal with H : (if record then _ else _) _ = (Ok ?u, ?k2) |- _ =>
    destruct u; rename k2 into k3'; apply recorded_ok in H as (Hh3 & Hbst & [= Ep3 Eg3 Es3] & Hn3); [|done..] end.
  match goal with H : (if instrumentation_enabled opts then _ else _) k3' = (Ok ?r, ?k2) |- _ =>
    rename r into fid; assert (k2 = k3') as -> by (destruct (instrumentation_enabled opts); ksteps; done); clear H end.
  exists accept, record, (key_of s), mr.
  match goal with |- _ /\ ?S /\ _ => assert S as Hdone; [split; cbn|split_all; [|done|done]] end.
  - by rewrite Eg3, Es3, Hcur, Ec1.
  - by rewrite Hbst, Eb2, Eb1.
  - done.
  - rewrite <- En1. unfold counted in *. destruct accept, record; lia.
  - congruence.
  - eapply settled_least; [done..| |exact Hdone]. destruct Hh3. by split.
Qed.
End Invariant.
