(* ===== verification/LaneSteps.v ===== *)
(** * Steps of a lane

    Turns, batches, restarts and patches keep the invariant of [LaneInvariant], and
    the counters of a batch agree. *)

From stdpp Require Import sorting gmap.
From S2P Require Import Features Pool PoolProofs Payloads PoolChecks Ranking RankingProofs Prelude Floats Json Convert Model Cycles Graph6 Verification Score Rng Rewiring Mutation Seed Search SearchProofs Catalog SearchKeys KeyProofs SeedMetrics Lane LaneKernel LaneBatch LaneProofs LaneInvariant.

#[global] Open Scope Z_scope.

Section Steps.
Context {R S : Type} `{Hrng : Rng R} `{!RngLaws R} `{Hstate : RngState R} `{Hscorer : LaneScorer S}.
Context (parse_float : string -> res float) (sha256 : list Z -> list Z) (Random : Z -> R) (set_iter : gset Z -> list Z).
Context (f_pow : float -> Z -> float) (f_exp : float -> float).
Context (spec : LaneSpec) (opts : Options) (mode : string) (order0 : Z).
Context (Hmode : lane_mode spec = Ok mode) (Horder : 4 <= order0 <= 128).
Context (Hsha : digest_ok sha256) (Hset : forall X, set_iter X ≡ₚ elements X).

Abbreviation Kernel := (Kernel R S).
Abbreviation placed := (placed spec mode order0).
Abbreviation services_ok := (services_ok (R := R) (S := S) spec).
Abbreviation full_key := (_full_search_key sha256 opts).
Abbreviation kernel_held := (kernel_held (R := R) (S := S) sha256 spec opts mode order0).
Abbreviation kernel_ok := (kernel_ok (R := R) (S := S) sha256 spec opts mode order0).

(** ** Small steps *)

Lemma held_services k sv : kernel_held k -> services_ok (graph (current k)) sv -> kernel_held (with_services k sv).
Proof. intros [] Hsv. by split. Qed.

Lemma ok_services k sv : kernel_ok k -> services_ok (graph (current k)) sv -> kernel_ok (with_services k sv).
Proof. intros [Hk Hl] Hsv. split; [by apply held_services|done]. Qed.

(** An operation that is calm keeps the invariant. *)
Lemma calm_ok {A} (m : K R S A) (k : Kernel) Q a k' : kernel_ok k -> calm services_ok m k Q -> m k = (Ok a, k') ->
  kernel_ok k' /\ Q a /\ exists sv, k' = with_services k sv /\ services_ok (graph (current k)) sv.
Proof.
  intros Hk Hm H. destruct (calm_on _ _ _ _ _ _ Hm (ko_services _ _ _ _ _ _ (ko_held _ _ _ _ _ _ Hk)) H) as (sv & -> & Hsv & HQ).
  split_all; [by apply ok_services|by apply HQ|by exists sv].
Qed.

Lemma count_ok n (k : Kernel) : kernel_ok k -> 0 <= high_water n ->
  kernel_ok (mkKernel (k_parameters k) (current k) (best k) (memory k) n (services k) (batch_source_checkpoint_id k) (live_frontier_state k)).
Proof. intros [[] ?] Hn. by split. Qed.

(** Counters, services and the source are free otherwise. *)
Lemma side_ok n sv src (k : Kernel) : kernel_ok k -> 0 <= high_water n -> services_ok (graph (current k)) sv ->
  kernel_ok (mkKernel (k_parameters k) (current k) (best k) (memory k) n sv src (live_frontier_state k)).
Proof. intros [[] ?] Hn Hsv. by split. Qed.

Lemma publish_ok h (k k' : Kernel) : kernel_ok k -> publish h k = (Ok tt, k') -> kernel_ok k' /\ counts k' = counts k.
Proof. intros [[] ?] H. unfold publish in H. ksteps. split; [|done]. by split. Qed.

Lemma cutoff_same key (k k' : Kernel) c : _score_cutoff spec opts key k = (Ok c, k') -> k' = k.
Proof.
  unfold _score_cutoff. intros H. destruct (_ || _); [by ksteps|]. ksteps. destruct (_ =? 0); [by ksteps|].
  destruct (bool_decide _); by ksteps.
Qed.

Lemma restart_due_same (k k' : Kernel) b : restart_due spec k = (Ok b, k') -> k' = k.
Proof. unfold restart_due. intros H. destruct (negb _); [by ksteps|]. ksteps. destruct (_ <=? 0); by ksteps. Qed.

(** ** A new seed *)

Lemma forget_ok m key : tabu_key_scheme m = LEGACY_GRAPH_KEY_SCHEME \/ tabu_key_scheme m = FAST_GRAPH_KEY_SCHEME -> 0 <= tabu_maxlen m ->
  memory_ok (forget m key).
Proof.
  intros Hs Hn. split; [done|done|split; [constructor|done]|]. by apply newest_length.
Qed.

Lemma fresh_scheme_known : fresh_scheme opts = LEGACY_GRAPH_KEY_SCHEME \/ fresh_scheme opts = FAST_GRAPH_KEY_SCHEME.
Proof. unfold fresh_scheme. destruct (fast_duplicate_key_enabled opts); auto. Qed.

Definition reset (n : Counts) : Counts := mkCounts 0 0 (high_water n) (total_accepted n) (total_improvements n) (actual_restarts n).

(** A new seed gives the invariant, whatever graph the kernel held. The best graph
    is the new one. *)
Lemma new_seed_ok ns seed source (k k' : Kernel) :
  int_param (k_parameters k) "order" = Ok order0 -> services_ok (graph (current k)) (services k) ->
  0 <= tabu_maxlen (memory k) -> 0 <= high_water (counts k) ->
  _new_seed sha256 Random spec opts ns seed source k = (Ok tt, k') ->
  kernel_ok k' /\ k_parameters k' = k_parameters k /\ counts k' = reset (counts k) /\
  best_graph (best k') = graph (current k') /\ best_score (best k') = score (current k').
Proof.
  intros Ho Hsv Hn Hh H. unfold _new_seed, set_scheme, set_graph, invalidate_caches, _invalidate_mutation_witness_cache, invalidate_graph_cache,
    reset_counts, publish in H. ksteps.
  match goal with H : _generate_seed _ _ _ _ _ ?k0 = (Ok ?g, ?k1) |- _ =>
    rename g into g0; apply (calm_on services_ok _ k0 placed) in H as (sv1 & -> & Hsv1 & Hg);
      [|by apply (generate_seed_calm spec opts mode order0 Hmode)|by apply services_ok_rng] end.
  match goal with H : full_score _ ?k0 = (Ok ?s, ?k1) |- _ =>
    rename s into s0; apply (calm_on services_ok _ k0 (scored_by g0)) in H as (sv2 & -> & Hsv2 & Hs);
      [|apply full_score_calm|exact (services_ok_empty spec _ _ _ Hsv1)] end.
  cbn in *. specialize (Hg _ eq_refl). specialize (Hs _ eq_refl).
  split_all; try done. split; [|apply tuple_lt_irrefl].
  split; cbn; try done. by apply forget_ok; [apply fresh_scheme_known|].
Qed.

(** ** Turns *)

Abbreviation turn := (turn parse_float sha256 Random set_iter f_pow f_exp spec opts).

Lemma memory_bound m : memory_ok m -> 0 <= tabu_maxlen m.
Proof. intros []. lia. Qed.

Lemma automatic_restart_ok t (k k' : Kernel) : kernel_ok k -> automatic_restart sha256 Random spec opts t k = (Ok tt, k') ->
  kernel_ok k' /\ k_parameters k' = k_parameters k /\
  counts k' = (let n := reset (counts k) in mkCounts 0 0 (high_water n) (total_accepted n) (total_improvements n) (actual_restarts n + 1)) /\
  best_graph (best k') = graph (current k') /\ best_score (best k') = score (current k').
Proof.
  intros Hk H. unfold automatic_restart in H. ksteps. destruct (randrange _ _) as [seed r]. ksteps.
  match goal with u : unit |- _ => destruct u end.
  match goal with H : _new_seed _ _ _ _ _ _ _ _ = _ |- _ => apply new_seed_ok in H as (Hk' & Hp & Hn & Hbest) end.
  - cbn in *. split; [apply count_ok; [done|]|by rewrite Hn]. rewrite Hn. cbn. apply (ko_held _ _ _ _ _ _ Hk).
  - apply (ko_held _ _ _ _ _ _ Hk).
  - apply services_ok_rng, (ko_held _ _ _ _ _ _ Hk).
  - apply memory_bound, (ko_held _ _ _ _ _ _ Hk).
  - apply (ko_held _ _ _ _ _ _ Hk).
Qed.

Lemma batch_ok_counts n0 n n' b : batch_ok n0 n b -> total_accepted n' = total_accepted n -> total_improvements n' = total_improvements n ->
  high_water n' = high_water n -> batch_ok n0 n' b.
Proof. intros [] Ha Hi Hw. split; try done; rewrite ?Ha, ?Hi, ?Hw; done. Qed.

(** The counters after the proposal: one more evaluation, under its operator *)
Lemma batch_ok_use n0 n operator b : batch_ok n0 n b -> batch_ok n0 n (batch_evaluated (batch_use operator b)).
Proof.
  intros [Hl Hs Hr Ht Hh Ho Hx [Hy Hz]]. apply (totals_use _ operator) in Ho. split; cbn; try done; [lia|]. split; [done|].
  eapply Forall_impl; [done|]. cbn. lia.
Qed.

Lemma batch_ok_legal n0 n duplicate b : batch_ok n0 n b -> legal b + 1 <= evaluated b -> batch_ok n0 n (batch_rejected (batch_legal duplicate b)).
Proof. intros [Hl Hs Hr Ht Hh Ho Hx Hy] He. split; cbn; try done; destruct duplicate; lia. Qed.

(** What every turn keeps *)
Record turn_result (n0 : Counts) (b : Batch) (k' : Kernel) (b' : Batch) : Prop := {
  tr_kernel : kernel_ok k';
  tr_batch : batch_ok n0 (counts k') b';
  tr_evaluated : evaluated b' = evaluated b + 1
}.

(** The part of a turn before the test *)
Lemma remembered_ok key (k : Kernel) : kernel_ok k ->
  kernel_ok (mkKernel (k_parameters k) (current k) (best k) (remember_hash (memory k) key) (counts k) (services k) (batch_source_checkpoint_id k) (live_frontier_state k)).
Proof.
  intros [[] ?]. split; [|done]. split; try done; [by apply remember_ok|]. cbn. unfold remember_hash.
  destruct (recent_hashes (memory k)); [done|]. by destruct (_ =? _).
Qed.

Lemma judge_ok cd operator b n0 (k k' : Kernel) b' :
  kernel_ok k -> batch_ok n0 (counts k) b -> proposal_ok spec mode order0 (graph (current k)) cd ->
  judge parse_float sha256 f_pow f_exp spec opts cd.1 cd.2 operator (batch_use operator b) k = (Ok b', k') -> turn_result n0 b k' b'.
Proof.
  intros Hk Hb Hcd H. unfold judge, count_evaluation in H. ksteps.
  pose proof (ko_held _ _ _ _ _ _ Hk) as Hh. pose proof (batch_ok_use _ _ operator _ Hb) as Hb1.
  match type of H with _ ?k0 = _ => set (k1 := k0) in *; assert (kernel_ok k1) as Hk1; [apply count_ok; [done|apply Hh]|] end.
  assert (batch_ok n0 (counts k1) (batch_evaluated (batch_use operator b))) as Hb2 by by eapply batch_ok_counts.
  case_bool_decide as Hsame; ksteps.
  - unfold publish_turn in *. ksteps. match goal with H : publish _ _ = (Ok ?u, _) |- _ => destruct u; apply publish_ok in H as [Hk2 E]; [|done] end.
    split; [done|by rewrite E|done].
  - match goal with H : _candidate_search_key _ _ _ _ _ _ = Ok ?x |- _ => rename x into key; eapply candidate_key in H as Hkey end.
    2: { apply (placed_wf _ _ _ _ (ko_graph _ _ _ _ _ _ Hh)). } 2: { apply (ko_memory _ _ _ _ _ _ Hh). }
    2: { apply (ko_key _ _ _ _ _ _ Hh). } 2: { exact Hcd. }
    match goal with H : _score_cutoff _ _ _ ?k0 = _ |- _ =>
      apply cutoff_same in H as ->; assert (kernel_ok k0) as Hk2 by exact (remembered_ok key _ Hk1) end.
    match goal with H : _cpp_score _ ?c _ = (Ok ?x, _) |- _ =>
      rename x into s; eapply calm_ok in H as (Hk3 & Hs & sv & -> & Hsv); [|exact Hk2|apply cpp_score_calm] end.
    set (duplicate := bool_decide (key ∈ _)) in *.
    apply (batch_ok_legal _ _ duplicate) in Hb2; [|destruct Hb; cbn; lia].
    destruct s as [s|].
    + eapply (lane_settle_ok _ _ Random _ _ _ _ _ _ Horder) in H as (accept & record & c & mr & Hk4 & Hst & ->); [|exact Hk3|apply Hcd|by apply Hs|].
      2: { cbn. revert Hkey. unfold remember_hash. destruct (recent_hashes (memory k)); [done|]. by destruct (_ =? _). }
      split; [done| |by destruct record]. destruct (st_counted _ _ _ _ _ _ Hst) as (? & ? & ? & ?).
      eapply batch_ok_scored; [exact Hb2| | |done..]; cbn; destruct Hb; lia.
    + unfold set_stagnation, publish_turn in H. ksteps.
      match goal with H : publish _ _ = (Ok ?u, _) |- _ => destruct u; apply publish_ok in H as [Hk4 E] end.
      * split; [done|rewrite E; by eapply batch_ok_counts|done].
      * apply (count_ok (mkCounts _ _ _ _ _ _) _ Hk3). apply Hh.
Qed.

Lemma turn_ok t b n0 (k k' : Kernel) b' :
  kernel_ok k -> batch_ok n0 (counts k) b -> high_water (counts k) + evaluated b < 2 ^ 64 ->
  turn t b k = (Ok b', k') -> turn_result n0 b k' b'.
Proof.
  intros Hk Hb Hsmall H. unfold LaneBatch.turn in H. ktake H due k1 Hdue. apply restart_due_same in Hdue as ->.
  ktake H u k1 Hr. destruct u.
  assert (kernel_ok k1 /\ batch_ok n0 (counts k1) b /\ high_water (counts k1) = high_water (counts k)) as (Hk1 & Hb1 & Hw1).
  { destruct due; [|by apply K_ret_Ok in Hr as [_ ->]]. apply automatic_restart_ok in Hr as (Hk1 & _ & E & _); [|done].
    rewrite E. split_all; try done. by eapply batch_ok_counts. }
  ktake H operator k2 Hop.
  eapply calm_ok in Hop as (Hk2 & Hop & sv2 & -> & _); [|done|apply (operator_calm parse_float Random f_pow f_exp spec order0 Horder)].
  ktake H cd k3 Hcd. pose proof (ko_held _ _ _ _ _ _ Hk2) as Hh2.
  eapply calm_ok in Hcd as (Hk3 & Hcd & sv3 & -> & _); [|done|apply (propose_calm parse_float sha256 Random set_iter spec opts mode order0 Hmode Horder Hsha Hset)].
  - by eapply judge_ok.
  - apply Hh2.
  - apply Hh2.
  - cbn. pose proof (ko_high_water _ _ _ _ _ _ (ko_held _ _ _ _ _ _ Hk)). destruct Hb. lia.
  - exact Hop.
Qed.

(** The loop does its turns unless the flag or a deadline is seen before one. *)
Definition loop_ends (turns : nat -> Turn) (left i n : nat) : Prop :=
  (n <= left)%nat /\ (forall j, (j < n)%nat -> (stop_set (turns (i + j)%nat) || past_deadline (turns (i + j)%nat)) = false) /\
  (n = left \/ (stop_set (turns (i + n)%nat) || past_deadline (turns (i + n)%nat)) = true).

Lemma loop_ends_next turns left i n : (stop_set (turns i) || past_deadline (turns i)) = false -> loop_ends turns left (Datatypes.S i) n ->
  loop_ends turns (Datatypes.S left) i (Datatypes.S n).
Proof.
  intros Hi (Hn & Hj & He). split; [lia|]. split.
  - intros [|j] Hlt; [by rewrite Nat.add_0_r|]. replace (i + Datatypes.S j)%nat with (Datatypes.S i + j)%nat by lia. apply Hj. lia.
  - replace (i + Datatypes.S n)%nat with (Datatypes.S i + n)%nat by lia. destruct He; [left; lia|by right].
Qed.

Lemma loop_ok turns left i b n0 (k k' : Kernel) b' :
  kernel_ok k -> batch_ok n0 (counts k) b -> high_water (counts k) + evaluated b + Z.of_nat left < 2 ^ 64 ->
  loop parse_float sha256 Random set_iter f_pow f_exp spec opts turns left i b k = (Ok b', k') ->
  kernel_ok k' /\ batch_ok n0 (counts k') b' /\ exists n, evaluated b' = evaluated b + Z.of_nat n /\ loop_ends turns left i n.
Proof.
  revert i b k. induction left as [|left IH]; intros i b k Hk Hb Hsmall H; cbn [loop] in H.
  { apply K_ret_Ok in H as [-> ->]. split_all; [done|done|]. exists O. split; [lia|]. split; [lia|split; [lia|by left]]. }
  destruct (_ || _) eqn:Estop.
  { apply K_ret_Ok in H as [-> ->]. split_all; [done|done|]. exists O. split; [lia|]. split; [lia|split; [lia|right; by rewrite Nat.add_0_r]]. }
  ktake H b1 k1 Ht. apply (turn_ok _ _ n0) in Ht as [Hk1 Hb1 E]; [|done|done|lia].
  apply IH in H as (Hk2 & Hb2 & n & En & Hn); [|done|done|destruct Hb, Hb1; lia].
  split_all; [done|done|]. exists (Datatypes.S n). split; [lia|by apply loop_ends_next].
Qed.

(** ** A batch *)

(** What the metrics say is what was counted. *)
Definition reports (target : Z) (e : Ending) (k : Kernel) (b : Batch) (m : dict) : Prop :=
  dict_get m "evaluated" = Some (JInt (evaluated b)) /\ dict_get m "accepted" = Some (JInt (accepted b)) /\
  dict_get m "legal" = Some (JInt (legal b)) /\ dict_get m "improvements" = Some (JInt (improvements b)) /\
  dict_get m "duplicates" = Some (JInt (duplicates b)) /\ dict_get m "early_rejected" = Some (JInt (early_rejected b)) /\
  dict_get m "best_score" = Some (ints_json (key_of (best_score (best k)))) /\ dict_get m "end_high_water" = Some (JInt (high_water (counts k))) /\
  dict_get m "termination_reason" = Some (JStr (termination_reason target e b)).

Record batch_done (k : Kernel) (turns : nat -> Turn) (e : Ending) (target : Z) (k' : Kernel) (b : Batch) (m : dict) : Prop := {
  bd_kernel : kernel_ok k';
  bd_batch : exists n, batch_ok (counts k) n b /\
    counts k' = mkCounts (algorithm_evaluated n) (stagnation n) (high_water n + evaluated b) (total_accepted n) (total_improvements n) (actual_restarts n);
  bd_ends : 1 <= target /\ exists n, evaluated b = Z.of_nat n /\ loop_ends turns (Z.to_nat target) 0 n;
  bd_reports : reports target e k' b m
}.

Lemma metrics_report target initial e (k : Kernel) b m more : batch_metrics opts target initial e k b = Ok m -> reports target e k b (m ++ more).
Proof.
  unfold batch_metrics. intros H. repeat (apply bind_Ok in H as (? & ? & H)).
  match goal with H : ordering_key (best_score (best k)) = Ok _ |- _ => apply key_of_Ok in H as <- end.
  injection H as <-. unfold reports. cbn. by split_all.
Qed.

Lemma run_batch_ok turns e max_evaluations wall_limit source (k k' : Kernel) b m target :
  kernel_ok k -> batch_target k max_evaluations = Ok target -> high_water (counts k) + target < 2 ^ 64 ->
  run_batch parse_float sha256 Random set_iter f_pow f_exp spec opts turns e max_evaluations wall_limit source k = (Ok (b, m), k') ->
  batch_done k turns e target k' b m.
Proof.
  intros Hk Htarget Hsmall H. unfold run_batch, start_batch, add_high_water, add_loop_time in H. ksteps.
  match goal with H : batch_target k _ = Ok ?x |- _ => rewrite H in Htarget; injection Htarget as -> end.
  match goal with H : raise_if (target <? 1) _ = _ |- _ => apply raise_if_Ok in H; assert (1 <= target) as Hpos by lia; clear H end.
  match goal with H : loop _ _ _ _ _ _ _ _ _ _ _ _ ?k0 = (Ok ?x, ?y) |- _ =>
    rename x into b1; rename y into k1;
    apply (loop_ok _ _ _ _ (counts k)) in H as (Hk1 & Hb1 & n & En & Hn); [| |apply new_batch_ok|cbn; lia] end.
  2: { apply (side_ok _ _ _ _ Hk); [apply Hk|]. apply services_ok_worker, Hk. }
  set (n1 := mkCounts _ _ (_ + _) _ _ _) in *.
  match goal with H : (if _ then _ else mret tt) _ = (Ok ?u, ?y) |- _ => destruct u; rename y into k2;
    assert (exists sv, k2 = mkKernel (k_parameters k1) (current k1) (best k1) (memory k1) n1 sv (batch_source_checkpoint_id k1) (live_frontier_state k1) /\
      services_ok (graph (current k1)) sv) as (sv & -> & Hsv);
      [destruct (instrumentation_enabled opts); ksteps; (eexists; split; [reflexivity|]); [apply services_ok_seeds|]; apply Hk1|clear H] end.
  assert (exists sv more, k' = mkKernel (k_parameters k1) (current k1) (best k1) (memory k1) n1 sv (batch_source_checkpoint_id k1) (live_frontier_state k1) /\
    services_ok (graph (current k1)) sv /\ b = b1 /\ (m = x17 ++ more)) as (sv' & more & -> & Hsv' & -> & ->).
  { destruct (instrumentation_enabled opts); ksteps.
    - match goal with H : (b, m) = _ |- _ => injection H as -> -> end. eexists _, _. split_all; [reflexivity|by apply services_ok_seeds|done|done].
    - match goal with H : (b, m) = _ |- _ => injection H as -> -> end. exists sv, []. by rewrite app_nil_r. }
  split.
  - apply (side_ok _ _ _ _ Hk1); [|done]. cbn. pose proof (ko_high_water _ _ _ _ _ _ (ko_held _ _ _ _ _ _ Hk1)). destruct Hb1. lia.
  - by exists (counts k1).
  - split; [done|]. exists n. split; [cbn in En; lia|done].
  - match goal with H : batch_metrics _ _ _ _ _ _ = _ |- _ => apply (metrics_report _ _ _ _ _ _ more) in H; exact H end.
Qed.

(** ** Restarts and patches *)

Lemma lane_restart_ok ns seed (k k' : Kernel) : kernel_ok k -> restart sha256 Random spec opts ns seed k = (Ok tt, k') ->
  kernel_ok k' /\ k_parameters k' = k_parameters k /\ counts k' = reset (counts k) /\
  best_graph (best k') = graph (current k') /\ best_score (best k') = score (current k').
Proof.
  intros [[] _] H. eapply new_seed_ok; [done|done| |done|exact H]. by apply memory_bound.
Qed.

Lemma patch_ok changes (k k' : Kernel) : kernel_ok k -> NoDup changes.*1 -> patch changes k = (Ok tt, k') ->
  kernel_ok k' /\ current k' = current k /\ best k' = best k /\ counts k' = counts k /\
  forall name, dict_get (k_parameters k') name = match dict_get changes name with Some v => Some v | None => dict_get (k_parameters k) name end.
Proof.
  intros Hk Hn H. pose proof Hk as [[] Hle]. unfold patch in H. ksteps.
  assert (forall name, dict_get (foldl (fun d kv => dict_set d kv.1 kv.2) (k_parameters k) changes) name =
    match dict_get changes name with Some v => Some v | None => dict_get (k_parameters k) name end) as Hget by (intros name; by apply dict_get_update).
  match goal with H : new_deque _ _ = Ok _ |- _ => apply new_deque_Ok in H as [Ht ->] end.
  split_all; try done. split; [|done]. split; try done; cbn; [|by apply with_tabu_ok, newest_length].
  unfold int_param, subscript. rewrite Hget. destruct (dict_get changes "order") as [v|]; [|done].
  match goal with H : (_ ≫= _) = Ok ?m, H' : raise_if ?m _ = _ |- _ => apply bind_Ok in H as (n & En & [= <-]); apply raise_if_Ok in H' end.
  cbn. rewrite En. f_equal. pose proof (placed_order _ _ _ _ ko_graph). lia.
Qed.

(** The graphs and scores a checkpoint stores *)
Definition stored (c : dict) (g : BitGraph) (s : ScoreResult) (bg : BitGraph) (bs : ScoreResult) : Prop :=
  (exists v, subscript c "graph6" = Ok v /\ decode_graph6 v = Ok g /\ decode_graph6 (get_or c "best_graph6" v) = Ok bg) /\
  (exists v, subscript c "score" = Ok v /\ read_lane_score parse_float v = Ok s /\ read_lane_score parse_float (get_or c "best_score" v) = Ok bs).

(** A checkpoint of this lane: its graphs are of the lane, with their scores. *)
Definition sound (c : dict) : Prop := exists g s bg bs,
  stored c g s bg bs /\ placed g /\ scored_by g s /\ placed bg /\ scored_by bg bs /\ tuple_lt (key_of s) (key_of bs) = false.

Lemma restore_ancestry_run c (k k' : Kernel) : restore_ancestry spec opts c k = (Ok tt, k') ->
  exists a b, k' = mkKernel (k_parameters k) (with_ancestry a (current k)) (with_best_ancestry b (best k)) (memory k) (counts k) (services k)
      (batch_source_checkpoint_id k) (live_frontier_state k) /\
    Z.of_nat (length a) <= ANCESTRY_LIMIT /\ Z.of_nat (length b) <= ANCESTRY_LIMIT.
Proof.
  unfold restore_ancestry. intros H. ksteps. destruct (samples_independently spec opts); ksteps;
    eexists _, _; (split; [reflexivity|]); by split; try apply newest_length.
Qed.

Lemma restart_from_checkpoint_ok c seed (k k' : Kernel) g s bg bs : kernel_ok k -> sound c -> stored c g s bg bs ->
  restart_from_checkpoint parse_float sha256 Random spec opts c seed k = (Ok tt, k') ->
  kernel_ok k' /\ counts k' = reset (counts k) /\ k_parameters k' = k_parameters k /\
  (graph (current k'), score (current k'), best_graph (best k'), best_score (best k')) = (g, s, bg, bs).
Proof.
  intros [[] Hle] (g1 & s1 & bg1 & bs1 & Hst & Hg & Hs & Hbg & Hbs & Hl) Hst' H.
  destruct Hst as [(v & Ev & Eg & Ebg) (w & Ew & Es & Ebs)], Hst' as [(v' & Ev' & Eg' & Ebg') (w' & Ew' & Es' & Ebs')].
  unfold restart_from_checkpoint, set_graph, invalidate_caches, _invalidate_mutation_witness_cache, invalidate_graph_cache,
    set_scheme, restore_best, reset_counts, publish in H. ksteps. same_results.
  match goal with H : restore_ancestry _ _ _ _ = (Ok ?u, _) |- _ => destruct u; apply restore_ancestry_run in H as (la & lb & -> & Hla & Hlb) end.
  cbn in *. split_all; try done. split; [|done]. split; try done; cbn.
  - apply services_ok_rng. exact (services_ok_empty spec _ _ _ ko_services).
  - by apply forget_ok; [apply fresh_scheme_known|exact (memory_bound _ ko_memory)].
Qed.
End Steps.
