(* ===== verification/LaneResume.v ===== *)
(** * Checkpoints give the lane back

    A checkpoint of a lane stores its graphs and scores; a new kernel resumed from
    it goes on with the same search. *)

From stdpp Require Import sorting gmap.
From S2P Require Import Features Pool PoolProofs Payloads PoolChecks Ranking RankingProofs Prelude Floats Json Convert Model Cycles Graph6 Verification Score Rng Rewiring Mutation Seed Search SearchProofs Catalog SearchKeys KeyProofs SeedMetrics Lane LaneKernel LaneBatch LaneCheckpoint LaneProofs LaneInvariant LaneSteps.

#[global] Open Scope Z_scope.

(** The next step of a computation has the result that [H] says. *)
Ltac take_result H := rewrite H; cbn [mbind res_bind].

(** ** Scores *)

Lemma pair_le_spec x y : pair_le x y <-> x.1 < y.1 \/ x.1 = y.1 /\ x.2 <= y.2.
Proof.
  unfold pair_le, tuple_le. cbn. destruct (Z.eqb_spec y.1 x.1) as [E|E]; cbn; [destruct (Z.eqb_spec y.2 x.2)|]; cbn; split; try done; lia.
Qed.

#[export] Instance pair_le_total : Total pair_le.
Proof. intros x y. rewrite !pair_le_spec. lia. Qed.
#[export] Instance pair_le_trans : Transitive pair_le.
Proof. intros x y z. rewrite !pair_le_spec. lia. Qed.
#[export] Instance pair_le_anti : AntiSymm (=) pair_le.
Proof. intros [x1 x2] [y1 y2]. rewrite !pair_le_spec. cbn. intros. f_equal; lia. Qed.

(** Sorting pairs forgets the order they had. *)
Lemma sort_pairs l k : l ≡ₚ k -> merge_sort pair_le l = merge_sort pair_le k.
Proof.
  intros Hp. apply (StronglySorted_unique pair_le); [by apply (StronglySorted_merge_sort pair_le)..|]. by rewrite !merge_sort_Permutation.
Qed.

Lemma sort_shorter l : StronglySorted shorter l -> merge_sort pair_le l = l.
Proof.
  intros Hs. apply (StronglySorted_unique pair_le); [by apply (StronglySorted_merge_sort pair_le)| |by rewrite merge_sort_Permutation].
  induction Hs as [|x l _ IH Hf]; constructor; [done|]. eapply Forall_impl; [done|]. intros y. rewrite pair_le_spec. unfold shorter. lia.
Qed.

(** The reader of [search.py], with the counts sorted as pairs *)
Definition resort (s : ScoreResult) : ScoreResult :=
  mkScore (score_valid s) (merge_sort pair_le (witness_counts s)) (weighted_penalty s) (score_complete s) (novelty s) (simplicity s).

Lemma lane_score_resorts pf p : lane_score_from_payload pf p = (s ← _score_from_payload pf p; Ok (resort s)).
Proof.
  unfold lane_score_from_payload, _score_from_payload.
  repeat match goal with |- (?m ≫= _) = _ => destruct m; cbn [mbind res_bind]; [|reflexivity] end.
  unfold resort. cbn. do 2 f_equal. apply sort_pairs. by rewrite merge_sort_Permutation.
Qed.

(** A stored score is read back, also from a file. *)
Lemma lane_score_read pf s p p' : counts_ok (witness_counts s) -> lane_score_payload s = Ok p -> reordered (JObj p) (JObj p') ->
  lane_score_from_payload pf p' = Ok s.
Proof.
  intros Hc Hp Hr. rewrite lane_score_resorts, (score_read _ _ _ _ Hc Hp Hr). cbn. unfold resort. rewrite sort_shorter by apply Hc. by destruct s.
Qed.

(** ** The entries of a checkpoint *)

Section Resume.
Context {R S : Type} `{Hrng : Rng R} `{!RngLaws R} `{Hstate : RngState R} `{!RngStateLaws R} `{Hscorer : LaneScorer S}.
Context (parse_float : string -> res float) (sha256 : list Z -> list Z) (Random : Z -> R).
Context (spec : LaneSpec) (opts : Options) (mode : string) (order0 : Z).
Context (Horder : 4 <= order0 <= 128).

Abbreviation Kernel := (Kernel R S).
Abbreviation placed := (placed spec mode order0).
Abbreviation kernel_ok := (kernel_ok (R := R) (S := S) sha256 spec opts mode order0).
Abbreviation checkpoint := (checkpoint sha256 spec opts).

Lemma scored_by_counts g s : placed g -> scored_by g s -> counts_ok (witness_counts s).
Proof. intros Hg (cap & rs & p & H). eapply tally_counts; [|exact H]. rewrite (placed_order _ _ _ _ Hg). lia. Qed.

Lemma score_of_graph_reads g s p p' : placed g -> scored_by g s -> lane_score_payload s = Ok p -> reordered (JObj p) (JObj p') ->
  read_lane_score parse_float (JObj p') = Ok s.
Proof. intros Hg Hs. by apply lane_score_read, (scored_by_counts g). Qed.

Lemma decode_graph6_lane g t : placed g -> lane_graph6 g = Ok t -> decode_graph6 (JStr t) = Ok g.
Proof.
  intros Hg H. unfold lane_graph6 in H. apply bind_Ok in H as (l & Hl & [= <-]). unfold decode_graph6. cbn.
  pose proof (placed_wf _ _ _ _ Hg) as Hw. rewrite codes_text; [by eapply decode_encoded_text; [apply Hw|]|].
  eapply Forall_impl; [by eapply encoded_bytes; [apply Hw|]|]. unfold sixbit. lia.
Qed.

(** The parts of a checkpoint *)
Lemma checkpoint_parts (k : Kernel) v c : checkpoint k v = Ok c -> exists core seeds identity id digest,
  checkpoint_core sha256 spec opts k v = Ok core /\
  c = core ++ seeds ++ identity ++ [("checkpoint_id", JStr id); ("sha256", JStr digest)]%string /\
  (exists j1 j2 j3 j4 j5 j6 j7 j8 j9 j10 j11 j12 j13 j14 j15 j16 j17 j18 j19 j20 j21 j22, core =
    [("lane_id", j1); ("lane_version", j2); ("graph6", j3); ("score", j4); ("best_graph6", j5); ("best_score", j6); ("rng_state", j7);
     ("algorithm_evaluated", j8); ("stagnation", j9); ("tabu", j10); ("duplicate_key_scheme", j11); ("tabu_key_scheme", j12); ("parameters", j13);
     ("high_water", j14); ("accepted_ancestry", j15); ("best_ancestry", j16); ("current_candidate_id", j17); ("best_candidate_id", j18);
     ("current_evaluation_index", j19); ("best_evaluation_index", j20); ("current_provenance", j21); ("best_provenance", j22)]%string) /\
  (seeds = [] \/ exists x y, seeds = [("seed_generation", x); ("seed_generation_sha256", y)]%string) /\
  match get (parameters spec) "proposal_ranking" with
  | JNull => identity = []
  | _ => exists l, checkpoint_policy_identity sha256 = Ok l /\ identity = [("proposal_ranking_identity", JObj (text_dict l))]%string
  end.
Proof.
  unfold LaneCheckpoint.checkpoint. intros H. apply bind_Ok in H as (core & Hcore & H). apply bind_Ok in H as (seeds & Hseeds & H).
  apply bind_Ok in H as (identity & Hid & H). apply bind_Ok in H as (digest & _ & [= <-]).
  eexists core, seeds, identity, _, digest. rewrite <- !app_assoc. split_all; [done|reflexivity|..].
  - unfold checkpoint_core in Hcore. apply bind_Ok in Hcore as ([[id here] there] & _ & Hcore).
    repeat (apply bind_Ok in Hcore as (? & _ & Hcore)). injection Hcore as <-. repeat eexists.
  - unfold checkpoint_seeds in Hseeds. destruct (instrumentation_enabled opts); [|injection Hseeds as <-; by left].
    repeat (apply bind_Ok in Hseeds as (? & _ & Hseeds)). injection Hseeds as <-. right. by eexists _, _.
  - unfold checkpoint_identity in Hid. destruct (get _ _); try (by injection Hid as <-).
    all: apply bind_Ok in Hid as (texts & Hl & [= <-]); by exists texts.
Qed.

(** The keys of a checkpoint are distinct, so that a file keeps every entry. *)
Lemma checkpoint_keys (k : Kernel) v c : checkpoint k v = Ok c -> exists core more, checkpoint_core sha256 spec opts k v = Ok core /\ c = core ++ more /\ NoDup c.*1.
Proof.
  intros H. apply checkpoint_parts in H as (core & seeds & identity & id & digest & Hcore & -> & Hkeys & Hs & Hi).
  eexists core, _. split; [done|]. split; [reflexivity|]. do 22 destruct Hkeys as [? Hkeys]. subst core.
  assert (identity = [] \/ exists j, identity = [("proposal_ranking_identity", j)]%string) as Hi'.
  { destruct (get _ _); [by left|..]; destruct Hi as (? & _ & ->); right; by eexists. }
  destruct Hs as [->|(j1 & j2 & ->)], Hi' as [->|(j3 & ->)]; apply (bool_decide_unpack _); vm_compute; done.
Qed.

Lemma checkpoint_identity_entry (k : Kernel) v c : checkpoint k v = Ok c ->
  match get (parameters spec) "proposal_ranking" with
  | JNull => dict_get c "proposal_ranking_identity" = None
  | _ => exists l, checkpoint_policy_identity sha256 = Ok l /\ dict_get c "proposal_ranking_identity" = Some (JObj (text_dict l))
  end.
Proof.
  intros H. apply checkpoint_parts in H as (core & seeds & identity & id & digest & _ & -> & Hkeys & Hs & Hi).
  do 22 destruct Hkeys as [? Hkeys]. subst core.
  destruct (get _ _); [subst identity; by destruct Hs as [->|(? & ? & ->)]|..].
  all: destruct Hi as (texts & Hl & ->); exists texts; split; [done|]; by destruct Hs as [->|(? & ? & ->)].
Qed.

(** What a checkpoint says, once it was written and read back *)
Record read_back (k : Kernel) (v : Z) (c' : dict) : Prop := {
  rb_lane : dict_get c' "lane_id" = Some (JStr (lane_id spec)) /\ dict_get c' "lane_version" = Some (JInt v);
  rb_stored : stored parse_float c' (graph (current k)) (score (current k)) (best_graph (best k)) (best_score (best k));
  rb_rng : dict_get c' "rng_state" = Some (JStr (getstate (rng (services k))));
  rb_counts : dict_get c' "algorithm_evaluated" = Some (JInt (algorithm_evaluated (counts k))) /\
    dict_get c' "stagnation" = Some (JInt (stagnation (counts k))) /\ dict_get c' "high_water" = Some (JInt (high_water (counts k)));
  rb_memory : dict_get c' "tabu" = Some (text_list (tabu (memory k))) /\
    dict_get c' "duplicate_key_scheme" = Some (JStr (tabu_key_scheme (memory k)));
  rb_ancestry : exists a b, dict_get c' "accepted_ancestry" = Some (JList a) /\ dict_get c' "best_ancestry" = Some (JList b) /\
    Forall2 (fun d j => reordered (JObj d) j) (accepted_ancestry (current k)) a /\ Forall2 (fun d j => reordered (JObj d) j) (best_ancestry (best k)) b;
  rb_ids : exists id bid, dict_get c' "current_candidate_id" = Some (JStr id) /\ dict_get c' "best_candidate_id" = Some (JStr bid) /\
    (samples_independently spec opts = false -> forall own, current_candidate_id (current k) = Some own -> id = own) /\
    (instrumentation_enabled opts = true -> bid = best_candidate_id (best k));
  rb_indices : dict_get c' "current_evaluation_index" = Some (JInt (current_evaluation_index (current k))) /\
    dict_get c' "best_evaluation_index" = Some (JInt (best_evaluation_index (best k)))
}.

Lemma reordered_dicts l v : reordered (dicts_json l) v -> exists a, v = JList a /\ Forall2 (fun d j => reordered (JObj d) j) l a.
Proof.
  unfold dicts_json. inversion 1 as [| |? a Ha]; subst.
  - exists (JObj <$> l). split; [done|]. apply Forall2_fmap_r, Forall_Forall2_diag, Forall_true. constructor.
  - exists a. split; [done|]. exact (proj1 (Forall2_fmap_l JObj reordered l a) Ha).
Qed.

Lemma provenance_id (k : Kernel) id here there : checkpoint_provenance sha256 spec opts k = Ok (id, here, there) ->
  samples_independently spec opts = false -> forall own, current_candidate_id (current k) = Some own -> id = own.
Proof.
  unfold checkpoint_provenance. intros H E own Hown. rewrite E, Hown in H. cbn in H. by injection H as <- _ _.
Qed.

Lemma checkpoint_reads (k : Kernel) v c c' : kernel_ok k -> checkpoint k v = Ok c -> reordered (JObj c) (JObj c') -> read_back k v c'.
Proof.
  intros [[] _] Hc Hr. apply checkpoint_keys in Hc as (core & more & Hcore & -> & Hn).
  assert (forall k v, dict_get (core ++ more) k = Some v -> exists v', dict_get c' k = Some v' /\ reordered v v') as Hget.
  { intros ? ?. by apply reordered_get. }
  assert (forall k v, dict_get (core ++ more) k = Some v -> atomic v -> dict_get c' k = Some v) as Hatom.
  { intros ? ? Hv Ha. destruct (Hget _ _ Hv) as (v' & Hv' & ->%reordered_atomic); done. }
  unfold checkpoint_core in Hcore. apply bind_Ok in Hcore as ([[id here] there] & Hid & Hcore).
  apply bind_Ok in Hcore as (g6 & Eg & Hcore). apply bind_Ok in Hcore as (s & Es & Hcore).
  apply bind_Ok in Hcore as (bg6 & Ebg & Hcore). apply bind_Ok in Hcore as (bs & Ebs & Hcore).
  apply bind_Ok in Hcore as (bid & Ebid & [= <-]). clear Hn Hr.
  destruct (Hget "score"%string _ eq_refl) as (sv & Esv & Hrs). destruct (reordered_object _ _ Hrs) as [sd ->].
  destruct (Hget "best_score"%string _ eq_refl) as (bv & Ebv & Hrb). destruct (reordered_object _ _ Hrb) as [bd ->].
  destruct (Hget "accepted_ancestry"%string _ eq_refl) as (av & Eav & (a & -> & Ha)%reordered_dicts).
  destruct (Hget "best_ancestry"%string _ eq_refl) as (ov & Eov & (b & -> & Hb)%reordered_dicts).
  assert (forall name v, dict_get (_ ++ more) name = Some v -> atomic v -> dict_get c' name = Some v) as Hat by exact Hatom.
  split; unfold stored, subscript, get_or.
  - split; apply Hat; done.
  - split; eexists.
    + rewrite (Hat "graph6"%string _ eq_refl I). split; [done|]. split; [by apply decode_graph6_lane|].
      rewrite (Hat "best_graph6"%string _ eq_refl I). by apply decode_graph6_lane.
    + rewrite Esv. split; [done|]. split; [by eapply (score_of_graph_reads (graph (current k)))|].
      rewrite Ebv. by eapply (score_of_graph_reads (best_graph (best k))).
  - by apply Hat.
  - split_all; by apply Hat.
  - split; apply Hat; try done. apply texts_atomic.
  - by exists a, b.
  - exists id, bid. split_all; [by apply Hat|by apply Hat|by eapply provenance_id|]. intros E. rewrite E in Ebid. by injection Ebid.
  - split; by apply Hat.
Qed.

(** ** A resumed kernel *)

Definition same_records (l l' : list dict) : Prop := Forall2 (fun d d' => reordered (JObj d) (JObj d')) l l'.

(** [k'] goes on where [k] was: what only served one process starts again. *)
Record resumed_as (sv : R -> Services R S) (tenure : Z) (k k' : Kernel) : Prop := {
  ra_search : (graph (current k'), score (current k'), best_graph (best k'), best_score (best k')) =
    (graph (current k), score (current k), best_graph (best k), best_score (best k));
  ra_key : current_graph_key (current k') = current_graph_key (current k);
  ra_services : services k' = sv (rng (services k));
  ra_counts : counts k' = mkCounts (algorithm_evaluated (counts k)) (stagnation (counts k)) (high_water (counts k)) 0 0 0;
  ra_memory : memory k' = mkMemory (tabu_key_scheme (memory k))
    (match newest tenure (tabu (memory k)) with [] => deque_append tenure [] (current_graph_key (current k)) | l => l end) tenure [] [];
  ra_ancestry : if samples_independently spec opts then accepted_ancestry (current k') = [] /\ best_ancestry (best k') = []
    else same_records (accepted_ancestry (current k)) (accepted_ancestry (current k')) /\ same_records (best_ancestry (best k)) (best_ancestry (best k'));
  ra_ids : (samples_independently spec opts = false -> forall own, current_candidate_id (current k) = Some own -> current_candidate_id (current k') = Some own) /\
    (instrumentation_enabled opts = true -> best_candidate_id (best k') = best_candidate_id (best k));
  ra_indices : (current_evaluation_index (current k'), best_evaluation_index (best k')) =
    (current_evaluation_index (current k), best_evaluation_index (best k));
  ra_parameters : k_parameters k' = parameters spec;
  ra_frontier : live_frontier_state k' =
    mkFrontier (graph (current k')) (score (current k')) (current_candidate_id (current k')) (high_water (counts k'))
}.

Lemma records_read l a : Forall2 (fun d j => reordered (JObj d) j) l a -> exists a', mapM read_record a = Ok a' /\ same_records l a'.
Proof.
  induction 1 as [|d j l a Hd _ (a' & Ha & Hs)]; [exists []; split; [done|constructor]|].
  destruct (reordered_object _ _ Hd) as [d' ->]. exists (d' :: a'). cbn. rewrite Ha. split; [done|by constructor].
Qed.

Lemma read_ancestry_file c name a : dict_get c name = Some (JList a) -> read_ancestry c name = mapM read_record a.
Proof. intros H. unfold read_ancestry, get_or. by rewrite H. Qed.

Lemma same_records_length l l' : same_records l l' -> length l' = length l.
Proof. intros H. symmetry. by eapply Forall2_length. Qed.

Lemma resume_run sv (k : Kernel) v c' tenure own : kernel_ok k -> read_back k v c' ->
  int_param_or (parameters spec) "tabu_tenure" 128 = Ok tenure -> 0 <= tenure ->
  lane_candidate_id sha256 spec opts (best_graph (best k)) = Ok own ->
  exists k', resume_kernel parse_float sha256 Random spec opts sv c' None = Ok k' /\ resumed_as sv tenure k k'.
Proof.
  intros [[] _] [_ [(v1 & Ev1 & Eg & Ebg) (v2 & Ev2 & Es & Ebs)] Erng (Eae & Est & Ehw) [Etb Esch] (a & b & Ea & Eb & Ha & Hb)
    (id & bid & Eid & Ebid & Hid & Hbid) [Eci Ebi]] Ht Ht0 Hown.
  destruct (records_read _ _ Ha) as (a' & Ha' & Hsa), (records_read _ _ Hb) as (b' & Hb' & Hsb).
  assert (saved_scheme c' = Ok (tabu_key_scheme (memory k))) as Escheme.
  { unfold saved_scheme, get_or. rewrite Esch. by destruct (mo_scheme _ ko_memory) as [->| ->]. }
  assert (saved_progress Random c' None = Ok (rng (services k), algorithm_evaluated (counts k), stagnation (counts k), high_water (counts k))) as Eprog.
  { unfold saved_progress, subscript, get_or. rewrite Erng, Eae, Est, Ehw. cbn. by rewrite setstate_getstate. }
  assert (exists anc, saved_ancestry spec opts c' = Ok anc /\ if samples_independently spec opts then anc = ([], []) else anc = (a', b')) as (anc & Eanc & Hanc).
  { unfold saved_ancestry. destruct (samples_independently spec opts); [by eexists|].
    rewrite (read_ancestry_file _ _ _ Ea), (read_ancestry_file _ _ _ Eb), Ha', Hb'. eexists. split; [reflexivity|]. cbn.
    apply same_records_length in Hsa, Hsb. by rewrite !newest_short by lia. }
  assert (saved_current_id sha256 spec opts c' (graph (current k)) = Ok (Some id)) as Ecid by (unfold saved_current_id, get; by rewrite Eid).
  assert (restored_best_id sha256 spec opts c' (best_graph (best k)) = Ok bid) as Ebidr.
  { unfold restored_best_id, get_or. by rewrite Hown, Ebid. }
  assert (saved_tabu c' None (current_graph_key (current k)) tenure = Ok (match newest tenure (tabu (memory k)) with
    [] => deque_append tenure [] (current_graph_key (current k)) | l => l end)) as Etabu.
  { unfold saved_tabu, get_or. rewrite Etb. cbn. rewrite read_texts. cbn. unfold new_deque. replace (tenure <? 0) with false by lia. by destruct (newest _ _). }
  unfold resume_kernel. take_result Escheme. take_result Ev1. take_result Eg. take_result Ev2. take_result Es. take_result Ebg. take_result Ebs.
  take_result Eprog. take_result Ht. take_result ko_key. take_result Etabu. take_result Eanc. take_result Ecid. take_result Ebidr.
  unfold get_or. rewrite Eci, Ebi. cbn. eexists. split; [reflexivity|]. split; cbn; try done.
  - by destruct (samples_independently spec opts); subst anc.
  - split; [|done]. intros E own' Hown'. by rewrite (Hid E own' Hown').
Qed.

(** ** The invariant of new kernels *)

Lemma open_bridge_ok (boot : Boot S) id b : open_bridge boot id = Ok b -> bridge_ok b.
Proof.
  unfold open_bridge. intros H. apply bind_Ok in H as (t & _ & H). apply raise_seq_Ok in H as [_ H]. apply bind_Ok in H as (u & _ & [= <-]).
  done.
Qed.

Lemma bridge_of_ok (boot : Boot S) saved o : bridge_of sha256 spec boot saved = Ok o ->
  match o with Some b => ranked spec /\ bridge_ok b | None => ~ ranked spec end.
Proof.
  unfold bridge_of, ranked. destruct (get (parameters spec) "proposal_ranking") eqn:E; intros H; apply bind_Ok in H as (u & _ & H).
  1: { injection H as <-. intros Hne. by apply Hne. }
  all: apply bind_Ok in H as (bridge & Hb & [= <-]); by split; [|by eapply open_bridge_ok].
Qed.

Lemma new_services_ok g (boot : Boot S) (r : R) bridge seeds : match bridge with Some b => ranked spec /\ bridge_ok b | None => ~ ranked spec end ->
  services_ok spec g (new_services opts boot r bridge seeds).
Proof. intros Hb. split; [done|exact Hb]. Qed.

Context (Hmode : lane_mode spec = Ok mode) (Hparam : int_param (parameters spec) "order" = Ok order0).

Lemma read_back_sound (k : Kernel) v c' : kernel_ok k -> read_back k v c' -> sound parse_float spec mode order0 c'.
Proof. intros [[] Hl] Hr. exists (graph (current k)), (score (current k)), (best_graph (best k)), (best_score (best k)). split_all; try done. apply Hr. Qed.

Lemma saved_tabu_bound c' fork own tenure l : saved_tabu c' fork own tenure = Ok l -> Z.of_nat (length l) <= tenure.
Proof.
  unfold saved_tabu. intros H. apply bind_Ok in H as (texts & _ & H). apply bind_Ok in H as (l0 & (Ht & ->)%new_deque_Ok & [= <-]).
  pose proof (newest_length tenure texts Ht). destruct (newest tenure texts); [by apply newest_length|done].
Qed.

Lemma saved_ancestry_bound c' anc : saved_ancestry spec opts c' = Ok anc ->
  Z.of_nat (length anc.1) <= ANCESTRY_LIMIT /\ Z.of_nat (length anc.2) <= ANCESTRY_LIMIT.
Proof.
  unfold saved_ancestry. intros H. destruct (samples_independently spec opts); [by injection H as <-|].
  apply bind_Ok in H as (a & _ & H). apply bind_Ok in H as (b & _ & [= <-]). by split; apply newest_length.
Qed.

(** A kernel resumed from a checkpoint of the lane, or a fork of it *)
Lemma resume_ok sv (k : Kernel) v c' fork k' : kernel_ok k -> read_back k v c' ->
  (forall r g, services_ok spec g (sv r)) -> resume_kernel parse_float sha256 Random spec opts sv c' fork = Ok k' -> kernel_ok k'.
Proof.
  intros [[] Hl] [_ [(v1 & Ev1 & Eg & Ebg) (v2 & Ev2 & Es & Ebs)] Erng (Eae & Est & Ehw) [_ Esch] _ _ _] Hsv H.
  unfold resume_kernel in H. apply bind_Ok in H as (scheme & Hscheme & H).
  apply bind_Ok in H as (g6 & Eg6 & H). apply bind_Ok in H as (g & Eg' & H). apply bind_Ok in H as (sc & Esc & H). apply bind_Ok in H as (s & Es' & H).
  apply bind_Ok in H as (bg & Ebg' & H). apply bind_Ok in H as (bs & Ebs' & H). apply bind_Ok in H as ([[[r ae] st] hw] & Hprog & H).
  apply bind_Ok in H as (tenure & Ht & H). apply bind_Ok in H as (own & Hown & H). apply bind_Ok in H as (tb & Htb & H).
  apply bind_Ok in H as (anc & Hanc & H). apply bind_Ok in H as (id & _ & H). apply bind_Ok in H as (bid & _ & H).
  apply bind_Ok in H as (ci & _ & H). apply bind_Ok in H as (bi & _ & [= <-]). same_results.
  assert (0 <= hw) as Hhw.
  { unfold saved_progress, get_or in Hprog. destruct fork as [seed|]; [injection Hprog; lia|].
    rewrite Eae, Est, Ehw in Hprog. repeat (apply bind_Ok in Hprog as (? & ? & Hprog)).
    injection Hprog as _ _ _ <-. match goal with H : to_int (default _ (Some (JInt (high_water _)))) = Ok _ |- _ => injection H as <- end. done. }
  assert (scheme = LEGACY_GRAPH_KEY_SCHEME \/ scheme = FAST_GRAPH_KEY_SCHEME) as Hs.
  { unfold saved_scheme, _normalize_duplicate_key_scheme in Hscheme. apply bind_Ok in Hscheme as (t & _ & Hscheme).
    case_bool_decide; [injection Hscheme; auto|]. case_bool_decide; [injection Hscheme; auto|done]. }
  split; [|done]. split; cbn; try done; [|by eapply saved_ancestry_bound].
  split; cbn; [done|done|split; [constructor|done]|by eapply saved_tabu_bound].
Qed.
End Resume.
