(* ===== verification/LaneTheorems.v ===== *)
(** * What a lane guarantees

    Every kernel a lane can reach keeps the invariant, a batch counts what it does,
    a checkpoint gives the search back, and an early rejection is one the test
    would have made. *)

From stdpp Require Import sorting gmap.
From S2P Require Import Features Pool PoolProofs Payloads PoolChecks Ranking RankingProofs Prelude Floats Json Convert Model Cycles Graph6 Verification Score Rng Rewiring Mutation Seed Search SearchProofs Catalog SearchKeys KeyProofs SeedMetrics Lane LaneKernel LaneBatch LaneCheckpoint LaneProofs LaneInvariant LaneSteps LaneResume.

#[global] Open Scope Z_scope.

(** ** What validation gives *)

Lemma validated parse_float spec : validate parse_float spec = Ok tt ->
  for_each (validate_parameter parse_float) (parameters spec) = Ok tt /\ graph_family spec ∈ GRAPH_FAMILIES.*1.
Proof.
  unfold validate. intros H. do 5 apply raise_seq_Ok in H as [? H]. apply bind_Ok in H as (allowed & _ & H).
  apply raise_seq_Ok in H as [_ H]. apply bind_Ok in H as ([] & _ & H). apply bind_Ok in H as ([] & Hp & H). split; [done|].
  match goal with H : negb (bool_decide (graph_family _ ∈ _)) = false |- _ => by apply negb_false_iff, bool_decide_eq_true in H end.
Qed.

(** A lane that is valid has a generator mode, and an order between 4 and 128. *)
Lemma validated_mode parse_float spec : validate parse_float spec = Ok tt -> exists mode, lane_mode spec = Ok mode.
Proof.
  intros [_ H]%validated. unfold lane_mode. destruct (dict_get GRAPH_FAMILIES (graph_family spec)) as [m|] eqn:E; [by exists m|].
  apply list_elem_of_fmap in H as ([k v] & Hk & H). cbn in Hk. rewrite Hk in E. by apply (proj1 (dict_get_None _ _) E v) in H.
Qed.

Lemma validated_order parse_float spec order0 : validate parse_float spec = Ok tt -> int_param (parameters spec) "order" = Ok order0 -> 4 <= order0 <= 128.
Proof.
  intros [H _]%validated Ho. unfold int_param, subscript in Ho. destruct (dict_get (parameters spec) "order") as [v|] eqn:E; [|done].
  destruct (integer_parameter _ _ _ 4 128 _ H E) as (z & -> & Hz); [done..|]. by injection Ho as <-.
Qed.

(** ** The identity of the ranking policy in a checkpoint *)

Lemma reordered_get_None d d' k : reordered (JObj d) (JObj d') -> dict_get d k = None -> dict_get d' k = None.
Proof.
  intros Hr Hd. inversion Hr as [|? d1 ? Hp Hf|]; subst; [done|]. apply dict_get_None. intros v' Hv'.
  apply list_elem_of_lookup in Hv' as (i & Hi). destruct (Forall2_lookup_r _ _ _ _ _ Hf Hi) as ([k1 v1] & Hi1 & Hk & _). cbn in Hk. subst k1.
  apply (proj1 (dict_get_None _ _) Hd v1). rewrite Hp. by eapply list_elem_of_lookup_2.
Qed.

Lemma text_dict_get l k : dict_get (text_dict l) k = JStr <$> dict_get l k.
Proof. induction l as [|[k' v] l IH]; [done|]. cbn. by case_decide. Qed.

(** A dict of texts is recognised after it was written and read. *)
Lemma same_texts_reordered l d : NoDup l.*1 -> reordered (JObj (text_dict l)) (JObj d) -> same_texts (JObj d) l = true.
Proof.
  intros Hn Hr. assert (NoDup (text_dict l).*1) as Hn' by (unfold text_dict; by rewrite <- list_fmap_compose).
  cbn. apply andb_true_iff. split.
  - apply forallb_forall. intros [k v] Hin%list_elem_of_In. cbn.
    destruct (reordered_get _ _ k (JStr v) Hn' Hr) as (v' & -> & Hv'); [by rewrite text_dict_get, (dict_get_NoDup _ _ _ Hn Hin)|].
    apply reordered_atomic in Hv' as ->; [|done]. cbn. by apply bool_decide_eq_true.
  - apply forallb_forall. intros k Hin%list_elem_of_In. apply bool_decide_eq_true. destruct (dict_get l k) as [v|] eqn:E.
    + apply dict_get_elem_of in E. apply list_elem_of_fmap. by exists (k, v).
    + assert (dict_get d k = None) as Hd by (eapply reordered_get_None; [exact Hr|by rewrite text_dict_get, E]).
      apply list_elem_of_fmap in Hin as ([k' v] & -> & Hin). by apply (proj1 (dict_get_None _ _) Hd v) in Hin.
Qed.

Lemma policy_identity_distinct sha256 l : checkpoint_policy_identity sha256 = Ok l -> NoDup l.*1.
Proof. unfold checkpoint_policy_identity. intros H. apply bind_Ok in H as (h & _ & [= <-]). apply (bool_decide_unpack _). vm_compute. done. Qed.

Section Lanes.
Context {R S : Type} `{Hrng : Rng R} `{!RngLaws R} `{Hstate : RngState R} `{!RngStateLaws R} `{Hscorer : LaneScorer S}.
Context (parse_float : string -> res float) (sha256 : list Z -> list Z) (Random : Z -> R) (set_iter : gset Z -> list Z).
Context (f_pow : float -> Z -> float) (f_exp : float -> float).
Context (spec : LaneSpec) (opts : Options) (mode : string) (order0 : Z).
Context (Hsha : digest_ok sha256) (Hset : forall X, set_iter X ≡ₚ elements X).
Context (Hvalid : validate parse_float spec = Ok tt) (Hmode : lane_mode spec = Ok mode) (Hparam : int_param (parameters spec) "order" = Ok order0).

Abbreviation Kernel := (Kernel R S).
Abbreviation kernel_ok := (kernel_ok (R := R) (S := S) sha256 spec opts mode order0).
Abbreviation checkpoint := (checkpoint sha256 spec opts).
Abbreviation new_kernel := (new_kernel parse_float sha256 Random spec opts).
Abbreviation run_batch := (run_batch parse_float sha256 Random set_iter f_pow f_exp spec opts).

(** ** What a lane can reach

    A new kernel, from nothing, from a checkpoint of a reachable kernel that went
    through a file, or a fork of one; and what batches, restarts and patches make
    of it when they return. The evaluations of a lane stay below [2 ^ 64]. *)

Inductive reaches : Kernel -> Prop :=
  | reach_new boot k : new_kernel boot None None = Ok k -> reaches k
  | reach_resumed k0 v c c' boot fork k : reaches k0 -> checkpoint k0 v = Ok c -> reordered (JObj c) (JObj c') ->
      new_kernel boot (Some c') fork = Ok k -> reaches k
  | reach_batch k turns e max_evaluations wall_limit source target r k' : reaches k ->
      batch_target k max_evaluations = Ok target -> high_water (counts k) + target < 2 ^ 64 ->
      run_batch turns e max_evaluations wall_limit source k = (Ok r, k') -> reaches k'
  | reach_restart k ns seed k' : reaches k -> restart sha256 Random spec opts ns seed k = (Ok tt, k') -> reaches k'
  | reach_restart_from k k0 v c c' seed k' : reaches k -> reaches k0 -> checkpoint k0 v = Ok c -> reordered (JObj c) (JObj c') ->
      restart_from_checkpoint parse_float sha256 Random spec opts c' seed k = (Ok tt, k') -> reaches k'
  | reach_patch k changes k' : reaches k -> NoDup changes.*1 -> patch changes k = (Ok tt, k') -> reaches k'.

Let Horder : 4 <= order0 <= 128 := validated_order _ _ _ Hvalid Hparam.

Lemma new_kernel_ok boot k : new_kernel boot None None = Ok k -> kernel_ok k.
Proof.
  unfold LaneCheckpoint.new_kernel. intros H. apply bind_Ok in H as (m & _ & H). apply bind_Ok in H as (bridge & Hb & H).
  apply bind_Ok in H as ([] & _ & H). apply bind_Ok in H as (seeds & _ & H). apply bridge_of_ok in Hb.
  destruct (_new_seed _ _ _ _ _ _ _ _) as [[[]|e] k1] eqn:E; [|done]. injection H as <-.
  apply (new_seed_ok _ _ _ _ mode order0 Hmode) in E as [Hk _]; [done|exact Hparam|by apply new_services_ok|done|done].
Qed.

Lemma resumed_kernel_ok k0 v c c' boot fork k : kernel_ok k0 -> checkpoint k0 v = Ok c -> reordered (JObj c) (JObj c') ->
  new_kernel boot (Some c') fork = Ok k -> kernel_ok k.
Proof.
  unfold LaneCheckpoint.new_kernel. intros Hk Hc Hr H. apply bind_Ok in H as (m & _ & H). apply bind_Ok in H as (bridge & Hb & H).
  apply bind_Ok in H as ([] & _ & H). apply bind_Ok in H as (seeds & _ & H). apply bridge_of_ok in Hb.
  eapply (resume_ok (R := R)) in H; [exact H|exact Hparam|exact Hk| |].
  - eapply checkpoint_reads; [|exact Hk|exact Hc|exact Hr]. exact Horder.
  - intros r g. by apply new_services_ok.
Qed.

Lemma lane_reaches_ok k : reaches k -> kernel_ok k.
Proof.
  induction 1 as [boot k H|k0 v c c' boot fork k _ IH Hc Hr H|k turns e m w src target [b r] k' _ IH Ht Hb H|k ns seed k' _ IH H
    |k k0 v c c' seed k' _ IH _ IH0 Hc Hr H|k changes k' _ IH Hn H].
  - by eapply new_kernel_ok.
  - by eapply resumed_kernel_ok.
  - by eapply run_batch_ok in H as [Hk _ _ _].
  - by eapply lane_restart_ok in H as [Hk _].
  - eapply restart_from_checkpoint_ok in H as [Hk _]; [done|done| |].
    + eapply read_back_sound; [done|]. by eapply checkpoint_reads.
    + apply (rb_stored _ _ _ _ _ _ (checkpoint_reads parse_float _ _ _ _ _ Horder _ _ _ _ IH0 Hc Hr)).
  - by eapply patch_ok in H as [Hk _].
Qed.

(** ** A lane goes on from its checkpoint *)

Lemma valid_tenure : exists tenure, int_param_or (parameters spec) "tabu_tenure" 128 = Ok tenure /\ 1 <= tenure.
Proof.
  destruct (validated _ _ Hvalid) as [H _]. unfold int_param_or, get_or.
  destruct (dict_get (parameters spec) "tabu_tenure") as [v|] eqn:E; [|by exists 128].
  destruct (integer_parameter _ _ _ 1 4096 _ H E) as (z & -> & Hz); [done..|]. exists z. split; [done|lia].
Qed.

Lemma valid_catalog : get (parameters spec) "proposal_ranking" = JNull \/ get (parameters spec) "proposal_ranking" = JStr REVIEWED_PROPOSAL_RANKING_CATALOG_ID.
Proof.
  destruct (validated _ _ Hvalid) as [H _]. unfold get. destruct (dict_get (parameters spec) "proposal_ranking") as [v|] eqn:E; [|by left].
  right. apply (parameter_valid _ _ _ _ H) in E. unfold validate_parameter in E. cbn in E. apply raise_if_Ok in E.
  apply negb_false_iff in E. destruct v; try done. cbn in E. by apply bool_decide_eq_true in E as ->.
Qed.

(** The identity that a checkpoint of the lane carries is accepted. *)
Lemma bridge_of_own boot (k : Kernel) v c c' : checkpoint k v = Ok c -> reordered (JObj c) (JObj c') -> NoDup c.*1 -> boot_policy boot = Ok tt ->
  exists o, bridge_of (S := S) sha256 spec boot (Some c') = Ok o.
Proof.
  intros Hc Hr Hn Hp. apply checkpoint_identity_entry in Hc. unfold bridge_of, require_checkpoint_identity, get in *.
  destruct valid_catalog as [E|E]; unfold get in E; rewrite E in *.
  - rewrite (reordered_get_None _ _ _ Hr Hc). by eexists.
  - destruct Hc as (l & Hl & Hc). rewrite Hl. destruct (reordered_get _ _ _ _ Hn Hr Hc) as (w & -> & Hw).
    destruct (reordered_object _ _ Hw) as [d ->]. cbn [mbind res_bind default from_option id].
    rewrite (same_texts_reordered l d); [|by eapply policy_identity_distinct|done]. cbn. unfold open_bridge. cbn. rewrite Hp. by eexists.
Qed.

Lemma resumes boot k v c c' own seeds : reaches k -> checkpoint k v = Ok c -> reordered (JObj c) (JObj c') ->
  boot_policy boot = Ok tt -> boot_start boot = Ok tt -> restored_seeds opts (Some c') None = Ok seeds ->
  lane_candidate_id sha256 spec opts (best_graph (best k)) = Ok own ->
  exists bridge tenure k', int_param_or (parameters spec) "tabu_tenure" 128 = Ok tenure /\ new_kernel boot (Some c') None = Ok k' /\
    resumed_as spec opts (fun r => new_services opts boot r bridge seeds) tenure k k'.
Proof.
  intros Hk Hc Hr Hpol Hstart Hseeds Hown. apply lane_reaches_ok in Hk.
  destruct (checkpoint_keys _ _ _ _ _ _ Hc) as (core & more & _ & _ & Hn).
  destruct (bridge_of_own boot k v c c' Hc Hr Hn Hpol) as (bridge & Hbridge). destruct valid_tenure as (tenure & Ht & Hpos).
  pose proof (checkpoint_reads parse_float _ _ _ _ _ Horder _ _ _ _ Hk Hc Hr) as Hread.
  eapply (resume_run parse_float sha256 Random spec opts mode order0 (fun r => new_services opts boot r bridge seeds)) in Hread as (k' & Hk' & Hres);
    [|exact Hk|exact Ht|lia|exact Hown].
  exists bridge, tenure, k'. split; [done|]. split; [|done]. unfold LaneCheckpoint.new_kernel. rewrite Hmode. cbn [mbind res_bind].
  rewrite Hbridge. cbn [mbind res_bind]. rewrite Hstart. cbn [mbind res_bind]. rewrite Hseeds. exact Hk'.
Qed.

(** ** Early rejection

    The score worker may stop when a candidate cannot beat the cutoff it was given. *)

Definition beaten (cutoff : list Z * bool) (key : list Z) : bool :=
  if cutoff.2 then tuple_le cutoff.1 key else tuple_lt cutoff.1 key.

(** What a turn leaves of the kernel when a candidate is turned down *)
Definition turned_down (k : Kernel) (tenure high : Z) (id : option string) : Kernel :=
  let n := counts k in
  mkKernel (k_parameters k) (current k) (best k) (with_tabu (memory k) (tabu (memory k)) tenure)
    (mkCounts (algorithm_evaluated n) (stagnation n + 1) (high_water n) (total_accepted n) (total_improvements n) (actual_restarts n))
    (services k) (batch_source_checkpoint_id k) (mkFrontier (graph (current k)) (score (current k)) id high).

Lemma tabu_algorithm : tabu_search spec = true ->
  bool_decide (algorithm spec = "simulated_annealing"%string) = false /\ bool_decide (algorithm spec = "random_restart"%string) = false.
Proof.
  unfold tabu_search. intros H%bool_decide_eq_true.
  split; apply bool_decide_eq_false; intros E; rewrite E, !elem_of_cons, elem_of_nil in H; by destruct H as [|[|]].
Qed.

Lemma cutoff_algorithm key cutoff (k k' : Kernel) : _score_cutoff spec opts key k = (Ok (Some cutoff), k') -> tabu_search spec = true.
Proof.
  unfold _score_cutoff. intros H. destruct (negb _ || negb _) eqn:E; [by ksteps|]. by apply orb_false_iff in E as [_ E%negb_false_iff].
Qed.

(** A candidate that the cutoff beats is not a record, and the test rejects it. *)
Lemma cutoff_rejects key cutoff (k : Kernel) s c tenure :
  tuple_lt (key_of (score (current k))) (key_of (best_score (best k))) = false ->
  _score_cutoff spec opts key k = (Ok (Some cutoff), k) -> ordering_key s = Ok c -> beaten cutoff c = true ->
  int_param_or (k_parameters k) "tabu_tenure" 128 = Ok tenure -> Z.of_nat (length (tabu (memory k))) <= tenure ->
  tuple_lt c (key_of (best_score (best k))) = false /\
  _accept parse_float f_pow f_exp spec s key k = (Ok false,
    mkKernel (k_parameters k) (current k) (best k) (with_tabu (memory k) (tabu (memory k)) tenure) (counts k) (services k)
      (batch_source_checkpoint_id k) (live_frontier_state k)).
Proof.
  intros Hle Hcut Hc Hb Ht Hl. unfold _score_cutoff in Hcut. destruct (negb _ || negb _) eqn:Esearch; [by ksteps|].
  apply orb_false_iff in Esearch as [_ Hsearch%negb_false_iff]. ksteps.
  match goal with H : int_param_or _ "perturbation_interval" 64 = Ok ?p, H' : py_mod _ ?p = Ok ?q |- _ =>
    rename H into Hper; rename H' into Hphase; rename q into phase end.
  destruct (Z.eqb_spec phase 0) as [|Hphase0]; [by ksteps|].
  destruct (tabu_algorithm Hsearch) as [Hsa _].
  assert (tuple_lt c (key_of (best_score (best k))) = false /\ (bool_decide (key ∈ tabu (memory k)) = true \/
    (bool_decide (key ∈ tabu (memory k)) = false /\ exists sk, ordering_key (score (current k)) = Ok sk /\ tuple_le c sk = false))) as [Hrec Htest].
  { destruct (bool_decide (key ∈ tabu (memory k))); ksteps;
      apply K_ret_Ok in Hcut as [[= ->] _]; unfold beaten, tuple_le in Hb; cbn in Hb.
    - match goal with H : ordering_key (best_score (best k)) = Ok _ |- _ => apply key_of_Ok in H as -> end.
      split; [by apply negb_true_iff|by left].
    - match goal with H : ordering_key (score (current k)) = Ok ?x |- _ => pose proof (key_of_Ok _ _ H) as E; rewrite E in *; rename x into sk end.
      split; [|right; split; [done|]; exists sk; split; [done|]; unfold tuple_le; by rewrite Hb].
      apply not_true_iff_false. intros Hlt. pose proof (tuple_lt_trans _ _ _ Hb Hlt). congruence. }
  split; [done|]. unfold _accept. rewrite Hsa. unfold tabu_accept, mbind, K_bind, run, this_kernel, set_memory, mret, K_ret. rewrite Ht.
  assert ((if tabu_maxlen (memory k) =? tenure then Ok (tabu (memory k)) else new_deque tenure (tabu (memory k))) = Ok (tabu (memory k))) as ->.
  { destruct (_ =? tenure); [done|]. unfold new_deque. replace (tenure <? 0) with false by lia. cbn. by rewrite newest_short. }
  rewrite Hper. cbn [k_parameters counts algorithm_evaluated current score]. rewrite Hphase. apply Z.eqb_neq in Hphase0.
  destruct Htest as [->|(-> & sk & Hsk & Hless)]; [cbn; by rewrite Hphase0|]. rewrite Hc, Hsk. cbn. rewrite Hless. cbn. by rewrite Hphase0.
Qed.

(** ** After a failed restart *)

(** The kernel in which a restart looks for its graph, and the one in which it
    scores it *)
Definition reseeding (k : Kernel) (seed : Z) : Kernel :=
  mkKernel (k_parameters k) (current k) (best k)
    (mkMemory (fresh_scheme opts) (tabu (memory k)) (tabu_maxlen (memory k)) (recent_hashes (memory k)) (recent_hash_set (memory k)))
    (counts k) (with_rng_state (Random seed) (services k)) (batch_source_checkpoint_id k) (live_frontier_state k).
Definition reseeded (k : Kernel) (g : BitGraph) : Kernel :=
  (invalidate_caches (mkKernel (k_parameters k) (with_graph g (current k)) (best k) (memory k) (counts k) (services k)
    (batch_source_checkpoint_id k) (live_frontier_state k))).2.

Lemma restart_fails ns seed g (k k1 k2 : Kernel) e : kernel_ok k ->
  _generate_seed spec opts ns "explicit_director_restart" false (reseeding k seed) = (Ok g, k1) -> full_score g (reseeded k1 g) = (Raise e, k2) ->
  restart sha256 Random spec opts ns seed k = (Raise e, k2) /\
  (graph (current k2), score (current k2), current_graph_key (current k2), tabu (memory k2), best k2, counts k2) =
    (g, score (current k), current_graph_key (current k), tabu (memory k), best k, counts k).
Proof.
  intros [[] _] Hg Hs. split.
  - unfold restart, _new_seed, set_services, set_scheme, this_kernel, set_memory, set_graph, set_current, mbind, K_bind. cbn.
    change (bool_decide ("explicit_director_restart" = "automatic_algorithm_restart"%string)) with false.
    match goal with |- context [_generate_seed _ _ _ _ _ ?k0] => change k0 with (reseeding k seed) end. rewrite Hg.
    match goal with |- context [invalidate_caches ?k0] => change (invalidate_caches k0) with (Ok tt, reseeded k1 g) end. cbv beta iota. by rewrite Hs.
  - apply (calm_on (services_ok spec) _ _ (placed spec mode order0)) in Hg as (sv1 & -> & Hsv1 & _);
      [|by apply (generate_seed_calm spec opts mode order0 Hmode)|by apply services_ok_rng].
    apply (calm_on (services_ok spec) _ _ (scored_by g)) in Hs as (sv2 & -> & _ & _); [done|apply full_score_calm|exact (services_ok_empty spec _ _ _ Hsv1)].
Qed.

(** ** The theorems *)



(** C9: a lane that is started from a checkpoint that it wrote, also through a file
    that reorders objects, goes on with the same graphs, scores, keys, random
    numbers, counters, tabu list and ancestry. *)
Theorem lane_resumes boot (k : Kernel) v c c' own seeds : reaches k -> checkpoint k v = Ok c -> reordered (JObj c) (JObj c') ->
  boot_policy boot = Ok tt -> boot_start boot = Ok tt -> restored_seeds opts (Some c') None = Ok seeds ->
  lane_candidate_id sha256 spec opts (best_graph (best k)) = Ok own ->
  exists bridge tenure k', int_param_or (parameters spec) "tabu_tenure" 128 = Ok tenure /\ new_kernel boot (Some c') None = Ok k' /\
    resumed_as spec opts (fun r => new_services opts boot r bridge seeds) tenure k k'.
Proof. apply resumes. Qed.

(** a restart from the checkpoint of another kernel of the lane takes over its
    graphs and scores, with fresh counters and the parameters there were. *)
Theorem restart_takes_checkpoint (k k0 k' : Kernel) v c c' seed : reaches k -> reaches k0 -> checkpoint k0 v = Ok c -> reordered (JObj c) (JObj c') ->
  restart_from_checkpoint parse_float sha256 Random spec opts c' seed k = (Ok tt, k') ->
  (graph (current k'), score (current k'), best_graph (best k'), best_score (best k')) =
    (graph (current k0), score (current k0), best_graph (best k0), best_score (best k0)) /\
  counts k' = reset (counts k) /\ k_parameters k' = k_parameters k.
Proof.
  intros Hk%lane_reaches_ok Hk0%lane_reaches_ok Hc Hr H. pose proof (checkpoint_reads parse_float _ _ _ _ _ Horder _ _ _ _ Hk0 Hc Hr) as Hread.
  eapply restart_from_checkpoint_ok in H as (_ & Hn & Hp & E); [|done|by eapply read_back_sound|apply (rb_stored _ _ _ _ _ _ Hread)]. done.
Qed.


(** C39: when the score worker fails in a restart, the restart fails but leaves the
    new graph behind, next to the score, the key and the tabu list of the old one. *)
Theorem failed_restart_mixes ns seed g (k k1 k2 : Kernel) e : reaches k ->
  _generate_seed spec opts ns "explicit_director_restart" false (reseeding k seed) = (Ok g, k1) -> full_score g (reseeded k1 g) = (Raise e, k2) ->
  restart sha256 Random spec opts ns seed k = (Raise e, k2) /\
  (graph (current k2), score (current k2), current_graph_key (current k2), tabu (memory k2), best k2, counts k2) =
    (g, score (current k), current_graph_key (current k), tabu (memory k), best k, counts k).
Proof. intros Hk%lane_reaches_ok. by apply restart_fails. Qed.

(** a patch merges its parameters and keeps the search; it cannot change the
    order of the graph. *)
Theorem patch_correct changes (k : Kernel) : reaches k -> NoDup changes.*1 ->
  (forall k', patch changes k = (Ok tt, k') -> current k' = current k /\ best k' = best k /\ counts k' = counts k /\
    forall name, dict_get (k_parameters k') name = match dict_get changes name with Some v => Some v | None => dict_get (k_parameters k) name end) /\
  (forall v n, dict_get changes "order" = Some v -> to_int v = Ok n -> n <> order0 ->
    patch changes k = (Raise (ValueError "running lane order can change only through restart"), k)).
Proof.
  intros Hk%lane_reaches_ok Hn. split; [intros k' H; eapply patch_ok in H as [_ H]; [exact H|exact Hk|done]|].
  intros v n Hv En Hne. unfold patch, mbind, K_bind, run, this_kernel. rewrite Hv, En. cbn.
  rewrite (placed_order _ _ _ _ (ko_graph _ _ _ _ _ _ (ko_held _ _ _ _ _ _ Hk))). by replace (n =? order0) with false by lia.
Qed.

End Lanes.
