(* ===== verification/LaneProtocol.v ===== *)
(** * Commands of a lane

    Every command that waits for a lane gets one answer, in order; what a failure
    leaves behind. *)

From stdpp Require Import sorting gmap.
From S2P Require Import Features Pool PoolProofs Payloads PoolChecks Ranking RankingProofs Prelude Floats Json Convert Model Cycles Graph6 Verification Score Rng Rewiring Mutation Seed Search SearchProofs Catalog SearchKeys KeyProofs SeedMetrics Lane LaneKernel LaneBatch LaneCheckpoint LaneWorker LaneProofs LaneInvariant LaneSteps LaneResume.

#[global] Open Scope Z_scope.

Section Protocol.
Context {R S : Type} `{Hrng : Rng R} `{Hstate : RngState R} `{Hscorer : LaneScorer S}.
Context (parse_float : string -> res float) (sha256 : list Z -> list Z) (Random : Z -> R) (set_iter : gset Z -> list Z).
Context (f_pow : float -> Z -> float) (f_exp : float -> float).
Context (spec : LaneSpec) (opts : Options) (room : nat -> bool) (describe : exn -> string).
(** The queue of events has room. *)
Context (Hroom : forall i, room i = true).

Abbreviation LaneState := (LaneState R S).
Abbreviation checkpoint := (checkpoint sha256 spec opts).
Abbreviation execute := (execute parse_float sha256 Random spec opts).
Abbreviation apply_command := (apply_command parse_float sha256 Random spec opts room describe).
Abbreviation outcome := (outcome spec).

(** ** One command *)

Definition with_events (s : LaneState) (l : list dict) : LaneState :=
  mkLaneState (kernel s) (version s) (share s) (current_checkpoint s) (mkChannel (events (channel s) ++ l) (puts (channel s) + length l)) (stop_event s).

Lemma emit_room value important (s : LaneState) : _emit room value important s = (Ok tt, with_events s [value]).
Proof. unfold _emit, state, mbind, W_bind, set_channel, with_events. rewrite Hroom. cbn. by rewrite Nat.add_1_r. Qed.

Lemma with_events_app (s : LaneState) l l' : with_events (with_events s l) l' = with_events s (l ++ l').
Proof. unfold with_events. cbn. by rewrite app_assoc, length_app, Nat.add_assoc. Qed.

(** An effect leaves the version, the checkpoint and the events alone. *)
Definition untouched (s s' : LaneState) : Prop :=
  (version s', current_checkpoint s', channel s') = (version s, current_checkpoint s, channel s).

Lemma on_kernel_untouched {A} (m : K R S A) (s s' : LaneState) r : on_kernel m s = (r, s') -> untouched s s'.
Proof. unfold on_kernel. destruct (m (kernel s)). by intros [= _ <-]. Qed.

Lemma from_bind_untouched {A B} (r : res A) (f : A -> W R S B) (s s' : LaneState) b :
  (from r ≫= f) s = (b, s') -> (forall a, r = Ok a -> f a s = (b, s') -> untouched s s') -> untouched s s'.
Proof. unfold from, mbind, W_bind. destruct r as [a|e]; [intros H Hf; by apply (Hf a)|by intros [= _ <-]]. Qed.

Lemma execute_untouched ns kind command (s s' : LaneState) r : execute ns kind command s = (r, s') -> untouched s s'.
Proof.
  unfold LaneWorker.execute. intros H. repeat destruct (is_text kind _).
  - apply (from_bind_untouched _ _ _ _ _ H). intros v _ H1. apply (from_bind_untouched _ _ _ _ _ H1). intros d _ H2. by apply on_kernel_untouched in H2.
  - destruct (get command "checkpoint"); (apply (from_bind_untouched _ _ _ _ _ H); intros w _ H1; apply (from_bind_untouched _ _ _ _ _ H1); intros seed _ H2;
      by apply on_kernel_untouched in H2).
  - apply (from_bind_untouched _ _ _ _ _ H). intros v _ H1. apply (from_bind_untouched _ _ _ _ _ H1). intros x _ [= _ <-]. done.
  - by injection H as _ <-.
  - apply (from_bind_untouched _ _ _ _ _ H). by intros t _ [= _ <-].
Qed.

(** What a command with this action and this expected version leads to *)
Inductive answer (ns : Z) (command : dict) (action_id : string) (expected : Z) (s : LaneState) : LaneState -> Prop :=
  | answer_stale id : expected <> version s -> subscript (current_checkpoint s) "checkpoint_id" = Ok id ->
      answer ns command action_id expected s (with_events s [outcome action_id "rejected_stale_state" (version s) id []])
  | answer_applied kind s1 c id : expected = version s -> subscript command "kind" = Ok kind ->
      execute ns kind command s = (Ok tt, s1) -> checkpoint (kernel s1) (version s + 1) = Ok c -> subscript c "checkpoint_id" = Ok id ->
      answer ns command action_id expected s
        (with_events (mkLaneState (kernel s1) (version s + 1) (share s1) c (channel s) (stop_event s1))
          [checkpoint_event spec c;
           outcome action_id "applied" (version s + 1) id
             [("command_kind", kind); ("parameters", JObj (k_parameters (kernel s1))); ("resource_share", JFloat (share s1))]%string])
  | answer_failed kind e s1 id : expected = version s -> subscript command "kind" = Ok kind -> execute ns kind command s = (Raise e, s1) ->
      subscript (current_checkpoint s) "checkpoint_id" = Ok id ->
      answer ns command action_id expected s (with_events s1 [outcome action_id "failed" (version s) id [("failure"%string, JStr (describe e))]])
  | answer_unsaved kind e s1 id : expected = version s -> subscript command "kind" = Ok kind -> execute ns kind command s = (Ok tt, s1) ->
      checkpoint (kernel s1) (version s + 1) = Raise e -> subscript (current_checkpoint s) "checkpoint_id" = Ok id ->
      answer ns command action_id expected s
        (with_events (mkLaneState (kernel s1) (version s + 1) (share s1) (current_checkpoint s) (channel s) (stop_event s1))
          [outcome action_id "failed" (version s + 1) id [("failure"%string, JStr (describe e))]]).

Lemma checkpoint_has_id (k : Kernel R S) v c : checkpoint k v = Ok c -> exists id, subscript c "checkpoint_id" = Ok (JStr id).
Proof.
  intros H. apply checkpoint_parts in H as (core & seeds & identity & id & digest & _ & -> & Hkeys & Hs & Hi).
  do 22 destruct Hkeys as [? Hkeys]. subst core. exists id.
  destruct Hs as [->|(? & ? & ->)], (get (parameters spec) "proposal_ranking"); try (by subst identity); by destruct Hi as (? & _ & ->).
Qed.

(** The fields every command has *)
Definition command_of (command : dict) (action_id : string) (expected : Z) (kind : json) : Prop :=
  (exists v, subscript command "action_id" = Ok v /\ py_str v = Ok action_id) /\
  (exists v, subscript command "expected_lane_version" = Ok v /\ to_int v = Ok expected) /\ subscript command "kind" = Ok kind.

Lemma command_answered ns command action_id expected kind (s : LaneState) id :
  command_of command action_id expected kind -> subscript (current_checkpoint s) "checkpoint_id" = Ok id ->
  exists s', apply_command ns command s = (Ok tt, s') /\ answer ns command action_id expected s s'.
Proof.
  intros ((v & Hv & Ev) & (w & Hw & Ew) & Hkind) Hid. unfold LaneWorker.apply_command, mbind, W_bind, from, state. rewrite Hv, Ev, Hw, Ew.
  destruct (Z.eqb_spec expected (version s)) as [He|He]; cbn [negb].
  2: { rewrite Hid, emit_room. eexists. split; [reflexivity|]. by apply answer_stale. }
  rewrite Hkind. unfold try_all, perform, mbind, W_bind.
  destruct (execute ns kind command s) as [[[]|e] s1] eqn:Hex; pose proof (execute_untouched _ _ _ _ _ _ Hex) as [= Hver Hcur Hch].
  2: { unfold report_failure, mbind, W_bind, state, from. rewrite Hcur, Hid, emit_room, Hver. eexists. split; [reflexivity|]. by eapply answer_failed. }
  unfold state, set_version, from. cbn [kernel version share current_checkpoint channel stop_event]. rewrite Hver.
  destruct (checkpoint (kernel s1) (version s + 1)) as [c|e] eqn:Hc.
  2: { unfold report_failure, mbind, W_bind, state, from. cbn [current_checkpoint version]. rewrite Hcur, Hid, emit_room, Hch. eexists.
       split; [reflexivity|]. by eapply answer_unsaved. }
  destruct (checkpoint_has_id _ _ _ Hc) as (cid & Hcid). unfold set_checkpoint. cbn [kernel version share current_checkpoint channel stop_event].
  rewrite emit_room, Hcid, emit_room, with_events_app, Hch. eexists. split; [reflexivity|]. by eapply answer_applied.
Qed.

(** ** The commands of a round *)

Definition is_outcome (e : dict) : bool := is_text (get e "kind") "action_outcome".
Definition answered_actions (l : list dict) : list json := (fun e => get e "action_id") <$> filter (fun e => is_outcome e = true) l.

Lemma answered_app l l' : answered_actions (l ++ l') = answered_actions l ++ answered_actions l'.
Proof. unfold answered_actions. by rewrite filter_app, fmap_app. Qed.

(** An answer adds one outcome, for the action of the command. *)
Lemma answer_events ns command action_id expected (s s' : LaneState) : answer ns command action_id expected s s' ->
  (exists l, events (channel s') = events (channel s) ++ l /\ answered_actions l = [JStr action_id]) /\
  version s <= version s' <= version s + 1 /\ exists id, subscript (current_checkpoint s') "checkpoint_id" = Ok id.
Proof.
  intros [id Hne Hid|kind s1 c id He Hk Hex Hc Hid|kind e s1 id He Hk Hex Hid|kind e s1 id He Hk Hex Hc Hid]; cbn [version].
  - split; [by eexists|]. split; [cbn; lia|by exists id].
  - split; [by eexists|]. split; [cbn; lia|by exists id].
  - apply execute_untouched in Hex as [= Hver Hcur Hch]. split; [eexists; split; [cbn; by rewrite Hch|done]|]. cbn. rewrite Hver, Hcur.
    split; [lia|by exists id].
  - split; [by eexists|]. split; [cbn; lia|by exists id].
Qed.

(** the commands that wait for a lane are all answered, in their order, one
    outcome each, and each command raises the version by at most one; a command
    for another version of the lane is turned down as stale. *)
Theorem commands_answered inbox actions (s : LaneState) :
  Forall2 (fun nc action_id => exists expected kind, command_of nc.2 action_id expected kind) inbox actions ->
  (exists id, subscript (current_checkpoint s) "checkpoint_id" = Ok id) ->
  exists s' l, _apply_commands parse_float sha256 Random spec opts room describe inbox s = (Ok tt, s') /\
    events (channel s') = events (channel s) ++ l /\ answered_actions l = JStr <$> actions /\
    version s <= version s' <= version s + Z.of_nat (length inbox).
Proof.
  intros H. revert s. induction H as [|[ns command] action_id inbox actions (expected & kind & Hc) _ IH]; intros s [id Hid].
  { exists s, []. cbn. rewrite app_nil_r. split_all; done || lia. }
  destruct (command_answered ns command action_id expected kind s id Hc Hid) as (s1 & Hs1 & Ha).
  destruct (answer_events _ _ _ _ _ _ Ha) as ((l1 & El1 & Hl1) & Hv1 & Hid1). destruct (IH s1 Hid1) as (s2 & l2 & Hs2 & El2 & Hl2 & Hv2).
  exists s2, (l1 ++ l2). cbn [_apply_commands]. unfold mbind, W_bind. rewrite Hs1. split_all; [exact Hs2|by rewrite El2, El1, app_assoc| | |].
  - by rewrite answered_app, Hl1, Hl2.
  - lia.
  - cbn [length]. lia.
Qed.

End Protocol.
