(* ===== verification/LaneChecks.v ===== *)
(** * A lane that runs

    A small lane on concrete services: the theorems of [LaneTheorems] at states it
    reaches. *)

From stdpp Require Import sorting gmap.
From S2P Require Import Features Pool PoolProofs Payloads PoolChecks Ranking RankingProofs Prelude Floats Json Convert Model Cycles Graph6 Verification Score Rng Rewiring Mutation Seed Search SearchProofs Catalog SearchKeys KeyProofs SeedMetrics Lane LaneKernel LaneBatch LaneCheckpoint LaneProofs LaneInvariant LaneSteps LaneResume LaneTheorems LaneWorker LaneProtocol.

#[global] Open Scope Z_scope.

(** A score worker that counts with the bounded enumeration of [model.py] and
    rejects what the cutoff beats *)
Definition reference_answer (g : BitGraph) (lengths : list Z) (limit budget : Z) : res (list CycleCountResult) :=
  foldM (fun rs len => r ← find_cycles_of_length_bounded g len limit (Some budget);
    Ok (rs ++ [mkCount len (Z.of_nat (length r.1)) r.2 0 0])) [] lengths.

Definition reference_dominated (g : BitGraph) (limit : Z) (results : list CycleCountResult) (fields : option (Z * Z * Z)) (inclusive : bool) : bool :=
  match fields, score_from_cycle_counts 0 0 g (limit - 1) results None None with
  | Some (t, w, simp), Ok (s, _) => match ordering_key s with Ok key => beaten ([0; t; w; 0; simp], inclusive) key | Raise _ => false end
  | _, _ => false
  end.

#[export] Instance reference_lane_scorer : LaneScorer unit := {
  lane_ask _ g lengths limit budget fields inclusive :=
    (rs ← reference_answer g lengths limit budget; Ok (mkAnswer rs (reference_dominated g limit rs fields inclusive)), tt);
  lane_restart _ := (Ok tt, tt);
  lane_close _ := tt
}.

Module LaneWitness.
Definition spec : LaneSpec := mkLaneSpec "lane-1" "campaign-1" "erdos_gyarfas" "iterated_local_search_tabu" "connected_cubic" 5
  [("order", JInt 6); ("batch_candidates", JInt 100); ("witness_cap", JInt 4); ("tabu_tenure", JInt 8)]%string (f_lit 1) 0 None None None [].
Definition boot : Boot unit := mkBoot (Ok tt) tt (Ok tt) 1000.
Definition no_float (s : string) : res float := Raise (ValueError s).
Definition no_pow (x : float) (k : Z) : float := x.
Definition no_exp (x : float) : float := x.
Definition calm_turn : Turn := mkTurn false false 1000 1000 (mkOutside false false false (Ok tt) (fun _ => Raise OSError)).
Definition ending : Ending := mkEnding false false (f_lit 1) "".

Abbreviation begin := (new_kernel (R := Lcg) (S := unit) no_float PoolWitness.toy_sha256 mkLcg spec default_options boot None None).
Abbreviation go := (run_batch (R := Lcg) (S := unit) no_float PoolWitness.toy_sha256 mkLcg elements no_pow no_exp spec default_options (fun _ => calm_turn) ending (Some 4) None None).
Abbreviation saved := (fun k => checkpoint (R := Lcg) (S := unit) PoolWitness.toy_sha256 spec default_options k 0).
Abbreviation reaches := (reaches no_float PoolWitness.toy_sha256 mkLcg elements no_pow no_exp spec default_options).

Lemma spec_valid : validate no_float spec = Ok tt.
Proof. vm_compute. reflexivity. Qed.

Lemma elements_order (X : gset Z) : elements X ≡ₚ elements X.
Proof. reflexivity. Qed.

(** The batch takes all its four candidates and improves once. *)
Example batch_facts : (k ← begin; r ← (go k).1; let b := r.1 in Ok (evaluated b, accepted b, legal b, improvements b)) = Ok (4, 4, 4, 1).
Proof. vm_compute. reflexivity. Qed.

Definition did {A B} (r : res A * B) : bool := returned r.1.

Lemma returned_Ok {A} (m : res A) : returned m = true -> exists a, m = Ok a.
Proof. destruct m as [a|]; [|done]. by exists a. Qed.

(** What the lane does on its first kernel *)
Lemma begins : exists k, begin = Ok k /\ reaches k.
Proof.
  destruct (returned_Ok begin) as [k E]; [vm_compute; reflexivity|]. exists k. split; [exact E|]. exact (reach_new _ _ _ _ _ _ _ _ boot k E).
Qed.

(** What can be computed from the first kernel can be computed from the kernel. *)
Lemma begins_and {A} (f : Kernel Lcg unit -> res A) : returned (k ← begin; f k) = true -> exists k a, begin = Ok k /\ reaches k /\ f k = Ok a.
Proof.
  intros H. destruct begins as (k & E & Hk). rewrite E in H. cbn in H. destruct (f k) as [a|] eqn:Ef; [|discriminate H]. exists k, a.
  split; [exact E|]. split; [exact Hk|exact Ef || reflexivity].
Qed.


(** A run of an operation that returned *)
Lemma ran {A} (m : Kernel Lcg unit -> res A * Kernel Lcg unit) : returned (k ← begin; (m k).1) = true ->
  exists k a k', begin = Ok k /\ reaches k /\ m k = (Ok a, k').
Proof.
  intros H. destruct (begins_and (fun k => (m k).1) H) as (k & a & E & Hk & Hm). destruct (m k) as [r k'] eqn:Em. cbn in Hm.
  exists k, a, k'. split; [exact E|]. split; [exact Hk|]. rewrite <- Hm. exact Em || reflexivity.
Qed.


(** The first kernel with its checkpoint, read back with the keys in another order *)
Lemma reversed (c : list (string * json)) : reordered (JObj c) (JObj (reverse c)).
Proof.
  apply (reordered_keys c (reverse c)); [symmetry; apply reverse_Permutation|].
  apply Forall_Forall2_diag, Forall_true. intros x. split; [reflexivity|constructor].
Qed.

Lemma lane_resumes_witness : exists k c bridge seeds tenure k', begin = Ok k /\ saved k = Ok c /\
  new_kernel (R := Lcg) no_float PoolWitness.toy_sha256 mkLcg spec default_options boot (Some (reverse c)) None = Ok k' /\
  resumed_as spec default_options (fun r => new_services default_options boot r bridge seeds) tenure k k'.
Proof.
  destruct (begins_and (fun k => c ← saved k; own ← lane_candidate_id PoolWitness.toy_sha256 spec default_options (best_graph (best k));
    seeds ← restored_seeds default_options (Some (reverse c)) None; Ok (c, own, seeds))) as (k & [[c own] seeds] & E & Hk & H); [vm_compute; reflexivity|].
  apply bind_Ok in H as (c0 & Hc & H). apply bind_Ok in H as (own0 & Hown & H). apply bind_Ok in H as (seeds0 & Hseeds & H). injection H as -> -> ->.
  destruct (lane_resumes no_float PoolWitness.toy_sha256 mkLcg elements no_pow no_exp spec default_options "cubic_first" 6
    PoolWitness.toy_digest_ok elements_order spec_valid eq_refl eq_refl boot k 0 c (reverse c) own seeds Hk Hc (reversed c) eq_refl eq_refl Hseeds Hown)
    as (bridge & tenure & k' & _ & Hk' & Hres).
  exists k, c, bridge, seeds, tenure, k'. split; [exact E|]. split; [exact Hc|]. split; [exact Hk'|exact Hres].
Defined.

Lemma restart_takes_checkpoint_witness : exists k c k', begin = Ok k /\ saved k = Ok c /\
  restart_from_checkpoint no_float PoolWitness.toy_sha256 mkLcg spec default_options (reverse c) 9 k = (Ok tt, k') /\ graph (current k') = graph (current k).
Proof.
  destruct (begins_and (fun k => c ← saved k; u ← (restart_from_checkpoint no_float PoolWitness.toy_sha256 mkLcg spec default_options (reverse c) 9 k).1;
    Ok (c, u))) as (k & [c []] & E & Hk & H); [vm_compute; reflexivity|].
  apply bind_Ok in H as (c0 & Hc & H). apply bind_Ok in H as (u & Hu & H). injection H as -> ->.
  exists k, c, (restart_from_checkpoint no_float PoolWitness.toy_sha256 mkLcg spec default_options (reverse c) 9 k).2.
  split; [exact E|]. split; [exact Hc|].
  match goal with |- ?m = _ /\ _ => assert (m = (Ok tt, m.2)) as Em by (rewrite <- Hu; apply surjective_pairing) end. split; [exact Em|].
  destruct (restart_takes_checkpoint no_float PoolWitness.toy_sha256 mkLcg elements no_pow no_exp spec default_options "cubic_first" 6
    PoolWitness.toy_digest_ok elements_order spec_valid eq_refl eq_refl k k _ 0 c (reverse c) 9 Hk Hk Hc (reversed c) Em) as [Hs _].
  exact (f_equal (fun x => x.1.1.1) Hs).
Defined.


Lemma patch_correct_witness : exists k k', begin = Ok k /\ patch [("tabu_tenure"%string, JInt 3)] k = (Ok tt, k') /\ best k' = best k.
Proof.
  destruct (ran (patch [("tabu_tenure"%string, JInt 3)])) as (k & [] & k' & E & Hk & H); [vm_compute; reflexivity|].
  exists k, k'. split; [exact E|]. split; [exact H|].
  destruct (patch_correct no_float PoolWitness.toy_sha256 mkLcg elements no_pow no_exp spec default_options "cubic_first" 6
    PoolWitness.toy_digest_ok elements_order spec_valid eq_refl eq_refl [("tabu_tenure"%string, JInt 3)] k Hk) as [Hp _]; [apply NoDup_singleton|].
  apply (Hp k' H).
Defined.
Abbreviation cutoff_of := (fun k : Kernel Lcg unit => _score_cutoff spec default_options (current_graph_key (current k)) k).

End LaneWitness.

(** A worker that fails at its second and third request *)
#[export] Instance flaky_scorer : LaneScorer nat := {
  lane_ask n g lengths limit budget fields inclusive :=
    (if (n =? 1)%nat || (n =? 2)%nat then Raise OSError
     else rs ← reference_answer g lengths limit budget; Ok (mkAnswer rs (reference_dominated g limit rs fields inclusive)), Datatypes.S n);
  lane_restart n := (Ok tt, n);
  lane_close n := n
}.

Module FlakyWitness.
Import LaneWitness.
Definition flaky_boot : Boot nat := mkBoot (Ok tt) O (Ok tt) 1000.
Abbreviation start := (new_kernel (R := Lcg) (S := nat) no_float PoolWitness.toy_sha256 mkLcg spec default_options flaky_boot None None).
Abbreviation reseed := (fun k : Kernel Lcg nat => _generate_seed spec default_options 1000 "explicit_director_restart" false (reseeding mkLcg default_options k 9)).
Definition failure {A} (m : res A) : res exn := match m with Raise e => Ok e | Ok _ => Raise KeyError end.

(** The restart fails, and the key of the lane is not the key of its graph. *)
Example flaky_key : (k ← start; g ← (reseed k).1; e ← failure (full_score g (reseeded (reseed k).2 g)).1;
  let k2 := (restart PoolWitness.toy_sha256 mkLcg spec default_options 1000 9 k).2 in
  key ← _full_search_key PoolWitness.toy_sha256 default_options (tabu_key_scheme (memory k2)) (graph (current k2));
  Ok (bool_decide (key = current_graph_key (current k2)))) = Ok false.
Proof. vm_compute. reflexivity. Qed.

Lemma failed_restart_mixes_witness : exists k g e k2, start = Ok k /\
  restart PoolWitness.toy_sha256 mkLcg spec default_options 1000 9 k = (Raise e, k2) /\ graph (current k2) = g /\ score (current k2) = score (current k).
Proof.
  assert (returned (k ← start; g ← (reseed k).1; e ← failure (full_score g (reseeded (reseed k).2 g)).1; Ok (g, e)) = true) as H by (vm_compute; reflexivity).
  destruct (returned_Ok _ H) as [[g e] Hr]. clear H. apply bind_Ok in Hr as (k & E & Hr). apply bind_Ok in Hr as (g0 & Hg & Hr).
  apply bind_Ok in Hr as (e0 & He & Hr). injection Hr as -> ->.
  assert (reseed k = (Ok g, (reseed k).2)) as Hseed by (rewrite <- Hg; apply surjective_pairing).
  set (r := full_score g (reseeded (reseed k).2 g)). change (failure r.1 = Ok e) in He.
  assert (r = (Raise e, r.2)) as Hscore.
  { transitivity (r.1, r.2); [apply surjective_pairing|]. destruct r.1 as [x|e1]; [discriminate He|]. injection He as ->. reflexivity. }
  destruct (failed_restart_mixes no_float PoolWitness.toy_sha256 mkLcg elements no_pow no_exp spec default_options "cubic_first" 6
    PoolWitness.toy_digest_ok elements_order spec_valid eq_refl eq_refl 1000 9 g k _ _ e (reach_new _ _ _ _ _ _ _ _ flaky_boot k E) Hseed Hscore) as [Hres Hst].
  exists k, g, e, r.2. split; [exact E|]. split; [exact Hres|]. split; [exact (f_equal (fun x => x.1.1.1.1.1) Hst)|exact (f_equal (fun x => x.1.1.1.1.2) Hst)].
Defined.
End FlakyWitness.

Module ProtocolWitness.
Import LaneWitness.
Definition always (i : nat) : bool := true.
Definition text (e : exn) : string := "failure".
Definition patch_command : list (string * json) :=
  [("action_id", JStr "action-1"); ("expected_lane_version", JInt 0); ("kind", JStr "patch"); ("patch", JObj [("tabu_tenure", JInt 3)])]%string.
Definition late_command : list (string * json) :=
  [("action_id", JStr "action-2"); ("expected_lane_version", JInt 0); ("kind", JStr "stop")]%string.
Abbreviation first_of := (fun k c => mkLaneState (R := Lcg) (S := unit) k 0 (f_lit 1) c (mkChannel [] 0) false).

Lemma commands_answered_witness : exists k c s' l, begin = Ok k /\ saved k = Ok c /\
  _apply_commands no_float PoolWitness.toy_sha256 mkLcg spec default_options always text [(1, patch_command); (1, late_command)] (first_of k c) = (Ok tt, s') /\
  events (channel s') = [] ++ l /\ answered_actions l = [JStr "action-1"; JStr "action-2"].
Proof.
  destruct (begins_and saved) as (k & c & E & Hk & Hc); [vm_compute; reflexivity|].
  destruct (checkpoint_has_id _ _ _ _ _ _ Hc) as (id & Hid).
  destruct (commands_answered no_float PoolWitness.toy_sha256 mkLcg spec default_options always text (fun _ => eq_refl)
    [(1, patch_command); (1, late_command)] ["action-1"; "action-2"]%string (first_of k c)) as (s' & l & Hs & Hl & Ha & _).
  - repeat constructor; eexists _, _; (split; [eexists; split; reflexivity|]); (split; [eexists; split; reflexivity|reflexivity]).
  - exists (JStr id). exact Hid.
  - exists k, c, s', l. split; [exact E|]. split; [exact Hc|]. split; [exact Hs|]. split; [exact Hl|exact Ha].
Defined.

End ProtocolWitness.
