(* ===== verification/Effects.v ===== *)
(** * Operations on an object that may raise

    An operation of an object reads and changes its fields and may raise; the
    changes it made before an exception stay. [ST S] is the monad of such
    operations on a state [S], with the rules that take a run apart and the
    invariants that every run keeps, whether it returns or raises. *)

From S2P Require Import Prelude.

#[global] Open Scope Z_scope.

Definition ST (S A : Type) : Type := S -> res A * S.

#[export] Instance ST_ret S : MRet (ST S) := fun A a s => (Ok a, s).
#[export] Instance ST_bind S : MBind (ST S) := fun A B f m s =>
  match m s with (Ok a, s') => f a s' | (Raise e, s') => (Raise e, s') end.

Section Operations.
Context {S : Type}.

(** A computation that does not touch the object *)
Definition pure {A} (r : res A) : ST S A := fun s => (r, s).
Definition read {A} (f : S -> A) : ST S A := fun s => (Ok (f s), s).
Definition modify (f : S -> S) : ST S unit := fun s => (Ok tt, f s).

(** [try: m except Exception as error: handler(error)] *)
Definition catch {A} (m : ST S A) (handler : exn -> ST S A) : ST S A := fun s =>
  match m s with (Ok a, s') => (Ok a, s') | (Raise e, s') => handler e s' end.

(** [for x in l: body] *)
Fixpoint for_all {A} (body : A -> ST S unit) (l : list A) : ST S unit :=
  match l with
  | [] => mret tt
  | x :: l' => body x ;;; for_all body l'
  end.

Lemma ST_bind_Ok {A B} (m : ST S A) (f : A -> ST S B) s b s' :
  (m ≫= f) s = (Ok b, s') <-> exists a s1, m s = (Ok a, s1) /\ f a s1 = (Ok b, s').
Proof.
  unfold mbind, ST_bind. destruct (m s) as [[a|e] s1]; split.
  - intros H. by exists a, s1.
  - by intros (? & ? & [= <- <-] & ?).
  - done.
  - by intros (? & ? & ? & ?).
Qed.

Lemma pure_Ok {A} (r : res A) s a s' : pure r s = (Ok a, s') <-> r = Ok a /\ s' = s.
Proof. unfold pure. split; [by intros [= -> ->]|by intros [-> ->]]. Qed.

Lemma read_Ok {A} (f : S -> A) s a s' : read f s = (Ok a, s') <-> a = f s /\ s' = s.
Proof. unfold read. split; [by intros [= -> ->]|by intros [-> ->]]. Qed.

Lemma modify_Ok f s u s' : modify f s = (Ok u, s') <-> s' = f s.
Proof. unfold modify. destruct u. split; [by intros [= ->]|by intros ->]. Qed.

Lemma ST_ret_Ok {A} (a : A) (s : S) b s' : (mret a : ST S A) s = (Ok b, s') <-> b = a /\ s' = s.
Proof. unfold mret, ST_ret. split; [by intros [= -> ->]|by intros [-> ->]]. Qed.

(** ** What every run keeps, also one that raises *)

Section Keeps.
Context (I : S -> Prop).

Definition keeps {A} (m : ST S A) : Prop := forall s r s', I s -> m s = (r, s') -> I s'.

Lemma keeps_ret {A} (a : A) : keeps (mret a).
Proof. by intros s r s' Hs [= _ <-]. Qed.

Lemma keeps_pure {A} (r : res A) : keeps (pure r).
Proof. by intros s r' s' Hs [= _ <-]. Qed.

Lemma keeps_read {A} (f : S -> A) : keeps (read f).
Proof. by intros s r' s' Hs [= _ <-]. Qed.

Lemma keeps_modify f : (forall s, I s -> I (f s)) -> keeps (modify f).
Proof. intros Hf s r s' Hs [= _ <-]. by apply Hf. Qed.

Lemma keeps_bind {A B} (m : ST S A) (f : A -> ST S B) : keeps m -> (forall a, keeps (f a)) -> keeps (m ≫= f).
Proof.
  intros Hm Hf s r s' Hs H. unfold mbind, ST_bind in H. destruct (m s) as [[a|e] s1] eqn:E.
  - eapply Hf; [|exact H]. by eapply Hm.
  - injection H as _ <-. by eapply Hm.
Qed.

(** The state that is read is known to be the one the rest runs in. *)
Lemma keeps_reading {A B} (f : S -> A) (k : A -> ST S B) :
  (forall s r s', I s -> k (f s) s = (r, s') -> I s') -> keeps (read f ≫= k).
Proof. intros Hk s r s' Hs H. by eapply Hk. Qed.

Lemma keeps_catch {A} (m : ST S A) h : keeps m -> (forall e, keeps (h e)) -> keeps (catch m h).
Proof.
  intros Hm Hh s r s' Hs H. unfold catch in H. destruct (m s) as [[a|e] s1] eqn:E.
  - injection H as _ <-. by eapply Hm.
  - eapply Hh; [|exact H]. by eapply Hm.
Qed.

Lemma keeps_for_all {A} (body : A -> ST S unit) l : (forall x, x ∈ l -> keeps (body x)) -> keeps (for_all body l).
Proof.
  induction l as [|x l IH]; intros Hb; cbn [for_all]; [apply keeps_ret|].
  apply keeps_bind; [apply Hb; set_solver|]. intros _. apply IH. set_solver.
Qed.

Lemma keeps_if {A} (c : bool) (m1 m2 : ST S A) : keeps m1 -> keeps m2 -> keeps (if c then m1 else m2).
Proof. by destruct c. Qed.
End Keeps.
End Operations.

(** Take a run that returned apart: [H : (m ≫= f) s = (Ok b, s')]. *)
Ltac st_step H :=
  lazymatch type of H with
  | (mbind _ _) _ = (Ok _, _) =>
      let a := fresh "a" in let s1 := fresh "s" in let E := fresh "E" in
      apply ST_bind_Ok in H as (a & s1 & E & H)
  | pure _ _ = (Ok _, _) => apply pure_Ok in H as [H ->]
  | read _ _ = (Ok _, _) => apply read_Ok in H as [-> ->]
  | modify _ _ = (Ok _, _) => apply modify_Ok in H as ->
  | mret _ _ = (Ok _, _) => apply ST_ret_Ok in H as [-> ->]
  end.
