(* ===== verification/LaneManager.v ===== *)
(** * The manager of the lanes

    [src/src/sglab/research/lanes.py], [LaneManager]: it starts lanes, sends them
    commands, follows their events and keeps a bounded store of checkpoints. The
    queues and processes are the environment: whether a process starts, whether a
    queue has room before the timeout of [put], which events a [get] returns. What
    was put in the queue of a lane is kept as a list; so are the files of the
    checkpoint directory. *)

From S2P Require Import Pool Prelude Effects Floats Json Convert Search Catalog Lane LaneKernel LaneCheckpoint.

#[global] Open Scope Z_scope.

(** ** State *)

(** [LaneRuntime.state] *)
Inductive LaneStatus := starting | running | paused_state | stopping | stopped | failed.

#[export] Instance LaneStatus_eq_dec : EqDecision LaneStatus.
Proof. solve_decision. Defined.

(** [LaneRuntime]: [launched] are the checkpoint and the fork seed its process got,
    [sent] what was put in its queue in [puts_tried] calls of [put]. *)
Record LaneRuntime := mkRuntime {
  rt_spec : LaneSpec;
  launched : option dict * option Z;
  sent : list dict;
  puts_tried : nat;
  stop_flag : bool;
  pause_flag : bool;
  rt_state : LaneStatus;
  rt_version : Z;
  rt_parameters : dict;
  rt_share : float;
  latest_checkpoint_id : option string;
  latest_checkpoint : option dict;
  latest_live_frontier : option dict;
  telemetry : list dict;
  rt_high_water : Z;
  rt_improvements : list dict;
  pending_actions : list string;
  completed_action_ids : list string;
  action_outcomes : list dict
}.

(** The limits given to the constructor *)
Record ManagerLimits := mkLimits {
  max_active_lanes : Z;
  telemetry_windows : Z;
  checkpoints_per_lane : Z;
  pinned_checkpoints : Z;
  memory_limit_bytes : option Z
}.

(** [LaneManager]; [writes] counts the calls of [atomic_write_json]. *)
Record LaneManager := mkManager {
  limits : ManagerLimits;
  lanes : list (string * LaneRuntime);
  checkpoints : list (string * dict);
  _checkpoint_order : list (string * list string);
  _pinned_checkpoint_ids : list string;
  _pinned_checkpoint_order : list string;
  _deferred_events : list dict;
  _queues_closed : bool;
  files : list (string * dict);
  writes : nat
}.

Definition G (A : Type) : Type := ST LaneManager A.

(** [LaneManager.__init__] *)
Definition new_manager (l : ManagerLimits) : res LaneManager :=
  raise_if (checkpoints_per_lane l <? 2) (ValueError "checkpoints_per_lane must be at least 2") ;;;
  raise_if (match memory_limit_bytes l with Some b => b <=? 0 | None => false end) (ValueError "memory_limit_bytes must be positive") ;;;
  raise_if (pinned_checkpoints l <? 1) (ValueError "pinned_checkpoints must be positive") ;;;
  Ok (mkManager l [] [] [] [] [] [] false [] 0).

(** ** Fields *)

Definition set_lanes (l : list (string * LaneRuntime)) (m : LaneManager) : LaneManager :=
  mkManager (limits m) l (checkpoints m) (_checkpoint_order m) (_pinned_checkpoint_ids m) (_pinned_checkpoint_order m)
    (_deferred_events m) (_queues_closed m) (files m) (writes m).
Definition set_checkpoints (d : list (string * dict)) (m : LaneManager) : LaneManager :=
  mkManager (limits m) (lanes m) d (_checkpoint_order m) (_pinned_checkpoint_ids m) (_pinned_checkpoint_order m)
    (_deferred_events m) (_queues_closed m) (files m) (writes m).
Definition set_order (lane : string) (l : list string) (m : LaneManager) : LaneManager :=
  mkManager (limits m) (lanes m) (checkpoints m) (dict_set (_checkpoint_order m) lane l) (_pinned_checkpoint_ids m)
    (_pinned_checkpoint_order m) (_deferred_events m) (_queues_closed m) (files m) (writes m).
Definition set_pins (ids order : list string) (m : LaneManager) : LaneManager :=
  mkManager (limits m) (lanes m) (checkpoints m) (_checkpoint_order m) ids order (_deferred_events m) (_queues_closed m) (files m) (writes m).
Definition set_deferred (l : list dict) (m : LaneManager) : LaneManager :=
  mkManager (limits m) (lanes m) (checkpoints m) (_checkpoint_order m) (_pinned_checkpoint_ids m) (_pinned_checkpoint_order m)
    l (_queues_closed m) (files m) (writes m).
Definition close_queues (m : LaneManager) : LaneManager :=
  mkManager (limits m) (lanes m) (checkpoints m) (_checkpoint_order m) (_pinned_checkpoint_ids m) (_pinned_checkpoint_order m)
    (_deferred_events m) true (files m) (writes m).
Definition set_files (d : list (string * dict)) (n : nat) (m : LaneManager) : LaneManager :=
  mkManager (limits m) (lanes m) (checkpoints m) (_checkpoint_order m) (_pinned_checkpoint_ids m) (_pinned_checkpoint_order m)
    (_deferred_events m) (_queues_closed m) d n.

Definition with_status (x : LaneStatus) (r : LaneRuntime) : LaneRuntime :=
  mkRuntime (rt_spec r) (launched r) (sent r) (puts_tried r) (stop_flag r) (pause_flag r) x (rt_version r) (rt_parameters r) (rt_share r)
    (latest_checkpoint_id r) (latest_checkpoint r) (latest_live_frontier r) (telemetry r) (rt_high_water r) (rt_improvements r)
    (pending_actions r) (completed_action_ids r) (action_outcomes r).
Definition with_flags (stop pause : bool) (r : LaneRuntime) : LaneRuntime :=
  mkRuntime (rt_spec r) (launched r) (sent r) (puts_tried r) stop pause (rt_state r) (rt_version r) (rt_parameters r) (rt_share r)
    (latest_checkpoint_id r) (latest_checkpoint r) (latest_live_frontier r) (telemetry r) (rt_high_water r) (rt_improvements r)
    (pending_actions r) (completed_action_ids r) (action_outcomes r).
Definition with_revision (v : Z) (d : dict) (x : float) (r : LaneRuntime) : LaneRuntime :=
  mkRuntime (rt_spec r) (launched r) (sent r) (puts_tried r) (stop_flag r) (pause_flag r) (rt_state r) v d x
    (latest_checkpoint_id r) (latest_checkpoint r) (latest_live_frontier r) (telemetry r) (rt_high_water r) (rt_improvements r)
    (pending_actions r) (completed_action_ids r) (action_outcomes r).
Definition with_checkpoint (id : string) (c : dict) (r : LaneRuntime) : LaneRuntime :=
  mkRuntime (rt_spec r) (launched r) (sent r) (puts_tried r) (stop_flag r) (pause_flag r) (rt_state r) (rt_version r) (rt_parameters r)
    (rt_share r) (Some id) (Some c) (latest_live_frontier r) (telemetry r) (rt_high_water r) (rt_improvements r)
    (pending_actions r) (completed_action_ids r) (action_outcomes r).
Definition with_frontier (p : dict) (r : LaneRuntime) : LaneRuntime :=
  mkRuntime (rt_spec r) (launched r) (sent r) (puts_tried r) (stop_flag r) (pause_flag r) (rt_state r) (rt_version r) (rt_parameters r)
    (rt_share r) (latest_checkpoint_id r) (latest_checkpoint r) (Some p) (telemetry r) (rt_high_water r) (rt_improvements r)
    (pending_actions r) (completed_action_ids r) (action_outcomes r).
Definition with_telemetry (l : list dict) (r : LaneRuntime) : LaneRuntime :=
  mkRuntime (rt_spec r) (launched r) (sent r) (puts_tried r) (stop_flag r) (pause_flag r) (rt_state r) (rt_version r) (rt_parameters r)
    (rt_share r) (latest_checkpoint_id r) (latest_checkpoint r) (latest_live_frontier r) l (rt_high_water r) (rt_improvements r)
    (pending_actions r) (completed_action_ids r) (action_outcomes r).
Definition with_high_water (n : Z) (r : LaneRuntime) : LaneRuntime :=
  mkRuntime (rt_spec r) (launched r) (sent r) (puts_tried r) (stop_flag r) (pause_flag r) (rt_state r) (rt_version r) (rt_parameters r)
    (rt_share r) (latest_checkpoint_id r) (latest_checkpoint r) (latest_live_frontier r) (telemetry r) n (rt_improvements r)
    (pending_actions r) (completed_action_ids r) (action_outcomes r).
Definition with_improvements (l : list dict) (r : LaneRuntime) : LaneRuntime :=
  mkRuntime (rt_spec r) (launched r) (sent r) (puts_tried r) (stop_flag r) (pause_flag r) (rt_state r) (rt_version r) (rt_parameters r)
    (rt_share r) (latest_checkpoint_id r) (latest_checkpoint r) (latest_live_frontier r) (telemetry r) (rt_high_water r) l
    (pending_actions r) (completed_action_ids r) (action_outcomes r).
Definition with_actions (pending completed : list string) (outcomes : list dict) (r : LaneRuntime) : LaneRuntime :=
  mkRuntime (rt_spec r) (launched r) (sent r) (puts_tried r) (stop_flag r) (pause_flag r) (rt_state r) (rt_version r) (rt_parameters r)
    (rt_share r) (latest_checkpoint_id r) (latest_checkpoint r) (latest_live_frontier r) (telemetry r) (rt_high_water r)
    (rt_improvements r) pending completed outcomes.
Definition with_sent (l : list dict) (n : nat) (r : LaneRuntime) : LaneRuntime :=
  mkRuntime (rt_spec r) (launched r) l n (stop_flag r) (pause_flag r) (rt_state r) (rt_version r) (rt_parameters r)
    (rt_share r) (latest_checkpoint_id r) (latest_checkpoint r) (latest_live_frontier r) (telemetry r) (rt_high_water r)
    (rt_improvements r) (pending_actions r) (completed_action_ids r) (action_outcomes r).

(** A change of the runtime object that a lane id names *)
Definition update_lane (id : string) (f : LaneRuntime -> LaneRuntime) (m : LaneManager) : LaneManager :=
  match dict_get (lanes m) id with Some r => set_lanes (dict_set (lanes m) id (f r)) m | None => m end.

(** [dict(value)] of a dict; no caller passes a list of pairs. *)
Definition as_dict (v : json) : res dict := match v with JObj d => Ok d | _ => Raise TypeError end.

(** [dict.fromkeys(ids)]: each id once, in the order of its first occurrence *)
Definition from_keys (l : list string) : list string := foldl (fun s x => set_insert x s) [] l.

Definition is_active (r : LaneRuntime) : bool :=
  match rt_state r with starting | running | paused_state | stopping => true | stopped | failed => false end.

(** [active_lanes] *)
Definition active_lanes (m : LaneManager) : list (string * LaneRuntime) := filter (fun e => is_active e.2 = true) (lanes m).

(** [current_executable_checkpoint_ids] *)
Definition current_executable_checkpoint_ids (additional : list string) (m : LaneManager) : list string :=
  let here id := bool_decide (id ∈ (checkpoints m).*1) in
  let latest := omap (fun e : string * LaneRuntime => latest_checkpoint_id e.2) (active_lanes m) in
  sorted_strings (filter (fun id => here id = true) latest ++ filter (fun id => here id = true) additional).

(** [total_candidates] *)
Definition total_candidates (m : LaneManager) : Z := foldr Z.add 0 ((fun e => rt_high_water e.2) <$> lanes m).

Section Manager.
Context (parse_float : string -> res float) (sha256 : list Z -> list Z).
(** [spawn lane]: [process.start()]; [room_for r]: the queue of the lane takes
    another command before the timeout; [write_result n]: the [n]th call of
    [atomic_write_json]. *)
Context (spawn : string -> res unit) (room_for : LaneRuntime -> bool) (write_result : nat -> res unit).

(** ** Lanes and commands *)

(** [_runtime] *)
Definition _runtime (id : string) : G LaneRuntime :=
  found ← read (fun m => dict_get (lanes m) id);
  pure (match found with Some r => Ok r | None => Raise KeyError end).

Definition start_lane (spec : LaneSpec) (checkpoint : option dict) (fork_seed : option Z) : G unit :=
  pure (Lane.validate parse_float spec) ;;;
  m ← read id;
  pure (raise_if (bool_decide (lane_id spec ∈ (lanes m).*1)) (ValueError ("duplicate lane id: " ++ lane_id spec)%string)) ;;;
  pure (raise_if (max_active_lanes (limits m) <=? Z.of_nat (length (active_lanes m))) (RuntimeError "active lane limit reached")) ;;;
  pure (raise_if (telemetry_windows (limits m) <? 2) (ValueError "telemetry maximum must be at least 2")) ;;;
  modify (set_lanes (dict_set (lanes m) (lane_id spec)
    (mkRuntime spec (checkpoint, fork_seed) [] 0 false false starting (lane_version spec) (parameters spec) (resource_share spec)
       None None None [] 0 [] [] [] []))) ;;;
  pure (spawn (lane_id spec)).

(** [_send] *)
Definition _send (lane : string) (command : dict) : G unit :=
  r ← _runtime lane;
  v ← pure (subscript command "action_id"); action_id ← pure (py_str v);
  pure (raise_if (bool_decide (action_id ∈ pending_actions r)) (RuntimeError "action is already pending for lane")) ;;;
  pure (raise_if (bool_decide (action_id ∈ completed_action_ids r)) (RuntimeError "action has already been applied or rejected")) ;;;
  (if room_for r then modify (update_lane lane (with_sent (sent r ++ [command]) (S (puts_tried r))))
   else modify (update_lane lane (with_sent (sent r) (S (puts_tried r)))) ;;; pure (Raise QueueFull)) ;;;
  modify (update_lane lane (fun r => with_actions (set_insert action_id (pending_actions r)) (completed_action_ids r) (action_outcomes r) r)).

Definition command_dict (kind action_id : string) (expected : Z) (more : dict) : dict :=
  [("kind", JStr kind); ("action_id", JStr action_id); ("expected_lane_version", JInt expected)]%string ++ more.

Definition send_patch (lane action_id : string) (expected : Z) (changes : dict) : G unit :=
  _send lane (command_dict "patch" action_id expected [("patch"%string, JObj changes)]).

(** ** Retention of checkpoints *)

Definition retained (id : string) (m : LaneManager) : bool :=
  bool_decide (id ∈ _pinned_checkpoint_ids m) || existsb (fun e => bool_decide (id ∈ e.2)) (_checkpoint_order m).

Definition checkpoint_path (id : string) : string := (id ++ ".json")%string.

(** [self.checkpoints.pop(id, None)] and the removal of its file *)
Definition drop_checkpoint (id : string) (m : LaneManager) : LaneManager :=
  set_files (dict_pop (files m) (checkpoint_path id)) (writes m) (set_checkpoints (dict_pop (checkpoints m) id) m).

(** [_drop_checkpoint_if_unretained] *)
Definition _drop_checkpoint_if_unretained (id : string) (m : LaneManager) : LaneManager :=
  if retained id m then m else drop_checkpoint id m.

(** [atomic_write_json] into the checkpoint directory *)
Definition write_json (path : string) (payload : dict) : G unit :=
  n ← read writes;
  modify (fun m => set_files (files m) (S n) m) ;;;
  pure (write_result n) ;;;
  modify (fun m => set_files (dict_set (files m) path payload) (writes m) m).

(** The loop that shortens the order of a lane *)
Fixpoint evict (lane : string) (order : list string) (m : LaneManager) : LaneManager :=
  match order with
  | expired :: order' =>
      if checkpoints_per_lane (limits m) <? Z.of_nat (length order)
      then evict lane order' (_drop_checkpoint_if_unretained expired (set_order lane order' m)) else m
  | [] => m
  end.

Definition order_of (lane : string) (m : LaneManager) : list string := default [] (dict_get (_checkpoint_order m) lane).

(** [checkpoints[id] = checkpoint], and the id at the end of the lane's order
    unless it is there already *)
Definition file_checkpoint (lane id : string) (c : dict) (m : LaneManager) : LaneManager :=
  let m := set_checkpoints (dict_set (checkpoints m) id c) m in
  set_order lane (set_insert id (order_of lane m)) m.

(** [_remember_checkpoint] for the runtime of [lane] *)
Definition _remember_checkpoint (lane : string) (c : dict) : G unit :=
  v ← pure (subscript c "checkpoint_id"); id ← pure (py_str v);
  modify (update_lane lane (with_checkpoint id c)) ;;;
  high ← pure (to_int (get_or c "high_water" (JInt 0)));
  modify (update_lane lane (fun r => with_high_water (Z.max (rt_high_water r) high) r)) ;;;
  modify (file_checkpoint lane id c) ;;;
  write_json (checkpoint_path id) c ;;;
  modify (fun m => evict lane (order_of lane m) m).

(** [_remember_live_frontier] *)
Definition _remember_live_frontier (lane : string) (preview : dict) : G unit :=
  text ← pure (py_str (get preview "lane_id"));
  r ← _runtime lane;
  pure (raise_if (negb (bool_decide (text = lane_id (rt_spec r)))) (ValueError "live frontier lane mismatch")) ;;;
  modify (update_lane lane (with_frontier preview)) ;;;
  high ← pure (to_int (get_or preview "high_water" (JInt 0)));
  modify (update_lane lane (fun r => with_high_water (Z.max (rt_high_water r) high) r)) ;;;
  write_json ("live-frontier-" ++ Stdlib.Strings.String.substring 0 24 (hexdigest (sha256 (utf8 (lane_id (rt_spec r))))) ++ ".json")%string preview.

(** The loop that drops the oldest pins *)
Fixpoint unpin (order : list string) (m : LaneManager) : LaneManager :=
  match order with
  | expired :: order' =>
      if pinned_checkpoints (limits m) <? Z.of_nat (length order)
      then unpin order' (_drop_checkpoint_if_unretained expired (set_pins (set_discard expired (_pinned_checkpoint_ids m)) order' m)) else m
  | [] => m
  end.

Definition pin_checkpoints (checkpoint_ids : list string) : G unit :=
  let identifiers := from_keys checkpoint_ids in
  m ← read id;
  pure (raise_if (existsb (fun id => negb (bool_decide (id ∈ (checkpoints m).*1))) identifiers) KeyError) ;;;
  pure (raise_if (pinned_checkpoints (limits m) <? Z.of_nat (length identifiers))
    (ValueError "checkpoint pin batch exceeds the retention limit")) ;;;
  let kept := filter (fun id => id ∈ _pinned_checkpoint_ids m /\ id ∉ identifiers) (_pinned_checkpoint_order m) in
  modify (set_pins (kept ++ identifiers) (kept ++ identifiers)) ;;;
  modify (fun m => unpin (_pinned_checkpoint_order m) m).

Definition pin_checkpoint (id : string) : G unit := pin_checkpoints [id].

(** ** Commands that use checkpoints *)

Definition restart_lane (lane action_id : string) (expected seed : Z) (checkpoint_id : option string) : G unit :=
  checkpoint ←
    (match checkpoint_id with
     | Some id =>
         found ← read (fun m => dict_get (checkpoints m) id);
         c ← pure (match found with Some c => Ok c | None => Raise KeyError end);
         pin_checkpoint id ;;; mret (JObj c)
     | None => mret JNull
     end);
  _send lane (command_dict "restart" action_id expected [("seed", JInt seed); ("checkpoint", checkpoint)]%string).

Definition reallocate_lane (lane action_id : string) (expected : Z) (share : float) : G unit :=
  pure (raise_if (negb (f_le (f_lit 0) share && f_le share (f_lit 1))) (ValueError "resource_share must be between 0 and 1")) ;;;
  _send lane (command_dict "reallocate" action_id expected [("resource_share"%string, JFloat share)]).

Definition stop_lane (lane action_id : string) (expected : Z) : G unit :=
  _runtime lane ≫= fun _ =>
  modify (update_lane lane (with_status stopping)) ;;;
  _send lane (command_dict "stop" action_id expected []).

(** [int.from_bytes(sha256(f"{action_id}:{child}")[:8], "big") & (2**63 - 1)] *)
Definition derived_seed (action_id child : string) : Z :=
  Z.land (from_bytes (take 8 (sha256 (utf8 (action_id ++ ":" ++ child)%string)))) (2 ^ 63 - 1).

Definition fork_spec (parent : LaneRuntime) (parent_id child action_id checkpoint_id : string) (changes : dict) (share : float) : LaneSpec :=
  let seed := derived_seed action_id child in
  let p := rt_spec parent in
  mkLaneSpec child (campaign_id p) (target p) (lane_algorithm p) (graph_family p) seed
    (foldl (fun d kv => dict_set d kv.1 kv.2) (rt_parameters parent) changes) share 0 (Some parent_id) (Some action_id) (Some checkpoint_id)
    (seed_lineage p ++ [lane_seed p; seed]).

Definition fork_lane (parent_id child action_id : string) (expected : Z) (checkpoint_id : string) (changes : dict) (share : float) : G unit :=
  parent ← _runtime parent_id;
  pure (raise_if (negb (rt_version parent =? expected)) (RuntimeError "stale parent lane version")) ;;;
  found ← read (fun m => dict_get (checkpoints m) checkpoint_id);
  c ← pure (match found with
            | Some c => if is_text (get c "lane_id") parent_id then Ok c else Raise (RuntimeError "fork checkpoint is not available for parent")
            | None => Raise (RuntimeError "fork checkpoint is not available for parent")
            end);
  pin_checkpoint checkpoint_id ;;;
  start_lane (fork_spec parent parent_id child action_id checkpoint_id changes share) (Some c) (Some (derived_seed action_id child)).

(** ** Events *)

Definition on_ready (lane : string) (event : dict) : G unit :=
  modify (update_lane lane (fun r => with_status (if pause_flag r then paused_state else running) r)) ;;;
  v ← pure (subscript event "lane_version"); n ← pure (to_int v);
  modify (update_lane lane (fun r => with_revision n (rt_parameters r) (rt_share r) r)) ;;;
  p ← pure (subscript event "parameters"); d ← pure (as_dict p);
  modify (update_lane lane (fun r => with_revision (rt_version r) d (rt_share r) r)) ;;;
  w ← pure (subscript event "resource_share"); x ← pure (to_float parse_float w);
  modify (update_lane lane (fun r => with_revision (rt_version r) (rt_parameters r) x r)).

Definition on_telemetry (lane : string) (event : dict) : G unit :=
  v ← pure (subscript event "metrics"); metrics ← pure (as_dict v);
  modify (fun m => update_lane lane (fun r => with_telemetry (deque_append (telemetry_windows (limits m)) (telemetry r) metrics) r) m) ;;;
  w ← pure (subscript metrics "end_high_water"); n ← pure (to_int w);
  modify (update_lane lane (fun r => with_high_water (Z.max (rt_high_water r) n) r)).

Definition on_outcome (lane : string) (event : dict) : G unit :=
  modify (update_lane lane (fun r => with_actions (pending_actions r) (completed_action_ids r) (newest 128 (action_outcomes r ++ [event])) r)) ;;;
  v ← pure (subscript event "action_id"); id ← pure (py_str v);
  modify (update_lane lane (fun r =>
    with_actions (set_discard id (pending_actions r)) (set_insert id (completed_action_ids r)) (action_outcomes r) r)) ;;;
  (match get event "checkpoint_id" with JStr c => pin_checkpoint c | _ => mret tt end) ;;;
  w ← pure (subscript event "resulting_lane_version"); n ← pure (to_int w);
  modify (update_lane lane (fun r => with_revision n (rt_parameters r) (rt_share r) r)) ;;;
  status ← pure (subscript event "status");
  if is_text status "applied" then
    r ← _runtime lane;
    d ← pure (as_dict (get_or event "parameters" (JObj (rt_parameters r))));
    modify (update_lane lane (fun r => with_revision (rt_version r) d (rt_share r) r)) ;;;
    x ← pure (to_float parse_float (get_or event "resource_share" (JFloat (rt_share r))));
    modify (update_lane lane (fun r => with_revision (rt_version r) (rt_parameters r) x r))
  else mret tt.

Definition on_exit (lane : string) (event : dict) : G unit :=
  modify (update_lane lane (with_status (if is_text (get event "reason") "failure" then failed else stopped))) ;;;
  match get event "checkpoint" with JObj c => _remember_checkpoint lane c | _ => mret tt end.

Definition _apply_event (event : dict) : G unit :=
  v ← pure (subscript event "lane_id"); lane ← pure (py_str v);
  _runtime lane ≫= fun _ =>
  kind ← pure (subscript event "kind");
  if is_text kind "ready" then on_ready lane event
  else if is_text kind "checkpoint" then
    v ← pure (subscript event "checkpoint"); c ← pure (as_dict v); _remember_checkpoint lane c
  else if is_text kind "live_frontier" then
    v ← pure (subscript event "preview"); p ← pure (as_dict v); _remember_live_frontier lane p
  else if is_text kind "telemetry" then on_telemetry lane event
  else if is_text kind "improvement" then
    modify (update_lane lane (fun r => with_improvements (newest 64 (rt_improvements r ++ [event])) r))
  else if is_text kind "action_outcome" then on_outcome lane event
  else if is_text kind "exit" then on_exit lane event
  else mret tt.

(** [poll]; [incoming] is what the queue of events has. *)
Definition poll (incoming : option dict) : G (option dict) :=
  m ← read id;
  match _deferred_events m with
  | e :: l => modify (set_deferred l) ;;; mret (Some e)
  | [] =>
      if _queues_closed m then mret None
      else match incoming with
           | None => mret None
           | Some e => _apply_event e ;;; mret (Some e)
           end
  end.

(** ** Recovery *)

Definition register_restored_checkpoint (lane : string) (c : dict) : G unit :=
  _runtime lane ≫= fun _ => _remember_checkpoint lane c.

Definition register_archived_checkpoint (c : dict) : G unit :=
  v ← pure (subscript c "checkpoint_id"); id ← pure (py_str v);
  w ← pure (subscript c "lane_id"); lane ← pure (py_str w);
  modify (file_checkpoint lane id c).

(** ** All lanes *)

Definition map_lanes (f : LaneRuntime -> LaneRuntime) (m : LaneManager) : LaneManager := set_lanes ((fun e => (e.1, f e.2)) <$> lanes m) m.
Definition when_active (f : LaneRuntime -> LaneRuntime) (r : LaneRuntime) : LaneRuntime := if is_active r then f r else r.

Definition pause_all : G unit := modify (map_lanes (when_active (fun r => with_status paused_state (with_flags (stop_flag r) true r)))).
Definition resume_all : G unit := modify (map_lanes (when_active (fun r => with_status running (with_flags (stop_flag r) false r)))).

Definition defer (event : dict) : G unit := _apply_event event ;;; modify (fun m => set_deferred (_deferred_events m ++ [event]) m).

(** [shutdown]: [received] are the events that come until the processes have ended
    or the time is over, [drained] those that are left in the queue. *)
Definition shutdown (received drained : list dict) : G unit :=
  modify (map_lanes (when_active (fun r => with_flags true false r))) ;;;
  for_all defer received ;;;
  modify (map_lanes (fun r => if decide (rt_state r = failed \/ rt_state r = stopped) then r else with_status stopped r)) ;;;
  closed ← read _queues_closed;
  if closed : bool then mret tt else for_all defer drained ;;; modify close_queues.
End Manager.
