(* ===== verification/ManagerProofs.v ===== *)
(** * What the manager of the lanes guarantees

    Whatever is asked of it and whatever its lanes send, the manager keeps exactly
    the checkpoints that are pinned or in the order of a lane, never sends an action
    twice, and bounds what it keeps. *)

From S2P Require Import Pool Prelude Effects Floats Json Convert Search Catalog Lane LaneKernel LaneInvariant LaneManager.

#[global] Open Scope Z_scope.

(** ** Dicts and sets *)

Lemma dict_set_keys {V} (d : list (string * V)) k v : (dict_set d k v).*1 = set_insert k d.*1.
Proof.
  unfold set_insert. induction d as [|[k' v'] d IH]; cbn; [done|]. destruct (decide (k = k')) as [->|Hne]; cbn.
  - rewrite decide_True; [done|]. left.
  - rewrite IH. repeat case_decide; try done; exfalso; set_solver.
Qed.

Lemma dict_pop_keys {V} (d : list (string * V)) k : (dict_pop d k).*1 = set_discard k d.*1.
Proof.
  unfold dict_pop, set_discard. induction d as [|[k' v'] d IH]; [done|]. rewrite fmap_cons, !filter_cons. cbn [fst].
  repeat case_decide; rewrite ?fmap_cons; [by f_equal|done..].
Qed.

Lemma dict_get_keys {V} (d : list (string * V)) k : k ∈ d.*1 <-> exists v, dict_get d k = Some v.
Proof.
  split.
  - intros ([k' v] & -> & Hin)%list_elem_of_fmap. destruct (dict_get d k') eqn:E; [by eexists|]. by destruct (proj1 (dict_get_None d k') E v).
  - intros [v Hv]. apply dict_get_elem_of in Hv. by apply (list_elem_of_fmap_2 fst _ (k, v)).
Qed.

Lemma dict_get_map {V W} (f : V -> W) (d : list (string * V)) k : dict_get ((fun e => (e.1, f e.2)) <$> d) k = f <$> dict_get d k.
Proof. induction d as [|[k' v] d IH]; cbn; [done|]. by case_decide. Qed.

Lemma set_insert_length x s : (length s <= length (set_insert x s) <= S (length s))%nat.
Proof. unfold set_insert. case_decide; rewrite ?length_app; cbn; lia. Qed.

Lemma from_keys_spec l : NoDup (from_keys l) /\ forall x, x ∈ from_keys l <-> x ∈ l.
Proof.
  unfold from_keys. induction l as [|y l [Hn Hi]] using rev_ind; [split; [constructor|done]|]. rewrite foldl_app. cbn.
  destruct (set_insert_spec y _ Hn) as [Hn' Hi']. split; [done|]. intros x. rewrite Hi', Hi, elem_of_app, list_elem_of_singleton. tauto.
Qed.

Lemma set_discard_head x l : NoDup (x :: l) -> set_discard x (x :: l) = l.
Proof.
  intros [Hx Hn]%NoDup_cons. unfold set_discard. rewrite filter_cons, decide_False by auto. apply filter_all.
  intros y Hy ->. done.
Qed.

Lemma newest_tail {A} n (l k : list A) x : Z.of_nat (length k) <= n -> x ∈ k -> x ∈ newest n (l ++ k).
Proof.
  intros Hk Hx. unfold newest. rewrite drop_app, elem_of_app. right. rewrite length_app.
  by replace (length l + length k - Z.to_nat n - length l)%nat with O by lia.
Qed.

(** ** The invariant *)

(** The action a command carries out *)
Definition action_of (command : dict) : res string := v ← subscript command "action_id"; py_str v.

(** A lane: no action was sent twice, and what was sent is pending or completed. *)
Record runtime_ok (id : string) (r : LaneRuntime) : Prop := {
  ro_name : lane_id (rt_spec r) = id;
  ro_pending : NoDup (pending_actions r);
  ro_completed : NoDup (completed_action_ids r);
  ro_disjoint : forall a, a ∈ pending_actions r -> a ∉ completed_action_ids r;
  ro_sent : exists actions, mapM action_of (sent r) = Ok actions /\ NoDup actions /\ (forall a, a ∈ pending_actions r -> a ∈ actions) /\
    forall a, a ∈ actions -> a ∈ pending_actions r \/ a ∈ completed_action_ids r
}.

Definition in_order (id : string) (m : LaneManager) : Prop := exists lane, id ∈ order_of lane m.

(** The stores: checkpoints, their order in each lane, and pins *)
Record store_ok (m : LaneManager) : Prop := {
  so_order : NoDup (_checkpoint_order m).*1;
  so_lists : forall lane, NoDup (order_of lane m);
  so_keys : NoDup (checkpoints m).*1;
  so_pins : _pinned_checkpoint_ids m = _pinned_checkpoint_order m /\ NoDup (_pinned_checkpoint_order m)
}.

(** Exactly the pinned checkpoints and those in the order of a lane are kept. *)
Definition exact (m : LaneManager) : Prop :=
  forall id, id ∈ (checkpoints m).*1 <-> id ∈ _pinned_checkpoint_ids m \/ in_order id m.

(** [bounds]: the limits the manager was built with; [tidy]: no checkpoint of an
    earlier session was registered, and the disk takes every file. Then the order of
    a lane is within its limit. *)
Section Bounds.
Context (bounds : ManagerLimits) (tidy : bool).

Record manager_ok (m : LaneManager) : Prop := {
  mo_limits : limits m = bounds /\ 2 <= checkpoints_per_lane (limits m) /\ 1 <= pinned_checkpoints (limits m);
  mo_names : NoDup (lanes m).*1;
  mo_lanes : forall id r, dict_get (lanes m) id = Some r -> runtime_ok id r;
  mo_store : store_ok m;
  mo_exact : exact m;
  mo_pinned : Z.of_nat (length (_pinned_checkpoint_order m)) <= pinned_checkpoints (limits m);
  mo_tidy : tidy = true -> forall lane, Z.of_nat (length (order_of lane m)) <= checkpoints_per_lane (limits m)
}.

Lemma retained_spec m id : store_ok m -> retained id m = true <-> id ∈ _pinned_checkpoint_ids m \/ in_order id m.
Proof.
  intros [Ho _ _ _]. unfold retained, in_order, order_of. rewrite orb_true_iff, bool_decide_eq_true, existsb_exists. split.
  - intros [H|([lane l] & Hin & H)]; [by left|]. right. apply bool_decide_eq_true in H. exists lane.
    by rewrite (dict_get_NoDup _ _ l) by (done || by apply list_elem_of_In).
  - intros [H|(lane & H)]; [by left|]. right. destruct (dict_get _ lane) as [l|] eqn:Hl; cbn in H; [|by apply not_elem_of_nil in H].
    exists (lane, l). split; [by apply list_elem_of_In, dict_get_elem_of|]. by apply bool_decide_eq_true.
Qed.

(** ** Dropping checkpoints *)

(** All but perhaps [x] are kept rightly. *)
Definition exact_but (x : string) (m : LaneManager) : Prop :=
  forall id, id ∈ (checkpoints m).*1 <-> (id ∈ _pinned_checkpoint_ids m \/ in_order id m) \/ id = x.

Lemma drop_store x m : store_ok m -> store_ok (_drop_checkpoint_if_unretained x m).
Proof.
  unfold _drop_checkpoint_if_unretained. destruct (retained x m); [done|]. intros [Ho Hl Hk Hp]. split; cbn; [done|done| |done].
  rewrite dict_pop_keys. by apply NoDup_filter.
Qed.

Lemma drop_exact x m : store_ok m -> exact_but x m -> exact (_drop_checkpoint_if_unretained x m).
Proof.
  intros Hs He id. unfold _drop_checkpoint_if_unretained. destruct (retained x m) eqn:E.
  - apply retained_spec in E; [|done]. rewrite (He id). split; [|by left]. by intros [?| ->].
  - assert (~ (x ∈ _pinned_checkpoint_ids m \/ in_order x m)) as Hn by (intros H; apply retained_spec in H; [congruence|done]).
    cbn. rewrite dict_pop_keys. unfold set_discard. rewrite list_elem_of_filter, (He id). unfold in_order. cbn. split; [tauto|].
    intros H. split; [by intros ->|by left].
Qed.

Lemma drop_fields x m : let m' := _drop_checkpoint_if_unretained x m in
  limits m' = limits m /\ lanes m' = lanes m /\ _checkpoint_order m' = _checkpoint_order m /\
  _pinned_checkpoint_ids m' = _pinned_checkpoint_ids m /\ _pinned_checkpoint_order m' = _pinned_checkpoint_order m /\
  _deferred_events m' = _deferred_events m /\ _queues_closed m' = _queues_closed m /\ writes m' = writes m.
Proof. unfold _drop_checkpoint_if_unretained. by destruct (retained x m). Qed.

Lemma order_of_set lane l lane' m : order_of lane' (set_order lane l m) = if decide (lane' = lane) then l else order_of lane' m.
Proof. unfold order_of. cbn. rewrite dict_get_set. by case_decide. Qed.

Lemma set_order_store lane l m : store_ok m -> NoDup l -> store_ok (set_order lane l m).
Proof.
  intros [Ho Hl Hk Hp] Hn. split; [|intros lane'|done|done].
  - cbn. rewrite dict_set_keys. by apply set_insert_spec.
  - rewrite order_of_set. by case_decide.
Qed.

(** What the eviction loop leaves *)
Lemma evict_spec lane order m : store_ok m -> exact m -> order_of lane m = order ->
  let m' := evict lane order m in
  store_ok m' /\ exact m' /\ limits m' = limits m /\ lanes m' = lanes m /\ _pinned_checkpoint_ids m' = _pinned_checkpoint_ids m /\
  _pinned_checkpoint_order m' = _pinned_checkpoint_order m /\ writes m' = writes m /\
  (0 <= checkpoints_per_lane (limits m) -> forall lane', order_of lane' m' = if decide (lane' = lane) then newest (checkpoints_per_lane (limits m)) order else order_of lane' m).
Proof.
  revert m. induction order as [|x order IH]; intros m Hs He Ho; cbn zeta.
  { cbn. split_all; try done. intros Hn lane'. case_decide as Hl; [|done]. by subst lane'. }
  cbn [evict]. destruct (Z.ltb_spec (checkpoints_per_lane (limits m)) (Z.of_nat (length (x :: order)))) as [Hlt|Hge].
  2: { split_all; try done. intros Hn lane'. case_decide as Hl; [|done]. subst lane'. by rewrite newest_short. }
  pose proof (so_lists m Hs lane) as Hnd. rewrite Ho in Hnd. apply NoDup_cons in Hnd as [Hx Hnd].
  set (m1 := set_order lane order m).
  assert (store_ok m1) as Hs1 by by apply set_order_store.
  assert (exact_but x m1) as He1.
  { intros id. unfold m1. cbn. rewrite (He id). split.
    - intros [Hp|[lane' Hin]]; [by left; left|]. destruct (decide (lane' = lane)) as [->|Hne].
      + rewrite Ho in Hin. apply elem_of_cons in Hin as [->|Hin]; [by right|]. left. right. exists lane. rewrite order_of_set. by case_decide.
      + left. right. exists lane'. rewrite order_of_set. by case_decide.
    - intros [[Hp|[lane' Hin]]| ->]; [by left|..]; right.
      + rewrite order_of_set in Hin. case_decide; [subst; exists lane; rewrite Ho; by right|by exists lane'].
      + exists lane. rewrite Ho. by left. }
  destruct (drop_fields x m1) as (F1 & F2 & F3 & F4 & F5 & _ & _ & F8).
  destruct (IH (_drop_checkpoint_if_unretained x m1)) as (A1 & A2 & A3 & A4 & A5 & A6 & A7 & A8).
  { by apply drop_store. }
  { by apply drop_exact. }
  { unfold order_of. rewrite F3. change (order_of lane m1 = order). unfold m1. rewrite order_of_set. by case_decide. }
  rewrite F1 in A3, A8. rewrite F2 in A4. rewrite F4 in A5. rewrite F5 in A6. rewrite F8 in A7. split_all; try done.
  intros Hn lane'. rewrite (A8 Hn lane'). case_decide as Hl.
  - unfold newest. cbn [length] in *. unfold m1. cbn [limits set_order]. replace (S (length order) - Z.to_nat (checkpoints_per_lane (limits m)))%nat with
      (S (length order - Z.to_nat (checkpoints_per_lane (limits m)))) by lia. done.
  - unfold order_of. rewrite F3. change (order_of lane' m1 = order_of lane' m). unfold m1. rewrite order_of_set. by case_decide.
Qed.

(** What dropping the oldest pins leaves *)
Lemma unpin_spec order m : store_ok m -> exact m -> _pinned_checkpoint_order m = order ->
  let m' := unpin order m in
  store_ok m' /\ exact m' /\ limits m' = limits m /\ lanes m' = lanes m /\ _checkpoint_order m' = _checkpoint_order m /\
  (0 <= pinned_checkpoints (limits m) -> _pinned_checkpoint_order m' = newest (pinned_checkpoints (limits m)) order).
Proof.
  revert m. induction order as [|x order IH]; intros m Hs He Ho; cbn zeta; [by cbn|].
  cbn [unpin]. destruct (Z.ltb_spec (pinned_checkpoints (limits m)) (Z.of_nat (length (x :: order)))) as [Hlt|Hge].
  2: { split_all; try done. intros Hn. by rewrite newest_short. }
  destruct Hs as [S1 S2 S3 [S4 S5]]. rewrite Ho in S4, S5. pose proof S5 as [Hx Hnd]%NoDup_cons.
  set (m1 := set_pins (set_discard x (_pinned_checkpoint_ids m)) order m).
  assert (Hids : _pinned_checkpoint_ids m1 = order) by (unfold m1; cbn; rewrite S4; by apply set_discard_head).
  assert (store_ok m1) as Hs1 by (split; [done..|split; [exact Hids|done]]).
  assert (exact_but x m1) as He1.
  { intros id. change (checkpoints m1) with (checkpoints m). rewrite (He id), Hids, S4. unfold in_order. change (order_of) with (fun l m => default [] (dict_get (_checkpoint_order m) l)).
    cbn. rewrite elem_of_cons. tauto. }
  destruct (drop_fields x m1) as (F1 & F2 & F3 & F4 & F5 & _ & _ & F8).
  destruct (IH (_drop_checkpoint_if_unretained x m1)) as (A1 & A2 & A3 & A4 & A5 & A6); [by apply drop_store|by apply drop_exact|by rewrite F5|].
  rewrite F1 in A3, A6. rewrite F2 in A4. rewrite F3 in A5. split_all; try done.
  intros Hn. rewrite A6 by done. unfold newest. cbn [length] in *. unfold m1. cbn [limits set_pins].
  by replace (S (length order) - Z.to_nat (pinned_checkpoints (limits m)))%nat with (S (length order - Z.to_nat (pinned_checkpoints (limits m)))) by lia.
Qed.

Lemma file_checkpoint_spec lane id c m : store_ok m -> exact m ->
  let m' := file_checkpoint lane id c m in
  store_ok m' /\ exact m' /\ limits m' = limits m /\ lanes m' = lanes m /\ _pinned_checkpoint_ids m' = _pinned_checkpoint_ids m /\
  _pinned_checkpoint_order m' = _pinned_checkpoint_order m /\
  forall lane', order_of lane' m' = if decide (lane' = lane) then set_insert id (order_of lane m) else order_of lane' m.
Proof.
  intros Hs He. cbn zeta. unfold file_checkpoint. set (m1 := set_checkpoints (dict_set (checkpoints m) id c) m).
  assert (store_ok m1) as Hs1.
  { destruct Hs as [S1 S2 S3 S4]. split; [done..| |done]. cbn. rewrite dict_set_keys. by apply set_insert_spec. }
  change (order_of lane m1) with (order_of lane m). destruct (set_insert_spec id _ (so_lists m Hs lane)) as [Hn Hi].
  assert (Ho : forall lane', order_of lane' (set_order lane (set_insert id (order_of lane m)) m1) =
    if decide (lane' = lane) then set_insert id (order_of lane m) else order_of lane' m) by (intros lane'; by rewrite order_of_set).
  split_all; [by apply set_order_store| |done..].
  intros y. unfold in_order. setoid_rewrite Ho. cbn. rewrite dict_set_keys.
  destruct (set_insert_spec id _ (so_keys m Hs)) as [_ Hk]. rewrite Hk, (He y). unfold in_order. split.
  - intros [->|[Hp|[lane' Hin]]]; [|by left|]; right.
    + exists lane. case_decide; [|done]. apply Hi. by left.
    + exists lane'. case_decide as Hl; [|done]. subst lane'. apply Hi. by right.
  - intros [Hp|[lane' Hin]]; [by right; left|]. case_decide as Hl; [|by right; right; exists lane'].
    apply Hi in Hin as [->|Hin]; [by left|]. right. right. by exists lane.
Qed.

(** ** Lanes *)

Lemma dict_set_set {V} (d : list (string * V)) k v w : dict_set (dict_set d k v) k w = dict_set d k w.
Proof.
  induction d as [|[k' v'] d IH]; cbn; [by rewrite decide_True|]. destruct (decide (k = k')) as [->|Hne]; cbn.
  - by rewrite decide_True.
  - rewrite decide_False by done. by rewrite IH.
Qed.

Lemma get_update id f id' m :
  dict_get (lanes (update_lane id f m)) id' = if decide (id' = id) then f <$> dict_get (lanes m) id else dict_get (lanes m) id'.
Proof.
  unfold update_lane. destruct (dict_get (lanes m) id) as [r|] eqn:E; cbn.
  - by rewrite dict_get_set.
  - case_decide; [by subst|done].
Qed.

Lemma update_update id f g m : update_lane id g (update_lane id f m) = update_lane id (fun r => g (f r)) m.
Proof.
  unfold update_lane at 2 3. destruct (dict_get (lanes m) id) as [r|] eqn:E; [|unfold update_lane; by rewrite E].
  unfold update_lane. cbn. rewrite dict_get_set, decide_True by done. unfold set_lanes. cbn. by rewrite dict_set_set.
Qed.

Lemma update_keys id f m : (lanes (update_lane id f m)).*1 = (lanes m).*1.
Proof.
  unfold update_lane. destruct (dict_get (lanes m) id) as [r|] eqn:E; [|done]. cbn. rewrite dict_set_keys. unfold set_insert.
  rewrite decide_True; [done|]. apply dict_get_keys. by exists r.
Qed.

Lemma manager_ok_frame m m' : limits m' = limits m -> lanes m' = lanes m -> checkpoints m' = checkpoints m ->
  _checkpoint_order m' = _checkpoint_order m -> _pinned_checkpoint_ids m' = _pinned_checkpoint_ids m ->
  _pinned_checkpoint_order m' = _pinned_checkpoint_order m -> manager_ok m -> manager_ok m'.
Proof.
  destruct m, m'; cbn. intros -> -> -> -> -> -> [H1 H2 H3 [S1 S2 S3 S4] H5 H6 H7]. by split.
Qed.

Lemma update_lane_ok id f m : (forall r, dict_get (lanes m) id = Some r -> runtime_ok id r -> runtime_ok id (f r)) ->
  manager_ok m -> manager_ok (update_lane id f m).
Proof.
  intros Hf Hm. destruct Hm as [H1 H2 H3 H4 H5 H6 H7].
  assert (limits (update_lane id f m) = limits m /\ checkpoints (update_lane id f m) = checkpoints m /\
    _checkpoint_order (update_lane id f m) = _checkpoint_order m /\ _pinned_checkpoint_ids (update_lane id f m) = _pinned_checkpoint_ids m /\
    _pinned_checkpoint_order (update_lane id f m) = _pinned_checkpoint_order m) as (E1 & E2 & E3 & E4 & E5)
    by (unfold update_lane; by destruct (dict_get (lanes m) id)).
  assert (Ho : forall lane, order_of lane (update_lane id f m) = order_of lane m) by (intros lane; unfold order_of; by rewrite E3).
  split.
  - by rewrite E1.
  - by rewrite update_keys.
  - intros id' r. rewrite get_update. case_decide as Hid; [|apply H3]. subst id'. destruct (dict_get (lanes m) id) as [r0|] eqn:E; [|done].
    intros [= <-]. apply Hf; [done|]. by apply H3.
  - destruct H4 as [S1 S2 S3 S4]. split; [by rewrite E3|intros lane; by rewrite Ho|by rewrite E2|by rewrite E4, E5].
  - intros x. rewrite E2, E4. unfold in_order. setoid_rewrite Ho. apply H5.
  - by rewrite E1, E5.
  - intros Ht lane. rewrite Ho, E1. by apply H7.
Qed.

(** A change of a runtime that touches neither its actions nor what was sent *)
Definition quiet (f : LaneRuntime -> LaneRuntime) : Prop := forall r, rt_spec (f r) = rt_spec r /\ sent (f r) = sent r /\
  pending_actions (f r) = pending_actions r /\ completed_action_ids (f r) = completed_action_ids r.

Lemma quiet_ok f id r : quiet f -> runtime_ok id r -> runtime_ok id (f r).
Proof.
  intros Hf [R1 R2 R3 R4 R5]. destruct (Hf r) as (E1 & E2 & E3 & E4). split; [by rewrite E1|by rewrite E3|by rewrite E4|by rewrite E3, E4|].
  by rewrite E2, E3, E4.
Qed.

Lemma map_lanes_ok f m : quiet f -> manager_ok m -> manager_ok (map_lanes f m).
Proof.
  intros Hf [H1 H2 H3 [S1 S2 S3 S4] H5 H6 H7]. split; [done| | |by split|done|done|done].
  - cbn. replace ((fun e => (e.1, f e.2)) <$> lanes m).*1 with ((lanes m).*1); [done|]. rewrite <- list_fmap_compose. by apply list_fmap_ext.
  - intros id r. cbn. rewrite dict_get_map. destruct (dict_get (lanes m) id) as [r0|] eqn:E; [|done]. intros [= <-]. apply quiet_ok; [done|].
    by apply H3.
Qed.

Section Manager.
Context (parse_float : string -> res float) (sha256 : list Z -> list Z).
Context (spawn : string -> res unit) (room_for : LaneRuntime -> bool) (write_result : nat -> res unit).
Context (Hdisk : tidy = true -> forall n, write_result n = Ok tt).

Abbreviation keeps_ok := (keeps manager_ok).
Abbreviation _send := (_send room_for).

Lemma keeps_quiet lane f : quiet f -> keeps_ok (modify (update_lane lane f)).
Proof. intros Hf. apply keeps_modify. intros m Hm. apply update_lane_ok; [|done]. intros r _. by apply quiet_ok. Qed.

(** What sending a command comes to *)
Lemma send_run lane command m : _send lane command m =
  match dict_get (lanes m) lane with
  | None => (Raise KeyError, m)
  | Some r =>
      match action_of command with
      | Raise e => (Raise e, m)
      | Ok a =>
          if bool_decide (a ∈ pending_actions r) then (Raise (RuntimeError "action is already pending for lane"), m)
          else if bool_decide (a ∈ completed_action_ids r) then (Raise (RuntimeError "action has already been applied or rejected"), m)
          else if room_for r then
            (Ok tt, update_lane lane (fun q => with_actions (set_insert a (pending_actions q)) (completed_action_ids q) (action_outcomes q)
                                               (with_sent (sent r ++ [command]) (S (puts_tried r)) q)) m)
          else (Raise QueueFull, update_lane lane (with_sent (sent r) (S (puts_tried r))) m)
      end
  end.
Proof.
  unfold LaneManager._send, _runtime, action_of, mbind, ST_bind, read, pure, modify, raise_if. destruct (dict_get (lanes m) lane) as [r|]; [|done].
  destruct (subscript command "action_id") as [v|e]; [|done]. cbn [res_bind]. destruct (py_str v) as [a|e]; [|done].
  destruct (bool_decide (a ∈ pending_actions r)); [done|]. destruct (bool_decide (a ∈ completed_action_ids r)); [done|].
  destruct (room_for r); [|done]. by rewrite update_update.
Qed.

Lemma mapM_res_snoc {A B} (f : A -> res B) l x ys y : mapM f l = Ok ys -> f x = Ok y -> mapM f (l ++ [x]) = Ok (ys ++ [y]).
Proof. intros Hl Hx. rewrite mapM_res_app, Hl. cbn. by rewrite Hx. Qed.

Lemma send_ok lane command : keeps_ok (_send lane command).
Proof.
  intros m res m' Hm H. rewrite send_run in H. destruct (dict_get (lanes m) lane) as [r|] eqn:E; [|by injection H as _ <-].
  destruct (action_of command) as [a|e] eqn:Ha; [|by injection H as _ <-]. case_bool_decide as Hp; [by injection H as _ <-|].
  case_bool_decide as Hc; [by injection H as _ <-|]. destruct (room_for r); injection H as _ <-.
  all: apply update_lane_ok; [|done]; rewrite E; intros q [= <-] [R1 R2 R3 R4 (l & R5 & R6 & R7 & R8)].
  2: { split; [done..|]. by exists l. }
  destruct (set_insert_spec a _ R2) as [Hn Hi]. assert (a ∉ l) as Hal by (intros Hin; by destruct (R8 _ Hin)).
  split; cbn; [done|done|done| |].
  - intros x [->|Hx]%Hi; [done|by apply R4].
  - exists (l ++ [a]). split_all; [by apply mapM_res_snoc|apply NoDup_app; split_all; [done| |apply NoDup_singleton]| |].
    + intros x Hx ->%list_elem_of_singleton. done.
    + intros x [->|Hx]%Hi; [apply elem_of_app; right; by left|apply elem_of_app; left; by apply R7].
    + intros x [Hx| ->%list_elem_of_singleton]%elem_of_app; [|left; apply Hi; by left].
      destruct (R8 x Hx) as [H|H]; [left; apply Hi; by right|by right].
Qed.

Lemma pins_run ids m : manager_ok m -> pin_checkpoints ids m =
  if existsb (fun id => negb (bool_decide (id ∈ (checkpoints m).*1))) (from_keys ids) then (Raise KeyError, m)
  else if pinned_checkpoints (limits m) <? Z.of_nat (length (from_keys ids)) then
    (Raise (ValueError "checkpoint pin batch exceeds the retention limit"), m)
  else let order := filter (fun id => id ∉ ids) (_pinned_checkpoint_order m) ++ from_keys ids in
       (Ok tt, unpin order (set_pins order order m)).
Proof.
  intros Hm. unfold pin_checkpoints, mbind, ST_bind, read, pure, modify, raise_if, Datatypes.id.
  destruct (existsb _ _); [done|]. destruct (pinned_checkpoints (limits m) <? _); [done|].
  replace (filter (fun id => id ∈ _pinned_checkpoint_ids m /\ id ∉ from_keys ids) (_pinned_checkpoint_order m))
    with (filter (fun id => id ∉ ids) (_pinned_checkpoint_order m)); [done|].
  apply filter_ext_in. intros x Hx. destruct (mo_store m Hm) as [_ _ _ [-> _]]. destruct (from_keys_spec ids) as [_ Hi]. rewrite Hi.
  split; [intros Hn; by split|by intros [_ ?]].
Qed.

(** The pins that replace the old ones still say exactly what is kept. *)
Lemma pinned_exact ids m : manager_ok m -> existsb (fun id => negb (bool_decide (id ∈ (checkpoints m).*1))) (from_keys ids) = false ->
  let order := filter (fun id => id ∉ ids) (_pinned_checkpoint_order m) ++ from_keys ids in
  store_ok (set_pins order order m) /\ exact (set_pins order order m).
Proof.
  intros [H1 H2 H3 [S1 S2 S3 [S4 S5]] H5 H6 _] Hin. destruct (from_keys_spec ids) as [Hn Hi]. cbn zeta.
  set (order := _ ++ _). split.
  - split; [done..|split; [done|]]. apply NoDup_app. split_all; [by apply NoDup_filter| |done].
    intros x [Hx _]%list_elem_of_filter. by rewrite Hi.
  - intros x. cbn. unfold in_order. change (order_of ?l (set_pins order order m)) with (order_of l m). rewrite (H5 x). unfold order.
    rewrite elem_of_app, list_elem_of_filter, Hi, S4. split.
    + intros [Hp|Ho]; [|by right]. left. destruct (decide (x ∈ ids)); [by right|by left].
    + intros [[[_ Hp]|Hx]|Ho]; [by left| |by right]. rewrite <- S4. apply (proj1 (H5 x)). apply Hi in Hx.
      apply not_true_iff_false in Hin. destruct (decide (x ∈ (checkpoints m).*1)) as [|Hnot]; [done|]. destruct Hin.
      apply existsb_exists. exists x. split; [by apply list_elem_of_In|]. by rewrite bool_decide_eq_false_2.
Qed.

Lemma pins_ok ids : keeps_ok (pin_checkpoints ids).
Proof.
  intros m res m' Hm H. rewrite pins_run in H by done. destruct (existsb _ _) eqn:E; [by injection H as _ <-|].
  destruct (pinned_checkpoints (limits m) <? _); [by injection H as _ <-|]. injection H as _ <-.
  destruct (pinned_exact ids m Hm E) as [Hs He]. set (order := filter _ _ ++ _) in *.
  destruct (unpin_spec order _ Hs He eq_refl) as (A1 & A2 & A3 & A4 & A5 & A6). destruct Hm as [H1 H2 H3 _ _ H6 H7].
  cbn in A3, A4, A6. split; [by rewrite A3|by rewrite A4|by rewrite A4|done|done| |].
  - rewrite A3, A6 by lia. apply newest_length. lia.
  - intros Ht lane. unfold order_of. rewrite A5, A3. by apply H7.
Qed.

Lemma write_ok path payload : keeps_ok (write_json write_result path payload).
Proof.
  unfold write_json. apply keeps_bind; [apply keeps_read|]. intros n. apply keeps_bind; [apply keeps_modify; intros m; by apply manager_ok_frame|].
  intros _. apply keeps_bind; [apply keeps_pure|]. intros _. apply keeps_modify. intros m. by apply manager_ok_frame.
Qed.

Lemma file_checkpoint_ok lane id c m : tidy = false -> manager_ok m -> manager_ok (file_checkpoint lane id c m).
Proof.
  intros Ht [H1 H2 H3 H4 H5 H6 H7]. destruct (file_checkpoint_spec lane id c m H4 H5) as (A1 & A2 & A3 & A4 & A5 & A6 & _).
  split; [by rewrite A3|by rewrite A4|by rewrite A4|done|done|by rewrite A3, A6|]. rewrite Ht. discriminate.
Qed.

(** A new checkpoint of a lane, filed and written, with the oldest ones dropped *)
Lemma filed_ok lane id c path n m : manager_ok m ->
  let m1 := set_files (dict_set (files m) path c) n (file_checkpoint lane id c m) in
  let m' := evict lane (order_of lane m1) m1 in
  manager_ok m' /\ lanes m' = lanes m /\ _pinned_checkpoint_ids m' = _pinned_checkpoint_ids m /\
  forall lane', order_of lane' m' =
    if decide (lane' = lane) then newest (checkpoints_per_lane (limits m)) (set_insert id (order_of lane m)) else order_of lane' m.
Proof.
  intros [H1 H2 H3 H4 H5 H6 H7]. destruct (file_checkpoint_spec lane id c m H4 H5) as (A1 & A2 & A3 & A4 & A5 & A6 & A7). cbn zeta.
  set (m1 := set_files _ n _). assert (store_ok m1) as Hs by (destruct A1; by split).
  destruct (evict_spec lane _ m1 Hs A2 eq_refl) as (B1 & B2 & B3 & B4 & B5 & B6 & _ & B8).
  change (limits m1) with (limits (file_checkpoint lane id c m)) in B3, B8. change (lanes m1) with (lanes (file_checkpoint lane id c m)) in B4.
  change (order_of ?x m1) with (order_of x (file_checkpoint lane id c m)) in B8. rewrite A3 in B3, B8. rewrite A4 in B4.
  assert (Ho : forall lane', order_of lane' (evict lane (order_of lane m1) m1) =
    if decide (lane' = lane) then newest (checkpoints_per_lane (limits m)) (set_insert id (order_of lane m)) else order_of lane' m).
  { intros lane'. rewrite B8 by lia. rewrite !A7. by repeat case_decide. }
  split_all; [|done|by rewrite B5|done].
  split; [by rewrite B3|by rewrite B4|by rewrite B4|done|done|rewrite B3, B6; change (_pinned_checkpoint_order m1) with (_pinned_checkpoint_order (file_checkpoint lane id c m)); by rewrite A6|].
  intros Ht lane'. rewrite B3, Ho. case_decide; [apply newest_length; lia|by apply H7].
Qed.

Lemma runtime_found id : keeps_ok (_runtime id).
Proof. unfold _runtime. apply keeps_bind; [apply keeps_read|]. intros ?. apply keeps_pure. Qed.

(** Take an operation apart into those that are known to keep the invariant. *)
Ltac operations more := repeat first [apply write_ok | apply runtime_found | more | apply keeps_pure | by apply keeps_quiet
  | apply keeps_bind; [|intros ?] | apply keeps_if | apply keeps_ret].

Lemma filing_run lane id c m :
  (modify (file_checkpoint lane id c) ;;; write_json write_result (checkpoint_path id) c ;;; modify (fun m => evict lane (order_of lane m) m)) m =
  match write_result (writes m) with
  | Raise e => (Raise e, set_files (files m) (S (writes m)) (file_checkpoint lane id c m))
  | Ok tt =>
      let m1 := set_files (dict_set (files m) (checkpoint_path id) c) (S (writes m)) (file_checkpoint lane id c m) in
      (Ok tt, evict lane (order_of lane m1) m1)
  end.
Proof.
  unfold write_json, mbind, ST_bind, modify, read, pure. change (writes (file_checkpoint lane id c m)) with (writes m).
  by destruct (write_result (writes m)) as [[]|e].
Qed.

Lemma filing_ok lane id c : keeps_ok
  (modify (file_checkpoint lane id c) ;;; write_json write_result (checkpoint_path id) c ;;; modify (fun m => evict lane (order_of lane m) m)).
Proof.
  intros m r m' Hm H. rewrite filing_run in H. destruct (write_result (writes m)) as [[]|e] eqn:E; injection H as _ <-.
  - by apply (filed_ok lane id c).
  - apply (manager_ok_frame (file_checkpoint lane id c m)); try done. apply file_checkpoint_ok; [|done].
    destruct tidy; [|done]. by rewrite Hdisk in E.
Qed.

Lemma remember_run lane id high c m : subscript c "checkpoint_id" = Ok (JStr id) -> to_int (get_or c "high_water" (JInt 0)) = Ok high ->
  _remember_checkpoint write_result lane c m =
  (modify (file_checkpoint lane id c) ;;; write_json write_result (checkpoint_path id) c ;;; modify (fun m => evict lane (order_of lane m) m))
    (update_lane lane (fun r => with_high_water (Z.max (rt_high_water r) high) (with_checkpoint id c r)) m).
Proof.
  intros Hid Hh. unfold _remember_checkpoint. unfold mbind at 1 2 3 4 5, ST_bind at 1 2 3 4 5. unfold pure, modify at 1 2. rewrite Hid. cbn [py_str].
  rewrite Hh, update_update. done.
Qed.

Lemma remember_checkpoint_ok lane c : keeps_ok (_remember_checkpoint write_result lane c).
Proof. unfold _remember_checkpoint. operations ltac:(apply filing_ok). Qed.

Lemma frontier_ok lane preview : keeps_ok (_remember_live_frontier sha256 write_result lane preview).
Proof. unfold _remember_live_frontier. operations fail. Qed.

Lemma start_lane_ok spec checkpoint fork_seed : keeps_ok (start_lane parse_float spawn spec checkpoint fork_seed).
Proof.
  unfold start_lane. apply keeps_bind; [apply keeps_pure|]. intros _. apply keeps_reading. intros m res m' Hm H. unfold Datatypes.id in H.
  unfold mbind, ST_bind, pure, modify, raise_if in H. case_bool_decide as Hin; [by injection H as _ <-|].
  destruct (_ <=? _); [by injection H as _ <-|]. destruct (_ <? _); [by injection H as _ <-|]. injection H as _ <-.
  destruct Hm as [H1 H2 H3 [S1 S2 S3 S4] H5 H6 H7]. split; [done| | |by split|done|done|done].
  - cbn. rewrite dict_set_keys. by apply set_insert_spec.
  - cbn. intros id r. rewrite dict_get_set. case_decide as Hid; [|apply H3]. intros [= <-]. subst id.
    split; cbn; [done|constructor..| |]; [intros a; by rewrite elem_of_nil|]. exists []. split_all; [done|constructor|done|].
    intros a. by rewrite elem_of_nil.
Qed.

Lemma complete_ok lane a : keeps_ok (modify (update_lane lane (fun r =>
  with_actions (set_discard a (pending_actions r)) (set_insert a (completed_action_ids r)) (action_outcomes r) r))).
Proof.
  clear parse_float spawn room_for. apply keeps_modify. intros m Hm. apply update_lane_ok; [|done]. intros r _ [R1 R2 R3 R4 (l & R5 & R6 & R7 & R8)].
  destruct (set_discard_spec a _ R2) as [Hd Hdi]. destruct (set_insert_spec a _ R3) as [Hn Hi]. split; cbn; [done|done|done| |].
  - intros x [Hx Hp]%Hdi [->|Hc]%Hi; [done|]. by apply (R4 x).
  - exists l. split_all; [done|done|intros x [_ Hp]%Hdi; by apply R7|]. intros x Hx. rewrite Hdi, Hi.
    destruct (decide (x = a)), (R8 x Hx); tauto.
Qed.

Lemma pin_ok id : keeps_ok (pin_checkpoint id).
Proof. apply pins_ok. Qed.

Ltac manager_operations := operations ltac:(first [apply send_ok | apply pin_ok | apply pins_ok | apply start_lane_ok | apply complete_ok
  | apply remember_checkpoint_ok | apply frontier_ok | apply keeps_read]).

Lemma restart_lane_ok lane a v seed c : keeps_ok (restart_lane room_for lane a v seed c).
Proof. unfold restart_lane. destruct c; manager_operations. Qed.

Lemma reallocate_lane_ok lane a v x : keeps_ok (reallocate_lane room_for lane a v x).
Proof. unfold reallocate_lane. manager_operations. Qed.

Lemma stop_lane_ok lane a v : keeps_ok (stop_lane room_for lane a v).
Proof. unfold stop_lane. manager_operations. Qed.

Lemma fork_lane_ok parent child a v c d x : keeps_ok (fork_lane parse_float sha256 spawn parent child a v c d x).
Proof. unfold fork_lane. manager_operations. Qed.

Lemma apply_event_ok event : keeps_ok (_apply_event parse_float sha256 write_result event).
Proof.
  unfold _apply_event, on_ready, on_telemetry, on_outcome, on_exit. manager_operations.
  - apply keeps_modify. intros m Hm. apply update_lane_ok; [|done]. intros r _ Hr. by apply quiet_ok.
  - destruct (get event "checkpoint_id"); manager_operations.
  - destruct (get event "checkpoint"); manager_operations.
Qed.

(** ** Everything that may happen to a manager

    An operation with any arguments, whether it returns or raises; every event, also
    one no lane would send. *)
Inductive manages : LaneManager -> LaneManager -> Prop :=
  | manages_start spec c s m r m' : start_lane parse_float spawn spec c s m = (r, m') -> manages m m'
  | manages_patch lane a v d m r m' : send_patch room_for lane a v d m = (r, m') -> manages m m'
  | manages_restart lane a v seed c m r m' : restart_lane room_for lane a v seed c m = (r, m') -> manages m m'
  | manages_reallocate lane a v x m r m' : reallocate_lane room_for lane a v x m = (r, m') -> manages m m'
  | manages_stop lane a v m r m' : stop_lane room_for lane a v m = (r, m') -> manages m m'
  | manages_fork p child a v c d x m r m' : fork_lane parse_float sha256 spawn p child a v c d x m = (r, m') -> manages m m'
  | manages_pin ids m r m' : pin_checkpoints ids m = (r, m') -> manages m m'
  | manages_poll e m r m' : poll parse_float sha256 write_result e m = (r, m') -> manages m m'
  | manages_restored lane c m r m' : register_restored_checkpoint write_result lane c m = (r, m') -> manages m m'
  | manages_archived c m r m' : tidy = false -> register_archived_checkpoint c m = (r, m') -> manages m m'
  | manages_pause m r m' : pause_all m = (r, m') -> manages m m'
  | manages_resume m r m' : resume_all m = (r, m') -> manages m m'
  | manages_shutdown received drained m r m' : shutdown parse_float sha256 write_result received drained m = (r, m') -> manages m m'.

Lemma defer_ok event : keeps_ok (defer parse_float sha256 write_result event).
Proof.
  unfold defer. apply keeps_bind; [apply apply_event_ok|]. intros _. apply keeps_modify. intros m. by apply manager_ok_frame.
Qed.

Lemma poll_ok e : keeps_ok (poll parse_float sha256 write_result e).
Proof.
  unfold poll. apply keeps_bind; [apply keeps_read|]. intros m. destruct (_deferred_events m) as [|x l].
  - apply keeps_if; [apply keeps_ret|]. destruct e; [|apply keeps_ret]. apply keeps_bind; [apply apply_event_ok|]. intros _. apply keeps_ret.
  - apply keeps_bind; [|intros _; apply keeps_ret]. apply keeps_modify. intros m0. by apply manager_ok_frame.
Qed.

Lemma keeps_map f : quiet f -> keeps_ok (modify (map_lanes f)).
Proof. intros Hf. apply keeps_modify. intros m. by apply map_lanes_ok. Qed.

Lemma quiet_active f : quiet f -> quiet (when_active f).
Proof. intros Hf r. unfold when_active. destruct (is_active r); [apply Hf|done]. Qed.

Lemma shutdown_ok received drained : keeps_ok (shutdown parse_float sha256 write_result received drained).
Proof.
  unfold shutdown. apply keeps_bind; [by apply keeps_map, quiet_active|]. intros _.
  apply keeps_bind; [apply keeps_for_all; intros e _; apply defer_ok|]. intros _. apply keeps_bind.
  { apply keeps_map. intros r. by case_decide. }
  intros _. apply keeps_bind; [apply keeps_read|]. intros closed. apply keeps_if; [apply keeps_ret|].
  apply keeps_bind; [apply keeps_for_all; intros e _; apply defer_ok|]. intros _. apply keeps_modify. intros m. by apply manager_ok_frame.
Qed.

Lemma manages_ok m m' : manages m m' -> manager_ok m -> manager_ok m'.
Proof.
  intros H Hm. destruct H as [? ? ? ? ? ? H|? ? ? ? ? ? ? H|? ? ? ? ? ? ? ? H|? ? ? ? ? ? ? H|? ? ? ? ? ? H|? ? ? ? ? ? ? ? ? ? H|? ? ? ? H|? ? ? ? H
    |? ? ? ? ? H|? ? ? ? Ht H|? ? ? H|? ? ? H|? ? ? ? ? H].
  - by eapply start_lane_ok.
  - by eapply send_ok.
  - by eapply restart_lane_ok.
  - by eapply reallocate_lane_ok.
  - by eapply stop_lane_ok.
  - by eapply fork_lane_ok.
  - by eapply pins_ok.
  - by eapply poll_ok.
  - unfold register_restored_checkpoint in H. revert H. apply keeps_bind; [apply runtime_found|intros _; apply remember_checkpoint_ok|done].
  - unfold register_archived_checkpoint in H. revert H. eapply keeps_bind; [apply keeps_pure| |done]. intros ?.
    apply keeps_bind; [apply keeps_pure|]. intros ?. apply keeps_bind; [apply keeps_pure|]. intros ?.
    apply keeps_bind; [apply keeps_pure|]. intros ?. apply keeps_modify. intros m0. by apply file_checkpoint_ok.
  - eapply keeps_map; [|exact Hm|exact H]. by apply quiet_active.
  - eapply keeps_map; [|exact Hm|exact H]. by apply quiet_active.
  - by eapply shutdown_ok.
Qed.

Lemma new_manager_ok m : new_manager bounds = Ok m -> manager_ok m.
Proof.
  unfold new_manager. intros H. apply raise_seq_Ok in H as [H1 H]. apply raise_seq_Ok in H as [_ H]. apply raise_seq_Ok in H as [H2 H].
  injection H as <-. split; cbn; [split; [done|lia]|constructor|done| | |lia|].
  - split; cbn; [constructor|intros lane; constructor|constructor|split; [done|constructor]].
  - intros id. split; [by intros ?%elem_of_nil|]. intros [H|[lane H]]; by apply elem_of_nil in H.
  - intros _ lane. cbn. lia.
Qed.

Lemma managed_ok m m' : new_manager bounds = Ok m -> rtc manages m m' -> manager_ok m'.
Proof. intros Hm H. apply new_manager_ok in Hm. induction H as [m|m m1 m' H1 _ IH]; [done|]. by apply IH, (manages_ok m). Qed.

End Manager.
End Bounds.
