(* ===== verification/ManagerTheorems.v ===== *)
(** * The claims about the manager

    What the manager keeps, what pinning does, and the one way in which the latest
    checkpoint of a lane is lost. *)

From S2P Require Import Pool Prelude Effects Floats Json Convert Search Catalog Lane LaneKernel LaneInvariant LaneManager ManagerProofs.

#[global] Open Scope Z_scope.

(** ** Counting what is kept *)

Lemma sum_orders (d : list (string * list string)) n : NoDup d.*1 -> 0 <= n -> (forall lane, Z.of_nat (length (default [] (dict_get d lane))) <= n) ->
  Z.of_nat (length (mjoin d.*2)) <= n * Z.of_nat (length d).
Proof.
  induction d as [|[k l] d IH]; intros Hn Hp Hd; [cbn; lia|]. cbn in Hn. apply NoDup_cons in Hn as [Hk Hn].
  change (mjoin ((k, l) :: d).*2) with (l ++ mjoin d.*2). rewrite length_app. pose proof (Hd k) as Hl. cbn in Hl. rewrite decide_True in Hl by done. cbn in Hl.
  assert (forall lane, Z.of_nat (length (default [] (dict_get d lane))) <= n) as Hd'.
  { intros lane. destruct (decide (lane = k)) as [->|Hne].
    - destruct (dict_get d k) as [v|] eqn:E; [|cbn; lia]. exfalso. apply Hk, dict_get_keys. by exists v.
    - specialize (Hd lane). cbn in Hd. by rewrite decide_False in Hd. }
  specialize (IH Hn Hp Hd'). cbn [length]. lia.
Qed.

Lemma kept_bounded bounds m : manager_ok bounds true m ->
  Z.of_nat (length (checkpoints m)) <= pinned_checkpoints bounds + checkpoints_per_lane bounds * Z.of_nat (length (_checkpoint_order m)).
Proof.
  intros [[H0 H1] _ _ [S1 S2 S3 [S4 S5]] H5 H6 H7]. rewrite <- H0.
  assert (length (checkpoints m) <= length (_pinned_checkpoint_order m ++ mjoin (_checkpoint_order m).*2))%nat as Hle.
  { rewrite <- (length_fmap fst). apply submseteq_length, NoDup_submseteq; [done|]. intros x Hx%H5. rewrite elem_of_app, <- S4.
    destruct Hx as [Hx|[lane Hx]]; [by left|]. right. unfold order_of in Hx. destruct (dict_get _ lane) as [l|] eqn:E; cbn in Hx; [|by apply elem_of_nil in Hx].
    apply list_elem_of_join. exists l. split; [done|]. apply dict_get_elem_of in E. by apply (list_elem_of_fmap_2 snd _ (lane, l)). }
  rewrite length_app in Hle. pose proof (sum_orders (_checkpoint_order m) (checkpoints_per_lane (limits m)) S1 ltac:(lia) (H7 eq_refl)). lia.
Qed.

(** ** Remembering a checkpoint *)

Section Theorems.
Context (parse_float : string -> res float) (sha256 : list Z -> list Z).
Context (spawn : string -> res unit) (room_for : LaneRuntime -> bool) (write_result : nat -> res unit).

Lemma evict_gone lane order m path : dict_get (files m) path = None -> dict_get (files (evict lane order m)) path = None.
Proof.
  revert m. induction order as [|x order IH]; intros m Hm; [done|]. cbn [evict]. destruct (_ <? _); [|done]. apply IH.
  unfold _drop_checkpoint_if_unretained. destruct (retained _ _); [done|]. cbn. unfold dict_pop. apply dict_get_None.
  intros v [_ Hin]%list_elem_of_filter. by apply (proj1 (dict_get_None _ path) Hm v).
Qed.

Lemma dict_pop_gone {V} (d : list (string * V)) k : dict_get (dict_pop d k) k = None.
Proof. apply dict_get_None. unfold dict_pop. intros v [Hk _]%list_elem_of_filter. by apply Hk. Qed.

Lemma evict_drops lane x order m : order_of lane m = x :: order -> checkpoints_per_lane (limits m) <= Z.of_nat (length order) ->
  retained x (set_order lane order m) = false -> dict_get (files (evict lane (x :: order) m)) (checkpoint_path x) = None.
Proof.
  intros _ Hlen Hr. cbn [evict]. destruct (Z.ltb_spec (checkpoints_per_lane (limits m)) (Z.of_nat (length (x :: order)))) as [_|Hge].
  2: { cbn [length] in Hge. lia. }
  apply evict_gone. unfold _drop_checkpoint_if_unretained. rewrite Hr. cbn. apply dict_pop_gone.
Qed.

Abbreviation manages tidy := (manages tidy parse_float sha256 spawn room_for write_result).

(** C13: whatever is asked of a manager and whatever events reach it, raising or not:
    the checkpoints it keeps are exactly those that are pinned or in the order of a
    lane; the pins are distinct and within their limit; no action is sent twice to
    a lane, and an action that was sent is pending or completed, never both. When no
    checkpoint of an earlier session was registered and the disk takes every file,
    the number of checkpoints is bounded. *)
Theorem manager_invariant bounds tidy m m' : (tidy = true -> forall n, write_result n = Ok tt) ->
  new_manager bounds = Ok m -> rtc (manages tidy) m m' ->
  (forall id, id ∈ (checkpoints m').*1 <-> id ∈ _pinned_checkpoint_ids m' \/ exists lane, id ∈ order_of lane m') /\
  NoDup (_pinned_checkpoint_ids m') /\ Z.of_nat (length (_pinned_checkpoint_ids m')) <= pinned_checkpoints bounds /\
  (forall lane r, dict_get (lanes m') lane = Some r -> lane_id (rt_spec r) = lane /\
    exists actions, mapM action_of (sent r) = Ok actions /\ NoDup actions /\
      forall a, (a ∈ pending_actions r -> a ∈ actions /\ a ∉ completed_action_ids r) /\
                (a ∈ actions -> a ∈ pending_actions r \/ a ∈ completed_action_ids r)) /\
  (tidy = true -> Z.of_nat (length (checkpoints m')) <= pinned_checkpoints bounds + checkpoints_per_lane bounds * Z.of_nat (length (_checkpoint_order m'))).
Proof.
  intros Hd Hn H. pose proof (managed_ok bounds tidy _ _ _ _ _ Hd _ _ Hn H) as Hm. split_all; [by destruct Hm| | | |].
  - by destruct (so_pins _ (mo_store _ _ _ Hm)) as [-> ?].
  - destruct (so_pins _ (mo_store _ _ _ Hm)) as [-> _]. destruct (mo_limits _ _ _ Hm) as [<- _]. apply (mo_pinned _ _ _ Hm).
  - intros lane r Hr. destruct (mo_lanes _ _ _ Hm lane r Hr) as [R1 R2 R3 R4 (l & R5 & R6 & R7 & R8)]. split; [done|]. exists l. split_all; [done..|].
    intros a. split; [|apply R8]. intros Ha. split; [by apply R7|by apply R4].
  - intros ->. by apply kept_bounded.
Qed.

(** C25: pinning either changes nothing and says why (an unknown checkpoint, or more
    of them than the limit), or pins them all: they become the newest pins, the
    oldest ones over the limit are let go, and of the checkpoints those are kept that
    are still pinned or in the order of a lane. *)
Theorem pins_exact bounds tidy m0 m ids r m' : (tidy = true -> forall n, write_result n = Ok tt) ->
  new_manager bounds = Ok m0 -> rtc (manages tidy) m0 m -> pin_checkpoints ids m = (r, m') ->
  ((exists id, id ∈ ids /\ id ∉ (checkpoints m).*1) /\ r = Raise KeyError /\ m' = m) \/
  (pinned_checkpoints bounds < Z.of_nat (length (from_keys ids)) /\ m' = m /\
     r = Raise (ValueError "checkpoint pin batch exceeds the retention limit")) \/
  (r = Ok tt /\ (forall id, id ∈ ids -> id ∈ (checkpoints m).*1 /\ id ∈ _pinned_checkpoint_ids m') /\
   _pinned_checkpoint_ids m' = newest (pinned_checkpoints bounds) (filter (fun id => id ∉ ids) (_pinned_checkpoint_ids m) ++ from_keys ids) /\
   _checkpoint_order m' = _checkpoint_order m /\ lanes m' = lanes m /\
   forall id, id ∈ (checkpoints m').*1 <-> id ∈ _pinned_checkpoint_ids m' \/ exists lane, id ∈ order_of lane m).
Proof.
  intros Hd Hn H Hp. pose proof (managed_ok bounds tidy _ _ _ _ _ Hd _ _ Hn H) as Hm. rewrite (pins_run bounds tidy) in Hp by done.
  destruct (from_keys_spec ids) as [Hnd Hi]. pose proof (mo_limits _ _ _ Hm) as [Hb [_ Hone]].
  destruct (existsb _ _) eqn:E.
  { left. injection Hp as <- <-. split; [|done]. apply existsb_exists in E as (x & Hx & Hk). apply list_elem_of_In, Hi in Hx.
    exists x. split; [done|]. by apply negb_true_iff, bool_decide_eq_false in Hk. }
  rewrite Hb in Hp. destruct (Z.ltb_spec (pinned_checkpoints bounds) (Z.of_nat (length (from_keys ids)))) as [Hlt|Hge].
  { right. left. by injection Hp as <- <-. }
  right. right. injection Hp as <- <-. destruct (pinned_exact bounds tidy ids m Hm E) as [Hs He]. set (order := filter _ _ ++ _) in *.
  destruct (unpin_spec order _ Hs He eq_refl) as ([_ _ _ [B1 _]] & A2 & A3 & A4 & A5 & A6). cbn in A6. rewrite Hb in A6.
  destruct (so_pins _ (mo_store _ _ _ Hm)) as [C1 _]. rewrite B1, A6, C1 by lia. split_all; [done| |done|done|done|].
  - intros x Hx. split.
    + destruct (decide (x ∈ (checkpoints m).*1)) as [|Hnot]; [done|]. apply not_true_iff_false in E. destruct E. apply existsb_exists. exists x.
      split; [by apply list_elem_of_In, Hi|]. by rewrite bool_decide_eq_false_2.
    + apply newest_tail; [done|]. by apply Hi.
  - intros x. rewrite (A2 x), B1, A6 by lia. unfold in_order, order_of. by rewrite A5.
Qed.

(** C40: after a recovery the latest checkpoint of a lane can be lost: when it was
    registered first and as many older ones were registered behind it as a lane may
    keep, the lane's report of the very same checkpoint drops it, with its file. It
    is then still the lane's latest one, but nothing can restart from it. *)
Theorem restored_checkpoint_dropped bounds m0 m lane r id high c l : new_manager bounds = Ok m0 -> rtc (manages false) m0 m ->
  dict_get (lanes m) lane = Some r -> subscript c "checkpoint_id" = Ok (JStr id) -> to_int (get_or c "high_water" (JInt 0)) = Ok high ->
  order_of lane m = id :: l -> checkpoints_per_lane bounds <= Z.of_nat (length l) -> id ∉ _pinned_checkpoint_ids m ->
  (forall lane', lane' <> lane -> id ∉ order_of lane' m) -> write_result (writes m) = Ok tt ->
  exists m', _remember_checkpoint write_result lane c m = (Ok tt, m') /\
    (exists r', dict_get (lanes m') lane = Some r' /\ latest_checkpoint_id r' = Some id) /\
    id ∉ (checkpoints m').*1 /\ dict_get (files m') (checkpoint_path id) = None /\
    forall a v seed, restart_lane room_for lane a v seed (Some id) m' = (Raise KeyError, m').
Proof.
  intros Hn H Hr Hid Hh Ho Hlen Hp Hother Hw.
  pose proof (managed_ok bounds false _ _ _ _ _ ltac:(discriminate) _ _ Hn H) as Hm. destruct (mo_limits _ _ _ Hm) as [Hb [Htwo _]].
  rewrite (remember_run write_result lane id high c) by done. set (m1 := update_lane lane _ m).
  assert (manager_ok bounds false m1) as Hm1 by (apply update_lane_ok; [|done];
    intros q _; by apply (quiet_ok (fun r => with_high_water (Z.max (rt_high_water r) high) (with_checkpoint id c r)))).
  assert (Em : order_of lane m1 = id :: l /\ limits m1 = bounds /\ _pinned_checkpoint_ids m1 = _pinned_checkpoint_ids m /\ writes m1 = writes m /\
    forall lane', order_of lane' m1 = order_of lane' m) by (unfold m1, update_lane; rewrite Hr; by split_all).
  destruct Em as (E1 & E2 & E3 & E4 & E5). rewrite filing_run, E4, Hw. cbn zeta. set (m2 := set_files _ _ _).
  destruct (filed_ok bounds false lane id c (checkpoint_path id) (S (writes m)) m1 Hm1) as (Hm' & Hl' & Hp' & Ho'). fold m2 in Hm', Hl', Hp', Ho'.
  assert (Eins : set_insert id (id :: l) = id :: l) by (unfold set_insert; rewrite decide_True; [done|left]).
  pose proof (so_lists _ (mo_store _ _ _ Hm1) lane) as Hnd. rewrite E1 in Hnd. apply NoDup_cons in Hnd as [Hnot _].
  rewrite E1, Eins, E2 in Ho'.
  assert (Hout : id ∉ (checkpoints (evict lane (order_of lane m2) m2)).*1).
  { rewrite (mo_exact _ _ _ Hm' id), Hp', E3. intros [Hin|[lane' Hin]]; [done|]. rewrite Ho' in Hin. case_decide as Hl.
    - apply Hnot. unfold newest in Hin. cbn [length] in Hin.
      replace (S (length l) - Z.to_nat (checkpoints_per_lane bounds))%nat with (S (length l - Z.to_nat (checkpoints_per_lane bounds))) in Hin by lia.
      cbn [drop] in Hin. rewrite <- (take_drop (length l - Z.to_nat (checkpoints_per_lane bounds)) l). apply elem_of_app. by right.
    - rewrite E5 in Hin. by apply (Hother lane'). }
  eexists. split; [reflexivity|]. split_all; [|done| |].
  - rewrite Hl'. unfold m1. rewrite get_update, decide_True, Hr by done. by eexists.
  - destruct (file_checkpoint_spec lane id c m1 (mo_store _ _ _ Hm1) (mo_exact _ _ _ Hm1)) as (A1 & _ & A3 & _ & A5 & _ & A7).
    assert (Eo : order_of lane m2 = id :: l).
    { change (order_of lane m2) with (order_of lane (file_checkpoint lane id c m1)). rewrite A7, decide_True by done. by rewrite E1, Eins. }
    rewrite Eo. apply evict_drops; [done| |].
    + change (limits m2) with (limits (file_checkpoint lane id c m1)). by rewrite A3, E2.
    + apply not_true_iff_false. intros Hret. apply retained_spec in Hret as [Hin|[lane' Hin]].
      * change (_pinned_checkpoint_ids (set_order lane l m2)) with (_pinned_checkpoint_ids (file_checkpoint lane id c m1)) in Hin. by rewrite A5, E3 in Hin.
      * rewrite order_of_set in Hin. case_decide as Hl; [done|]. change (order_of lane' m2) with (order_of lane' (file_checkpoint lane id c m1)) in Hin.
        rewrite A7, decide_False, E5 in Hin by done. by apply (Hother lane').
      * apply set_order_store; [destruct A1; by split|]. pose proof (so_lists _ (mo_store _ _ _ Hm1) lane) as Hn2. rewrite E1 in Hn2.
        by apply NoDup_cons in Hn2 as [_ ?].
  - intros a v seed. unfold restart_lane, mbind, ST_bind, read, pure. destruct (dict_get (checkpoints _) id) as [x|] eqn:E; [|done].
    destruct Hout. apply dict_get_keys. by exists x.
Qed.
End Theorems.

Module ManagerWitness.
Definition spec : LaneSpec := mkLaneSpec "lane-1" "campaign-1" "erdos_gyarfas" "iterated_local_search_tabu" "connected_cubic" 5
  [("order", JInt 6); ("batch_candidates", JInt 100); ("witness_cap", JInt 4); ("tabu_tenure", JInt 8)]%string (f_lit 1) 0 None None None [].
Definition no_float (s : string) : res float := Raise (ValueError s).
Definition no_hash (l : list Z) : list Z := [].
Definition spawned (lane : string) : res unit := Ok tt.
Definition room (r : LaneRuntime) : bool := true.
Definition disk (n : nat) : res unit := Ok tt.
Definition bounds : ManagerLimits := mkLimits 8 120 2 3 None.
Definition saved (id : string) : list (string * json) := [("checkpoint_id", JStr id); ("lane_id", JStr "lane-1"); ("high_water", JInt 7)]%string.

(** A recovered lane: its checkpoint, two older ones, and a pin *)
Definition empty : LaneManager := mkManager bounds [] [] [] [] [] [] false [] 0.
Abbreviation with_lane := (snd (start_lane no_float spawned spec (Some (saved "c1")) None empty)).
Abbreviation restored := (snd (register_restored_checkpoint disk "lane-1" (saved "c1") with_lane)).
Abbreviation archived := (snd (register_archived_checkpoint (saved "c3") (snd (register_archived_checkpoint (saved "c2") restored)))).

Lemma reached {A} (m : G A) s s' tidy : manages tidy no_float no_hash spawned room disk s (snd (m s)) ->
  rtc (manages tidy no_float no_hash spawned room disk) s' s -> rtc (manages tidy no_float no_hash spawned room disk) s' (snd (m s)).
Proof. intros H H'. eapply rtc_r; [exact H'|exact H]. Qed.

Lemma restored_reached tidy : rtc (manages tidy no_float no_hash spawned room disk) empty restored.
Proof.
  apply (reached (register_restored_checkpoint disk "lane-1" (saved "c1"))).
  { apply (manages_restored _ _ _ _ _ _ "lane-1" (saved "c1") _ (fst (register_restored_checkpoint disk "lane-1" (saved "c1") with_lane))).
    apply surjective_pairing. }
  apply (reached (start_lane no_float spawned spec (Some (saved "c1")) None)); [|apply rtc_refl].
  apply (manages_start _ _ _ _ _ _ spec (Some (saved "c1")) None _ (fst (start_lane no_float spawned spec (Some (saved "c1")) None empty))).
  apply surjective_pairing.
Qed.

Lemma archived_step c s : manages false no_float no_hash spawned room disk s (snd (register_archived_checkpoint c s)).
Proof. apply (manages_archived _ _ _ _ _ _ c _ (fst (register_archived_checkpoint c s))); [done|apply surjective_pairing]. Qed.

Lemma archived_reached : rtc (manages false no_float no_hash spawned room disk) empty archived.
Proof.
  apply (reached (register_archived_checkpoint (saved "c3"))); [apply archived_step|].
  apply (reached (register_archived_checkpoint (saved "c2"))); [apply archived_step|]. apply restored_reached.
Qed.

Example archived_orders : _checkpoint_order archived = [("lane-1", ["c1"; "c2"; "c3"])]%string.
Proof. reflexivity. Qed.
Example archived_pins : _pinned_checkpoint_ids archived = [].
Proof. reflexivity. Qed.
Example archived_lane : (lanes archived).*1 = ["lane-1"]%string.
Proof. reflexivity. Qed.
Example restored_pinned : fst (pin_checkpoints ["c1"]%string restored) = Ok tt.
Proof. reflexivity. Qed.

Lemma manager_invariant_witness : ("c1"%string ∈ (checkpoints restored).*1 <-> "c1"%string ∈ _pinned_checkpoint_ids restored \/ exists lane, "c1"%string ∈ order_of lane restored) /\
  Z.of_nat (length (checkpoints restored)) <= 3 + 2 * Z.of_nat (length (_checkpoint_order restored)).
Proof.
  destruct (manager_invariant no_float no_hash spawned room disk bounds true empty restored (fun _ _ => eq_refl) eq_refl (restored_reached true)) as (H & _ & _ & _ & Hb).
  split; [exact (H "c1"%string)|exact (Hb eq_refl)].
Defined.

Lemma pins_exact_witness : exists m', pin_checkpoints ["c1"]%string restored = (Ok tt, m') /\ "c1"%string ∈ _pinned_checkpoint_ids m'.
Proof.
  destruct (pin_checkpoints ["c1"]%string restored) as [r m'] eqn:E. pose proof restored_pinned as Hr. rewrite E in Hr. cbn [fst] in Hr. subst r.
  exists m'. split; [exact eq_refl|].
  destruct (pins_exact no_float no_hash spawned room disk bounds true empty restored ["c1"]%string (Ok tt) m'
    (fun _ _ => eq_refl) eq_refl (restored_reached true) E) as [(_ & H & _)|[(_ & _ & H)|(_ & H & _)]]; [discriminate H|discriminate H|].
  apply H. left.
Defined.

Lemma archived_runtime : exists r, dict_get (lanes archived) "lane-1"%string = Some r.
Proof. apply dict_get_keys. rewrite archived_lane. left. Qed.

Lemma archived_first : order_of "lane-1" archived = ["c1"; "c2"; "c3"]%string.
Proof. unfold order_of. rewrite archived_orders. reflexivity. Qed.

Lemma others_empty lane id l m : _checkpoint_order m = [("lane-1"%string, l)] -> lane <> "lane-1"%string -> id ∉ order_of lane m.
Proof. intros Hm Hl. unfold order_of. rewrite Hm. cbn. rewrite decide_False by exact Hl. apply not_elem_of_nil. Qed.

Lemma archived_unpinned : "c1"%string ∉ _pinned_checkpoint_ids archived.
Proof. rewrite archived_pins. intros H. inversion H. Qed.

Lemma restored_checkpoint_dropped_witness : exists m', _remember_checkpoint disk "lane-1" (saved "c1") archived = (Ok tt, m') /\
  "c1"%string ∉ (checkpoints m').*1 /\ dict_get (files m') "c1.json"%string = None.
Proof.
  destruct archived_runtime as [r Er].
  assert (Hlen : checkpoints_per_lane bounds <= Z.of_nat (length ["c2"; "c3"]%string)) by (cbn; lia).
  destruct (restored_checkpoint_dropped no_float no_hash spawned room disk bounds empty archived "lane-1" r "c1" 7 (saved "c1") ["c2"; "c3"]%string
    eq_refl archived_reached Er eq_refl eq_refl archived_first Hlen archived_unpinned (fun lane => others_empty lane _ _ _ archived_orders) eq_refl) as (m' & H & _ & Hd & Hf & _).
  exists m'. split; [exact H|]. split; [exact Hd|exact Hf].
Defined.
End ManagerWitness.
