(* ===== verification/LaneSystem.v ===== *)
(** * A lane and its manager

    The manager sends commands into the queue of a lane, the process of the lane
    takes them, and its events go back through another queue. Whatever the order in
    which the two sides move, no action is lost, and when both queues are empty the
    manager knows the version and the checkpoint the lane has. *)

From stdpp Require Import sorting gmap.
From S2P Require Import Features Pool PoolProofs Ranking Prelude Effects Floats Json Convert Model Graph6 Verification Score Rng Rewiring Mutation Seed Search Catalog SearchKeys SeedMetrics Lane LaneKernel LaneBatch LaneCheckpoint LaneWorker LaneProofs LaneInvariant LaneSteps LaneResume LaneProtocol LaneManager ManagerProofs.

#[global] Open Scope Z_scope.

(** ** What a lane says

    An event of [lane], with what the manager should believe before and after it
    (the id of the latest checkpoint and the version of the lane), and the actions it
    answers *)

Definition belief : Type := option string * Z.

Inductive speaks (lane : string) : belief -> dict -> belief -> list string -> Prop :=
  | speaks_checkpoint p v e c id n : subscript e "lane_id" = Ok (JStr lane) -> subscript e "kind" = Ok (JStr "checkpoint") ->
      subscript e "checkpoint" = Ok (JObj c) -> subscript c "checkpoint_id" = Ok (JStr id) -> to_int (get_or c "high_water" (JInt 0)) = Ok n ->
      speaks lane (p, v) e (Some id, v) []
  | speaks_ready p v e v' d x : subscript e "lane_id" = Ok (JStr lane) -> subscript e "kind" = Ok (JStr "ready") ->
      subscript e "lane_version" = Ok (JInt v') -> subscript e "parameters" = Ok (JObj d) -> subscript e "resource_share" = Ok (JFloat x) ->
      speaks lane (p, v) e (p, v') []
  | speaks_telemetry x e d w n : subscript e "lane_id" = Ok (JStr lane) -> subscript e "kind" = Ok (JStr "telemetry") ->
      subscript e "metrics" = Ok (JObj d) -> subscript d "end_high_water" = Ok w -> to_int w = Ok n -> speaks lane x e x []
  | speaks_improvement x e : subscript e "lane_id" = Ok (JStr lane) -> subscript e "kind" = Ok (JStr "improvement") -> speaks lane x e x []
  | speaks_outcome id v e a v' status : subscript e "lane_id" = Ok (JStr lane) -> subscript e "kind" = Ok (JStr "action_outcome") ->
      subscript e "action_id" = Ok (JStr a) -> get e "checkpoint_id" = JStr id -> subscript e "resulting_lane_version" = Ok (JInt v') ->
      subscript e "status" = Ok (JStr status) -> (forall w, dict_get e "parameters" = Some w -> exists d, w = JObj d) ->
      (forall w, dict_get e "resource_share" = Some w -> exists x, w = JFloat x) -> speaks lane (Some id, v) e (Some id, v') [a].

Inductive stream (lane : string) : belief -> list dict -> belief -> list string -> Prop :=
  | stream_nil x : stream lane x [] x []
  | stream_cons x e y a l z b : speaks lane x e y a -> stream lane y l z b -> stream lane x (e :: l) z (a ++ b).

Lemma stream_one lane x e y a : speaks lane x e y a -> stream lane x [e] y a.
Proof. intros H. rewrite <- (app_nil_r a). eapply stream_cons; [exact H|constructor]. Qed.

Lemma stream_app lane x l y a l' z b : stream lane x l y a -> stream lane y l' z b -> stream lane x (l ++ l') z (a ++ b).
Proof.
  induction 1 as [x|x e y a l z0 b0 H1 _ IH]; intros H2; [done|]. cbn [app]. rewrite <- app_assoc. eapply stream_cons; [exact H1|by apply IH].
Qed.

(** ** What the manager does with it *)

Section Delivery.
Context (parse_float : string -> res float) (sha256 : list Z -> list Z) (write_result : nat -> res unit).
Context (Hdisk : forall n, write_result n = Ok tt).
Context (bounds : ManagerLimits) (lane : string).

(** The manager's view of the lane *)
Record knows (m : LaneManager) (r : LaneRuntime) (x : belief) : Prop := {
  kn_ok : manager_ok bounds true m;
  kn_lane : dict_get (lanes m) lane = Some r;
  kn_belief : (latest_checkpoint_id r, rt_version r) = x;
  kn_latest : forall id, latest_checkpoint_id r = Some id -> id ∈ order_of lane m
}.

Lemma update_same f m : limits (update_lane lane f m) = limits m /\ checkpoints (update_lane lane f m) = checkpoints m /\
  writes (update_lane lane f m) = writes m /\ forall l, order_of l (update_lane lane f m) = order_of l m.
Proof. unfold update_lane. by destruct (dict_get (lanes m) lane). Qed.

Lemma knows_update f m r x : knows m r x -> quiet f -> (forall id, latest_checkpoint_id (f r) = Some id -> latest_checkpoint_id r = Some id) ->
  knows (update_lane lane f m) (f r) (latest_checkpoint_id (f r), rt_version (f r)).
Proof.
  intros [K1 K2 K3 K4] Hf Hl. split; [apply update_lane_ok; [|done]; intros q _; by apply quiet_ok|by rewrite get_update, decide_True, K2|done|].
  intros id Hid. destruct (update_same f m) as (_ & _ & _ & Ho). rewrite Ho. by apply K4, Hl.
Qed.

(** The tests on the kind of an event *)
Ltac kinds := repeat match goal with |- context [is_text (JStr ?a) ?b] =>
  let v := eval vm_compute in (is_text (JStr a) b) in change (is_text (JStr a) b) with v; cbv match end.

Abbreviation _apply_event := (_apply_event parse_float sha256 write_result).
Abbreviation knows' m r x r0 a := (knows m r x /\ sent r = sent r0 /\ pending_actions r = filter (fun z => z ∉ a) (pending_actions r0)).

Lemma event_run e kind m r : subscript e "lane_id" = Ok (JStr lane) -> subscript e "kind" = Ok (JStr kind) -> dict_get (lanes m) lane = Some r ->
  _apply_event e m =
    (if is_text (JStr kind) "ready" then on_ready parse_float lane e
     else if is_text (JStr kind) "checkpoint" then
       v ← pure (subscript e "checkpoint"); c ← pure (as_dict v); _remember_checkpoint write_result lane c
     else if is_text (JStr kind) "live_frontier" then
       v ← pure (subscript e "preview"); p ← pure (as_dict v); _remember_live_frontier sha256 write_result lane p
     else if is_text (JStr kind) "telemetry" then on_telemetry lane e
     else if is_text (JStr kind) "improvement" then
       modify (update_lane lane (fun r => with_improvements (newest 64 (rt_improvements r ++ [e])) r))
     else if is_text (JStr kind) "action_outcome" then on_outcome parse_float lane e
     else if is_text (JStr kind) "exit" then on_exit write_result lane e else mret tt) m.
Proof.
  intros Hl Hk Hr. unfold LaneManager._apply_event at 1. unfold mbind at 1 2 3 4, ST_bind at 1 2 3 4. unfold _runtime, read, pure at 1 2 3 4.
  unfold mbind at 1, ST_bind at 1. rewrite Hl. cbn [py_str]. rewrite Hr, Hk. done.
Qed.

Lemma filter_not_nil (l : list string) : filter (fun z => z ∉ []) l = l.
Proof. apply filter_all. intros z _. apply not_elem_of_nil. Qed.

Lemma deliver_checkpoint e c id n p v m r : subscript e "lane_id" = Ok (JStr lane) -> subscript e "kind" = Ok (JStr "checkpoint") ->
  subscript e "checkpoint" = Ok (JObj c) -> subscript c "checkpoint_id" = Ok (JStr id) -> to_int (get_or c "high_water" (JInt 0)) = Ok n ->
  knows m r (p, v) -> exists m' r', _apply_event e m = (Ok tt, m') /\ knows' m' r' (Some id, v) r [].
Proof.
  intros Hl Hk Hc Hid Hn K. rewrite (event_run _ _ _ r Hl Hk) by apply K. kinds. unfold mbind, ST_bind, pure. rewrite Hc. cbn [as_dict].
  rewrite (remember_run _ _ _ _ _ _ Hid Hn). set (f := fun r => with_high_water _ _).
  assert (quiet f) as Hf by done. destruct (update_same f m) as (E1 & E2 & E3 & E4).
  pose proof (update_lane_ok bounds true lane f m (fun q _ => quiet_ok f lane q Hf) (kn_ok m r _ K)) as Hm1.
  rewrite filing_run, Hdisk. cbn zeta. destruct (filed_ok bounds true lane id c (checkpoint_path id) (S (writes (update_lane lane f m))) _ Hm1)
    as (Hm' & Hl' & _ & Ho').
  eexists _, (f r). split; [reflexivity|]. split; [split|by rewrite filter_not_nil].
  - exact Hm'.
  - rewrite Hl', get_update, decide_True by done. by rewrite (kn_lane m r _ K).
  - cbn. pose proof (kn_belief m r _ K) as [= _ ->]. done.
  - intros id' [= <-]. rewrite Ho', decide_True by done. pose proof (mo_tidy _ _ _ Hm1 eq_refl lane) as Hlen. pose proof (mo_limits _ _ _ Hm1) as (_ & Hb & _).
    unfold set_insert. case_decide as Hin; [by rewrite newest_short|]. apply newest_tail; [cbn; lia|left].
Qed.

Lemma deliver_ready e v' d x p v m r : subscript e "lane_id" = Ok (JStr lane) -> subscript e "kind" = Ok (JStr "ready") ->
  subscript e "lane_version" = Ok (JInt v') -> subscript e "parameters" = Ok (JObj d) -> subscript e "resource_share" = Ok (JFloat x) ->
  knows m r (p, v) -> exists m' r', _apply_event e m = (Ok tt, m') /\ knows' m' r' (p, v') r [].
Proof.
  intros Hl Hk Hv Hd Hx K. rewrite (event_run _ _ _ r Hl Hk) by apply K. kinds. unfold on_ready, mbind, ST_bind, pure, modify.
  rewrite Hv, Hd, Hx. cbn [to_int as_dict to_float]. rewrite !update_update. match goal with |- context [update_lane lane ?g m] => set (f := g); exists (update_lane lane f m), (f r) end.
  split; [reflexivity|]. pose proof (kn_belief m r _ K) as [= Hp _].
  split; [|by rewrite filter_not_nil]. replace (p, v') with (latest_checkpoint_id (f r), rt_version (f r)) by (cbn; by rewrite Hp).
  apply (knows_update f _ r (p, v)); [done|done|]. by intros id.
Qed.

Lemma deliver_telemetry e d w n x m r : subscript e "lane_id" = Ok (JStr lane) -> subscript e "kind" = Ok (JStr "telemetry") ->
  subscript e "metrics" = Ok (JObj d) -> subscript d "end_high_water" = Ok w -> to_int w = Ok n ->
  knows m r x -> exists m' r', _apply_event e m = (Ok tt, m') /\ knows' m' r' x r [].
Proof.
  intros Hl Hk Hd Hw Hn K. rewrite (event_run _ _ _ r Hl Hk) by apply K. kinds. unfold on_telemetry, mbind, ST_bind, pure, modify.
  rewrite Hd. cbn [as_dict]. rewrite Hw, Hn, update_update. match goal with |- context [update_lane lane ?g m] => set (f := g); exists (update_lane lane f m), (f r) end.
  split; [reflexivity|]. pose proof (kn_belief m r _ K) as <-.
  split; [|by rewrite filter_not_nil]. apply (knows_update f _ r (latest_checkpoint_id r, rt_version r)); [done|done|]. by intros id.
Qed.

Lemma deliver_improvement e x m r : subscript e "lane_id" = Ok (JStr lane) -> subscript e "kind" = Ok (JStr "improvement") ->
  knows m r x -> exists m' r', _apply_event e m = (Ok tt, m') /\ knows' m' r' x r [].
Proof.
  intros Hl Hk K. rewrite (event_run _ _ _ r Hl Hk) by apply K. kinds. unfold modify. match goal with |- context [update_lane lane ?g m] => set (f := g); exists (update_lane lane f m), (f r) end.
  split; [reflexivity|]. pose proof (kn_belief m r _ K) as <-.
  split; [|by rewrite filter_not_nil]. apply (knows_update f _ r (latest_checkpoint_id r, rt_version r)); [done|done|]. by intros id.
Qed.

Lemma discard_one a (l : list string) : set_discard a l = filter (fun z => z ∉ [a]) l.
Proof. unfold set_discard. apply filter_ext_in. intros z _. by rewrite list_elem_of_singleton. Qed.

(** A checkpoint in the order of a lane can be pinned. *)
Lemma pin_known id m l : manager_ok bounds true m -> id ∈ order_of l m ->
  exists m', pin_checkpoint id m = (Ok tt, m') /\ manager_ok bounds true m' /\ lanes m' = lanes m /\ _checkpoint_order m' = _checkpoint_order m.
Proof.
  intros Hm Hin. unfold pin_checkpoint. pose proof (pins_run bounds true [id] m Hm) as H.
  assert (existsb (fun i => negb (bool_decide (i ∈ (checkpoints m).*1))) (from_keys [id]) = false) as E.
  { change (from_keys [id]) with [id]. cbn [existsb]. rewrite bool_decide_eq_true_2; [done|]. apply (mo_exact _ _ _ Hm). right. by exists l. }
  pose proof (mo_limits _ _ _ Hm) as (_ & _ & Hone). rewrite E in H. change (Z.of_nat (length (from_keys [id]))) with 1 in H.
  destruct (Z.ltb_spec (pinned_checkpoints (limits m)) 1) as [|_]; [lia|]. eexists. split; [exact H|].
  destruct (pinned_exact bounds true [id] m Hm E) as [Hs He]. set (order := filter _ _ ++ _) in *.
  destruct (unpin_spec order _ Hs He eq_refl) as (_ & _ & _ & A4 & A5 & _). split_all; [by eapply pins_ok|done|done].
Qed.

Lemma deliver_outcome e id v a v' status m r : subscript e "lane_id" = Ok (JStr lane) -> subscript e "kind" = Ok (JStr "action_outcome") ->
  subscript e "action_id" = Ok (JStr a) -> get e "checkpoint_id" = JStr id -> subscript e "resulting_lane_version" = Ok (JInt v') ->
  subscript e "status" = Ok (JStr status) -> (forall w, dict_get e "parameters" = Some w -> exists d, w = JObj d) ->
  (forall w, dict_get e "resource_share" = Some w -> exists x, w = JFloat x) ->
  knows m r (Some id, v) -> exists m' r', _apply_event e m = (Ok tt, m') /\ knows' m' r' (Some id, v') r [a].
Proof.
  intros Hl Hk Ha Hid Hv Hst Hp Hs K. rewrite (event_run _ _ _ r Hl Hk) by apply K. kinds. pose proof (kn_belief m r _ K) as [= Hr _].
  unfold on_outcome. unfold mbind, ST_bind, pure, modify. rewrite Ha, Hid. cbn [py_str].
  set (f1 := fun r => with_actions _ _ (newest 128 _) r). set (f2 := fun r => with_actions (set_discard a _) _ _ r).
  set (m2 := update_lane lane f2 (update_lane lane f1 m)).
  assert (manager_ok bounds true m2) as Hm2.
  { eapply (complete_ok bounds true lane a); [|reflexivity]. apply update_lane_ok; [intros q _; by apply quiet_ok|apply K]. }
  assert (Ho2 : forall l, order_of l m2 = order_of l m).
  { intros l. unfold m2. destruct (update_same f2 (update_lane lane f1 m)) as (_ & _ & _ & H2), (update_same f1 m) as (_ & _ & _ & H1). by rewrite H2, H1. }
  assert (Hr2 : dict_get (lanes m2) lane = Some (f2 (f1 r))) by (unfold m2; rewrite !get_update, !decide_True by done; by rewrite (kn_lane m r _ K)).
  destruct (pin_known id m2 lane Hm2) as (m3 & -> & Hm3 & Hlanes & Hord); [rewrite Ho2; by apply (kn_latest m r _ K)|].
  assert (Hr3 : dict_get (lanes m3) lane = Some (f2 (f1 r))) by by rewrite Hlanes.
  assert (K3 : forall r', latest_checkpoint_id r' = Some id -> forall m', manager_ok bounds true m' -> dict_get (lanes m') lane = Some r' ->
    (forall l, order_of l m' = order_of l m3) -> rt_version r' = v' -> knows m' r' (Some id, v')).
  { intros r' Hr' m' Hm' Hl' Ho' Hv'. split; [done|done|by rewrite Hr', Hv'|]. intros i Hi. rewrite Ho'. unfold order_of. rewrite Hord.
    change (i ∈ order_of lane m2). rewrite Ho2. apply (kn_latest m r _ K). congruence. }
  rewrite Hv, Hst. cbn [to_int]. set (f3 := fun r => with_revision v' _ _ r).
  assert (manager_ok bounds true (update_lane lane f3 m3)) as Hm4 by (apply update_lane_ok; [intros q _; by apply quiet_ok|done]).
  assert (Hr4 : dict_get (lanes (update_lane lane f3 m3)) lane = Some (f3 (f2 (f1 r)))) by (rewrite get_update, decide_True by done; by rewrite Hr3).
  destruct (is_text (JStr status) "applied").
  2: { exists (update_lane lane f3 m3), (f3 (f2 (f1 r))). split; [reflexivity|]. split; [|by split; [|apply discard_one]]. apply K3; [done|done|done| |done]. apply (update_same f3 m3). }
  unfold _runtime, mbind, ST_bind, read, pure. rewrite Hr4.
  assert (exists d, as_dict (get_or e "parameters" (JObj (rt_parameters (f3 (f2 (f1 r)))))) = Ok d) as [d ->].
  { unfold get_or. destruct (dict_get e "parameters") as [w|]; [|by eexists]. destruct (Hp w eq_refl) as [d ->]. by eexists. }
  assert (exists x, to_float parse_float (get_or e "resource_share" (JFloat (rt_share (f3 (f2 (f1 r)))))) = Ok x) as [x ->].
  { unfold get_or. destruct (dict_get e "resource_share") as [w|]; [|by eexists]. destruct (Hs w eq_refl) as [x ->]. by eexists. }
  rewrite !update_update. match goal with |- context [update_lane lane ?g m3] => set (f := g); exists (update_lane lane f m3), (f (f2 (f1 r))) end.
  split; [reflexivity|]. split; [|by split; [|apply discard_one]]. apply K3; [done| | | |done].
  - apply update_lane_ok; [intros q _; by apply quiet_ok|done].
  - rewrite get_update, decide_True by done. by rewrite Hr3.
  - apply (update_same f m3).
Qed.

Lemma delivered e m r x y a : knows m r x -> speaks lane x e y a -> exists m' r', _apply_event e m = (Ok tt, m') /\ knows' m' r' y r a.
Proof.
  intros K H. destruct H as [p v e c id n H1 H2 H3 H4 H5|p v e v' d z H1 H2 H3 H4 H5|x e d w n H1 H2 H3 H4 H5|x e H1 H2|id v e b v' st H1 H2 H3 H4 H5 H6 H7 H8].
  - by eapply deliver_checkpoint.
  - by eapply deliver_ready.
  - by eapply deliver_telemetry.
  - by apply deliver_improvement.
  - by eapply deliver_outcome.
Qed.
End Delivery.

(** ** What the process of the lane says *)

Section Speaking.
Context {R S : Type} `{Hrng : Rng R} `{Hstate : RngState R} `{Hscorer : LaneScorer S}.
Context (parse_float : string -> res float) (sha256 : list Z -> list Z) (Random : Z -> R) (set_iter : gset Z -> list Z).
Context (f_pow : float -> Z -> float) (f_exp : float -> float).
Context (spec : LaneSpec) (opts : Options) (room : nat -> bool) (describe : exn -> string).
Context (Hroom : forall i, room i = true).

Abbreviation LaneState := (LaneState R S).
Abbreviation W := (W R S).
Abbreviation checkpoint := (checkpoint sha256 spec opts).
Abbreviation stream := (stream (lane_id spec)).

Lemma W_bind_Ok {A B} (m : W A) (f : A -> W B) s b s' : (m ≫= f) s = (Ok b, s') <-> exists a s1, m s = (Ok a, s1) /\ f a s1 = (Ok b, s').
Proof.
  unfold mbind, W_bind. destruct (m s) as [[a|e] s1]; split.
  - intros H. by exists a, s1.
  - by intros (? & ? & [= <- <-] & ?).
  - done.
  - by intros (? & ? & ? & ?).
Qed.

Lemma from_Ok {A} (r : res A) (s : LaneState) a s' : from r s = (Ok a, s') <-> r = Ok a /\ s' = s.
Proof. unfold from. split; [by intros [= -> ->]|by intros [-> ->]]. Qed.

Lemma state_Ok (s s1 s' : LaneState) : state s = (Ok s1, s') <-> s1 = s /\ s' = s.
Proof. unfold state. split; [by intros [= -> ->]|by intros [-> ->]]. Qed.

(** The id of the current checkpoint *)
Definition current_id (s : LaneState) (id : string) : Prop := subscript (current_checkpoint s) "checkpoint_id" = Ok (JStr id).

(** From [s] to [s'] the lane says what leads from one belief to the other. *)
Definition said (s : LaneState) (x : belief) (s' : LaneState) (answered : list string) : Prop :=
  exists l id, events (channel s') = events (channel s) ++ l /\ current_id s' id /\ stream x l (Some id, version s') answered.

Lemma said_app (s s1 s2 : LaneState) x id a b : said s x s1 a -> current_id s1 id -> said s1 (Some id, version s1) s2 b -> said s x s2 (a ++ b).
Proof.
  intros (l & i & El & Hi & Hl) Hid (l' & id' & El' & Hid' & Hl'). unfold current_id in Hi, Hid. rewrite Hid in Hi. injection Hi as <-.
  exists (l ++ l'), id'. split_all; [by rewrite El', El, app_assoc|done|]. by eapply stream_app.
Qed.

Lemma checkpoint_says (k : Kernel R S) v c : checkpoint k v = Ok c ->
  exists id n, subscript c "checkpoint_id" = Ok (JStr id) /\ to_int (get_or c "high_water" (JInt 0)) = Ok n.
Proof.
  intros H. destruct (checkpoint_has_id _ _ _ _ _ _ H) as (id & Hid). apply checkpoint_parts in H as (core & seeds & identity & i & digest & Hcore & -> & _).
  exists id, (high_water (counts k)). split; [done|]. unfold checkpoint_core in Hcore. apply bind_Ok in Hcore as ([[x here] there] & _ & Hcore).
  do 5 (apply bind_Ok in Hcore as (? & _ & Hcore)). by injection Hcore as <-.
Qed.

Lemma checkpoint_spoken x c id n : subscript c "checkpoint_id" = Ok (JStr id) -> to_int (get_or c "high_water" (JInt 0)) = Ok n ->
  speaks (lane_id spec) x (checkpoint_event spec c) (Some id, x.2) [].
Proof. intros Hid Hn. destruct x as [p v]. by eapply speaks_checkpoint. Qed.

Lemma outcome_spoken a status id v v' more : (forall w, dict_get more "parameters" = Some w -> exists d, w = JObj d) ->
  (forall w, dict_get more "resource_share" = Some w -> exists x, w = JFloat x) ->
  speaks (lane_id spec) (Some id, v) (outcome spec a status v' (JStr id) more) (Some id, v') [a].
Proof. intros Hp Hs. by eapply speaks_outcome. Qed.

Lemma answer_said ns command a expected (s s' : LaneState) id : current_id s id ->
  answer parse_float sha256 Random spec opts describe ns command a expected s s' -> said s (Some id, version s) s' [a].
Proof.
  unfold said, current_id. intros Hid [i Hne Hi|kind s1 c i He Hk Hex Hc Hi|kind e s1 i He Hk Hex Hi|kind e s1 i He Hk Hex Hc Hi].
  - rewrite Hid in Hi. injection Hi as <-. eexists _, id. split_all; [done|done|]. by apply stream_one, outcome_spoken.
  - destruct (checkpoint_says _ _ _ Hc) as (i' & n & Hi' & Hn). rewrite Hi in Hi'. injection Hi' as ->. eexists _, i'. split_all; [done|done|].
    apply (stream_app _ _ [_] (Some i', version s) [] [_]); [apply stream_one; by eapply (checkpoint_spoken (Some id, version s))|].
    apply stream_one, outcome_spoken; cbn; intros w [= <-]; by eexists.
  - apply execute_untouched in Hex as [= Hver Hcur Hch]. rewrite Hid in Hi. injection Hi as <-. eexists _, id. cbn. rewrite Hch, Hcur, Hver.
    split_all; [done|done|]. by apply stream_one, outcome_spoken.
  - apply execute_untouched in Hex as [= Hver Hcur Hch]. rewrite Hid in Hi. injection Hi as <-. eexists _, id. cbn.
    split_all; [done|done|]. by apply stream_one, outcome_spoken.
Qed.

Lemma commands_said inbox actions (s : LaneState) id : current_id s id ->
  Forall2 (fun nc a => exists expected kind, command_of nc.2 a expected kind) inbox actions ->
  exists s', _apply_commands parse_float sha256 Random spec opts room describe inbox s = (Ok tt, s') /\ said s (Some id, version s) s' actions.
Proof.
  intros Hid H. revert s id Hid. induction H as [|[ns command] a inbox actions (expected & kind & Hc) _ IH]; intros s id Hid.
  { exists s. split; [done|]. exists [], id. split_all; [by rewrite app_nil_r|done|constructor]. }
  destruct (command_answered parse_float sha256 Random spec opts room describe Hroom ns command a expected kind s _ Hc Hid) as (s1 & Hs1 & Ha).
  apply (answer_said _ _ _ _ _ _ _ Hid) in Ha. pose proof Ha as (_ & id1 & _ & Hid1 & _). destruct (IH s1 id1 Hid1) as (s2 & Hs2 & Hsaid).
  exists s2. cbn [_apply_commands]. unfold mbind, W_bind. rewrite Hs1. split; [done|]. change (a :: actions) with ([a] ++ actions). by eapply said_app.
Qed.

Abbreviation emit := (_emit (R := R) (S := S) room).

Lemma emit_Ok value important (s s' : LaneState) u : emit value important s = (Ok u, s') -> s' = with_events s [value].
Proof. rewrite emit_room by done. by intros [= _ <-]. Qed.

(** Take a run of the process apart. *)
Ltac wstep := match goal with
  | H : (_ ≫= _) _ = (Ok _, _) |- _ => apply W_bind_Ok in H as (? & ? & ? & H)
  | H : state _ = (Ok _, _) |- _ => apply state_Ok in H as [-> ->]
  | H : from _ _ = (Ok _, _) |- _ => apply from_Ok in H as [? ->]
  | H : set_checkpoint _ _ = (Ok _, _) |- _ => first [injection H as <- <-|injection H as <-]
  | H : _emit _ _ _ _ = (Ok _, _) |- _ => apply emit_Ok in H as ->
  | H : mret _ _ = (Ok _, _) |- _ => first [injection H as <- <-|injection H as <-]
  end.
Ltac wsteps := repeat (wstep; cbn [kernel version share current_checkpoint channel stop_event] in * ).

(** The events of a checkpoint, which is the current one from then on *)
Lemma checkpoint_said (s : LaneState) (k : Kernel R S) v (x : belief) c l (y : belief) answered (s' : LaneState) : checkpoint k v = Ok c ->
  events (channel s') = events (channel s) ++ checkpoint_event spec c :: l -> current_checkpoint s' = c -> version s' = y.2 ->
  (forall id, stream (Some id, x.2) l (Some id, y.2) answered) -> said s x s' answered.
Proof.
  intros Hc El Hcur Hv Hl. destruct (checkpoint_says _ _ _ Hc) as (id & n & Hid & Hn). eexists _, id.
  split_all; [exact El|unfold current_id; by rewrite Hcur|]. rewrite Hv. change answered with ([] ++ answered).
  eapply stream_cons; [by eapply checkpoint_spoken|apply Hl].
Qed.

Lemma announce_said (s s' : LaneState) x : announce sha256 spec opts room s = (Ok tt, s') -> said s x s' [].
Proof.
  unfold announce. intros H. wsteps. rewrite with_events_app. eapply (checkpoint_said _ _ _ _ _ _ (None, version s)); [eassumption|reflexivity|done|done|].
  intros id. by apply stream_one, speaks_ready with (d := k_parameters (kernel s)) (x := share s).
Qed.

Lemma batch_high_water turns e limit wall source (k k' : Kernel R S) b m :
  run_batch parse_float sha256 Random set_iter f_pow f_exp spec opts turns e limit wall source k = (Ok (b, m), k') ->
  exists n, dict_get m "end_high_water" = Some (JInt n).
Proof.
  unfold run_batch. intros H. ksteps.
  assert (exists m0 more target initial b0 (k0 : Kernel R S), batch_metrics opts target initial e k0 b0 = Ok m0 /\ m = m0 ++ more) as (m0 & more & target & initial & b0 & k0 & Hm & ->).
  { destruct (instrumentation_enabled opts); ksteps; injection H as -> ->; eexists _, _, _, _, _, _; (split; [eassumption|]); [done|by rewrite app_nil_r]. }
  apply (metrics_report _ _ _ _ _ _ _ more) in Hm. eexists. apply Hm.
Qed.

Lemma improvement_fields (s : LaneState) c e : improvement_event sha256 spec opts s c = Ok e ->
  subscript e "lane_id" = Ok (JStr (lane_id spec)) /\ subscript e "kind" = Ok (JStr "improvement").
Proof. unfold improvement_event. intros H. do 5 (apply bind_Ok in H as (? & _ & H)). by injection H as <-. Qed.

Lemma on_kernel_Ok {A} (m : K R S A) (s s' : LaneState) a : on_kernel m s = (Ok a, s') ->
  exists k', m (kernel s) = (Ok a, k') /\ s' = mkLaneState k' (version s) (share s) (current_checkpoint s) (channel s) (stop_event s).
Proof. unfold on_kernel. destruct (m (kernel s)) as [r k']. intros [= -> <-]. by exists k'. Qed.

Lemma work_said r (s s' : LaneState) x : x.2 = version s ->
  LaneWorker.work parse_float sha256 Random set_iter f_pow f_exp spec opts room r s = (Ok tt, s') -> said s x s' [].
Proof.
  destruct x as [p v]. cbn [snd]. intros -> H. unfold LaneWorker.work in H. wsteps.
  match goal with H : on_kernel _ _ = (Ok ?result, _) |- _ => destruct result as [b m]; apply on_kernel_Ok in H as (k' & Hb & ->) end.
  apply batch_high_water in Hb as (n & Hn). wsteps. rewrite with_events_app in H. cbn [fst snd] in H.
  match goal with H : checkpoint _ _ = Ok ?c |- _ => rename H into Hc; rename c into c0 end.
  assert (Htel : forall y, speaks (lane_id spec) y [("kind", JStr "telemetry"); ("lane_id", JStr (lane_id spec)); ("lane_version", JInt (version s)); ("metrics", JObj m)]%string y []).
  { intros y. apply (speaks_telemetry _ _ _ m (JInt n) n); [done|done|done| |done]. unfold subscript. by rewrite Hn. }
  destruct (improvements b =? 0).
  - wsteps. eapply (checkpoint_said _ _ _ _ c0 _ (None, version s)); [exact Hc|reflexivity|done|done|]. intros id. by apply stream_one.
  - wsteps. rewrite with_events_app.
    match goal with H : improvement_event _ _ _ _ _ = Ok _ |- _ => apply improvement_fields in H as [Hl Hk] end.
    eapply (checkpoint_said _ _ _ _ c0 _ (None, version s)); [exact Hc|reflexivity|done|done|]. intros id.
    eapply (stream_cons _ _ _ _ [] [_] _ []); [apply Htel|]. by apply stream_one, speaks_improvement.
Qed.

(** A round takes the commands that wait and says what it did. *)
Lemma round_said r actions (s s' : LaneState) id go : current_id s id -> stop_before r || stop_event s = false ->
  Forall2 (fun nc a => exists expected kind, command_of nc.2 a expected kind) (inbox r) actions ->
  round parse_float sha256 Random set_iter f_pow f_exp spec opts room describe r s = (Ok go, s') -> said s (Some id, version s) s' actions.
Proof.
  intros Hid Hstop Hin H. destruct (commands_said _ _ _ _ Hid Hin) as (s1 & Hs1 & Hsaid). unfold round, mbind, W_bind, state in H. rewrite Hstop, Hs1 in H.
  destruct (stop_after r || stop_event s1); [by injection H as _ <-|]. destruct (paused r || f_le (share s1) (f_lit 0)); [by injection H as _ <-|].
  destruct (LaneWorker.work _ _ _ _ _ _ _ _ _ _ s1) as [[[]|e] s2] eqn:E; [|done]. injection H as _ <-.
  pose proof Hsaid as (_ & id1 & _ & Hid1 & _). rewrite <- (app_nil_r actions). eapply said_app; [exact Hsaid|exact Hid1|]. by eapply work_said.
Qed.
End Speaking.

(** ** What the manager does meanwhile *)

Section Asking.
Context (parse_float : string -> res float) (sha256 : list Z -> list Z).
Context (spawn : string -> res unit) (room_for : LaneRuntime -> bool) (write_result : nat -> res unit).
Context (lane : string).

(** A command to the lane, an operation on other lanes or on the checkpoints, or an
    event of another lane; it may raise. *)
Inductive asks : LaneManager -> LaneManager -> Prop :=
  | asks_start spec c s m r m' : start_lane parse_float spawn spec c s m = (r, m') -> asks m m'
  | asks_patch l a v d m r m' : send_patch room_for l a v d m = (r, m') -> asks m m'
  | asks_restart l a v seed c m r m' : restart_lane room_for l a v seed c m = (r, m') -> asks m m'
  | asks_reallocate l a v x m r m' : reallocate_lane room_for l a v x m = (r, m') -> asks m m'
  | asks_stop l a v m r m' : stop_lane room_for l a v m = (r, m') -> asks m m'
  | asks_fork p child a v c d x m r m' : fork_lane parse_float sha256 spawn p child a v c d x m = (r, m') -> asks m m'
  | asks_pin ids m r m' : pin_checkpoints ids m = (r, m') -> asks m m'
  | asks_pause m r m' : pause_all m = (r, m') -> asks m m'
  | asks_resume m r m' : resume_all m = (r, m') -> asks m m'
  | asks_other l e m r m' : subscript e "lane_id" = Ok (JStr l) -> l <> lane ->
      _apply_event parse_float sha256 write_result e m = (r, m') -> asks m m'.

Lemma asks_ok bounds m m' : (forall n, write_result n = Ok tt) -> asks m m' -> manager_ok bounds true m -> manager_ok bounds true m'.
Proof.
  intros Hd H Hm. assert (true = true -> forall n, write_result n = Ok tt) as Hd' by done.
  destruct H as [? ? ? ? ? ? H|? ? ? ? ? ? ? H|? ? ? ? ? ? ? ? H|? ? ? ? ? ? ? H|? ? ? ? ? ? H|? ? ? ? ? ? ? ? ? ? H|? ? ? ? H|? ? ? H|? ? ? H|l e m r m' _ _ H].
  1-9: apply (manages_ok bounds true parse_float sha256 spawn room_for write_result Hd' m m'); [by econstructor|done].
  by eapply apply_event_ok.
Qed.

(** What the manager believes of the lane, has sent to it and waits for *)
Definition view (r : LaneRuntime) : belief * list dict * list string := ((latest_checkpoint_id r, rt_version r), sent r, pending_actions r).

Definition about (r : LaneRuntime) (order : list string) (m : LaneManager) : Prop :=
  exists r', dict_get (lanes m) lane = Some r' /\ view r' = view r /\ order_of lane m = order.

(** Nothing changed, or one command more was sent. *)
Definition asked (r : LaneRuntime) (order : list string) (m : LaneManager) : Prop :=
  about r order m \/
  exists r' c a, dict_get (lanes m) lane = Some r' /\ (exists v k, command_of c a v k) /\ a ∉ pending_actions r /\ order_of lane m = order /\
    view r' = ((latest_checkpoint_id r, rt_version r), sent r ++ [c], pending_actions r ++ [a]).

Section About.
Context (r : LaneRuntime) (order : list string).
Abbreviation holds := (keeps (about r order)).

Lemma about_update l f : l <> lane \/ (forall q, view (f q) = view q) -> holds (modify (update_lane l f)).
Proof.
  intros Hf. apply keeps_modify. intros m (r' & Hr & Hv & Ho). unfold about. rewrite get_update.
  assert (order_of lane (update_lane l f m) = order) as -> by (unfold update_lane; by destruct (dict_get (lanes m) l)).
  case_decide as Hl; [|by exists r']. subst l. rewrite Hr. exists (f r'). destruct Hf as [?|Hf]; [done|]. by rewrite Hf.
Qed.

Lemma unpin_frame l m : lanes (unpin l m) = lanes m /\ _checkpoint_order (unpin l m) = _checkpoint_order m.
Proof.
  revert m. induction l as [|x l IH]; intros m; [done|]. cbn [unpin]. destruct (_ <? _); [|done].
  destruct (IH (_drop_checkpoint_if_unretained x (set_pins (set_discard x (_pinned_checkpoint_ids m)) l m))) as [-> ->].
  destruct (drop_fields x (set_pins (set_discard x (_pinned_checkpoint_ids m)) l m)) as (_ & -> & -> & _). done.
Qed.

Lemma evict_frame l k m : lanes (evict l k m) = lanes m /\ (l <> lane -> order_of lane (evict l k m) = order_of lane m).
Proof.
  revert m. induction k as [|x k IH]; intros m; [done|]. cbn [evict]. destruct (_ <? _); [|done].
  destruct (IH (_drop_checkpoint_if_unretained x (set_order l k m))) as [-> H]. destruct (drop_fields x (set_order l k m)) as (_ & -> & Ho & _).
  split; [done|]. intros Hl. rewrite H by done. unfold order_of at 1. rewrite Ho. change (order_of lane (set_order l k m) = order_of lane m).
  rewrite order_of_set. by case_decide.
Qed.

Lemma about_frame m m' : lanes m' = lanes m -> order_of lane m' = order_of lane m -> about r order m -> about r order m'.
Proof. unfold about. by intros -> ->. Qed.

Lemma about_pins ids : holds (pin_checkpoints ids).
Proof.
  unfold pin_checkpoints. apply keeps_bind; [apply keeps_read|]. intros m. repeat (apply keeps_bind; [apply keeps_pure|intros _]).
  apply keeps_bind; [apply keeps_modify; intros m'; by apply about_frame|]. intros _. apply keeps_modify. intros m'.
  destruct (unpin_frame (_pinned_checkpoint_order m') m') as [Hl Ho]. apply about_frame; [done|]. unfold order_of. by rewrite Ho.
Qed.

Lemma about_write path c : holds (write_json write_result path c).
Proof.
  unfold write_json. apply keeps_bind; [apply keeps_read|]. intros n. apply keeps_bind; [apply keeps_modify; intros m; by apply about_frame|].
  intros _. apply keeps_bind; [apply keeps_pure|]. intros _. apply keeps_modify. intros m. by apply about_frame.
Qed.

Lemma about_runtime l : holds (_runtime l).
Proof. unfold _runtime. apply keeps_bind; [apply keeps_read|]. intros ?. apply keeps_pure. Qed.

Lemma about_map f : (forall q, view (f q) = view q) -> holds (modify (map_lanes f)).
Proof.
  intros Hf. apply keeps_modify. intros m (r' & Hr & Hv & Ho). exists (f r'). split_all; [|by rewrite Hf|done]. cbn. by rewrite dict_get_map, Hr.
Qed.

Lemma about_start spec c s : holds (start_lane parse_float spawn spec c s).
Proof.
  unfold start_lane. apply keeps_bind; [apply keeps_pure|]. intros _. apply keeps_reading. intros m res m' (r' & Hr & Hv & Ho) H.
  unfold Datatypes.id, mbind, ST_bind, pure, modify, raise_if in H. case_bool_decide as Hin; [injection H as _ <-; by exists r'|].
  destruct (_ <=? _); [injection H as _ <-; by exists r'|]. destruct (_ <? _); [injection H as _ <-; by exists r'|]. injection H as _ <-.
  exists r'. split_all; [|done|done]. cbn. rewrite dict_get_set, decide_False; [done|]. intros Hl. apply Hin, dict_get_keys. exists r'. by rewrite <- Hl.
Qed.

Lemma about_remember l c : l <> lane -> holds (_remember_checkpoint write_result l c).
Proof.
  intros Hl. unfold _remember_checkpoint. repeat first [apply about_write | apply keeps_pure | apply about_update; by left | apply keeps_bind; [|intros ?]].
  - apply keeps_modify. intros m. apply about_frame; [done|]. unfold file_checkpoint. rewrite order_of_set. by case_decide.
  - apply keeps_modify. intros m. destruct (evict_frame l (order_of l m) m) as [H1 H2]. apply about_frame; [done|by apply H2].
Qed.

Ltac elsewhere := repeat first [apply about_write | apply about_runtime | apply about_pins | apply about_start | apply keeps_pure | apply keeps_read
  | apply about_update; by left | by apply about_remember | apply keeps_bind; [|intros ?] | apply keeps_if | apply keeps_ret].

Lemma about_event l e : subscript e "lane_id" = Ok (JStr l) -> l <> lane -> holds (_apply_event parse_float sha256 write_result e).
Proof.
  intros He Hl. unfold LaneManager._apply_event. rewrite He. intros m res m' Hm H. unfold mbind at 1 2, ST_bind at 1 2, pure at 1 2 in H. cbn [py_str] in H.
  match type of H with ?f m = _ => assert (holds f) as Hk; [|by eapply Hk] end.
  unfold on_ready, on_telemetry, on_outcome, on_exit, pin_checkpoint, _remember_live_frontier. elsewhere.
  - apply keeps_modify. intros m1 Hm1. eapply (about_update l); [by left|exact Hm1|reflexivity].
  - destruct (get e "checkpoint_id"); elsewhere.
  - destruct (get e "checkpoint"); elsewhere.
Qed.

Lemma about_send l command : l <> lane -> holds (_send room_for l command).
Proof.
  intros Hl m res m' Hm H. rewrite send_run in H. destruct (dict_get (lanes m) l) as [q|]; [|by injection H as _ <-].
  destruct (action_of command) as [a|e]; [|by injection H as _ <-]. destruct (bool_decide _); [by injection H as _ <-|].
  destruct (bool_decide _); [by injection H as _ <-|]. destruct (room_for q); injection H as _ <-;
    (eapply (about_update l); [by left|exact Hm|reflexivity]).
Qed.

(** A command that is sent to the lane is one more, for an action that was not
    pending. *)
Lemma sent_asked l kind a v more m res m' : about r order m -> _send room_for l (command_dict kind a v more) m = (res, m') -> asked r order m'.
Proof.
  intros Hm H. destruct (decide (l = lane)) as [->|Hl]; [|left; by eapply about_send]. destruct Hm as (q & Hq & Hv & Ho). rewrite send_run, Hq in H.
  change (action_of (command_dict kind a v more)) with (Ok a) in H. cbv match beta in H.
  case_bool_decide as Hp; [injection H as _ <-; left; by exists q|]. case_bool_decide as Hc; [injection H as _ <-; left; by exists q|].
  assert (Hord : forall f, order_of lane (update_lane lane f m) = order) by (intros f; unfold update_lane; by rewrite Hq).
  destruct (room_for q); injection H as _ <-.
  - right. eexists _, (command_dict kind a v more), a. rewrite get_update, decide_True, Hq by done. split; [reflexivity|].
    injection Hv as Hlast Hver Hsent Hpend. split_all; [|by rewrite <- Hpend|by rewrite Hord|].
    + exists v, (JStr kind). unfold command_of. split_all; [by exists (JStr a)|by exists (JInt v)|done].
    + unfold view. cbn. unfold set_insert. rewrite decide_False by done. by rewrite Hlast, Hver, Hsent, Hpend.
  - left. eexists. rewrite get_update, decide_True, Hq by done. split; [reflexivity|]. by rewrite Hord.
Qed.
End About.

(** An operation that first leaves the lane alone and then sends *)
Definition sends {A} (m : G A) : Prop := forall r order s res s', about r order s -> m s = (res, s') -> asked r order s'.

Lemma sends_bind {A B} (m : G A) (f : A -> G B) : (forall r order, keeps (about r order) m) -> (forall a, sends (f a)) -> sends (m ≫= f).
Proof.
  intros Hm Hf r order s res s' Hs H. unfold mbind, ST_bind in H. destruct (m s) as [[a|e] s1] eqn:E.
  - eapply Hf; [|exact H]. by eapply Hm.
  - injection H as _ <-. left. by eapply Hm.
Qed.

Lemma command_sends l kind a v more : sends (_send room_for l (command_dict kind a v more)).
Proof. intros r o s res s' Hs H. by eapply sent_asked. Qed.

Lemma restart_sends l a v seed c : sends (restart_lane room_for l a v seed c).
Proof.
  apply sends_bind; [|intros ?; apply command_sends]. intros r o. destruct c; [|apply keeps_ret]. apply keeps_bind; [apply keeps_read|]. intros ?.
  apply keeps_bind; [apply keeps_pure|]. intros ?. apply keeps_bind; [apply about_pins|]. intros _. apply keeps_ret.
Qed.

Lemma reallocate_sends l a v x : sends (reallocate_lane room_for l a v x).
Proof. apply sends_bind; [intros r o; apply keeps_pure|intros ?; apply command_sends]. Qed.

Lemma stop_sends l a v : sends (stop_lane room_for l a v).
Proof.
  apply sends_bind; [intros r o; apply about_runtime|]. intros _. apply sends_bind; [intros r o; apply about_update; by right|].
  intros _. apply command_sends.
Qed.

Lemma asks_asked m m' r : asks m m' -> dict_get (lanes m) lane = Some r -> asked r (order_of lane m) m'.
Proof.
  intros H Hr. assert (about r (order_of lane m) m) as Hm by by exists r.
  destruct H as [spec c s m res m' H|l a v d m res m' H|l a v seed c m res m' H|l a v x m res m' H|l a v m res m' H|p child a v c d x m res m' H|ids m res m' H
    |m res m' H|m res m' H|l e m res m' He Hl H].
  - left. by eapply about_start.
  - by eapply sent_asked.
  - by eapply restart_sends.
  - by eapply reallocate_sends.
  - by eapply stop_sends.
  - left. unfold fork_lane, pin_checkpoint in H. revert H.
    match goal with |- ?f m = _ -> _ => assert (keeps (about r (order_of lane m)) f) as Hk end; [|intros H; by eapply Hk].
    repeat first [apply about_runtime | apply about_pins | apply about_start | apply keeps_pure | apply keeps_read | apply keeps_bind; [|intros ?]].
  - left. by eapply about_pins.
  - left. eapply about_map; [|exact Hm|exact H]. intros q. unfold when_active. by destruct (is_active q).
  - left. eapply about_map; [|exact Hm|exact H]. intros q. unfold when_active. by destruct (is_active q).
  - left. by eapply about_event.
Qed.
End Asking.

(** ** Both sides *)

Section System.
Context {R S : Type} `{Hrng : Rng R} `{Hstate : RngState R} `{Hscorer : LaneScorer S}.
Context (parse_float : string -> res float) (sha256 : list Z -> list Z) (Random : Z -> R) (set_iter : gset Z -> list Z).
Context (f_pow : float -> Z -> float) (f_exp : float -> float).
Context (spec : LaneSpec) (opts : Options) (room : nat -> bool) (describe : exn -> string).
Context (spawn : string -> res unit) (room_for : LaneRuntime -> bool) (write_result : nat -> res unit).
Context (bounds : ManagerLimits).
(** The queue of events has room, and the disk takes every file. *)
Context (Hroom : forall i, room i = true) (Hdisk : forall n, write_result n = Ok tt).

Abbreviation lane := (lane_id spec).
Abbreviation LaneState := (LaneState R S).
Abbreviation _apply_event := (_apply_event parse_float sha256 write_result).

(** The manager and the process of one lane: of the commands that were sent, [taken]
    were taken out of the queue; of the events that were put, [heard] reached the
    manager. *)
Record System := mkSystem { sys_manager : LaneManager; sys_lane : LaneState; taken : nat; heard : nat }.

Definition in_flight (y : System) : list dict := drop (heard y) (events (channel (sys_lane y))).

Inductive moves : System -> System -> Prop :=
  | moves_manager m w t n m' : asks parse_float sha256 spawn room_for write_result lane m m' ->
      moves (mkSystem m w t n) (mkSystem m' w t n)
  | moves_lane m w t n rt r go w' : dict_get (lanes m) lane = Some rt -> stop_before r || stop_event w = false ->
      (inbox r).*2 `prefix_of` drop t (sent rt) ->
      round parse_float sha256 Random set_iter f_pow f_exp spec opts room describe r w = (Ok go, w') ->
      moves (mkSystem m w t n) (mkSystem m w' (t + length (inbox r))%nat n)
  | moves_event m w t n e res m' : events (channel w) !! n = Some e -> _apply_event e m = (res, m') ->
      moves (mkSystem m w t n) (mkSystem m' w t (Datatypes.S n)).

(** The lane has started: the manager launched it, it announced itself. *)
Inductive launches : System -> Prop :=
  | launched_lane m0 m c s m' k w : new_manager bounds = Ok m0 -> rtc (manages true parse_float sha256 spawn room_for write_result) m0 m ->
      start_lane parse_float spawn spec c s m = (Ok tt, m') ->
      announce sha256 spec opts room (first_state spec k) = (Ok tt, w) -> launches (mkSystem m' w 0 0).

Abbreviation commands_of l actions := (Forall2 (fun c a => exists v kind, command_of c a v kind) l actions).

Record consistent (y : System) (rt : LaneRuntime) (id : string) (answered queued : list string) : Prop := {
  co_knows : knows bounds lane (sys_manager y) rt (latest_checkpoint_id rt, rt_version rt);
  co_current : current_id (sys_lane y) id;
  co_stream : stream lane (latest_checkpoint_id rt, rt_version rt) (in_flight y) (Some id, version (sys_lane y)) answered;
  co_taken : (taken y <= length (sent rt))%nat;
  co_queue : commands_of (drop (taken y) (sent rt)) queued;
  co_pending : pending_actions rt ≡ₚ answered ++ queued;
  co_heard : (heard y <= length (events (channel (sys_lane y))))%nat
}.

Lemma launch_consistent y : launches y -> exists rt id, consistent y rt id [] [].
Proof.
  intros [m0 m c s m' k w H0 Hm Hs Ha]. apply (managed_ok bounds true) in Hm; [|done|done].
  assert (manager_ok bounds true m') as Hm' by (by eapply start_lane_ok).
  unfold start_lane, mbind, ST_bind, pure, read, modify, raise_if, Datatypes.id in Hs. destruct (Lane.validate parse_float spec) as [[]|]; [|done].
  destruct (bool_decide _); [done|]. destruct (_ <=? _); [done|]. destruct (_ <? _); [done|]. destruct (spawn lane) as [[]|]; [|done]. injection Hs as <-.
  destruct (announce_said sha256 spec opts room Hroom _ _ (None, lane_version spec) Ha) as (l & id & El & Hid & Hl). cbn in El.
  eexists _, id. split; cbn [sys_manager sys_lane taken heard].
  - split; [exact Hm'|cbn; by rewrite dict_get_set, decide_True|done|done].
  - exact Hid.
  - unfold in_flight. cbn. by rewrite El.
  - cbn. lia.
  - constructor.
  - done.
  - lia.
Qed.

Lemma Forall2_snoc_command l actions c a : commands_of l actions -> (exists v kind, command_of c a v kind) -> commands_of (l ++ [c]) (actions ++ [a]).
Proof. intros Hl Hc. apply Forall2_app; [done|]. by constructor; [|constructor]. Qed.

Lemma step_consistent y y' rt id answered queued : moves y y' -> consistent y rt id answered queued ->
  exists rt' id' answered' queued', consistent y' rt' id' answered' queued'.
Proof.
  intros H [[K1 K2 K3 K4] C1 C2 C3 C4 C5 C6]. destruct H as [m w t n m' H|m w t n q r go w' Hq Hstop Hin Hr|m w t n e res m' He H];
    cbn [sys_manager sys_lane taken heard] in *.
  - pose proof (asks_ok _ _ _ _ _ _ bounds m m' Hdisk H K1) as K1'.
    apply (asks_asked _ _ _ _ _ _ m m' rt) in H as [(rt' & Hr' & Hv & Ho)|(rt' & c & a & Hr' & Hc & Hp & Ho & Hv)]; [| |done].
    + injection Hv as E1 E2 E3 E4. exists rt', id, answered, queued. split; cbn [sys_manager sys_lane taken heard]; rewrite ?E3, ?E4; try done.
      * split; [done|done|done|]. intros x. rewrite E1, Ho. apply K4.
      * by rewrite E1, E2.
    + injection Hv as E1 E2 E3 E4. exists rt', id, answered, (queued ++ [a]). split; cbn [sys_manager sys_lane taken heard]; rewrite ?E3, ?E4; try done.
      * split; [done|done|done|]. intros x. rewrite E1, Ho. apply K4.
      * by rewrite E1, E2.
      * rewrite length_app. lia.
      * rewrite drop_app_le by done. by apply Forall2_snoc_command.
      * by rewrite C5, app_assoc.
  - rewrite K2 in Hq. injection Hq as <-. destruct Hin as [rest Hrest]. rewrite Hrest in C4.
    apply Forall2_app_inv_l in C4 as (now & later & Hnow & Hlater & ->).
    assert (Hcmd : Forall2 (fun nc a => exists expected kind, command_of nc.2 a expected kind) (inbox r) now).
    { rewrite Forall2_fmap_l in Hnow. done. }
    destruct (round_said parse_float sha256 Random set_iter f_pow f_exp spec opts room describe Hroom _ _ _ _ _ _ C1 Hstop Hcmd Hr)
      as (l & id' & El & Hid' & Hl).
    assert (Hlen : length (drop t (sent rt)) = (length (inbox r) + length rest)%nat) by (by rewrite Hrest, length_app, length_fmap).
    rewrite length_drop in Hlen.
    exists rt, id', (answered ++ now), later. split; cbn [sys_manager sys_lane taken heard]; [done|done| |lia| | |].
    + unfold in_flight in *. cbn [sys_lane heard] in *. rewrite El, drop_app_le by done. by eapply stream_app.
    + rewrite <- drop_drop, Hrest. by rewrite drop_app_length' by by rewrite length_fmap.
    + by rewrite C5, app_assoc.
    + rewrite El, length_app. lia.
  - unfold in_flight in C2. cbn [sys_lane heard] in C2. rewrite (drop_S _ _ _ He) in C2.
    inversion C2 as [|x0 e0 y a l z b Hsp Hst]; subst.
    destruct (delivered parse_float sha256 write_result Hdisk bounds lane e m rt _ _ a ltac:(by split) Hsp) as (m1 & rt' & Hm1 & [[K1' K2' K3' K4'] [E1 E2]]).
    rewrite H in Hm1. injection Hm1 as -> <-. exists rt', id, b, queued. split; cbn [sys_manager sys_lane taken heard]; rewrite ?E1; try done.
    + rewrite K3'. exact Hst.
    + rewrite E2, C5. pose proof (mo_lanes _ _ _ K1 _ _ K2) as Hrt. pose proof (ro_pending _ _ Hrt) as Hnd. rewrite C5 in Hnd.
      rewrite <- app_assoc in *. apply NoDup_app in Hnd as (_ & Hnd & _). rewrite filter_app, (filter_none _ a), (filter_all _ (b ++ queued)); [done| |].
      * intros z Hz Hza. by apply (Hnd z).
      * intros z Hz. tauto.
    + apply lookup_lt_Some in He. lia.
Qed.

Lemma reached_consistent y0 y : launches y0 -> rtc moves y0 y -> exists rt id answered queued, consistent y rt id answered queued.
Proof.
  intros H0 H. assert (exists rt id answered queued, consistent y0 rt id answered queued) as Hc by (destruct (launch_consistent y0 H0) as (rt & id & ?); eauto).
  clear H0. induction H as [y|y y1 y' Hs _ IH]; [done|]. apply IH. destruct Hc as (rt & id & answered & queued & Hc). by eapply step_consistent.
Qed.

Lemma commands_actions l actions : commands_of l actions -> mapM action_of l = Ok actions.
Proof.
  induction 1 as [|c a l actions (v & kind & (w & Hw & Ea) & _) _ IH]; [done|]. rewrite mapM_res_cons, IH.
  assert (action_of c = Ok a) as ->; [|done]. unfold action_of. by rewrite Hw.
Qed.

Lemma stream_actions x l y actions : stream lane x l y actions -> answered_actions l = JStr <$> actions.
Proof.
  assert (Hget : forall e k v, subscript e k = Ok v -> get e k = v).
  { intros e k v. unfold subscript, get. destruct (dict_get e k); [by intros [= ->]|done]. }
  induction 1 as [x|x e y a l z b H _ IH]; [done|]. change (e :: l) with ([e] ++ l). rewrite answered_app, IH, fmap_app. f_equal.
  unfold answered_actions, is_outcome. rewrite filter_cons.
  destruct H as [p v e c id n _ Hk _ _ _|p v e v' d z' _ Hk _ _ _|x e d w n _ Hk _ _ _|x e _ Hk|id v e a v' st _ Hk Ha _ _ _ _ _];
    rewrite (Hget _ _ _ Hk); [by rewrite decide_False..|]. rewrite decide_True by done. by rewrite fmap_cons, (Hget _ _ _ Ha).
Qed.

(** C7: a lane and its manager: whatever the order in which the manager sends
    commands and does other things, the lane works and events arrive, every event of
    the lane is taken without an exception, and the actions the manager waits for are
    exactly those of the commands in the queue and of the outcomes under way. When
    both queues are empty it waits for nothing, knows the version of the lane, and
    has the lane's current checkpoint. *)
Theorem lane_protocol y0 y : launches y0 -> rtc moves y0 y ->
  (forall e, events (channel (sys_lane y)) !! heard y = Some e -> exists m', _apply_event e (sys_manager y) = (Ok tt, m')) /\
  exists rt waiting answered, dict_get (lanes (sys_manager y)) lane = Some rt /\
    mapM action_of (drop (taken y) (sent rt)) = Ok waiting /\ answered_actions (in_flight y) = JStr <$> answered /\
    pending_actions rt ≡ₚ answered ++ waiting /\
    (drop (taken y) (sent rt) = [] -> in_flight y = [] ->
       pending_actions rt = [] /\ rt_version rt = version (sys_lane y) /\
       exists id, latest_checkpoint_id rt = Some id /\ subscript (current_checkpoint (sys_lane y)) "checkpoint_id" = Ok (JStr id) /\
         id ∈ (checkpoints (sys_manager y)).*1).
Proof.
  intros H0 H. destruct (reached_consistent _ _ H0 H) as (rt & id & answered & queued & [[K1 K2 K3 K4] C1 C2 C3 C4 C5 C6]). split.
  - intros e He. unfold in_flight in C2. rewrite (drop_S _ _ _ He) in C2. inversion C2 as [|x0 e0 y1 a l z b Hsp Hst]; subst.
    destruct (delivered parse_float sha256 write_result Hdisk bounds lane e (sys_manager y) rt _ _ a ltac:(by split) Hsp) as (m1 & _ & Hm1 & _). by exists m1.
  - exists rt, queued, answered. split_all; [done|by apply commands_actions|by eapply stream_actions|done|]. intros Hq Hf.
    rewrite Hq in C4. inversion C4; subst. rewrite Hf in C2. inversion C2; subst. split_all.
    + by apply Permutation_nil.
    + done.
    + exists id. split_all; [done|exact C1|]. apply (mo_exact _ _ _ K1). right. exists lane. by apply K4.
Qed.
End System.
