(* ===== verification/SystemChecks.v ===== *)
(** * A lane and its manager that run

    The theorem of [LaneSystem] on a small lane: the manager sends a patch, the lane
    takes it and answers. *)

From stdpp Require Import sorting gmap.
From S2P Require Import Features Pool PoolProofs Ranking Prelude Effects Floats Json Convert Model Graph6 Verification Score Rng Rewiring Mutation Seed Search SearchProofs Catalog SearchKeys SeedMetrics Lane LaneKernel LaneBatch LaneCheckpoint LaneWorker LaneProtocol LaneChecks LaneManager ManagerProofs ManagerTheorems LaneSystem.

#[global] Open Scope Z_scope.

Module SystemWitness.
Import LaneWitness ProtocolWitness.

Abbreviation spawned := ManagerWitness.spawned.
Abbreviation has_room := ManagerWitness.room.
Abbreviation disk := ManagerWitness.disk.
Abbreviation empty := ManagerWitness.empty.
Abbreviation toy := PoolWitness.toy_sha256.

Abbreviation managed := (snd (start_lane no_float spawned spec None None empty)).
Abbreviation asked_manager := (snd (send_patch has_room "lane-1" "action-1" 0 [("tabu_tenure"%string, JInt 3)] managed)).
Definition the_command : list (string * json) :=
  command_dict "patch" "action-1" 0 [("patch"%string, JObj [("tabu_tenure"%string, JInt 3)])].
Definition the_round : Round := mkRound false [(1000, the_command)] false true (fun _ => calm_turn) ending.

Abbreviation announced := (fun k => announce (R := Lcg) (S := unit) toy spec default_options always (first_state spec k)).
Abbreviation goes := (fun w => round (R := Lcg) (S := unit) no_float toy mkLcg elements no_pow no_exp spec default_options always text the_round w).

Example asked_sent : (fun e : string * LaneRuntime => sent e.2) <$> lanes asked_manager = [[the_command]].
Proof. reflexivity. Qed.
Example launched_Ok : fst (start_lane no_float spawned spec None None empty) = Ok tt.
Proof. reflexivity. Qed.

Lemma asked_runtime : exists rt, dict_get (lanes asked_manager) "lane-1"%string = Some rt /\ sent rt = [the_command].
Proof.
  pose proof asked_sent as H. destruct (lanes asked_manager) as [|[l rt] [|]] eqn:E; [discriminate H| |discriminate H].
  assert (l = "lane-1"%string) as ->.
  { change l with (fst (l, rt)). assert ((lanes asked_manager).*1 = ["lane-1"%string]) as El by reflexivity. rewrite E in El. by injection El. }
  exists rt. cbn in H. injection H as H. split; [|exact H]. cbn. by rewrite decide_True.
Qed.

(** A run that returned, by its result *)
Lemma paired {A B} (p : res A * B) a : fst p = Ok a -> p = (Ok a, snd p).
Proof. destruct p as [r s]. cbn. by intros ->. Qed.

Abbreviation launched := (launches (R := Lcg) (S := unit) no_float toy spec default_options always spawned has_room disk ManagerWitness.bounds).
Abbreviation moved := (moves (R := Lcg) (S := unit) no_float toy mkLcg elements no_pow no_exp spec default_options always text spawned has_room disk).

Lemma launch_all (k : Kernel Lcg unit) w : announced k = (Ok tt, w) -> launched (mkSystem managed w 0 0).
Proof.
  intros H. eapply (launched_lane _ _ _ _ _ _ _ _ _ empty empty None None managed k w); [exact eq_refl|apply rtc_refl| |exact H].
  apply paired. exact launched_Ok.
Qed.

Lemma step_all w w' : goes w = (Ok true, w') -> stop_event w = false ->
  rtc moved (mkSystem managed w 0 0) (mkSystem asked_manager w' 1 0).
Proof.
  intros H Hs. eapply rtc_l; [apply (moves_manager _ _ _ _ _ _ _ _ _ _ _ _ _ managed w 0 0 asked_manager)|].
  { eapply (asks_patch _ _ _ _ _ _ "lane-1" "action-1" 0 [("tabu_tenure"%string, JInt 3)] managed
      (fst (send_patch has_room "lane-1" "action-1" 0 [("tabu_tenure"%string, JInt 3)] managed))). apply surjective_pairing. }
  destruct asked_runtime as (rt & Hrt & Hsent). eapply rtc_l; [|apply rtc_refl].
  eapply (moves_lane _ _ _ _ _ _ _ _ _ _ _ _ _ asked_manager w 0 0 rt the_round true w'); [exact Hrt|exact Hs| |exact H].
  rewrite Hsent. exists []. exact eq_refl.
Qed.

(** The manager waits for the one action that it asked for. *)
Lemma lane_protocol_witness : exists y0 y, launched y0 /\ rtc moved y0 y /\
  exists rt, dict_get (lanes (sys_manager y)) "lane-1"%string = Some rt /\
    exists waiting answered, pending_actions rt ≡ₚ answered ++ waiting /\ answered_actions (in_flight y) = JStr <$> answered.
Proof.
  destruct (begins_and (fun k => u ← (announced k).1; go ← (goes (announced k).2).1;
    if (go : bool) && negb (stop_event (announced k).2) then Ok (u, go) else Raise KeyError)) as (k & [u go] & E & Hk & H); [vm_compute; reflexivity|].
  apply bind_Ok in H as (u0 & Hu & H). destruct u0. apply bind_Ok in H as (go0 & Hgo & H). destruct go0; [|discriminate H].
  match type of H with context [stop_event ?w] => destruct (stop_event w) eqn:Hs end; [discriminate H|]. clear H.
  exists (mkSystem managed (snd (announced k)) 0 0), (mkSystem asked_manager (snd (goes (snd (announced k)))) 1 0).
  assert (launched (mkSystem managed (snd (announced k)) 0 0)) as H0 by (apply (launch_all k), paired; exact Hu).
  assert (rtc moved (mkSystem managed (snd (announced k)) 0 0) (mkSystem asked_manager (snd (goes (snd (announced k)))) 1 0)) as H1
    by (apply step_all; [apply paired; exact Hgo|exact Hs]).
  split; [exact H0|]. split; [exact H1|].
  destruct (lane_protocol no_float toy mkLcg elements no_pow no_exp spec default_options always text spawned has_room disk ManagerWitness.bounds
    (fun _ => eq_refl) (fun _ => eq_refl) _ _ H0 H1) as (_ & rt & waiting & answered & Hrt & _ & Ha & Hp & _).
  exists rt. split; [exact Hrt|]. exists waiting, answered. split; [exact Hp|exact Ha].
Defined.
End SystemWitness.
